(* ===== verification/_CoqProject ===== *)
-Q . S2P
Prelude.v
Net.v
Context.v
Utf8.v
Headers.v
TTHeader.v
TTHeaderDecode.v
TTHeaderEncode.v
TTHeaderRoundTrip.v
TTHeaderExample.v
BufReader.v
Codec.v
CodecRoundTrip.v
CodecExample.v
Discovery.v
RandomBalance.v
ConsistentHash.v
LbLayer.v
Multiset.v
ThriftPool.v
ThriftPoolSteps.v
ThriftPoolSafety.v
ThriftPoolDials.v
ThriftPoolOrder.v
Multiplex.v
MultiplexSafety.v
MultiplexLiveness.v
ThriftServer.v
CatchPanic.v
ThriftServerSpec.v
ThriftServerExample.v
ThriftRouter.v
MultiplexServer.v
MultiplexServerSpec.v
ThriftRun.v
ThriftClient.v
ThriftClientSpec.v
HotRestart.v
HotRestartSpec.v
GrpcStatus.v
GrpcErrors.v
GrpcTimeout.v
GrpcCodec.v
GrpcRoundTrip.v
GrpcMetadata.v
GrpcMetadataSpec.v
GrpcMeta.v
GrpcMetaSpec.v
GrpcService.v
GrpcCall.v
GrpcFaults.v
GrpcCallExample.v
GrpcRun.v
Sse.v
SseRead.v
SseRoundTrip.v
HttpPool.v
HttpTransport.v
HttpPoolOps.v
HttpPoolSafety.v
HttpPoolWaits.v
HttpConnections.v
HttpTarget.v
GrpcDial.v
GrpcClient.v
HttpLayers.v
HttpRedirect.v
HttpRouter.v
HttpRouterSpec.v
HttpClientIp.v
HttpBody.v
HttpServe.v
WebSocket.v
HttpHandle.v
HttpHandleSpec.v
Multipart.v
MultipartSpec.v
HttpClient.v
HttpClientSpec.v
HttpRun.v
