(* ===== verification/Prelude.v ===== *)
(** Volo: a verification of the core of the RPC framework

    Volo is a Rust RPC framework: [volo] holds what its protocols share
    (addresses, contexts, service discovery, load balancing, buffered reading),
    [volo-thrift] and [volo-grpc] are the Thrift and gRPC protocols on top of
    it, [volo-http] an HTTP framework. This library models the parts that decide
    what goes over the wire, who is called and who owns a connection, as
    executable Rocq functions, and proves what makes them correct.

    * How a call travels, and which file models what

    A client's call gets a context ([Context], volo/src/context.rs and
    volo-thrift/src/context.rs: the [RpcCx] of a role with its endpoints,
    configuration, statistics and extensions). The load-balance layer
    ([LbLayer], volo/src/loadbalance/layer.rs) asks a balancer for addresses:
    weighted random ([RandomBalance], loadbalance/random.rs) or consistent
    hashing ([ConsistentHash], loadbalance/consistent_hash.rs), both over the
    instances that discovery gives ([Discovery], volo/src/discovery/mod.rs);
    addresses, their equality and hash are in [Net] (volo/src/net/mod.rs).

    A Thrift client takes a connection from the pool ([ThriftPool]: the critical
    sections of volo-thrift/src/transport/pool/mod.rs on the state behind the
    mutex and the one-shot channels; [ThriftPoolSteps]: an executable step
    function that interleaves any number of calls at their lock and await
    points, with dials, returns, cancellation, the idle task and time;
    [ThriftPoolSafety], [ThriftPoolDials], [ThriftPoolOrder]: its theorems;
    [Multiset]: counting over maps, which these files and those of the HTTP pool
    share). The message is then written through three
    layers, as the code composes them: the TTHeader codec ([TTHeader],
    codec/default/ttheader.rs, with [TTHeaderDecode], [TTHeaderEncode] and
    [TTHeaderRoundTrip]), the framed codec and the protocol codec ([Codec],
    codec/default/framed.rs, thrift.rs, mod.rs and message_wrapper.rs, with
    [CodecRoundTrip]). The layers are instances of the classes
    [ZeroCopyEncoder] and [ZeroCopyDecoder], as in the traits of the code. A
    peer reads through the buffered reader ([BufReader],
    volo/src/util/buf_reader.rs) from any [AsyncRead].

    On a connection for one call at a time, the server loop and the client's
    exchange are in [ThriftServer] (transport/pingpong/server.rs,
    thrift_transport.rs, client.rs), with [ThriftServerSpec]. On a connection
    that calls share, [Multiplex] (transport/multiplex/thrift_transport.rs)
    interleaves the calls, which register a channel under their sequence id,
    with the read loop that hands out replies; [MultiplexSafety] and
    [MultiplexLiveness] are its theorems; [MultiplexServer]
    (transport/multiplex/server.rs, with [MultiplexServerSpec]) interleaves the
    server's read loop, its tasks and its writer.

    Around these, [ThriftClient] (client/mod.rs, client/callopt.rs,
    client/layer/timeout.rs, error.rs, volo/src/client.rs, with
    [ThriftClientSpec]) is the builder, the stack of services it builds and the
    generated method, [ThriftRouter] (server/router.rs) chooses a service by
    name, [ThriftRun] (server/mod.rs) is the server's accept loop, tasks and
    shutdown, [CatchPanic] (volo/src/catch_panic/mod.rs and the panic handlers)
    what becomes of a panic, and [HotRestart] (volo/src/hotrestart/mod.rs, with
    [HotRestartSpec]) hands listeners from one process to the next.

    A gRPC call is a stream of length-prefixed messages, compressed or not
    ([GrpcCodec], volo-grpc/src/codec, with [GrpcRoundTrip]), with a deadline in
    a header ([GrpcTimeout], the three timeout layers) and a status at its end
    ([GrpcStatus], volo-grpc/src/status.rs). Its metadata are typed headers
    ([GrpcMetadata], volo-grpc/src/metadata, with [GrpcMetadataSpec]); two
    services carry the context and the metainfo in them ([GrpcMeta],
    client/meta.rs and server/meta.rs, with [GrpcMetaSpec]). [GrpcService] has
    the client's transport, the body of a response, the server's entry, router
    and codec service; [GrpcCall] puts the whole path together, [GrpcFaults]
    shows where it panics or loses data. [GrpcClient] (client/mod.rs,
    client/callopt.rs, layer/loadbalance/mod.rs) is the builder, the stack of
    services it builds and the client; [GrpcDial] (client/dns.rs,
    transport/connect.rs) resolves names and reads addresses back from URIs;
    [GrpcRun] (server/mod.rs, server/incoming.rs) is the server's builder, accept
    loop, tasks and shutdown; [GrpcErrors] (status.rs) makes statuses of errors.

    The HTTP client's layers turn a request into one for a target
    ([HttpTarget], volo-http/src/client/target.rs and context/client.rs;
    [HttpLayers], client/layer, with [HttpRedirect]): headers, a fixed target, a
    proxy, redirects. Its connections are those of a pool that races a waiting
    call against a lazy dial ([HttpPool], client/transport/pool.rs;
    [HttpTransport], client/transport/protocol.rs: a step function over calls,
    dials, leases, and the drivers that return HTTP/1 senders when hyper is
    ready; [HttpPoolOps], [HttpPoolSafety], [HttpPoolWaits] and
    [HttpConnections]: its theorems). On the server, [HttpRouter]
    (volo-http/src/server/route, with [HttpRouterSpec]) builds routers and
    dispatches requests, [HttpClientIp] (server/utils/client_ip.rs) finds the
    client behind proxies, [HttpBody] (body.rs) has the bodies, [HttpServe] and
    [HttpHandle] (server/extract.rs, param.rs, handler.rs, middleware.rs,
    response, layer and utils, with [HttpHandleSpec]) extract, handle and answer,
    static files and uploads too, [WebSocket] (server/utils/ws.rs) upgrades a
    connection, [HttpRun] (server/mod.rs) is the accept loop and the shutdown,
    and [Sse] (server/response/sse.rs and client/sse.rs,
    with [SseRead] and [SseRoundTrip]) writes and reads server-sent events. The
    client's builder, request builder, name resolution and balancing are in
    [HttpClient] (client/mod.rs, client/request_builder.rs, client/dns.rs, with
    [HttpClientSpec]), its multipart forms in [Multipart] (client/multipart.rs,
    with [MultipartSpec]).

    [Utf8] has the byte level of strings, [Headers] the header maps all of
    volo-grpc and volo-http use and the path matcher of both routers. The files
    and modules named [...Example] instantiate parameters and evaluate theorems
    at concrete inputs.

    * How code is represented

    A function that can fail or panic returns an [outcome]: [Done], [Fail],
    [Panic], or [OutOfFuel] for a loop with fuel. Fallible code that has changed
    its context before it fails drops those changes in the model, except where
    they are seen afterwards (the ping-pong server, the gRPC metadata services). Integers are
    [Z] with the wrap-around of their width written out; an operation that
    overflows panics when the class [BuildProfile] says that overflow checks are
    compiled in and wraps otherwise, and [debug_assert!] follows the same
    profile. Byte strings and strings are lists of bytes; a [LinkedBytes] or
    [BytesMut] is its content, with reserved bytes zero until they are written.
    Hash maps are [gmap]s; the hash sets of addresses are searched with the hash
    and equality of the code, because these disagree for some addresses.
    [binary_search], [partition_point] and sorting are by their documented
    contracts. A [Duration] is in nanoseconds, the pool's clock in
    milliseconds. Sums of weights are exact.

    Third-party code is a parameter: pilota's Thrift protocols and protobuf
    messages, [AsyncRead], the JSON of biz error extras, [http::HeaderMap] and
    [Uri], the metainfo, matchit, percent-encoding, base64, the compression
    libraries, the hash of the consistent ring, the random draws, and hyper: a
    connection of the HTTP client is ready, busy or closed, and its environment
    moves it; a gRPC connection keeps headers and the bytes of bodies, not their
    pieces. What a theorem uses of it is a named law or a class, and the example
    files give instances.

    Tasks that share state are one executable [step] on a world of tasks, each
    at one of its lock or await points; an event says which task moves and what
    the outside answers it, and a theorem about every run is one about every
    list of events.

    * What the theorems show

    - Thrift: a call written by the default stack and read by a server over any
      chunking yields the same message and a context that agrees with the
      client's, and a reply likewise; a decoder consumes exactly the header the
      sender declared; the announced sizes are the sizes written, with the one
      exception found; bad frame sizes are refused.
    - Buffered reading: a refinement of reading the unread bytes and then the
      stream; filling a buffer returns for every chunking.
    - Thrift connections: in every reachable interleaving of a pool of ping-pong
      connections each is in one place only and belongs to the address asked
      for; a pool of multiplexed ones has at most one dial per address; no event
      panics; limits and order of service. A server answers each request once, in order, and its cache of
      contexts is not observable; only complete exchanges are reused. On a
      shared connection each reply goes to the call with its sequence id, and
      the end of the connection answers every waiting call; the server answers
      each request it read once, under its own id. Business errors reach the
      client; the client's cache of contexts is not observable; the shutdown is
      bounded; a hot restart ends the old process only when the new one has
      every listener, and gets there unless a call receives too early or a
      system call fails.
    - Balancing and discovery: weighted random picks have the stated shares and
      visit each instance once; the ring holds the stated virtual nodes and the
      picker gives distinct addresses; retries follow the picker; differences of
      instance lists are exact.
    - gRPC: a call over a connection reaches the handler with the client's
      context, metadata and messages, and the handler's answer or error comes
      back, whatever pieces the bodies are cut into; statuses survive their
      headers and the errors put around them; deadlines travel exactly;
      negotiation is sound; lookups in metadata agree with its iteration. A
      built client calls the address it was given or the host its name says,
      under the shorter of the deadlines that apply; a server that is told to
      stop drops no connection and ends when the last one does; a handler sees
      the address of the connection unless the request names another.
    - HTTP client: a redirect never takes credentials to another origin, and the
      chain of requests is the documented one; in every interleaving an HTTP/1
      connection serves one exchange of one call at a time, a waiting call has a
      dial to wait for, and no assertion fails. A request reaches the address its
      host resolves to; a multipart form is read back and has its announced
      length.
    - HTTP server: a router dispatches to an endpoint whose pattern matches,
      however it was nested, layered and merged; events written to a stream are
      read back; a client's address is never taken on the word of an untrusted
      peer; files are served from inside their directory only; a connection
      becomes a WebSocket exactly when its request asks for it properly; the
      shutdown is bounded.
    - Faults: theorems named after what goes wrong show, on concrete runs or in
      general, where the code does less than its comments say.

    * Fuel

    Loops over data are structural. The header loop of the TTHeader decoder has
    as fuel the length of its input plus one, since each round consumes a byte,
    and [decode_terminates] shows that it never runs out; the loop of
    [fill_buf_at_least] has the requested length plus one, since each round
    reads a byte; a gRPC stream of n messages is read to its end in n + 1 polls;
    a random picker ends within the number of instances plus two rounds; a
    redirect loop has one round more than the redirects allowed. Runs of tasks
    and of the server loop are as long as the list of events or turns they are
    given.

    * What is not modelled

    Sockets, TLS, shared memory, logging and metrics (input and output: they
    are events or parameters of the step functions); the code generator, the
    command line tool and the macros (text generation and the running of git);
    cookies, the gRPC-web and cross-origin layers and the digests and frames of
    WebSockets (calls of other crates); hyper's protocol settings, which are
    handed over as they are. *)

From Stdlib Require Import ZArith Lia.
From Stdlib Require Export Strings.Byte Strings.String.
From stdpp Require Export base option list gmap strings.
From stdpp Require Import countable.

#[global] Open Scope Z_scope.

(** * Bytes

    A Rust [u8] is a [byte]; [Bytes], [&[u8]], [FastStr] and [&str] are
    [bytes] (a string is its UTF-8 encoding). *)

Abbreviation bytes := (list byte).

#[export] Instance byte_eq_dec : EqDecision byte := Byte.byte_eq_dec.

#[export] Program Instance byte_countable : Countable byte :=
  {| encode b := encode (Byte.to_N b);
     decode p := n ← decode p; Byte.of_N n |}.
Next Obligation.
  intros b. cbn. rewrite decode_encode. cbn. apply Byte.of_to_N.
Qed.

(** The bytes of a string literal. *)
Definition str (s : string) : bytes := list_byte_of_string s.

Definition Z_of_byte (b : byte) : Z := Z.of_N (Byte.to_N b).

Definition byte_of_Z (z : Z) : byte :=
  default x00 (Byte.of_N (Z.to_N (z mod 256))).

Lemma Z_of_byte_range b : 0 <= Z_of_byte b < 256.
Proof. unfold Z_of_byte. pose proof (Byte.to_N_bounded b). lia. Qed.

Lemma Z_of_byte_of_Z z : Z_of_byte (byte_of_Z z) = z mod 256.
Proof.
  unfold Z_of_byte, byte_of_Z.
  pose proof (Z.mod_pos_bound z 256 ltac:(lia)) as Hb.
  destruct (Byte.of_N (Z.to_N (z mod 256))) as [b|] eqn:E; cbn.
  - apply Byte.to_of_N in E. rewrite E. lia.
  - apply Byte.of_N_None_iff in E. lia.
Qed.

Lemma byte_of_Z_of_byte b : byte_of_Z (Z_of_byte b) = b.
Proof.
  unfold byte_of_Z. rewrite Z.mod_small by apply Z_of_byte_range.
  unfold Z_of_byte. rewrite N2Z.id, Byte.of_to_N. reflexivity.
Qed.

Lemma Z_of_byte_inj a b : Z_of_byte a = Z_of_byte b -> a = b.
Proof. intros H. rewrite <- (byte_of_Z_of_byte a), H. apply byte_of_Z_of_byte. Qed.

(** The length of a buffer as the [usize] the code computes with. *)
Definition Zlen {A} (l : list A) : Z := Z.of_nat (length l).

Lemma Zlen_app {A} (l k : list A) : Zlen (l ++ k) = Zlen l + Zlen k.
Proof. unfold Zlen. rewrite length_app. lia. Qed.

Lemma Zlen_nil {A} : Zlen (@nil A) = 0.
Proof. reflexivity. Qed.

Lemma Zlen_cons {A} (x : A) l : Zlen (x :: l) = 1 + Zlen l.
Proof. unfold Zlen. cbn [length]. lia. Qed.

Lemma Zlen_nonneg {A} (l : list A) : 0 <= Zlen l.
Proof. unfold Zlen. lia. Qed.

(** * Outcomes of Rust code

    [Done] is a returned value ([Ok]), [Fail] a returned error ([Err]),
    [Panic] an unwinding panic. [OutOfFuel] marks a fuelled loop whose fuel
    ran out; every loop has a theorem that it does not occur. *)

Inductive outcome (E A : Type) : Type :=
| Done (a : A)
| Fail (e : E)
| Panic
| OutOfFuel.
Arguments Done {E A} a.
Arguments Fail {E A} e.
Arguments Panic {E A}.
Arguments OutOfFuel {E A}.

#[export] Instance outcome_ret {E} : MRet (outcome E) := fun A a => Done a.

#[export] Instance outcome_bind {E} : MBind (outcome E) := fun A B k m =>
  match m with
  | Done a => k a
  | Fail e => Fail e
  | Panic => Panic
  | OutOfFuel => OutOfFuel
  end.

#[export] Instance outcome_eq_dec {E A} `{EqDecision E, EqDecision A} :
  EqDecision (outcome E A).
Proof. solve_decision. Defined.

Definition unwrap {E A} (o : option A) : outcome E A :=
  match o with Some a => Done a | None => Panic end.

Definition map_err {E F A} (f : E -> F) (m : outcome E A) : outcome F A :=
  match m with
  | Done a => Done a
  | Fail e => Fail (f e)
  | Panic => Panic
  | OutOfFuel => OutOfFuel
  end.

Lemma bind_done_inv {E A B} (m : outcome E A) (k : A -> outcome E B) b :
  mbind k m = Done b -> exists a, m = Done a /\ k a = Done b.
Proof. destruct m; cbn; intros H; try discriminate. eauto. Qed.

(** [halts m]: the computation did not run out of fuel. *)
Definition halts {E A} (m : outcome E A) : Prop := m <> OutOfFuel.

Lemma halts_bind {E A B} (m : outcome E A) (k : A -> outcome E B) :
  halts m -> (forall a, m = Done a -> halts (k a)) -> halts (mbind k m).
Proof. unfold halts. destruct m; cbn; auto. Qed.

Lemma halts_done {E A} (a : A) : halts (@Done E A a). Proof. done. Qed.
Lemma halts_fail {E A} (e : E) : halts (@Fail E A e). Proof. done. Qed.
Lemma halts_panic {E A} : halts (@Panic E A). Proof. done. Qed.

Create HintDb volo_halts discriminated.
#[export] Hint Resolve halts_done halts_fail halts_panic : volo_halts.

(** Proves that a straight-line computation halts. *)
Ltac halts :=
  repeat first
    [ solve [eauto with volo_halts]
    | match goal with
      | |- halts (mbind _ _) => apply halts_bind; [|intros ? ?]
      | |- halts (let '(_, _) := ?p in _) => destruct p
      | |- halts (match ?r with _ => _ end) => destruct r
      | |- halts (if ?b then _ else _) => destruct b
      end ].

(** Inverts every hypothesis that a chain of binds returned a value. *)
Ltac done_inv :=
  repeat match goal with
  | H : mbind _ _ = Done _ |- _ => apply bind_done_inv in H as (? & ? & H)
  | H : Done _ = Done _ |- _ => injection H as H; try subst
  | H : Fail _ = Done _ |- _ => discriminate H
  | H : Panic = Done _ |- _ => discriminate H
  | H : OutOfFuel = Done _ |- _ => discriminate H
  | H : unwrap ?o = Done _ |- _ =>
      destruct o eqn:?; cbn [unwrap] in H
  | H : context [let '(_, _) := ?p in _] |- _ =>
      is_var p; destruct p; cbn beta iota in H
  | H : (if bool_decide _ then _ else _) = Done _ |- _ =>
      case_bool_decide
  end.

(** * Machine integers

    Unsigned [w]-bit values are integers in [0, 2^w). An operation that
    leaves the range panics when the program is built with overflow checks
    and wraps otherwise; the build profile is a parameter. *)

Class BuildProfile := overflow_checks : bool.

Definition wrap (w z : Z) : Z := z mod 2 ^ w.

Definition swrap (w z : Z) : Z := (z + 2 ^ (w - 1)) mod 2 ^ w - 2 ^ (w - 1).

Definition in_width (w z : Z) : Prop := 0 <= z < 2 ^ w.

Definition checked {E} `{BuildProfile} (w z : Z) : outcome E Z :=
  if bool_decide (0 <= z < 2 ^ w) then Done z
  else if overflow_checks then Panic else Done (wrap w z).

Definition usize_sub {E} `{BuildProfile} (a b : Z) : outcome E Z := checked 64 (a - b).
Definition u16_succ {E} `{BuildProfile} (a : Z) : outcome E Z := checked 16 (a + 1).

Lemma checked_ok {E} `{BuildProfile} w z :
  0 <= z < 2 ^ w -> @checked E _ w z = Done z.
Proof. intros Hz. unfold checked. by rewrite bool_decide_eq_true_2. Qed.

(** Whatever the build, the result is congruent to the exact value. *)
Lemma checked_inv {E} `{BuildProfile} w z r :
  0 < w -> @checked E _ w z = Done r ->
  0 <= r < 2 ^ w /\ exists k, r = z + k * 2 ^ w.
Proof.
  intros Hw. unfold checked. case_bool_decide.
  - intros [= <-]. split; [done|]. exists 0. lia.
  - destruct overflow_checks; [done|]. intros [= <-].
    unfold wrap. split; [apply Z.mod_pos_bound, Z.pow_pos_nonneg; lia|].
    exists (- (z / 2 ^ w)). pose proof (Z.div_mod z (2 ^ w)). lia.
Qed.

Lemma checked_cases {E} `{BuildProfile} w z :
  (exists r, @checked E _ w z = Done r) \/ @checked E _ w z = Panic.
Proof. unfold checked. case_bool_decide; [eauto|]. destruct overflow_checks; eauto. Qed.

Lemma halts_checked {E} `{BuildProfile} w z : halts (@checked E _ w z).
Proof. by destruct (checked_cases (E := E) w z) as [[? ->]| ->]. Qed.
#[export] Hint Resolve halts_checked : volo_halts.

Lemma wrap_small w z : 0 <= z < 2 ^ w -> wrap w z = z.
Proof. apply Z.mod_small. Qed.

Lemma wrap_range w z : 0 < w -> 0 <= wrap w z < 2 ^ w.
Proof. intros Hw. apply Z.mod_pos_bound. apply Z.pow_pos_nonneg; lia. Qed.

Lemma swrap_small w z :
  0 < w -> - 2 ^ (w - 1) <= z < 2 ^ (w - 1) -> swrap w z = z.
Proof.
  intros Hw Hz. unfold swrap.
  assert (2 ^ w = 2 * 2 ^ (w - 1)) as E.
  { rewrite <- Z.pow_succ_r by lia. f_equal. lia. }
  rewrite Z.mod_small; lia.
Qed.

(** * Big-endian integers ([BufMut::put_u*] and [Buf::get_u*]) *)

Fixpoint be_encode (n : nat) (z : Z) : bytes :=
  match n with
  | O => []
  | S m => byte_of_Z (z / 256 ^ Z.of_nat m) :: be_encode m z
  end.

Definition be_decode (bs : bytes) : Z :=
  fold_left (fun acc b => acc * 256 + Z_of_byte b) bs 0.

Definition put_u8 (z : Z) : bytes := be_encode 1 z.
Definition put_u16 (z : Z) : bytes := be_encode 2 z.
Definition put_u32 (z : Z) : bytes := be_encode 4 z.

Lemma length_be_encode n z : length (be_encode n z) = n.
Proof. induction n; cbn; congruence. Qed.

Lemma Zlen_be_encode n z : Zlen (be_encode n z) = Z.of_nat n.
Proof. unfold Zlen. by rewrite length_be_encode. Qed.

Lemma Zlen_put_u8 z : Zlen (put_u8 z) = 1. Proof. apply Zlen_be_encode. Qed.
Lemma Zlen_put_u16 z : Zlen (put_u16 z) = 2. Proof. apply Zlen_be_encode. Qed.
Lemma Zlen_put_u32 z : Zlen (put_u32 z) = 4. Proof. apply Zlen_be_encode. Qed.

Create Rewrite HintDb zlen.
#[export] Hint Rewrite @Zlen_app @Zlen_nil @Zlen_cons Zlen_be_encode
  Zlen_put_u8 Zlen_put_u16 Zlen_put_u32 : zlen.

(** Computes lengths of concatenations and closes linear goals about them. *)
Ltac zlen := autorewrite with zlen in *; try lia.

Lemma be_fold_acc bs acc :
  fold_left (fun acc b => acc * 256 + Z_of_byte b) bs acc =
  acc * 256 ^ Zlen bs + be_decode bs.
Proof.
  revert acc. induction bs as [|b bs IH]; intros acc.
  - cbn. unfold Zlen. cbn. lia.
  - unfold be_decode. cbn [fold_left]. rewrite !IH, Zlen_cons.
    rewrite Z.pow_add_r by (try apply Zlen_nonneg; lia). lia.
Qed.

Lemma be_decode_cons b bs :
  be_decode (b :: bs) = Z_of_byte b * 256 ^ Zlen bs + be_decode bs.
Proof. unfold be_decode at 1. cbn [fold_left]. rewrite be_fold_acc. lia. Qed.

Lemma be_decode_encode n z : be_decode (be_encode n z) = z mod 256 ^ Z.of_nat n.
Proof.
  induction n as [|n IH].
  - cbn. by rewrite Z.mod_1_r.
  - cbn [be_encode]. rewrite be_decode_cons, IH, Zlen_be_encode, Z_of_byte_of_Z.
    rewrite Nat2Z.inj_succ, Z.pow_succ_r by lia.
    rewrite (Z.mul_comm 256), Z.rem_mul_r by lia. lia.
Qed.

(** Only the low [n] bytes of the value are written. *)
Lemma be_encode_wrap n z k : be_encode n (z + k * 256 ^ Z.of_nat n) = be_encode n z.
Proof.
  revert k. induction n as [|n IH]; intros k; [done|]. cbn [be_encode].
  rewrite Nat2Z.inj_succ, Z.pow_succ_r by lia. f_equal.
  - unfold byte_of_Z. do 3 f_equal.
    replace (z + k * (256 * 256 ^ Z.of_nat n)) with (z + k * 256 * 256 ^ Z.of_nat n) by lia.
    rewrite Z.div_add by lia. apply Z.mod_add. lia.
  - rewrite <- (IH (k * 256)). f_equal. lia.
Qed.

Lemma be_decode_range bs : 0 <= be_decode bs < 256 ^ Zlen bs.
Proof.
  induction bs as [|b bs IH]; [vm_compute; split; congruence|].
  rewrite be_decode_cons, Zlen_cons, Z.pow_add_r by (try apply Zlen_nonneg; lia).
  pose proof (Z_of_byte_range b). nia.
Qed.

(** [Bytes::split_to]: the first [n] bytes and the rest; panics when the
    buffer is shorter. *)
Definition split_to {E} (n : Z) (src : bytes) : outcome E (bytes * bytes) :=
  if bool_decide (n <= Zlen src)
  then Done (take (Z.to_nat n) src, drop (Z.to_nat n) src)
  else Panic.

(** [Buf::get_u8/u16/u32]: reads a big-endian integer; panics when the buffer
    is too short. *)
Definition get_be {E} (n : nat) (src : bytes) : outcome E (Z * bytes) :=
  '(hd, tl) ← split_to (Z.of_nat n) src; Done (be_decode hd, tl).

Definition get_u8 {E} : bytes -> outcome E (Z * bytes) := get_be 1.
Definition get_u16 {E} : bytes -> outcome E (Z * bytes) := get_be 2.
Definition get_u32 {E} : bytes -> outcome E (Z * bytes) := get_be 4.

Lemma halts_split_to {E} n src : halts (@split_to E n src).
Proof. unfold split_to. by case_bool_decide. Qed.
#[export] Hint Resolve halts_split_to : volo_halts.

Lemma halts_get_be {E} n src : halts (@get_be E n src).
Proof. unfold get_be. halts. Qed.

Lemma halts_get_u8 {E} src : halts (@get_u8 E src). Proof. apply halts_get_be. Qed.
Lemma halts_get_u16 {E} src : halts (@get_u16 E src). Proof. apply halts_get_be. Qed.
Lemma halts_get_u32 {E} src : halts (@get_u32 E src). Proof. apply halts_get_be. Qed.
#[export] Hint Resolve halts_get_be halts_get_u8 halts_get_u16 halts_get_u32 : volo_halts.

Lemma split_to_app {E} n (a b : bytes) :
  n = Zlen a -> @split_to E n (a ++ b) = Done (a, b).
Proof.
  intros ->. unfold split_to. rewrite Zlen_app.
  rewrite bool_decide_eq_true_2 by (pose proof (Zlen_nonneg b); lia).
  unfold Zlen. rewrite Nat2Z.id, take_app_length, drop_app_length. done.
Qed.

Lemma get_be_app {E} n z rest :
  0 <= z < 256 ^ Z.of_nat n -> @get_be E n (be_encode n z ++ rest) = Done (z, rest).
Proof.
  intros Hz. unfold get_be.
  rewrite split_to_app by (by rewrite Zlen_be_encode). cbn.
  rewrite be_decode_encode, Z.mod_small by done. done.
Qed.

Lemma get_u32_wrap {E} z rest :
  @get_u32 E (put_u32 z ++ rest) = Done (z mod 2 ^ 32, rest).
Proof.
  unfold get_u32, get_be, put_u32.
  rewrite split_to_app by (by rewrite Zlen_be_encode). cbn [mbind outcome_bind]. by rewrite be_decode_encode.
Qed.

Lemma get_u8_app {E} z rest :
  0 <= z < 2 ^ 8 -> @get_u8 E (put_u8 z ++ rest) = Done (z, rest).
Proof. intros. by apply get_be_app. Qed.

Lemma get_u16_app {E} z rest :
  0 <= z < 2 ^ 16 -> @get_u16 E (put_u16 z ++ rest) = Done (z, rest).
Proof. intros. by apply get_be_app. Qed.

Lemma get_u32_app {E} z rest :
  0 <= z < 2 ^ 32 -> @get_u32 E (put_u32 z ++ rest) = Done (z, rest).
Proof. intros. by apply get_be_app. Qed.

Lemma split_to_inv {E} n src hd tl :
  @split_to E n src = Done (hd, tl) -> src = hd ++ tl /\ Zlen hd = Z.max 0 n.
Proof.
  unfold split_to. case_bool_decide as Hn; intros; simplify_eq.
  rewrite take_drop. split; [done|].
  unfold Zlen in *. rewrite length_take. lia.
Qed.

Lemma get_be_inv {E} n src z tl :
  @get_be E n src = Done (z, tl) ->
  exists hd, src = hd ++ tl /\ length hd = n /\ z = be_decode hd.
Proof.
  unfold get_be. intros H. apply bind_done_inv in H as [[hd tl'] [H1 H2]].
  apply split_to_inv in H1 as [-> Hl]. simplify_eq.
  exists hd. unfold Zlen in Hl. split_and!; [done|lia|done].
Qed.

(** * Decimal numerals

    [to_string] of an unsigned integer and [str::parse] of unsigned and
    signed integers, as the standard library does them: an optional sign,
    at least one digit, digits only, and an error when the value leaves the
    type's range. *)

Definition digit (d : Z) : byte := byte_of_Z (48 + d).

Fixpoint dec_digits (fuel : nat) (n : Z) (acc : bytes) : bytes :=
  match fuel with
  | O => acc
  | S f =>
      let acc := digit (n mod 10) :: acc in
      if bool_decide (n < 10) then acc else dec_digits f (n / 10) acc
  end.

(** The decimal numeral of [n >= 0]; [Z.log2 n + 1] digits suffice. *)
Definition dec_of_Z (n : Z) : bytes := dec_digits (S (Z.to_nat (Z.log2 n))) n [].

(** [itoa]/[to_string] of a signed integer. *)
Definition dec_of_int (n : Z) : bytes :=
  if bool_decide (n < 0) then str "-" ++ dec_of_Z (- n) else dec_of_Z n.

Definition digit_value (b : byte) : option Z :=
  let z := Z_of_byte b - 48 in
  if bool_decide (0 <= z < 10) then Some z else None.

(** Digits accumulated with the range test of the target type at each step. *)
Fixpoint parse_digits (lo hi sgn : Z) (acc : Z) (s : bytes) : option Z :=
  match s with
  | [] => Some acc
  | b :: s' =>
      d ← digit_value b;
      let acc := acc * 10 + sgn * d in
      if bool_decide (lo <= acc <= hi) then parse_digits lo hi sgn acc s' else None
  end.

Definition parse_nonempty (lo hi sgn : Z) (s : bytes) : option Z :=
  match s with [] => None | _ => parse_digits lo hi sgn 0 s end.

(** [str::parse::<uN>]. *)
Definition parse_unsigned (w : Z) (s : bytes) : option Z :=
  match s with
  | b :: s' =>
      if bool_decide (b = "+"%byte) then parse_nonempty 0 (2 ^ w - 1) 1 s'
      else parse_nonempty 0 (2 ^ w - 1) 1 s
  | [] => None
  end.

(** [str::parse::<iN>]. *)
Definition parse_signed (w : Z) (s : bytes) : option Z :=
  let lo := - 2 ^ (w - 1) in
  let hi := 2 ^ (w - 1) - 1 in
  match s with
  | b :: s' =>
      if bool_decide (b = "-"%byte) then parse_nonempty lo hi (-1) s'
      else if bool_decide (b = "+"%byte) then parse_nonempty lo hi 1 s'
      else parse_nonempty lo hi 1 s
  | [] => None
  end.

Lemma Z_of_byte_digit d : 0 <= d < 10 -> Z_of_byte (digit d) = 48 + d.
Proof. intros. unfold digit. rewrite Z_of_byte_of_Z. apply Z.mod_small. lia. Qed.

Lemma digit_value_digit d : 0 <= d < 10 -> digit_value (digit d) = Some d.
Proof.
  intros H. unfold digit_value. rewrite Z_of_byte_digit by done.
  rewrite bool_decide_eq_true_2 by lia. f_equal. lia.
Qed.

(** Parsing the digits of [n] from a zero accumulator leaves [n] (with the
    sign) in the accumulator, as long as the value is in range. *)
Lemma parse_dec_digits lo hi sgn fuel n acc :
  sgn = 1 \/ sgn = -1 ->
  0 <= n < 10 ^ Z.of_nat fuel -> lo <= 0 <= hi -> lo <= sgn * n <= hi ->
  parse_digits lo hi sgn 0 (dec_digits fuel n acc) = parse_digits lo hi sgn (sgn * n) acc.
Proof.
  intros Hs. revert n acc. induction fuel as [|f IH]; intros n acc Hn H0 Hr.
  - replace n with 0 by (change (10 ^ Z.of_nat 0) with 1 in Hn; lia).
    by rewrite Z.mul_0_r.
  - cbn [dec_digits]. rewrite Nat2Z.inj_succ, Z.pow_succ_r in Hn by lia.
    pose proof (Z.mod_pos_bound n 10 ltac:(lia)).
    pose proof (Z.div_mod n 10 ltac:(lia)).
    case_bool_decide.
    + cbn. rewrite digit_value_digit by lia. cbn.
      rewrite Z.mod_small, Z.mul_0_l, Z.add_0_l by lia. by rewrite bool_decide_eq_true_2.
    + rewrite IH by (destruct Hs; subst; split; try apply Z.div_lt_upper_bound; nia).
      cbn. rewrite digit_value_digit by lia. cbn.
      replace (sgn * (n / 10) * 10 + sgn * (n mod 10)) with (sgn * n) by lia.
      by rewrite bool_decide_eq_true_2.
Qed.

Lemma log2_digits n : 0 <= n -> n < 10 ^ Z.of_nat (S (Z.to_nat (Z.log2 n))).
Proof.
  intros Hn. rewrite Nat2Z.inj_succ, Z2Nat.id by apply Z.log2_nonneg.
  destruct (decide (n = 0)) as [->|]; [vm_compute; congruence|].
  pose proof (Z.log2_spec n ltac:(lia)) as [_ H].
  eapply Z.lt_le_trans; [exact H|]. apply Z.pow_le_mono_l. lia.
Qed.

Lemma dec_digits_shape fuel n acc :
  0 <= n -> (0 < fuel)%nat ->
  exists d rest, 0 <= d < 10 /\ dec_digits fuel n acc = digit d :: rest.
Proof.
  revert n acc. induction fuel as [|f IH]; intros n acc Hn Hf; [lia|].
  cbn [dec_digits]. pose proof (Z.mod_pos_bound n 10 ltac:(lia)).
  case_bool_decide; [eauto|].
  destruct f as [|f]; [cbn; eauto|].
  apply IH; [apply Z.div_pos; lia|lia].
Qed.

(** A printed number consists of digits. *)
Lemma dec_digits_digits fuel n acc :
  Forall (fun b => exists d, 0 <= d < 10 /\ b = digit d) acc ->
  Forall (fun b => exists d, 0 <= d < 10 /\ b = digit d) (dec_digits fuel n acc).
Proof.
  revert n acc. induction fuel as [|f IH]; intros n acc Ha; cbn [dec_digits]; [done|].
  pose proof (Z.mod_pos_bound n 10 ltac:(lia)).
  case_bool_decide; [|apply IH]; (constructor; [|done]); eexists; (split; [|reflexivity]); lia.
Qed.

Lemma dec_of_Z_digits n : Forall (fun b => exists d, 0 <= d < 10 /\ b = digit d) (dec_of_Z n).
Proof. apply dec_digits_digits. constructor. Qed.

Lemma dec_of_Z_shape n :
  0 <= n -> exists d rest, 0 <= d < 10 /\ dec_of_Z n = digit d :: rest.
Proof. intros. apply dec_digits_shape; [done|lia]. Qed.

Lemma digit_not_sign d :
  0 <= d < 10 -> digit d <> "+"%byte /\ digit d <> "-"%byte.
Proof.
  intros H. pose proof (Z_of_byte_digit d H) as E.
  split; intros C; rewrite C in E;
    [change (Z_of_byte "+"%byte) with 43 in E | change (Z_of_byte "-"%byte) with 45 in E]; lia.
Qed.

Lemma parse_nonempty_dec lo hi sgn n :
  sgn = 1 \/ sgn = -1 -> 0 <= n -> lo <= 0 <= hi -> lo <= sgn * n <= hi ->
  parse_nonempty lo hi sgn (dec_of_Z n) = Some (sgn * n).
Proof.
  intros Hs Hn H0 Hr. destruct (dec_of_Z_shape n Hn) as (d & rest & _ & E).
  unfold parse_nonempty. rewrite E, <- E. unfold dec_of_Z.
  rewrite parse_dec_digits; auto using log2_digits.
Qed.

(** Printing an unsigned integer and parsing it back. *)
Lemma parse_unsigned_dec w n : 0 <= n < 2 ^ w -> parse_unsigned w (dec_of_Z n) = Some n.
Proof.
  intros Hn. destruct (dec_of_Z_shape n ltac:(lia)) as (d & rest & Hd & E).
  unfold parse_unsigned. rewrite E.
  rewrite bool_decide_eq_false_2 by apply digit_not_sign, Hd. rewrite <- E.
  rewrite parse_nonempty_dec by lia. f_equal. lia.
Qed.

(** Printing a signed integer and parsing it back. *)
Lemma parse_signed_dec w n :
  0 < w -> - 2 ^ (w - 1) <= n < 2 ^ (w - 1) -> parse_signed w (dec_of_int n) = Some n.
Proof.
  intros Hw Hn. unfold dec_of_int, parse_signed. case_bool_decide as Hneg.
  - change (str "-" ++ dec_of_Z (- n)) with ("-"%byte :: dec_of_Z (- n)).
    cbv beta iota.
    rewrite bool_decide_eq_true_2 by done.
    rewrite parse_nonempty_dec by lia. f_equal. lia.
  - destruct (dec_of_Z_shape n ltac:(lia)) as (d & rest & Hd & E).
    rewrite E, !bool_decide_eq_false_2 by apply digit_not_sign, Hd. rewrite <- E.
    rewrite parse_nonempty_dec by lia. f_equal. lia.
Qed.

(** A text that parses within a bound parses to the same number within a larger one. *)
Lemma parse_digits_mono lo hi hi' acc s r :
  acc <= hi <= hi' -> parse_digits lo hi 1 acc s = Some r ->
  r <= hi /\ parse_digits lo hi' 1 acc s = Some r.
Proof.
  intros Hh. revert acc Hh.
  induction s as [|b s IH]; cbn [parse_digits]; intros acc Hh H; [injection H as <-; split; [lia|done]|].
  destruct (digit_value b) as [d|]; cbn [mbind option_bind] in *; [|done].
  destruct (decide (lo <= acc * 10 + 1 * d <= hi)) as [Hr|Hr].
  - rewrite bool_decide_eq_true_2 in H by done. rewrite bool_decide_eq_true_2 by lia. apply IH; [lia|done].
  - by rewrite bool_decide_eq_false_2 in H.
Qed.

Lemma parse_unsigned_dec_big w n : 0 <= w -> 2 ^ w <= n -> parse_unsigned w (dec_of_Z n) = None.
Proof.
  intros Hw Hn. destruct (dec_of_Z_shape n) as (d & rest & Hd & E); [lia|].
  unfold parse_unsigned. rewrite E, bool_decide_eq_false_2 by apply digit_not_sign, Hd. rewrite <- E.
  assert (0 < 2 ^ w) by (apply Z.pow_pos_nonneg; lia).
  assert (parse_nonempty 0 n 1 (dec_of_Z n) = Some (1 * n)) as Hp by (apply parse_nonempty_dec; lia).
  unfold parse_nonempty in *. rewrite E in *.
  destruct (parse_digits 0 (2 ^ w - 1) 1 0 (digit d :: rest)) as [r|] eqn:Hr; [|done].
  apply (parse_digits_mono _ _ n) in Hr as [Hr Hr']; [|lia]. rewrite Hp in Hr'. injection Hr' as <-. lia.
Qed.

(** * Generic list and buffer operations *)

(** A [for] loop over a list with a state that may fail. *)
Fixpoint foldM {E A S} (f : S -> A -> outcome E S) (l : list A) (s : S) : outcome E S :=
  match l with
  | [] => Done s
  | x :: l' => s' ← f s x; foldM f l' s'
  end.

Lemma foldM_app {E A S} (f : S -> A -> outcome E S) l k s :
  foldM f (l ++ k) s = (s' ← foldM f l s; foldM f k s').
Proof.
  revert s. induction l as [|x l IH]; intros s; cbn; [done|].
  destruct (f s x); cbn; auto.
Qed.

(** [&mut dst[i..i + bs.len()]] overwritten with [bs]. *)
Definition patch (i : Z) (bs dst : bytes) : bytes :=
  take (Z.to_nat i) dst ++ bs ++ drop (Z.to_nat i + length bs) dst.

Lemma patch_app i a old bs b :
  i = Zlen a -> length old = length bs -> patch i bs (a ++ old ++ b) = a ++ bs ++ b.
Proof.
  intros -> Hl. unfold patch, Zlen. rewrite Nat2Z.id, take_app_length. f_equal. f_equal.
  rewrite <- drop_drop, drop_app_length, <- Hl. apply drop_app_length.
Qed.

(** [str::starts_with]. *)
Definition starts_with (s p : bytes) : bool := bool_decide (take (length p) s = p).

Lemma starts_with_app p s : starts_with (p ++ s) p = true.
Proof. apply bool_decide_eq_true_2, take_app_length. Qed.

Lemma starts_with_spec s p : starts_with s p = true <-> exists t, s = p ++ t.
Proof.
  split.
  - intros H%bool_decide_eq_true. exists (drop (length p) s). by rewrite <- H at 1; rewrite take_drop.
  - intros [t ->]. apply starts_with_app.
Qed.

(** A computation that has a result, by evaluation. *)
Lemma some_of_test {A} (o : option A) : match o with Some _ => true | None => false end = true -> exists x, o = Some x.
Proof. destruct o as [x|]; [by exists x|done]. Qed.
Lemma some_test_ok {A} (P : A -> Prop) (o : option A) : match o with Some x => P x | None => False end -> exists x, o = Some x /\ P x.
Proof. destruct o as [x|]; [by exists x|done]. Qed.

(** A sum over a list of which one element is taken out or replaced. *)
Lemma sum_list_with_delete {A} (f : A -> nat) k t (ts : list A) :
  ts !! k = Some t -> sum_list_with f ts = (f t + sum_list_with f (delete k ts))%nat.
Proof. intros H. by rewrite (delete_Permutation _ _ _ H) at 1. Qed.

Lemma sum_list_with_insert {A} (f : A -> nat) k t u (ts : list A) :
  ts !! k = Some t -> (sum_list_with f (<[k := u]> ts) + f t = sum_list_with f ts + f u)%nat.
Proof.
  intros H. rewrite <- (take_drop_middle ts k t H) at 2. rewrite (insert_take_drop ts k u) by (by apply lookup_lt_Some in H).
  rewrite !sum_list_with_app. cbn. lia.
Qed.
