(* ===== verification/Net.v ===== *)
(** Addresses: [volo/src/net/mod.rs].

    [Address] with its hand-written [PartialEq]/[Hash] and [Display], the
    dual-stack preference, and what the two trait implementations promise to
    the hash sets and maps keyed by an address. *)

From stdpp Require Import countable.
From S2P Require Import Prelude.

(** [std::net::SocketAddr]. *)
Inductive SocketAddr : Type :=
| SocketAddrV4 (ip : Z) (port : Z)
| SocketAddrV6 (ip : Z) (port flowinfo scope_id : Z).

#[export] Instance SocketAddr_eq_dec : EqDecision SocketAddr.
Proof. solve_decision. Defined.

#[export] Program Instance SocketAddr_countable : Countable SocketAddr :=
  inj_countable'
    (fun a => match a with
              | SocketAddrV4 i p => inl (i, p)
              | SocketAddrV6 i p f s => inr (i, p, f, s)
              end)
    (fun x => match x with
              | inl (i, p) => SocketAddrV4 i p
              | inr (i, p, f, s) => SocketAddrV6 i p f s
              end) _.
Next Obligation. by intros []. Qed.

Definition port (a : SocketAddr) : Z :=
  match a with SocketAddrV4 _ p => p | SocketAddrV6 _ p _ _ => p end.

(** [SocketAddr::ip().is_unspecified()]: the all-zero address. *)
Definition is_unspecified (a : SocketAddr) : bool :=
  match a with
  | SocketAddrV4 i _ => bool_decide (i = 0)
  | SocketAddrV6 i _ _ _ => bool_decide (i = 0)
  end.

(** [std::os::unix::net::SocketAddr]: unnamed, a path, or (on Linux) a name
    in the abstract namespace. *)
Inductive UnixSocketAddr : Type :=
| Unnamed
| PathName (p : bytes)
| AbstractName (n : bytes).

#[export] Instance UnixSocketAddr_eq_dec : EqDecision UnixSocketAddr.
Proof. solve_decision. Defined.

Definition as_pathname (u : UnixSocketAddr) : option bytes :=
  match u with PathName p => Some p | _ => None end.

Definition as_abstract_name (u : UnixSocketAddr) : option bytes :=
  match u with AbstractName n => Some n | _ => None end.

(** [enum Address], without the [shmipc] feature. *)
Inductive Address : Type :=
| Ip (a : SocketAddr)
| Unix (u : UnixSocketAddr).

#[export] Instance Address_eq_dec : EqDecision Address.
Proof. solve_decision. Defined.

Definition is_ip (a : Address) : bool :=
  match a with Ip _ => true | Unix _ => false end.

Definition ip_addr (a : Address) : option SocketAddr :=
  match a with Ip i => Some i | Unix _ => None end.

Definition unix_addr (a : Address) : option UnixSocketAddr :=
  match a with Ip _ => None | Unix u => Some u end.

(** [impl PartialEq for Address]. *)
Definition address_eqb (x y : Address) : bool :=
  match x, y with
  | Ip a, Ip b => bool_decide (a = b)
  | Unix a, Unix b =>
      match as_pathname a, as_pathname b with
      | Some p, Some q => bool_decide (p = q)
      | None, None => true
      | _, _ => false
      end
  | _, _ => false
  end.

(** What [impl Hash for Address] feeds to the hasher: a tag byte and the
    hashed component. *)
Inductive HashInput : Type :=
| HIp (tag : byte) (a : SocketAddr)
| HBytes (tag : byte) (s : bytes)
| HTag (tag : byte).

#[export] Instance HashInput_eq_dec : EqDecision HashInput.
Proof. solve_decision. Defined.

Definition address_hash (x : Address) : HashInput :=
  match x with
  | Ip ip => HIp x00 ip
  | Unix uds =>
      match as_abstract_name uds with
      | Some abs_name => HBytes x01 abs_name
      | None =>
          match as_pathname uds with
          | Some pathname => HBytes x02 pathname
          | None => HTag x03
          end
      end
  end.

(** [should_favor_ipv6]; the probe of the host's network stack is an input. *)
Record Probe := { probed_ipv4 : bool; probed_ipv4_mapped_ipv6 : bool }.

Definition should_favor_ipv6 (probed : Probe) : bool :=
  negb (probed_ipv4 probed) || probed_ipv4_mapped_ipv6 probed.

Definition favor_dual_stack (probed : Probe) (self : Address) : Address :=
  match self with
  | Ip addr =>
      if is_unspecified addr && should_favor_ipv6 probed
      then Ip (SocketAddrV6 0 (port addr) 0 0)
      else self
  | Unix _ => self
  end.

(** Standard-library text forms used by [Display] and by [str::parse]. *)
Class AddrText := {
  fmt_socket_addr : SocketAddr -> bytes;
  parse_socket_addr : bytes -> option SocketAddr;
  escape_ascii : bytes -> bytes;
  to_string_lossy : bytes -> bytes;
}.

(** [impl fmt::Display for Address]. *)
Definition address_to_string `{AddrText} (x : Address) : bytes :=
  match x with
  | Ip addr => fmt_socket_addr addr
  | Unix addr =>
      match as_abstract_name addr with
      | Some abs_name => escape_ascii abs_name
      | None =>
          match as_pathname addr with
          | Some pathname => to_string_lossy pathname
          | None => str "(unnamed)"
          end
      end
  end.

(** * Properties *)

Lemma address_eqb_refl a : address_eqb a a = true.
Proof. destruct a as [i|[]]; cbn; by rewrite ?bool_decide_eq_true_2. Qed.

Lemma address_eqb_sym a b : address_eqb a b = address_eqb b a.
Proof.
  destruct a as [i|[]], b as [j|[]]; cbn; try done;
    apply bool_decide_ext; split; congruence.
Qed.

Lemma address_eqb_trans a b c :
  address_eqb a b = true -> address_eqb b c = true -> address_eqb a c = true.
Proof.
  destruct a as [i|[]], b as [j|[]], c as [k|[]]; cbn; try done;
    rewrite !bool_decide_eq_true; congruence.
Qed.

(** On addresses that carry no abstract name, equality is structural and the
    [Hash]/[Eq] contract holds. *)
Definition hashable_address (a : Address) : bool :=
  match a with Unix (AbstractName _) => false | _ => true end.

Lemma address_eqb_eq a b :
  hashable_address a = true -> hashable_address b = true ->
  address_eqb a b = true <-> a = b.
Proof.
  destruct a as [i|[]], b as [j|[]]; cbn; intros; try done;
    rewrite ?bool_decide_eq_true; split; congruence.
Qed.

(** An IP address or a path name keeps the [Hash] contract (equal keys hash
    equally) against every address; a unix address without a path name does
    not: it equals every other one but hashes by its abstract name. *)
Theorem address_hash_contract a :
  (forall b, address_eqb a b = true -> address_hash a = address_hash b) <->
  (is_ip a = true \/ exists p, a = Unix (PathName p)).
Proof.
  split.
  - intros H. destruct a as [i|[|p|n]]; [by left| |by right; eauto|].
    + specialize (H (Unix (AbstractName [])) eq_refl). discriminate H.
    + specialize (H (Unix Unnamed) eq_refl). discriminate H.
  - intros [Hip|[p ->]] b; [destruct a as [i|u]; [clear Hip|discriminate]|];
      destruct b as [j|[]]; cbn; try done; rewrite bool_decide_eq_true; congruence.
Qed.
