(* ===== verification/Context.v ===== *)
(** RPC contexts: [volo/src/context.rs] and [volo-thrift/src/context.rs].

    [RpcInfo], [Endpoint], [Config] and the two Thrift contexts. The
    [ThriftContext] trait is a class with one instance per context. *)

From S2P Require Import Prelude Net.

(** * [volo::context] *)

Inductive Role : Type := Client | Server.

#[export] Instance Role_eq_dec : EqDecision Role.
Proof. solve_decision. Defined.

(** A typed map ([TypeMap]/[FastStrMap]): type ids to (encoded) values. *)
Abbreviation TypeMap := (gmap N bytes).

Record Endpoint : Type := mkEndpoint {
  ep_service_name : bytes;
  ep_address : option Address;
  ep_faststr_tags : TypeMap;
  ep_tags : TypeMap;
}.

Module Endpoint.
Definition new (service_name : bytes) : Endpoint := mkEndpoint service_name None ∅ ∅.

Definition set_service_name (n : bytes) (e : Endpoint) : Endpoint :=
  mkEndpoint n (ep_address e) (ep_faststr_tags e) (ep_tags e).

Definition set_address (a : Address) (e : Endpoint) : Endpoint :=
  mkEndpoint (ep_service_name e) (Some a) (ep_faststr_tags e) (ep_tags e).

Definition insert (t : N) (v : bytes) (e : Endpoint) : Endpoint :=
  mkEndpoint (ep_service_name e) (ep_address e) (ep_faststr_tags e) (<[t := v]> (ep_tags e)).

Definition insert_faststr (t : N) (v : bytes) (e : Endpoint) : Endpoint :=
  mkEndpoint (ep_service_name e) (ep_address e) (<[t := v]> (ep_faststr_tags e)) (ep_tags e).

Definition clear (e : Endpoint) : Endpoint := mkEndpoint [] None ∅ ∅.
End Endpoint.

(** A [Duration], in nanoseconds. *)
Abbreviation Duration := Z (only parsing).

Definition from_secs (s : Z) : Duration := s * 1000000000.
Definition from_millis (ms : Z) : Duration := ms * 1000000.
Definition as_millis (d : Duration) : Z := d / 1000000.

(** [volo_thrift::context::Config]. *)
Record Config : Type := mkConfig {
  cfg_rpc_timeout : option Duration;
  cfg_connect_timeout : option Duration;
  cfg_read_write_timeout : option Duration;
}.

Definition DEFAULT_RPC_TIMEOUT : Duration := from_secs 1.
Definition DEFAULT_CONNECT_TIMEOUT : Duration := from_millis 50.
Definition DEFAULT_READ_WRITE_TIMEOUT : Duration := from_secs 1.

Module Config.
Definition new : Config := mkConfig None None None.

Definition set_rpc_timeout (t : option Duration) (c : Config) : Config :=
  mkConfig t (cfg_connect_timeout c) (cfg_read_write_timeout c).

Definition set_connect_timeout (t : option Duration) (c : Config) : Config :=
  mkConfig (cfg_rpc_timeout c) t (cfg_read_write_timeout c).

Definition set_read_write_timeout (t : option Duration) (c : Config) : Config :=
  mkConfig (cfg_rpc_timeout c) (cfg_connect_timeout c) t.

Definition rpc_timeout_or_default (c : Config) : Duration :=
  default DEFAULT_RPC_TIMEOUT (cfg_rpc_timeout c).

Definition connect_timeout_or_default (c : Config) : Duration :=
  default DEFAULT_CONNECT_TIMEOUT (cfg_connect_timeout c).

Definition read_write_timeout_or_default (c : Config) : Duration :=
  default DEFAULT_READ_WRITE_TIMEOUT (cfg_read_write_timeout c).

Definition merge (self other : Config) : Config :=
  let self := match cfg_rpc_timeout other with
              | Some t => set_rpc_timeout (Some t) self | None => self end in
  let self := match cfg_connect_timeout other with
              | Some t => set_connect_timeout (Some t) self | None => self end in
  match cfg_read_write_timeout other with
  | Some t => set_read_write_timeout (Some t) self | None => self end.

Definition clear (c : Config) : Config := mkConfig None None None.
End Config.

Record RpcInfo : Type := mkRpcInfo {
  ri_role : Role;
  ri_caller : Endpoint;
  ri_callee : Endpoint;
  ri_method : bytes;
  ri_config : Config;
}.

Module RpcInfo.
Definition with_role (r : Role) : RpcInfo :=
  mkRpcInfo r (mkEndpoint [] None ∅ ∅) (mkEndpoint [] None ∅ ∅) [] Config.new.

Definition new (role : Role) (method : bytes) (caller callee : Endpoint) (config : Config)
  : RpcInfo := mkRpcInfo role caller callee method config.

Definition set_role (r : Role) (ri : RpcInfo) : RpcInfo :=
  mkRpcInfo r (ri_caller ri) (ri_callee ri) (ri_method ri) (ri_config ri).

Definition set_method (m : bytes) (ri : RpcInfo) : RpcInfo :=
  mkRpcInfo (ri_role ri) (ri_caller ri) (ri_callee ri) m (ri_config ri).

(** [caller_mut], [callee_mut] and [config_mut] with the update applied. *)
Definition caller_mut (f : Endpoint -> Endpoint) (ri : RpcInfo) : RpcInfo :=
  mkRpcInfo (ri_role ri) (f (ri_caller ri)) (ri_callee ri) (ri_method ri) (ri_config ri).

Definition callee_mut (f : Endpoint -> Endpoint) (ri : RpcInfo) : RpcInfo :=
  mkRpcInfo (ri_role ri) (ri_caller ri) (f (ri_callee ri)) (ri_method ri) (ri_config ri).

Definition config_mut (f : Config -> Config) (ri : RpcInfo) : RpcInfo :=
  mkRpcInfo (ri_role ri) (ri_caller ri) (ri_callee ri) (ri_method ri) (f (ri_config ri)).

Definition clear (ri : RpcInfo) : RpcInfo :=
  mkRpcInfo (ri_role ri) (Endpoint.clear (ri_caller ri)) (Endpoint.clear (ri_callee ri))
    [] (Config.clear (ri_config ri)).
End RpcInfo.

(** [ttheader::ProtocolId], stored in the extensions. *)
Inductive ProtocolId : Type := Binary | Compact | CompactV2 | Protobuf.

(** The extension map of a context. The entries the codecs store are fields;
    [ext_user] holds every other type. *)
Record Extensions : Type := mkExtensions {
  ext_protocol_id : option ProtocolId;
  ext_has_ttheader : bool;
  ext_has_framed : bool;
  ext_protocol_binary : bool;
  ext_protocol_apache_compact : bool;
  ext_biz_error_extra : option bytes;
  ext_user : TypeMap;
}.

Module Extensions.
Definition empty : Extensions := mkExtensions None false false false false None ∅.

Definition insert_protocol_id (p : ProtocolId) (e : Extensions) : Extensions :=
  mkExtensions (Some p) (ext_has_ttheader e) (ext_has_framed e) (ext_protocol_binary e)
    (ext_protocol_apache_compact e) (ext_biz_error_extra e) (ext_user e).

Definition insert_has_ttheader (e : Extensions) : Extensions :=
  mkExtensions (ext_protocol_id e) true (ext_has_framed e) (ext_protocol_binary e)
    (ext_protocol_apache_compact e) (ext_biz_error_extra e) (ext_user e).

Definition insert_has_framed (e : Extensions) : Extensions :=
  mkExtensions (ext_protocol_id e) (ext_has_ttheader e) true (ext_protocol_binary e)
    (ext_protocol_apache_compact e) (ext_biz_error_extra e) (ext_user e).

Definition insert_protocol_binary (e : Extensions) : Extensions :=
  mkExtensions (ext_protocol_id e) (ext_has_ttheader e) (ext_has_framed e) true
    (ext_protocol_apache_compact e) (ext_biz_error_extra e) (ext_user e).

Definition insert_protocol_apache_compact (e : Extensions) : Extensions :=
  mkExtensions (ext_protocol_id e) (ext_has_ttheader e) (ext_has_framed e)
    (ext_protocol_binary e) true (ext_biz_error_extra e) (ext_user e).

Definition insert_biz_error_extra (x : bytes) (e : Extensions) : Extensions :=
  mkExtensions (ext_protocol_id e) (ext_has_ttheader e) (ext_has_framed e)
    (ext_protocol_binary e) (ext_protocol_apache_compact e) (Some x) (ext_user e).
End Extensions.

Record RpcCx (I : Type) : Type := mkRpcCx {
  cx_rpc_info : RpcInfo;
  cx_inner : I;
  cx_extensions : Extensions;
}.
Arguments mkRpcCx {I}.
Arguments cx_rpc_info {I}.
Arguments cx_inner {I}.
Arguments cx_extensions {I}.

Module RpcCx.
Definition new {I} (ri : RpcInfo) (inner : I) : RpcCx I := mkRpcCx ri inner Extensions.empty.

Definition reset {I} (inner : I) (cx : RpcCx I) : RpcCx I :=
  mkRpcCx (RpcInfo.clear (cx_rpc_info cx)) inner Extensions.empty.

Definition rpc_info_mut {I} (f : RpcInfo -> RpcInfo) (cx : RpcCx I) : RpcCx I :=
  mkRpcCx (f (cx_rpc_info cx)) (cx_inner cx) (cx_extensions cx).

Definition inner_mut {I} (f : I -> I) (cx : RpcCx I) : RpcCx I :=
  mkRpcCx (cx_rpc_info cx) (f (cx_inner cx)) (cx_extensions cx).

Definition extensions_mut {I} (f : Extensions -> Extensions) (cx : RpcCx I) : RpcCx I :=
  mkRpcCx (cx_rpc_info cx) (cx_inner cx) (f (cx_extensions cx)).
End RpcCx.

(** * [volo_thrift::context] *)

(** [pilota::thrift::TMessageType] and [TMessageIdentifier]. *)
Inductive TMessageType : Type := Call | Reply | Exception | OneWay.

#[export] Instance TMessageType_eq_dec : EqDecision TMessageType.
Proof. solve_decision. Defined.

Record TMessageIdentifier : Type := mkIdent {
  id_name : bytes;
  id_message_type : TMessageType;
  id_sequence_number : Z;
}.

(** [volo_thrift::BizError]; [extra] is a string map. *)
Record BizError : Type := mkBizError {
  be_status_code : Z;
  be_status_message : bytes;
  be_extra : option (gmap bytes bytes);
}.

(** A timestamp ([DateTime<Local>]). *)
Abbreviation DateTime := Z (only parsing).

Record CommonStats : Type := mkCommonStats {
  read_start_at : option DateTime;
  read_end_at : option DateTime;
  decode_start_at : option DateTime;
  decode_end_at : option DateTime;
  encode_start_at : option DateTime;
  encode_end_at : option DateTime;
  write_start_at : option DateTime;
  write_end_at : option DateTime;
  read_size : option Z;
  write_size : option Z;
  biz_error : option BizError;
}.

Module CommonStats.
Definition empty : CommonStats :=
  mkCommonStats None None None None None None None None None None None.

Definition record_read_start_at (t : DateTime) (s : CommonStats) : CommonStats :=
  let (_, b, c, d, e, f, g, h, rs, ws, bz) := s in
  mkCommonStats (Some t) b c d e f g h rs ws bz.
Definition record_read_end_at (t : DateTime) (s : CommonStats) : CommonStats :=
  let (a, _, c, d, e, f, g, h, rs, ws, bz) := s in
  mkCommonStats a (Some t) c d e f g h rs ws bz.
Definition record_decode_start_at (t : DateTime) (s : CommonStats) : CommonStats :=
  let (a, b, _, d, e, f, g, h, rs, ws, bz) := s in
  mkCommonStats a b (Some t) d e f g h rs ws bz.
Definition record_decode_end_at (t : DateTime) (s : CommonStats) : CommonStats :=
  let (a, b, c, _, e, f, g, h, rs, ws, bz) := s in
  mkCommonStats a b c (Some t) e f g h rs ws bz.
Definition record_encode_start_at (t : DateTime) (s : CommonStats) : CommonStats :=
  let (a, b, c, d, _, f, g, h, rs, ws, bz) := s in
  mkCommonStats a b c d (Some t) f g h rs ws bz.
Definition record_encode_end_at (t : DateTime) (s : CommonStats) : CommonStats :=
  let (a, b, c, d, e, _, g, h, rs, ws, bz) := s in
  mkCommonStats a b c d e (Some t) g h rs ws bz.
Definition record_write_start_at (t : DateTime) (s : CommonStats) : CommonStats :=
  let (a, b, c, d, e, f, _, h, rs, ws, bz) := s in
  mkCommonStats a b c d e f (Some t) h rs ws bz.
Definition record_write_end_at (t : DateTime) (s : CommonStats) : CommonStats :=
  let (a, b, c, d, e, f, g, _, rs, ws, bz) := s in
  mkCommonStats a b c d e f g (Some t) rs ws bz.
Definition set_read_size (n : Z) (s : CommonStats) : CommonStats :=
  let (a, b, c, d, e, f, g, h, _, ws, bz) := s in
  mkCommonStats a b c d e f g h (Some n) ws bz.
Definition set_write_size (n : Z) (s : CommonStats) : CommonStats :=
  let (a, b, c, d, e, f, g, h, rs, _, bz) := s in
  mkCommonStats a b c d e f g h rs (Some n) bz.
Definition set_biz_error (x : BizError) (s : CommonStats) : CommonStats :=
  let (a, b, c, d, e, f, g, h, rs, ws, _) := s in
  mkCommonStats a b c d e f g h rs ws (Some x).
Definition reset (s : CommonStats) : CommonStats := empty.
End CommonStats.

(** [ServerStats] and [ClientStats]: start and end of a phase. *)
Record PhaseStats : Type := mkPhaseStats {
  phase_start_at : option DateTime;
  phase_end_at : option DateTime;
}.

Definition PhaseStats_reset (s : PhaseStats) : PhaseStats := mkPhaseStats None None.

(** [PooledTransport::set_reuse]: reuse can be withdrawn, never granted back. *)
Definition set_reuse {E} (old new : bool) : outcome E bool :=
  if negb old && new then Panic else Done new.

Record ClientCxInner : Type := mkClientCxInner {
  c_seq_id : Z;
  c_message_type : TMessageType;
  c_should_reuse : bool;
  c_idl_service_name : option bytes;
  c_stats : PhaseStats;
  c_common_stats : CommonStats;
}.

Record ServerCxInner : Type := mkServerCxInner {
  s_seq_id : option Z;
  s_req_msg_type : option TMessageType;
  s_msg_type : option TMessageType;
  s_conn_reset : bool;
  s_idl_service_name : option bytes;
  s_stats : PhaseStats;
  s_common_stats : CommonStats;
}.

Abbreviation ClientContext := (RpcCx ClientCxInner).
Abbreviation ServerContext := (RpcCx ServerCxInner).

Module ClientContext.
Definition new (seq_id : Z) (ri : RpcInfo) (mt : TMessageType) : ClientContext :=
  RpcCx.new ri (mkClientCxInner seq_id mt true None (mkPhaseStats None None) CommonStats.empty).

Definition reset (seq_id : Z) (mt : TMessageType) (cx : ClientContext) : ClientContext :=
  let i := cx_inner cx in
  RpcCx.reset
    (mkClientCxInner seq_id mt true None (PhaseStats_reset (c_stats i))
       (CommonStats.reset (c_common_stats i))) cx.
End ClientContext.

Module ServerContext.
Definition default : ServerContext :=
  RpcCx.new (RpcInfo.with_role Server)
    (mkServerCxInner None None None false None (mkPhaseStats None None) CommonStats.empty).
End ServerContext.

(** [trait ThriftContext]. *)
Class ThriftContext (I : Type) := {
  encode_conn_reset : RpcCx I -> bool;
  set_conn_reset_by_ttheader : forall {E}, bool -> RpcCx I -> outcome E (RpcCx I);
  handle_decoded_msg_ident : TMessageIdentifier -> RpcCx I -> RpcCx I;
  seq_id : RpcCx I -> Z;
  msg_type : forall {E}, RpcCx I -> outcome E TMessageType;
  stats : RpcCx I -> CommonStats;
  stats_mut : (CommonStats -> CommonStats) -> RpcCx I -> RpcCx I;
  idl_service_name : RpcCx I -> option bytes;
  set_idl_service_name : bytes -> RpcCx I -> RpcCx I;
}.

#[export] Instance client_thrift_context : ThriftContext ClientCxInner := {
  encode_conn_reset _ := false;
  set_conn_reset_by_ttheader E reset cx :=
    let i := cx_inner cx in
    r ← set_reuse (c_should_reuse i) (negb reset);
    Done (RpcCx.inner_mut (fun i =>
      mkClientCxInner (c_seq_id i) (c_message_type i) r (c_idl_service_name i)
        (c_stats i) (c_common_stats i)) cx);
  handle_decoded_msg_ident _ cx := cx;
  seq_id cx := c_seq_id (cx_inner cx);
  msg_type E cx := Done (c_message_type (cx_inner cx));
  stats cx := c_common_stats (cx_inner cx);
  stats_mut f cx := RpcCx.inner_mut (fun i =>
      mkClientCxInner (c_seq_id i) (c_message_type i) (c_should_reuse i) (c_idl_service_name i)
        (c_stats i) (f (c_common_stats i))) cx;
  idl_service_name cx := c_idl_service_name (cx_inner cx);
  set_idl_service_name name cx := RpcCx.inner_mut (fun i =>
      mkClientCxInner (c_seq_id i) (c_message_type i) (c_should_reuse i) (Some name)
        (c_stats i) (c_common_stats i)) cx;
}.

#[export] Instance server_thrift_context : ThriftContext ServerCxInner := {
  encode_conn_reset cx := s_conn_reset (cx_inner cx);
  set_conn_reset_by_ttheader E reset cx :=
    Done (RpcCx.inner_mut (fun i =>
      mkServerCxInner (s_seq_id i) (s_req_msg_type i) (s_msg_type i) reset
        (s_idl_service_name i) (s_stats i) (s_common_stats i)) cx);
  handle_decoded_msg_ident ident cx :=
    RpcCx.rpc_info_mut (RpcInfo.set_method (id_name ident))
      (RpcCx.inner_mut (fun i =>
        mkServerCxInner (Some (id_sequence_number ident)) (Some (id_message_type ident))
          (s_msg_type i) (s_conn_reset i) (s_idl_service_name i) (s_stats i)
          (s_common_stats i)) cx);
  seq_id cx := default 0 (s_seq_id (cx_inner cx));
  msg_type E cx := unwrap (s_msg_type (cx_inner cx));
  stats cx := s_common_stats (cx_inner cx);
  stats_mut f cx := RpcCx.inner_mut (fun i =>
      mkServerCxInner (s_seq_id i) (s_req_msg_type i) (s_msg_type i) (s_conn_reset i)
        (s_idl_service_name i) (s_stats i) (f (s_common_stats i))) cx;
  idl_service_name cx := s_idl_service_name (cx_inner cx);
  set_idl_service_name name cx := RpcCx.inner_mut (fun i =>
      mkServerCxInner (s_seq_id i) (s_req_msg_type i) (s_msg_type i) (s_conn_reset i)
        (Some name) (s_stats i) (s_common_stats i)) cx;
}.

(** * What the codecs rely on

    The trait methods touch their own field only; every context keeps these
    laws, and the codec's theorems are proved from them. *)
Class ThriftContextLaws (I : Type) `{ThriftContext I} : Prop := {
  conn_reset_halts : forall E b (cx : RpcCx I),
    halts (set_conn_reset_by_ttheader (E := E) b cx);
  conn_reset_true : forall E (cx : RpcCx I), exists cx',
    set_conn_reset_by_ttheader (E := E) true cx = Done cx' /\
    cx_rpc_info cx' = cx_rpc_info cx /\ cx_extensions cx' = cx_extensions cx /\
    stats cx' = stats cx;
  rpc_info_stats_mut : forall f (cx : RpcCx I), cx_rpc_info (stats_mut f cx) = cx_rpc_info cx;
  extensions_stats_mut : forall f (cx : RpcCx I),
    cx_extensions (stats_mut f cx) = cx_extensions cx;
  stats_stats_mut : forall f (cx : RpcCx I), stats (stats_mut f cx) = f (stats cx);
  rpc_info_set_isn : forall n (cx : RpcCx I),
    cx_rpc_info (set_idl_service_name n cx) = cx_rpc_info cx;
  isn_set_isn : forall n (cx : RpcCx I), idl_service_name (set_idl_service_name n cx) = Some n;
  isn_rpc_info_mut : forall f (cx : RpcCx I),
    idl_service_name (RpcCx.rpc_info_mut f cx) = idl_service_name cx;
  isn_extensions_mut : forall f (cx : RpcCx I),
    idl_service_name (RpcCx.extensions_mut f cx) = idl_service_name cx;
  stats_extensions_mut : forall f (cx : RpcCx I),
    stats (RpcCx.extensions_mut f cx) = stats cx;
  stats_rpc_info_mut : forall f (cx : RpcCx I),
    stats (RpcCx.rpc_info_mut f cx) = stats cx;
  msg_type_extensions_mut : forall E f (cx : RpcCx I),
    msg_type (E := E) (RpcCx.extensions_mut f cx) = msg_type cx;
  conn_reset_extensions_mut : forall f (cx : RpcCx I),
    encode_conn_reset (RpcCx.extensions_mut f cx) = encode_conn_reset cx;
  seq_id_extensions_mut : forall f (cx : RpcCx I),
    seq_id (RpcCx.extensions_mut f cx) = seq_id cx;
}.

#[export] Instance client_thrift_context_laws : ThriftContextLaws ClientCxInner.
Proof.
  split; try done.
  - intros E [] cx. all: cbn; unfold set_reuse; destruct (c_should_reuse _); done.
  - intros E cx. cbn. unfold set_reuse. rewrite andb_false_r. cbn. eauto.
Qed.

#[export] Instance server_thrift_context_laws : ThriftContextLaws ServerCxInner.
Proof. split; try done. intros E cx. cbn. eauto. Qed.

(** Config defaults and overrides. *)

(** merging a per-call configuration overrides exactly the timeouts the
    call sets and keeps the others. *)
Theorem config_merge_overrides self other :
  let c := Config.merge self other in
  cfg_rpc_timeout c = from_option Some (cfg_rpc_timeout self) (cfg_rpc_timeout other) /\
  cfg_connect_timeout c = from_option Some (cfg_connect_timeout self) (cfg_connect_timeout other) /\
  cfg_read_write_timeout c
    = from_option Some (cfg_read_write_timeout self) (cfg_read_write_timeout other).
Proof. destruct self as [??? ], other as [[] [] []]; cbn; auto. Qed.
