(* ===== verification/Utf8.v ===== *)
(** The byte level of Rust's strings: validity ([str::from_utf8]) and the lossy
    conversion ([String::from_utf8_lossy]) of the standard library. *)

From S2P Require Import Prelude.

Definition is_cont (b : byte) : bool := let z := Z_of_byte b in (128 <=? z) && (z <=? 191).

(** The second byte a three- and a four-byte lead byte allows. *)
Definition second_of_3 (lead c : byte) : bool :=
  is_cont c && (negb (Z_of_byte lead =? 224) || (160 <=? Z_of_byte c)) &&
  (negb (Z_of_byte lead =? 237) || (Z_of_byte c <=? 159)).

Definition second_of_4 (lead c : byte) : bool :=
  is_cont c && (negb (Z_of_byte lead =? 240) || (144 <=? Z_of_byte c)) &&
  (negb (Z_of_byte lead =? 244) || (Z_of_byte c <=? 143)).

(** How long a sequence its first byte announces; none for a byte that starts no sequence. *)
Inductive Lead : Type := L1 | L2 | L3 | L4 | LBad.

Definition lead_of (b : byte) : Lead :=
  let z := Z_of_byte b in
  if z <? 128 then L1
  else if (194 <=? z) && (z <=? 223) then L2
  else if (224 <=? z) && (z <=? 239) then L3
  else if (240 <=? z) && (z <=? 244) then L4
  else LBad.

(** [str::from_utf8(..).is_ok()]. *)
Fixpoint is_utf8 (bs : bytes) : bool :=
  match bs with
  | [] => true
  | b :: rest =>
      match lead_of b, rest with
      | L1, _ => is_utf8 rest
      | L2, c :: rest => is_cont c && is_utf8 rest
      | L3, c :: d :: rest => second_of_3 b c && is_cont d && is_utf8 rest
      | L4, c :: d :: e :: rest => second_of_4 b c && is_cont d && is_cont e && is_utf8 rest
      | _, _ => false
      end
  end.

(** U+FFFD. *)
Definition replacement : bytes := [xef; xbf; xbd].

(** [String::from_utf8_lossy]: each maximal part that starts a sequence and does
    not finish it becomes one U+FFFD. *)
Fixpoint from_utf8_lossy (bs : bytes) : bytes :=
  match bs with
  | [] => []
  | b :: rest =>
      match lead_of b, rest with
      | L1, _ => b :: from_utf8_lossy rest
      | L2, c :: rest' => if is_cont c then b :: c :: from_utf8_lossy rest' else replacement ++ from_utf8_lossy rest
      | L3, c :: rest' =>
          if second_of_3 b c then
            match rest' with
            | d :: rest'' =>
                if is_cont d then b :: c :: d :: from_utf8_lossy rest'' else replacement ++ from_utf8_lossy rest'
            | [] => replacement
            end
          else replacement ++ from_utf8_lossy rest
      | L4, c :: rest' =>
          if second_of_4 b c then
            match rest' with
            | d :: rest'' =>
                if is_cont d then
                  match rest'' with
                  | e :: rest''' =>
                      if is_cont e then b :: c :: d :: e :: from_utf8_lossy rest'''
                      else replacement ++ from_utf8_lossy rest''
                  | [] => replacement
                  end
                else replacement ++ from_utf8_lossy rest'
            | [] => replacement
            end
          else replacement ++ from_utf8_lossy rest
      | _, _ => replacement ++ from_utf8_lossy rest
      end
  end.

(** * Laws *)

(** Induction along the sequences of a valid text. *)
Lemma utf8_ind (P : bytes -> Prop) :
  P [] ->
  (forall b rest, lead_of b = L1 -> is_utf8 rest = true -> P rest -> P (b :: rest)) ->
  (forall b c rest, lead_of b = L2 -> is_cont c = true -> is_utf8 rest = true -> P rest -> P (b :: c :: rest)) ->
  (forall b c d rest, lead_of b = L3 -> second_of_3 b c = true -> is_cont d = true -> is_utf8 rest = true ->
     P rest -> P (b :: c :: d :: rest)) ->
  (forall b c d e rest, lead_of b = L4 -> second_of_4 b c = true -> is_cont d = true -> is_cont e = true ->
     is_utf8 rest = true -> P rest -> P (b :: c :: d :: e :: rest)) ->
  forall bs, is_utf8 bs = true -> P bs.
Proof.
  intros H0 H1 H2 H3 H4. refine (fix IH bs := _). destruct bs as [|b rest]; [done|].
  cbn. destruct (lead_of b) eqn:Hb; intros Hv; [by apply H1; [| |apply IH]|..|done].
  - destruct rest as [|c rest]; [done|]. apply andb_prop in Hv as [Hc Hv]. by apply H2; [..|apply IH].
  - destruct rest as [|c [|d rest]]; [done..|]. apply andb_prop in Hv as [[Hc Hd]%andb_prop Hv].
    by apply H3; [..|apply IH].
  - destruct rest as [|c [|d [|e rest]]]; [done..|].
    apply andb_prop in Hv as [[[Hc Hd]%andb_prop He]%andb_prop Hv]. by apply H4; [..|apply IH].
Qed.

(** A lossy conversion leaves valid text as it is. *)
Lemma lossy_utf8 bs : is_utf8 bs = true -> from_utf8_lossy bs = bs.
Proof.
  revert bs. apply utf8_ind; cbn [from_utf8_lossy].
  - done.
  - intros b rest -> _ IH. by rewrite IH.
  - intros b c rest -> -> _ IH. by rewrite IH.
  - intros b c d rest -> -> -> _ IH. by rewrite IH.
  - intros b c d e rest -> -> -> -> _ IH. by rewrite IH.
Qed.

Lemma second_of_3_cont b c : second_of_3 b c = true -> is_cont c = true.
Proof. unfold second_of_3. by intros [[? _]%andb_prop _]%andb_prop. Qed.

Lemma second_of_4_cont b c : second_of_4 b c = true -> is_cont c = true.
Proof. unfold second_of_4. by intros [[? _]%andb_prop _]%andb_prop. Qed.

Lemma lead_L1_cont x : lead_of x = L1 -> is_cont x = false.
Proof.
  unfold lead_of, is_cont. pose proof (Z_of_byte_range x). destruct (Z_of_byte x <? 128) eqn:E; [|by repeat case_match].
  intros _. apply andb_false_intro1. lia.
Qed.

Lemma utf8_app a b : is_utf8 a = true -> is_utf8 b = true -> is_utf8 (a ++ b) = true.
Proof.
  intros Ha Hb. revert a Ha. apply utf8_ind; cbn.
  - done.
  - by intros ? ? -> _ ->.
  - by intros ? ? ? -> -> _ ->.
  - by intros ? ? ? ? -> -> -> _ ->.
  - by intros ? ? ? ? ? -> -> -> -> _ ->.
Qed.

(** Text cut at an ASCII byte. *)
Lemma utf8_cut x s : lead_of x = L1 -> is_utf8 s = true ->
  forall a b, s = a ++ x :: b -> is_utf8 a = true /\ is_utf8 b = true.
Proof.
  intros Hx. pose proof (lead_L1_cont x Hx) as Hc. revert s.
  apply (utf8_ind (fun s => forall a b, s = a ++ x :: b -> is_utf8 a = true /\ is_utf8 b = true)).
  - by intros [] ?.
  - intros b0 rest Hb Hv IH [|y a] b [= -> ->]; [by split|]. cbn. rewrite Hb. by apply IH.
  - intros b0 c rest Hb H1 _ IH [|y [|y1 a]] b [=]; subst; [congruence..|]. cbn. rewrite Hb, H1. by apply IH.
  - intros b0 c d rest Hb H1 H2 _ IH [|y [|y1 [|y2 a]]] b [=]; subst.
    + congruence.
    + apply second_of_3_cont in H1. congruence.
    + congruence.
    + cbn. rewrite Hb, H1, H2. by apply IH.
  - intros b0 c d e rest Hb H1 H2 H3 _ IH [|y [|y1 [|y2 [|y3 a]]]] b [=]; subst.
    + congruence.
    + apply second_of_4_cont in H1. congruence.
    + congruence.
    + congruence.
    + cbn. rewrite Hb, H1, H2, H3. by apply IH.
Qed.
