(* ===== verification/Headers.v ===== *)
(** Header maps: the operations of [http::HeaderMap] the code uses, with their
    documented laws, and a list of headers that has them; the path matcher the
    servers route with. *)

From S2P Require Import Prelude.

Class HeaderMap (H : Type) : Type := {
  hm_empty : H;
  hm_get : bytes -> H -> option bytes;
  hm_insert : bytes -> bytes -> H -> H;
  hm_remove : bytes -> H -> H;
  hm_extend : H -> H -> H
}.

Class HeaderMapLaws (H : Type) `{HeaderMap H} : Prop := {
  get_empty k : hm_get k hm_empty = None;
  get_insert k k' v h : hm_get k (hm_insert k' v h) = if bool_decide (k = k') then Some v else hm_get k h;
  get_remove k k' h : hm_get k (hm_remove k' h) = if bool_decide (k = k') then None else hm_get k h;
  get_extend k h h' : hm_get k (hm_extend h' h) = match hm_get k h' with Some v => Some v | None => hm_get k h end
}.

(** [HeaderMap::contains_key]. *)
Definition hm_contains {H} `{HeaderMap H} (k : bytes) (h : H) : bool :=
  match hm_get k h with Some _ => true | None => false end.

(** * Several values of a name *)

(** Iteration over all headers (a name once per value), a further value for a
    name, and the mutable references of [get_mut] and [iter_mut], as updates of
    what they point at. *)
Class HeaderEntries (H : Type) : Type := {
  hm_iter : H -> list (bytes * bytes);
  hm_append : bytes -> bytes -> H -> H;
  hm_get_mut : bytes -> (bytes -> bytes) -> H -> H;
  hm_iter_mut : (bytes -> bytes -> bytes) -> H -> H
}.

(** [HeaderMap::get_all]. *)
Definition hm_get_all {H} `{HeaderEntries H} (k : bytes) (h : H) : list bytes :=
  (base.filter (fun e => e.1 = k) (hm_iter h)).*2.

Definition map_head {A} (f : A -> A) (l : list A) : list A := match l with x :: l => f x :: l | [] => [] end.

Class HeaderEntriesLaws (H : Type) `{HeaderMap H} `{HeaderEntries H} : Prop := {
  get_first k h : hm_get k h = head (hm_get_all k h);
  all_empty k : hm_get_all k hm_empty = [];
  all_insert k k' v h : hm_get_all k (hm_insert k' v h) = if bool_decide (k = k') then [v] else hm_get_all k h;
  all_remove k k' h : hm_get_all k (hm_remove k' h) = if bool_decide (k = k') then [] else hm_get_all k h;
  all_extend k h h' : hm_get_all k (hm_extend h' h) = match hm_get_all k h' with [] => hm_get_all k h | vs => vs end;
  all_append k k' v h : hm_get_all k (hm_append k' v h) =
    if bool_decide (k = k') then hm_get_all k h ++ [v] else hm_get_all k h;
  all_get_mut k k' f h : hm_get_all k (hm_get_mut k' f h) =
    if bool_decide (k = k') then map_head f (hm_get_all k h) else hm_get_all k h;
  all_iter_mut k f h : hm_get_all k (hm_iter_mut f h) = f k <$> hm_get_all k h
}.

#[export] Instance entries_headers_laws {H} `{HeaderEntriesLaws H} : HeaderMapLaws H.
Proof.
  split; intros; rewrite !get_first.
  - by rewrite all_empty.
  - rewrite all_insert. by case_bool_decide.
  - rewrite all_remove. by case_bool_decide.
  - rewrite all_extend. by destruct (hm_get_all k h').
Qed.

(** Two header maps that hold the same values for every name. *)
Definition same_headers {H} `{HeaderEntries H} (h h' : H) : Prop := forall k, hm_get_all k h = hm_get_all k h'.

Section SameHeaders.
Context {H : Type} `{HeaderEntriesLaws H}.

#[export] Instance same_headers_equiv : Equivalence (@same_headers H _).
Proof. split; repeat intro; unfold same_headers in *; congruence. Qed.

#[export] Instance hm_get_proper k : Proper (same_headers ==> eq) (@hm_get H _ k).
Proof. intros h h' Hs. by rewrite !get_first, Hs. Qed.

#[export] Instance hm_contains_proper k : Proper (same_headers ==> eq) (@hm_contains H _ k).
Proof. intros h h' Hs. unfold hm_contains. by rewrite Hs. Qed.

#[export] Instance hm_insert_proper k v : Proper (same_headers ==> same_headers) (@hm_insert H _ k v).
Proof. intros h h' Hs k'. rewrite !all_insert. by case_bool_decide. Qed.

#[export] Instance hm_remove_proper k : Proper (same_headers ==> same_headers) (@hm_remove H _ k).
Proof. intros h h' Hs k'. rewrite !all_remove. by case_bool_decide. Qed.

Lemma iter_get_all k v (h : H) : (k, v) ∈ hm_iter h <-> v ∈ hm_get_all k h.
Proof.
  unfold hm_get_all. rewrite list_elem_of_fmap. split.
  - intros Hi. exists (k, v). by rewrite list_elem_of_filter.
  - intros ([k' v'] & -> & (<- & Hi)%list_elem_of_filter). done.
Qed.
End SameHeaders.

(** Lists of pairs with the same values for every key are permutations. *)
Lemma same_values_perm (l l' : list (bytes * bytes)) :
  (forall k, (base.filter (fun e => e.1 = k) l).*2 = (base.filter (fun e => e.1 = k) l').*2) -> l ≡ₚ l'.
Proof.
  revert l'. induction l as [|[k v] l IH]; intros l' Hs.
  - destruct l' as [|[k v] l']; [done|]. specialize (Hs k). by rewrite filter_cons_True in Hs.
  - assert (exists l1 l2, l' = l1 ++ (k, v) :: l2 /\ base.filter (fun e => e.1 = k) l1 = []) as (l1 & l2 & -> & He).
    { specialize (Hs k). rewrite filter_cons_True in Hs by done. cbn in Hs. clear IH.
      induction l' as [|[k' v'] l' IH]; [done|]. destruct (decide (k' = k)) as [->|Hk].
      - rewrite filter_cons_True in Hs by done. cbn in Hs. exists [], l'. by simplify_eq.
      - rewrite filter_cons_False in Hs by done. destruct (IH Hs) as (l1 & l2 & -> & He).
        exists ((k', v') :: l1), l2. by rewrite filter_cons_False. }
    rewrite <- Permutation_middle. constructor. apply IH. intros k2. specialize (Hs k2).
    rewrite filter_app, !filter_cons, fmap_app in *. cbn [fst] in *.
    destruct (decide (k = k2)) as [<-|Hk]; [|done]. rewrite He in *. cbn in *. congruence.
Qed.

(** * Headers as a list *)

Abbreviation Headers := (list (bytes * bytes)).

Fixpoint get_header (k : bytes) (h : Headers) : option bytes :=
  match h with
  | [] => None
  | (k', v) :: h => if bool_decide (k = k') then Some v else get_header k h
  end.

#[export] Instance headers : HeaderMap Headers :=
  {| hm_empty := []; hm_get := get_header; hm_insert k v h := (k, v) :: base.filter (fun e => e.1 <> k) h;
     hm_remove k h := base.filter (fun e => e.1 <> k) h;
     hm_extend h' h := h' ++ base.filter (fun e => e.1 ∉ h'.*1) h |}.

Fixpoint get_mut_header (k : bytes) (f : bytes -> bytes) (h : Headers) : Headers :=
  match h with
  | [] => []
  | (k', v) :: h => if bool_decide (k = k') then (k', f v) :: h else (k', v) :: get_mut_header k f h
  end.

#[export] Instance headers_entries : HeaderEntries Headers :=
  {| hm_iter h := h; hm_append k v h := h ++ [(k, v)]; hm_get_mut := get_mut_header;
     hm_iter_mut f h := (fun e => (e.1, f e.1 e.2)) <$> h |}.

Lemma all_app k (h h' : Headers) : hm_get_all k (h ++ h') = hm_get_all k h ++ hm_get_all k h'.
Proof. unfold hm_get_all. cbn [hm_iter headers_entries]. by rewrite filter_app, fmap_app. Qed.

Lemma all_cons k k' v (h : Headers) : hm_get_all k ((k', v) :: h) = if bool_decide (k = k') then v :: hm_get_all k h else hm_get_all k h.
Proof.
  unfold hm_get_all. cbn [hm_iter headers_entries]. rewrite filter_cons. cbn [fst].
  case_bool_decide; by destruct (decide _); subst.
Qed.

Lemma all_filtered (P : bytes -> Prop) `{!forall k, Decision (P k)} k (h : Headers) :
  hm_get_all k (base.filter (fun e => P e.1) h) = if bool_decide (P k) then hm_get_all k h else [].
Proof.
  induction h as [|[k2 v] h IH]; [by case_bool_decide|]. rewrite all_cons.
  destruct (decide (P k2)); [rewrite filter_cons_True, all_cons by done|rewrite filter_cons_False by done];
    rewrite IH; repeat case_bool_decide; naive_solver.
Qed.

Lemma all_nil_iff k (h : Headers) : hm_get_all k h = [] <-> k ∉ h.*1.
Proof.
  induction h as [|[k' v] h IH]; [by split; [intros _ []%not_elem_of_nil|]|].
  rewrite all_cons, fmap_cons, not_elem_of_cons, <- IH. cbn. case_bool_decide; naive_solver.
Qed.

#[export] Instance headers_laws : HeaderEntriesLaws Headers.
Proof.
  split; cbn [hm_empty hm_get hm_insert hm_remove hm_extend headers hm_append hm_get_mut hm_iter_mut headers_entries].
  - intros k h. induction h as [|[k' v] h IH]; [done|]. rewrite all_cons. cbn. rewrite IH. by case_bool_decide.
  - done.
  - intros k k' v h. pose proof (all_filtered (fun x => x <> k') k h) as Q. cbv beta in Q.
    rewrite all_cons, Q. repeat case_bool_decide; naive_solver.
  - intros k k' h. pose proof (all_filtered (fun x => x <> k') k h) as Q. cbv beta in Q. rewrite Q. repeat case_bool_decide; naive_solver.
  - intros k h h'. pose proof (all_filtered (fun k => k ∉ h'.*1) k h) as Q. cbv beta in Q. rewrite all_app, Q. case_bool_decide as Hi.
    + by rewrite (proj2 (all_nil_iff k h')).
    + rewrite app_nil_r. destruct (hm_get_all k h') eqn:E; [|done]. by apply all_nil_iff in E.
  - intros. rewrite all_app, all_cons. case_bool_decide; [done|apply app_nil_r].
  - intros k k' f h. induction h as [|[k2 v] h IH]; [by case_bool_decide|].
    cbn [get_mut_header]. destruct (decide (k' = k2)) as [<-|E].
    + rewrite bool_decide_eq_true_2, !all_cons by done. by case_bool_decide.
    + rewrite (bool_decide_eq_false_2 (k' = k2)), !all_cons, IH by done. repeat case_bool_decide; naive_solver.
  - intros k f h. induction h as [|[k2 v] h IH]; [done|]. rewrite fmap_cons. cbn [fst snd]. rewrite !all_cons, IH.
    case_bool_decide; by subst.
Qed.

(** * The text of a header value *)

(** [str::split(',')]: the pieces between commas. *)
Fixpoint split_comma (s : bytes) : list bytes :=
  match s with
  | [] => [[]]
  | b :: s =>
      if bool_decide (b = ","%byte) then [] :: split_comma s
      else match split_comma s with
           | p :: ps => (b :: p) :: ps
           | [] => [[b]]
           end
  end.

(** [str::trim] on a header's text: its white space is ASCII. *)
Definition is_white (b : byte) : bool :=
  let z := Z_of_byte b in (z =? 32) || (9 <=? z) && (z <=? 13).

Fixpoint trim_start (s : bytes) : bytes :=
  match s with b :: t => if is_white b then trim_start t else s | [] => [] end.

Definition trim (s : bytes) : bytes := reverse (trim_start (reverse (trim_start s))).

(** [HeaderValue::to_str]: visible ASCII bytes and tab. *)
Definition to_str (val : bytes) : option bytes :=
  if forallb (fun b => let z := Z_of_byte b in (32 <=? z) && (z <? 127) || (z =? 9)) val
  then Some val else None.

(** [u8::to_ascii_lowercase] and [str::eq_ignore_ascii_case]. *)
Definition ascii_lower (b : byte) : byte :=
  let z := Z_of_byte b in if (65 <=? z) && (z <=? 90) then byte_of_Z (z + 32) else b.

Definition eq_ignore_ascii_case (a b : bytes) : bool := bool_decide ((ascii_lower <$> a) = (ascii_lower <$> b)).

(** * Paths

    [matchit::Router], the path matcher both servers route with, as a parameter
    with its documented contract. *)

(** [matchit::Router<RouteId>]: insertion of a pattern may be refused. *)
Class Matchit (M : Type) : Type := {
  mt_empty : M;
  mt_insert : bytes -> Z -> M -> option M;
  mt_at : bytes -> M -> option (Z * list (bytes * bytes))
}.

(** Its documented contract: what matches is an inserted pattern with its
    parameters, and nothing matches only when no inserted pattern does. *)
Class MatchitLaws (M : Type) `{Matchit M} : Type := {
  mt_rules : M -> list (bytes * Z);
  pattern_matches : bytes -> bytes -> list (bytes * bytes) -> Prop;
  rules_empty : mt_rules mt_empty = [];
  rules_insert p i m m' : mt_insert p i m = Some m' -> mt_rules m' ≡ₚ (p, i) :: mt_rules m;
  at_some path m i ps : mt_at path m = Some (i, ps) -> exists p, (p, i) ∈ mt_rules m /\ pattern_matches p path ps;
  at_none path m : mt_at path m = None -> forall p i ps, (p, i) ∈ mt_rules m -> ~ pattern_matches p path ps
}.
