(* ===== verification/TTHeader.v ===== *)
(** TTHeader transport: [volo-thrift/src/codec/default/ttheader.rs].

    The header encoder, the size computation that must agree with it, the
    header decoder and the biz-error extraction. *)

From stdpp Require Import countable.
From S2P Require Import Prelude Net Context.

(** * Errors ([pilota::thrift]) *)

Inductive ProtocolExceptionKind : Type :=
| BadVersion | InvalidData | SizeLimit | NegativeSize | NotImplemented | DepthLimit | UnknownKind.

Inductive ThriftException : Type :=
| ApplicationException (kind : Z) (msg : bytes)
| TransportException (msg : bytes)
| ProtocolException (kind : ProtocolExceptionKind) (msg : bytes).

(** * Code of other crates the header codec calls

    [metainfo]'s key-value stores, [pilota]'s message-type numbers,
    [sonic_rs]'s JSON text and the iteration order of a [HashMap]. *)
Class TTHeaderEnv := {
  MetaInfo : Type;
  RPC_PREFIX_PERSISTENT : bytes;
  RPC_PREFIX_TRANSIENT : bytes;
  RPC_PREFIX_BACKWARD : bytes;
  get_all_persistents : MetaInfo -> option (list (bytes * bytes));
  get_all_transients : MetaInfo -> option (list (bytes * bytes));
  get_all_backward_transients : MetaInfo -> option (list (bytes * bytes));
  strip_rpc_prefix_and_set_persistent : bytes -> bytes -> MetaInfo -> MetaInfo;
  strip_rpc_prefix_and_set_upstream : bytes -> bytes -> MetaInfo -> MetaInfo;
  strip_rpc_prefix_and_set_backward_downstream : bytes -> bytes -> MetaInfo -> MetaInfo;
  msg_type_to_u8 : TMessageType -> Z;
  json_to_string : gmap bytes bytes -> option bytes;
  json_from_str : bytes -> option (option (gmap bytes bytes));
  hash_into_iter : gmap bytes bytes -> list (bytes * bytes);
}.

(** * Constants *)

Definition HEADER_DETECT_LENGTH : Z := 6.
Definition TT_HEADER_MAGIC : Z := 0x1000.

Definition INFO_PADDING : Z := 0x00.
Definition INFO_KEY_VALUE : Z := 0x01.
Definition INFO_INT_KEY_VALUE : Z := 0x10.
Definition ACL_TOKEN_KEY_VALUE : Z := 0x11.

Definition HEADER_TRANS_REMOTE_ADDR : bytes := str "rip".
Definition HEADER_CONNECTION_READY_TO_RESET : bytes := str "crrst".
Definition TT_HEADER_BIZ_STATUS_KEY : bytes := str "biz-status".
Definition TT_HEADER_BIZ_MESSAGE_KEY : bytes := str "biz-message".
Definition TT_HEADER_BIZ_EXTRA_KEY : bytes := str "biz-extra".
Definition HEADER_IDL_SERVICE_NAME : bytes := str "isn".

(** [enum ProtocolId] and its [TryFromPrimitive]. *)
Definition protocol_id_to_u8 (p : ProtocolId) : Z :=
  match p with Binary => 0 | Compact => 2 | CompactV2 => 3 | Protobuf => 4 end.

Definition protocol_id_from_u8 (z : Z) : option ProtocolId :=
  if bool_decide (z = 0) then Some Binary
  else if bool_decide (z = 2) then Some Compact
  else if bool_decide (z = 3) then Some CompactV2
  else if bool_decide (z = 4) then Some Protobuf
  else None.

(** [enum IntMetaKey] and its [TryFromPrimitive]. *)
Inductive IntMetaKey : Type :=
| FromService | ToService | ToMethod | DestAddress
| RPCTimeout | ConnTimeout | WithHeader | MsgType.

Definition int_meta_key_to_u16 (k : IntMetaKey) : Z :=
  match k with
  | FromService => 3
  | ToService => 6
  | ToMethod => 9
  | DestAddress => 11
  | RPCTimeout => 12
  | ConnTimeout => 17
  | WithHeader => 16
  | MsgType => 22
  end.

Definition int_meta_key_from_u16 (z : Z) : option IntMetaKey :=
  if bool_decide (z = 3) then Some FromService
  else if bool_decide (z = 6) then Some ToService
  else if bool_decide (z = 9) then Some ToMethod
  else if bool_decide (z = 11) then Some DestAddress
  else if bool_decide (z = 12) then Some RPCTimeout
  else if bool_decide (z = 17) then Some ConnTimeout
  else if bool_decide (z = 16) then Some WithHeader
  else if bool_decide (z = 22) then Some MsgType
  else None.

Lemma int_meta_key_from_to k : int_meta_key_from_u16 (int_meta_key_to_u16 k) = Some k.
Proof. by destruct k. Qed.

#[export] Instance IntMetaKey_eq_dec : EqDecision IntMetaKey.
Proof. solve_decision. Defined.

#[export] Instance IntMetaKey_countable : Countable IntMetaKey :=
  inj_countable int_meta_key_to_u16 int_meta_key_from_u16 int_meta_key_from_to.

(** [is_ttheader]: the slice [buf[4..6]] panics on a shorter buffer. *)
Definition is_ttheader {E} (buf : bytes) : outcome E bool :=
  if bool_decide (6 <= Zlen buf)
  then Done (bool_decide (take 2 (drop 4 buf) = [x10; x00]))
  else Panic.

(** * Encoding *)

Section Encode.
Context `{BuildProfile} `{TTHeaderEnv} `{AddrText} {I : Type} `{ThriftContext I}.

(** The buffer being written and the number of entries written so far. *)
Abbreviation KvState := (bytes * Z)%type.

(** One string entry: key length, key (a prefix and a name), value length,
    value, and the entry counter. *)
Definition put_string_kv (prefix : bytes) (st : KvState) (kv : bytes * bytes)
  : outcome ThriftException KvState :=
  let '(dst, len) := st in
  let '(key, value) := kv in
  let dst := dst ++ put_u16 (Zlen prefix + Zlen key) ++ prefix ++ key
                 ++ put_u16 (Zlen value) ++ value in
  len ← u16_succ len;
  Done (dst, len).

Definition put_int_kv (key : IntMetaKey) (value : bytes) (st : KvState)
  : outcome ThriftException KvState :=
  let '(dst, len) := st in
  let dst := dst ++ put_u16 (int_meta_key_to_u16 key) ++ put_u16 (Zlen value) ++ value in
  len ← u16_succ len;
  Done (dst, len).

(** The [Role::Client] arm of the string section. *)
Definition encode_client_string_kv (metainfo : MetaInfo) (cx : RpcCx I) (st : KvState)
  : outcome ThriftException KvState :=
  st ← match get_all_persistents metainfo with
       | Some ap => foldM (put_string_kv RPC_PREFIX_PERSISTENT) ap st
       | None => Done st
       end;
  st ← match get_all_transients metainfo with
       | Some at_ => foldM (put_string_kv RPC_PREFIX_TRANSIENT) at_ st
       | None => Done st
       end;
  match idl_service_name cx with
  | Some isn => put_string_kv HEADER_IDL_SERVICE_NAME st ([], isn)
  | None => Done st
  end.

(** The biz-error entries of the [Role::Server] arm. The JSON text cached by
    [encode_size] is used when present. *)
Definition encode_biz_error (cx : RpcCx I) (e : BizError) (st : KvState)
  : outcome ThriftException KvState :=
  st ← put_string_kv TT_HEADER_BIZ_STATUS_KEY st ([], dec_of_int (be_status_code e));
  st ← put_string_kv TT_HEADER_BIZ_MESSAGE_KEY st ([], be_status_message e);
  match be_extra e with
  | Some extra =>
      extra_str ← match ext_biz_error_extra (cx_extensions cx) with
                  | Some x => Done x
                  | None => unwrap (json_to_string extra)
                  end;
      put_string_kv TT_HEADER_BIZ_EXTRA_KEY st ([], extra_str)
  | None => Done st
  end.

(** The [Role::Server] arm of the string section. *)
Definition encode_server_string_kv (metainfo : MetaInfo) (cx : RpcCx I) (st : KvState)
  : outcome ThriftException KvState :=
  st ← match get_all_backward_transients metainfo with
       | Some at_ => foldM (put_string_kv RPC_PREFIX_BACKWARD) at_ st
       | None => Done st
       end;
  st ← (if encode_conn_reset cx then put_string_kv (str "crrst") st ([], str "1") else Done st);
  match biz_error (stats cx) with
  | Some e => encode_biz_error cx e st
  | None => Done st
  end.

Definition has_string_kv (metainfo : MetaInfo) (cx : RpcCx I) : bool :=
  match ri_role (cx_rpc_info cx) with
  | Client =>
      bool_decide (is_Some (get_all_persistents metainfo))
      || bool_decide (is_Some (get_all_transients metainfo))
      || bool_decide (is_Some (idl_service_name cx))
  | Server =>
      bool_decide (is_Some (get_all_backward_transients metainfo))
      || encode_conn_reset cx
      || bool_decide (is_Some (biz_error (stats cx)))
  end.

(** The string section: info id, a two-byte entry count patched afterwards,
    the entries. *)
Definition encode_string_section (metainfo : MetaInfo) (cx : RpcCx I) (dst : bytes)
  : outcome ThriftException bytes :=
  if has_string_kv metainfo cx then
    let dst := dst ++ put_u8 INFO_KEY_VALUE in
    let string_kv_index := Zlen dst in
    let dst := dst ++ [x00; x00] in
    '(dst, string_kv_len) ←
       match ri_role (cx_rpc_info cx) with
       | Client => encode_client_string_kv metainfo cx (dst, 0)
       | Server => encode_server_string_kv metainfo cx (dst, 0)
       end;
    Done (patch string_kv_index (put_u16 string_kv_len) dst)
  else Done dst.

(** The [Role::Client] arm of the integer section. *)
Definition encode_client_int_kv (cx : RpcCx I) (st : KvState)
  : outcome ThriftException KvState :=
  let ri := cx_rpc_info cx in
  st ← put_int_kv WithHeader (str "3") st;
  st ← match cfg_rpc_timeout (ri_config ri) with
       | Some t => put_int_kv RPCTimeout (dec_of_Z (as_millis t)) st
       | None => Done st
       end;
  st ← match cfg_connect_timeout (ri_config ri) with
       | Some t => put_int_kv ConnTimeout (dec_of_Z (as_millis t)) st
       | None => Done st
       end;
  st ← put_int_kv FromService (ep_service_name (ri_caller ri)) st;
  st ← put_int_kv ToMethod (ri_method ri) st;
  st ← put_int_kv ToService (ep_service_name (ri_callee ri)) st;
  match ep_address (ri_callee ri) with
  | Some addr => put_int_kv DestAddress (address_to_string addr) st
  | None => Done st
  end.

(** The [Role::Server] arm of the integer section. *)
Definition encode_server_int_kv (cx : RpcCx I) (st : KvState)
  : outcome ThriftException KvState :=
  mt ← msg_type cx;
  put_int_kv MsgType [byte_of_Z (msg_type_to_u8 mt)] st.

(** The integer section, always present. *)
Definition encode_int_section (cx : RpcCx I) (dst : bytes) : outcome ThriftException bytes :=
  let dst := dst ++ put_u8 INFO_INT_KEY_VALUE in
  let int_kv_index := Zlen dst in
  let dst := dst ++ [x00; x00] in
  '(dst, int_kv_len) ←
     match ri_role (cx_rpc_info cx) with
     | Server => encode_server_int_kv cx (dst, 0)
     | Client => encode_client_int_kv cx (dst, 0)
     end;
  Done (patch int_kv_index (put_u16 int_kv_len) dst).

(** Padding, the header length in words and the total length. *)
Definition encode_lengths (zero_index size : Z) (dst : bytes) : outcome ThriftException bytes :=
  let overflow := (Zlen dst - 14 - zero_index) mod 4 in
  let padding := (4 - overflow) mod 4 in
  let dst := dst ++ replicate (Z.to_nat padding) x00 in
  let header_size := Zlen dst - zero_index in
  let written_header_size := (header_size - 14) / 4 in
  if bool_decide (written_header_size < 2 ^ 16) then
    let dst := patch (zero_index + 12) (put_u16 written_header_size) dst in
    size ← checked 64 (header_size + size);
    if bool_decide (size - 4 < 2 ^ 32) then
      Done (patch zero_index (put_u32 (size - 4)) dst)
    else
      Fail (ProtocolException SizeLimit
              (str "ttheader size " ++ dec_of_Z size ++ str " overflows u32"))
  else
    Fail (ProtocolException SizeLimit
            (str "ttheader header size " ++ dec_of_Z written_header_size ++ str " overflows u16")).

(** The fixed fields: 4 bytes of length, magic, flags, sequence id, 2 bytes of
    header length, protocol id, number of transforms. Reserved length bytes
    are zero until they are patched. *)
Definition encode_fixed (cx : RpcCx I) (dst : bytes) : bytes :=
  let protocol_id := default Binary (ext_protocol_id (cx_extensions cx)) in
  dst ++ [x00; x00; x00; x00]
      ++ put_u16 TT_HEADER_MAGIC
      ++ put_u16 0
      ++ put_u32 (seq_id cx)
      ++ [x00; x00]
      ++ put_u8 (protocol_id_to_u8 protocol_id)
      ++ put_u8 0.

(** [encode]. *)
Definition encode (metainfo : MetaInfo) (cx : RpcCx I) (dst : bytes) (size : Z)
  : outcome ThriftException bytes :=
  let zero_index := Zlen dst in
  let dst := encode_fixed cx dst in
  dst ← encode_string_section metainfo cx dst;
  dst ← encode_int_section cx dst;
  encode_lengths zero_index size dst.

End Encode.

(** * Size *)

Section EncodeSize.
Context `{TTHeaderEnv} `{AddrText} {I : Type} `{ThriftContext I}.

(** The size of the entries of one metainfo map. *)
Definition kv_map_size (prefix : bytes) (kvs : list (bytes * bytes)) (len : Z) : Z :=
  fold_left (fun len '(key, value) => len + 2 + (Zlen prefix + Zlen key) + 2 + Zlen value) kvs len.

Definition size_client_string_kv (metainfo : MetaInfo) (cx : RpcCx I) (len : Z) : Z :=
  let len := match get_all_persistents metainfo with
             | Some ap => kv_map_size RPC_PREFIX_PERSISTENT ap len
             | None => len
             end in
  let len := match get_all_transients metainfo with
             | Some at_ => kv_map_size RPC_PREFIX_TRANSIENT at_ len
             | None => len
             end in
  match idl_service_name cx with
  | Some isn => len + 2 + Zlen HEADER_IDL_SERVICE_NAME + 2 + Zlen isn
  | None => len
  end.

(** The biz-error entries; the JSON text of [extra] is cached in the
    extensions for [encode]. *)
Definition size_biz_error (cx : RpcCx I) (e : BizError) (len : Z)
  : outcome ThriftException (RpcCx I * Z) :=
  let len := len + 2 + Zlen TT_HEADER_BIZ_STATUS_KEY + 2 + Zlen (dec_of_int (be_status_code e)) in
  let len := len + 2 + Zlen TT_HEADER_BIZ_MESSAGE_KEY + 2 + Zlen (be_status_message e) in
  match be_extra e with
  | Some extra =>
      s ← unwrap (json_to_string extra);
      Done (RpcCx.extensions_mut (Extensions.insert_biz_error_extra s) cx,
            len + 2 + Zlen TT_HEADER_BIZ_EXTRA_KEY + 2 + Zlen s)
  | None => Done (cx, len)
  end.

Definition size_server_string_kv (metainfo : MetaInfo) (cx : RpcCx I) (len : Z)
  : outcome ThriftException (RpcCx I * Z) :=
  let len := match get_all_backward_transients metainfo with
             | Some at_ => kv_map_size RPC_PREFIX_BACKWARD at_ len
             | None => len
             end in
  let len := if encode_conn_reset cx
             then len + 2 + Zlen (str "crrst") + 2 + Zlen (str "1") else len in
  match biz_error (stats cx) with
  | Some e => size_biz_error cx e len
  | None => Done (cx, len)
  end.

(** The section test of [encode_size]; unlike {!has_string_kv}, the server
    arm does not look at the biz error. *)
Definition size_has_string_kv (metainfo : MetaInfo) (cx : RpcCx I) : bool :=
  match ri_role (cx_rpc_info cx) with
  | Client =>
      bool_decide (is_Some (get_all_persistents metainfo))
      || bool_decide (is_Some (get_all_transients metainfo))
      || bool_decide (is_Some (idl_service_name cx))
  | Server =>
      bool_decide (is_Some (get_all_backward_transients metainfo)) || encode_conn_reset cx
  end.

Definition size_client_int_kv (cx : RpcCx I) (len : Z) : Z :=
  let ri := cx_rpc_info cx in
  let len := len + 2 + 2 + Zlen (str "3") in
  let len := match cfg_rpc_timeout (ri_config ri) with
             | Some t => len + 2 + 2 + Zlen (dec_of_Z (as_millis t)) | None => len end in
  let len := match cfg_connect_timeout (ri_config ri) with
             | Some t => len + 2 + 2 + Zlen (dec_of_Z (as_millis t)) | None => len end in
  let len := len + 2 + 2 + Zlen (ep_service_name (ri_caller ri)) in
  let len := len + 2 + 2 + Zlen (ri_method ri) in
  let len := len + 2 + 2 + Zlen (ep_service_name (ri_callee ri)) in
  match ep_address (ri_callee ri) with
  | Some addr => len + 2 + 2 + Zlen (address_to_string addr)
  | None => len
  end.

(** [encode_size]. *)
Definition encode_size (metainfo : MetaInfo) (cx : RpcCx I)
  : outcome ThriftException (RpcCx I * Z) :=
  let len := 4 + 2 + 2 + 4 + 2 + 1 + 1 in
  '(cx, len) ←
     (if size_has_string_kv metainfo cx then
        let len := len + 1 + 2 in
        match ri_role (cx_rpc_info cx) with
        | Client => Done (cx, size_client_string_kv metainfo cx len)
        | Server => size_server_string_kv metainfo cx len
        end
      else Done (cx, len));
  let len := len + 1 + 2 in
  len ← match ri_role (cx_rpc_info cx) with
        | Server =>
            mt ← msg_type cx;
            Done (len + 2 + 2 + Zlen [byte_of_Z (msg_type_to_u8 mt)])
        | Client => Done (size_client_int_kv cx len)
        end;
  let overflow := (len - 14) mod 4 in
  let padding := (4 - overflow) mod 4 in
  Done (cx, len + padding).

End EncodeSize.

(** * Decoding *)

Section Decode.
Context `{BuildProfile} `{TTHeaderEnv} `{AddrText} {I : Type} `{ThriftContext I}.

(** The state of the header loop: unread input, [remaining_header_size] and
    the two maps. *)
Record DecState : Type := mkDec {
  ds_src : bytes;
  ds_remaining : Z;
  ds_headers : gmap bytes bytes;
  ds_int_headers : gmap IntMetaKey bytes;
}.

(** [remaining_header_size -= n]. *)
Definition consume_header (n : Z) (d : DecState) : outcome ThriftException DecState :=
  r ← usize_sub (ds_remaining d) n;
  Done (mkDec (ds_src d) r (ds_headers d) (ds_int_headers d)).

Definition with_src (src : bytes) (d : DecState) : DecState :=
  mkDec src (ds_remaining d) (ds_headers d) (ds_int_headers d).

(** One entry of an [INFO_KEY_VALUE] section. *)
Definition decode_string_entry (d : DecState) : outcome ThriftException DecState :=
  d ← consume_header 2 d;
  '(key_len, src) ← get_u16 (ds_src d);
  d ← consume_header key_len (with_src src d);
  '(key, src) ← split_to key_len (ds_src d);
  d ← consume_header 2 (with_src src d);
  '(value_len, src) ← get_u16 (ds_src d);
  d ← consume_header value_len (with_src src d);
  '(value, src) ← split_to value_len (ds_src d);
  Done (mkDec src (ds_remaining d) (<[key := value]> (ds_headers d)) (ds_int_headers d)).

(** One entry of an [INFO_INT_KEY_VALUE] section; an unknown key is skipped. *)
Definition decode_int_entry (d : DecState) : outcome ThriftException DecState :=
  d ← consume_header 4 d;
  '(key, src) ← get_u16 (ds_src d);
  let d := with_src src d in
  '(value_len, src) ← get_u16 (ds_src d);
  d ← consume_header value_len (with_src src d);
  '(value, src) ← split_to value_len (ds_src d);
  match int_meta_key_from_u16 key with
  | Some k => Done (mkDec src (ds_remaining d) (ds_headers d) (<[k := value]> (ds_int_headers d)))
  | None => Done (with_src src d)
  end.

(** [for _ in 0..n]. *)
Fixpoint repeatM {S} (n : nat) (f : S -> outcome ThriftException S) (s : S)
  : outcome ThriftException S :=
  match n with
  | O => Done s
  | S m => s' ← f s; repeatM m f s'
  end.

(** The [match info_id] of the header loop. *)
Definition decode_info_body (info_id : Z) (d : DecState) : outcome ThriftException DecState :=
  if bool_decide (info_id = INFO_PADDING) then Done d
  else if bool_decide (info_id = INFO_KEY_VALUE) then
    d ← consume_header 2 d;
    '(kv_size, src) ← get_u16 (ds_src d);
    repeatM (Z.to_nat kv_size) decode_string_entry (with_src src d)
  else if bool_decide (info_id = INFO_INT_KEY_VALUE) then
    d ← consume_header 2 d;
    '(kv_size, src) ← get_u16 (ds_src d);
    repeatM (Z.to_nat kv_size) decode_int_entry (with_src src d)
  else if bool_decide (info_id = ACL_TOKEN_KEY_VALUE) then
    d ← consume_header 2 d;
    '(token_len, src) ← get_u16 (ds_src d);
    d ← consume_header token_len (with_src src d);
    '(_, src) ← split_to token_len (ds_src d);
    Done (with_src src d)
  else
    Fail (ProtocolException InvalidData
            (str "unexpected info id in ttheader: " ++ dec_of_Z info_id)).

(** One iteration of the [while remaining_header_size > 0] loop. *)
Definition decode_info (d : DecState) : outcome ThriftException DecState :=
  d ← consume_header 1 d;
  '(info_id, src) ← get_u8 (ds_src d);
  decode_info_body info_id (with_src src d).

(** The header loop; every iteration reads at least one byte. *)
Fixpoint decode_infos (fuel : nat) (d : DecState) : outcome ThriftException DecState :=
  match fuel with
  | O => OutOfFuel
  | S fuel' =>
      if bool_decide (0 < ds_remaining d)
      then d' ← decode_info d; decode_infos fuel' d'
      else Done d
  end.

(** [HashMap::remove]. *)
Definition hash_remove {K V} `{Countable K} (k : K) (m : gmap K V) : option V * gmap K V :=
  (m !! k, delete k m).

(** [set_biz_error_header]. *)
Definition set_biz_error_header (cx : RpcCx I) (headers : gmap bytes bytes)
  : RpcCx I * gmap bytes bytes :=
  let '(biz_status, headers) := hash_remove TT_HEADER_BIZ_STATUS_KEY headers in
  match biz_status with
  | None => (cx, headers)
  | Some s =>
      match parse_signed 32 s with
      | None => (cx, headers)
      | Some status_code =>
          if bool_decide (status_code = 0) then (cx, headers)
          else
            let '(msg, headers) := hash_remove TT_HEADER_BIZ_MESSAGE_KEY headers in
            let '(biz_extra, headers) := hash_remove TT_HEADER_BIZ_EXTRA_KEY headers in
            let extra := s ← biz_extra; default None (json_from_str s) in
            let e := mkBizError status_code (default [] msg) extra in
            (stats_mut (CommonStats.set_biz_error e) cx, headers)
      end
  end.

(** [maybe_addr] parsed from the "rip" header. *)
Definition parse_remote_addr (ad : bytes) : option Address := Ip <$> parse_socket_addr ad.

(** The [Role::Client] arm of [decode]. *)
Definition decode_client (cx : RpcCx I) (metainfo : MetaInfo) (headers : gmap bytes bytes)
  : outcome ThriftException (RpcCx I * MetaInfo) :=
  let '(rip, headers) := hash_remove HEADER_TRANS_REMOTE_ADDR headers in
  let cx := match rip ≫= parse_remote_addr with
            | Some addr => RpcCx.rpc_info_mut (RpcInfo.callee_mut (Endpoint.set_address addr)) cx
            | None => cx
            end in
  let '(crrst, headers) := hash_remove HEADER_CONNECTION_READY_TO_RESET headers in
  cx ← match crrst with
       | Some (_ :: _) => set_conn_reset_by_ttheader true cx
       | _ => Done cx
       end;
  let '(cx, headers) := set_biz_error_header cx headers in
  let metainfo :=
    fold_left (fun mi '(k, v) =>
      if starts_with k RPC_PREFIX_BACKWARD
      then strip_rpc_prefix_and_set_backward_downstream k v mi else mi)
      (hash_into_iter headers) metainfo in
  Done (cx, metainfo).

(** The forward metainfo loop of the [Role::Server] arm. *)
Definition set_forward_metainfo (mi : MetaInfo) (kv : bytes * bytes) : MetaInfo :=
  let '(k, v) := kv in
  if starts_with k RPC_PREFIX_PERSISTENT then strip_rpc_prefix_and_set_persistent k v mi
  else if starts_with k RPC_PREFIX_TRANSIENT then strip_rpc_prefix_and_set_upstream k v mi
  else mi.

(** The [Role::Server] arm of [decode]. *)
Definition decode_server (cx : RpcCx I) (metainfo : MetaInfo)
    (headers : gmap bytes bytes) (int_headers : gmap IntMetaKey bytes)
  : RpcCx I * MetaInfo :=
  let '(isn, headers) := hash_remove HEADER_IDL_SERVICE_NAME headers in
  let cx := match isn with Some isn => set_idl_service_name isn cx | None => cx end in
  let '(from_service, int_headers) := hash_remove FromService int_headers in
  let '(cx, headers) :=
    match from_service with
    | Some s =>
        let cx := RpcCx.rpc_info_mut (RpcInfo.caller_mut (Endpoint.set_service_name s)) cx in
        let '(rip, headers) := hash_remove HEADER_TRANS_REMOTE_ADDR headers in
        match rip ≫= parse_remote_addr with
        | Some addr =>
            (RpcCx.rpc_info_mut (RpcInfo.caller_mut (Endpoint.set_address addr)) cx, headers)
        | None => (cx, headers)
        end
    | None => (cx, headers)
    end in
  let '(to_service, int_headers) := hash_remove ToService int_headers in
  let cx := match to_service with
            | Some s => RpcCx.rpc_info_mut (RpcInfo.callee_mut (Endpoint.set_service_name s)) cx
            | None => cx
            end in
  let cx := match (int_headers !! RPCTimeout) ≫= parse_unsigned 64 with
            | Some ms => RpcCx.rpc_info_mut
                (RpcInfo.config_mut (Config.set_rpc_timeout (Some (from_millis ms)))) cx
            | None => cx
            end in
  (cx, fold_left set_forward_metainfo (hash_into_iter headers) metainfo).

(** The first half of [decode]: the fixed fields after the length, the
    transform ids and the header loop. *)
Definition decode_header (src : bytes) : outcome ThriftException (ProtocolId * DecState) :=
  '(_, src) ← get_u16 src;
  '(_, src) ← get_u16 src;
  '(_, src) ← get_u32 src;
  '(header_size, src) ← get_u16 src;
  '(protocol_id, src) ← get_u8 src;
  match protocol_id_from_u8 protocol_id with
  | None =>
      Fail (ProtocolException BadVersion
              (str "unknown protocol id: " ++ dec_of_Z protocol_id ++ str " in ttheader"))
  | Some p =>
      '(transform_ids_num, src) ← get_u8 src;
      '(_, src) ← (if bool_decide (0 < transform_ids_num)
                   then split_to transform_ids_num src else Done ([], src));
      remaining ← usize_sub (header_size * 4) 2;
      remaining ← usize_sub remaining transform_ids_num;
      d ← decode_infos (S (length src)) (mkDec src remaining ∅ ∅);
      Done (p, d)
  end.

(** [decode]: the header, then the part that depends on the role. Returns the
    context, the metainfo and the unread input (the payload). *)
Definition decode (cx : RpcCx I) (metainfo : MetaInfo) (src : bytes)
  : outcome ThriftException (RpcCx I * MetaInfo * bytes) :=
  '(p, d) ← decode_header src;
  let cx := RpcCx.extensions_mut (Extensions.insert_protocol_id p) cx in
  match ri_role (cx_rpc_info cx) with
  | Client =>
      '(cx, metainfo) ← decode_client cx metainfo (ds_headers d);
      Done (cx, metainfo, ds_src d)
  | Server =>
      let '(cx, metainfo) := decode_server cx metainfo (ds_headers d) (ds_int_headers d) in
      Done (cx, metainfo, ds_src d)
  end.

End Decode.
