(* ===== verification/TTHeaderDecode.v ===== *)
(** Facts about the TTHeader decoder: the header loop terminates, consumes
    exactly the declared header whatever the build profile, and never runs
    past the input. *)

From S2P Require Import Prelude Net Context TTHeader.

Section DecodeFacts.
Context `{BuildProfile} `{TTHeaderEnv} `{AddrText} {I : Type} `{ThriftContext I}.

(** [remaining_header_size] minus the unread input, modulo [2^64]: what every
    complete read keeps. [bal d d' n]: from [d] to [d'] the loop gave up [n]
    more from the counter than it read. *)
Definition bal (d d' : DecState) (n : Z) : Prop :=
  (exists hd, ds_src d = hd ++ ds_src d') /\
  (0 <= ds_remaining d -> 0 <= ds_remaining d') /\
  exists k, ds_remaining d - Zlen (ds_src d)
          = ds_remaining d' - Zlen (ds_src d') + n + k * 2 ^ 64.

Lemma bal_refl d : bal d d 0.
Proof. split_and!; [by exists []|done|]. exists 0. lia. Qed.

Lemma bal_trans d1 d2 d3 n m : bal d1 d2 n -> bal d2 d3 m -> bal d1 d3 (n + m).
Proof.
  intros [[h1 E1] [? [k1 H1']]] [[h2 E2] [? [k2 H2']]]. split_and!.
  - exists (h1 ++ h2). by rewrite E1, E2, app_assoc.
  - auto.
  - exists (k1 + k2). lia.
Qed.

Lemma consume_header_bal n d d' : consume_header n d = Done d' -> bal d d' n.
Proof.
  unfold consume_header, usize_sub. intros Hc. done_inv.
  match goal with Hx : checked _ _ = Done _ |- _ =>
    apply checked_inv in Hx as [? [k Hk]]; [|lia] end.
  split_and!; [by exists []|cbn; lia|]. exists (- k). cbn. lia.
Qed.

Lemma with_src_bal hd src d : ds_src d = hd ++ src -> bal d (with_src src d) (- Zlen hd).
Proof.
  intros E. split_and!; [by exists hd|done|]. exists 0. cbn. rewrite E, Zlen_app. lia.
Qed.

Lemma bal_ext d d' d'' n :
  ds_src d' = ds_src d'' -> ds_remaining d' = ds_remaining d'' -> bal d d' n -> bal d d'' n.
Proof. unfold bal. intros -> ->. done. Qed.

Lemma get_be_bal n z src d :
  get_be n (ds_src d) = @Done ThriftException _ (z, src) ->
  0 <= z /\ bal d (with_src src d) (- Z.of_nat n).
Proof.
  intros (hd & E & <- & ->)%get_be_inv. split; [apply be_decode_range|].
  by apply with_src_bal.
Qed.

Lemma split_to_bal n hd src d :
  0 <= n -> split_to n (ds_src d) = @Done ThriftException _ (hd, src) ->
  bal d (with_src src d) (- n).
Proof.
  intros Hn [E Hl]%split_to_inv. rewrite Z.max_r in Hl by done. rewrite <- Hl.
  by apply with_src_bal.
Qed.

(** Collects the balance of every step of a computation and adds them up. *)
Ltac balance :=
  done_inv;
  repeat match goal with
  | Hx : consume_header _ _ = Done _ |- _ => apply consume_header_bal in Hx
  | Hx : get_u16 (ds_src _) = Done _ |- _ => apply get_be_bal in Hx as [? Hx]
  | Hx : get_u8 (ds_src _) = Done _ |- _ => apply get_be_bal in Hx as [? Hx]
  | Hx : split_to _ (ds_src _) = Done _ |- _ => apply split_to_bal in Hx; [|done]
  end.

Lemma bal_step d d1 d' n m : bal d d1 n -> bal d1 d' (m - n) -> bal d d' m.
Proof. intros H1' H2'. replace m with (n + (m - n)) by lia. by eapply bal_trans. Qed.

(** Closes a balance goal by walking the collected steps in order. *)
Ltac chain :=
  repeat (eapply bal_step; [eassumption|]);
  eapply bal_ext; [..|replace (_ - _) with 0 by lia; apply bal_refl]; done.

Lemma consume_header_src n d d' : consume_header n d = Done d' -> ds_src d' = ds_src d.
Proof. unfold consume_header. intros Hc. by done_inv. Qed.

Lemma bal_length d d' n : bal d d' n -> (length (ds_src d') <= length (ds_src d))%nat.
Proof. intros [[hd ->] _]. rewrite length_app. lia. Qed.

Lemma decode_string_entry_bal d d' : decode_string_entry d = Done d' -> bal d d' 0.
Proof.
  unfold decode_string_entry. intros Hd. balance. chain.
Qed.

Lemma decode_int_entry_bal d d' : decode_int_entry d = Done d' -> bal d d' 0.
Proof.
  unfold decode_int_entry. intros Hd. balance.
  destruct (int_meta_key_from_u16 _); balance; chain.
Qed.

Lemma repeatM_bal (f : DecState -> outcome ThriftException DecState) n d d' :
  (forall d d', f d = Done d' -> bal d d' 0) -> repeatM n f d = Done d' -> bal d d' 0.
Proof.
  intros Hf. revert d. induction n as [|n IH]; intros d Hr; cbn in Hr; done_inv.
  - apply bal_refl.
  - eapply bal_step; [by apply Hf|]. by apply IH.
Qed.

Lemma decode_info_body_bal info_id d d' : decode_info_body info_id d = Done d' -> bal d d' 0.
Proof.
  unfold decode_info_body. intros Hd.
  repeat case_bool_decide; balance; first [apply bal_refl | chain | idtac];
    repeat (eapply bal_step; [eassumption|]);
    (eapply repeatM_bal; [|eassumption]);
    auto using decode_string_entry_bal, decode_int_entry_bal.
Qed.

(** One iteration keeps the balance and reads at least one byte. *)
Lemma decode_info_bal d d' :
  decode_info d = Done d' -> bal d d' 0 /\ (length (ds_src d') < length (ds_src d))%nat.
Proof.
  unfold decode_info. intros Hd. done_inv. apply decode_info_body_bal in Hd. split.
  - balance. chain.
  - apply bal_length in Hd. cbn in Hd.
    match goal with Hx : consume_header _ _ = Done _ |- _ =>
      apply consume_header_src in Hx; rewrite <- Hx end.
    match goal with Hx : get_u8 _ = Done _ |- _ =>
      apply get_be_inv in Hx as (hd & -> & Hl & _); rewrite length_app; lia end.
Qed.

Lemma decode_infos_bal fuel d d' :
  0 <= ds_remaining d -> decode_infos fuel d = Done d' -> bal d d' 0 /\ ds_remaining d' = 0.
Proof.
  revert d. induction fuel as [|f IH]; intros d Hr Hd; cbn in Hd; [done|].
  case_bool_decide.
  - done_inv. destruct (decode_info_bal _ _ ltac:(eassumption)) as [Hb _].
    apply IH in Hd as [Hb' Hz]; [|by apply Hb].
    split; [|done]. by eapply bal_step.
  - done_inv. split; [apply bal_refl|lia].
Qed.

(** * Termination *)

Lemma halts_consume_header n d : halts (consume_header n d).
Proof. unfold consume_header, usize_sub. halts. Qed.

Lemma halts_repeatM {S} n (f : S -> outcome ThriftException S) s :
  (forall s, halts (f s)) -> halts (repeatM n f s).
Proof. intros Hf. revert s. induction n; intros s; cbn; halts. Qed.

#[local] Hint Resolve halts_consume_header : volo_halts.

Lemma halts_string_entry d : halts (decode_string_entry d).
Proof. unfold decode_string_entry. halts. Qed.

Lemma halts_int_entry d : halts (decode_int_entry d).
Proof. unfold decode_int_entry. halts. Qed.

#[local] Hint Resolve halts_string_entry halts_int_entry halts_repeatM : volo_halts.

Lemma halts_decode_info d : halts (decode_info d).
Proof. unfold decode_info, decode_info_body. halts. Qed.

Lemma halts_decode_infos fuel d :
  (length (ds_src d) < fuel)%nat -> halts (decode_infos fuel d).
Proof.
  revert d. induction fuel as [|f IH]; intros d Hf; cbn; [lia|].
  case_bool_decide; [|done].
  apply halts_bind; [apply halts_decode_info|]. intros d' Hd.
  apply decode_info_bal in Hd as [_ Hl]. apply IH. lia.
Qed.

(** [decode] terminates on every input: the fuel given to the header loop
    (one more than the unread bytes) is never exhausted. *)
Theorem decode_terminates `{!ThriftContextLaws I} cx mi src : halts (decode cx mi src).
Proof.
  assert (forall cx mi hs, halts (decode_client (I := I) cx mi hs)) as Hc.
  { intros cx' mi' hs. unfold decode_client, hash_remove.
    destruct (hs !! HEADER_TRANS_REMOTE_ADDR); cbn; halts; apply conn_reset_halts. }
  unfold decode, decode_header, usize_sub. halts. apply halts_decode_infos. cbn. lia.
Qed.

(** * What a successful decode reads *)

(** The transform ids and the header loop: the counter starts at the declared
    size and the loop stops when it is spent. *)
Lemma decode_infos_consumes header_size tnum src0 d :
  0 <= header_size < 2 ^ 16 -> Zlen src0 < 2 ^ 63 ->
  forall r1 r2 t src1,
  (if bool_decide (0 < tnum) then split_to tnum src0 else Done ([], src0))
    = @Done ThriftException _ (t, src1) ->
  0 <= tnum ->
  usize_sub (header_size * 4) 2 = @Done ThriftException _ r1 ->
  usize_sub r1 tnum = @Done ThriftException _ r2 ->
  decode_infos (S (length src1)) (mkDec src1 r2 ∅ ∅) = Done d ->
  exists hd, src0 = hd ++ ds_src d /\ Zlen hd = header_size * 4 - 2.
Proof.
  intros Hh Hl r1 r2 t src1 Ht Htn H1' H2' Hd.
  assert (src0 = t ++ src1 /\ Zlen t = tnum) as [-> Hzt].
  { case_bool_decide.
    - apply split_to_inv in Ht as [-> Hz]. split; [done|]. lia.
    - done_inv. unfold Zlen. cbn. split; [done|]. lia. }
  unfold usize_sub in *.
  apply checked_inv in H1' as [? [k1 E1]]; [|lia].
  apply checked_inv in H2' as [? [k2 E2]]; [|lia].
  apply decode_infos_bal in Hd as [[[hd E] [_ [k3 E3]]] Hz]; [|cbn; lia].
  cbn [ds_src ds_remaining] in *. subst src1. exists (t ++ hd). split; [by rewrite <- app_assoc|].
  rewrite !Zlen_app in *. pose proof (Zlen_nonneg hd). pose proof (Zlen_nonneg (ds_src d)).
  pose proof (Zlen_nonneg t). lia.
Qed.


(** Inverts one fixed-width read at the front of a computation. *)
Ltac read_field Hd f :=
  let Hx := fresh in
  apply bind_done_inv in Hd as ([? ?] & Hx & Hd);
  apply get_be_inv in Hx as (f & -> & ? & ->).

Lemma decode_header_consumes src p d :
  Zlen src < 2 ^ 63 ->
  decode_header src = Done (p, d) ->
  exists hd, src = hd ++ ds_src d /\ Zlen hd = 10 + 4 * be_decode (take 2 (drop 8 src)).
Proof.
  intros Hl Hd. unfold decode_header in Hd.
  read_field Hd magic. read_field Hd flags. read_field Hd sequence_id.
  read_field Hd header_size. read_field Hd protocol_id.
  destruct (protocol_id_from_u8 _); [|done]. read_field Hd transform_ids_num.
  apply bind_done_inv in Hd as ([t src1] & Ht & Hd).
  apply bind_done_inv in Hd as (r1 & Hr1 & Hd).
  apply bind_done_inv in Hd as (r2 & Hr2 & Hd).
  apply bind_done_inv in Hd as (d1 & Hd1 & Hd). injection Hd as -> ->.
  rewrite !Zlen_app in Hl.
  assert (0 <= be_decode header_size < 2 ^ 16) as Hs.
  { pose proof (be_decode_range header_size) as Hb. unfold Zlen in Hb.
    match goal with Hx : length header_size = _ |- _ => rewrite Hx in Hb end. exact Hb. }
  edestruct (fun Hl => decode_infos_consumes _ _ _ _ Hs Hl _ _ _ _ Ht
               (proj1 (be_decode_range _)) Hr1 Hr2 Hd1) as (h & -> & Hh).
  { unfold Zlen in *. lia. }
  exists (magic ++ flags ++ sequence_id ++ header_size ++ protocol_id
              ++ transform_ids_num ++ h).
  split; [by rewrite <- !app_assoc|]. rewrite !Zlen_app.
  destruct magic as [|? [|? [|]]], flags as [|? [|? [|]]],
    sequence_id as [|? [|? [|? [|? [|]]]]], header_size as [|? [|? [|]]]; try done.
  cbn [app drop take firstn skipn]. rewrite take_0. unfold Zlen in *. cbn [length]. lia.
Qed.

(** whatever the build profile (checked or wrapping [usize] subtraction), a
    successful [decode] has consumed exactly the ten fixed bytes and the
    [4 * header_size] bytes the header declares, so the payload handed to the
    inner decoder starts where the sender put it. *)
Theorem decode_consumes_declared_header cx mi src cx' mi' rest :
  Zlen src < 2 ^ 63 ->
  decode cx mi src = Done (cx', mi', rest) ->
  exists hd, src = hd ++ rest /\ Zlen hd = 10 + 4 * be_decode (take 2 (drop 8 src)).
Proof.
  intros Hl Hd. unfold decode in Hd.
  apply bind_done_inv in Hd as ([p d] & Hh & Hd).
  apply decode_header_consumes in Hh as (hd & E & Hz); [|done].
  exists hd. split; [|done]. rewrite E at 1. f_equal.
  destruct (ri_role _).
  - by apply bind_done_inv in Hd as ([??] & _ & [= _ _ <-]).
  - destruct (decode_server _ _ _ _). by injection Hd as _ _ <-.
Qed.
End DecodeFacts.
