(* ===== verification/TTHeaderEncode.v ===== *)
(** Facts about the TTHeader encoder: its byte layout, and the agreement of
    [encode_size] with [encode]. *)

From S2P Require Import Prelude Net Context TTHeader.

(** The bytes of one string entry and of one integer entry. *)
Definition kv_bytes (kv : bytes * bytes) : bytes :=
  put_u16 (Zlen kv.1) ++ kv.1 ++ put_u16 (Zlen kv.2) ++ kv.2.

Definition int_kv_bytes (kv : IntMetaKey * bytes) : bytes :=
  put_u16 (int_meta_key_to_u16 kv.1) ++ put_u16 (Zlen kv.2) ++ kv.2.

Lemma Zlen_kv_bytes kv : Zlen (kv_bytes kv) = 2 + Zlen kv.1 + 2 + Zlen kv.2.
Proof. unfold kv_bytes. zlen. Qed.

Lemma Zlen_int_kv_bytes kv : Zlen (int_kv_bytes kv) = 2 + 2 + Zlen kv.2.
Proof. unfold int_kv_bytes. zlen. Qed.

(** [emits es st st']: the entries [es] were appended to the buffer and
    counted (modulo the width of the counter). *)
Definition emits (es : list bytes) (st st' : bytes * Z) : Prop :=
  st'.1 = st.1 ++ concat es /\ exists k, st'.2 = st.2 + Zlen es + k * 2 ^ 16.

Lemma emits_nil st : emits [] st st.
Proof. split; [by rewrite app_nil_r|]. exists 0. rewrite Zlen_nil. lia. Qed.

Lemma emits_app es1 es2 st1 st2 st3 :
  emits es1 st1 st2 -> emits es2 st2 st3 -> emits (es1 ++ es2) st1 st3.
Proof.
  intros [E1 [k1 H1]] [E2 [k2 H2]]. split.
  - by rewrite E2, E1, concat_app, app_assoc.
  - exists (k1 + k2). rewrite Zlen_app. lia.
Qed.

Section Entries.
Context `{TTHeaderEnv} `{AddrText} {I : Type} `{ThriftContext I}.

Definition prefixed (p : bytes) (kvs : option (list (bytes * bytes))) : list (bytes * bytes) :=
  (fun kv => (p ++ kv.1, kv.2)) <$> default [] kvs.

(** The entries a client writes in the string section. *)
Definition client_entries (mi : MetaInfo) (cx : RpcCx I) : list (bytes * bytes) :=
  prefixed RPC_PREFIX_PERSISTENT (get_all_persistents mi)
  ++ prefixed RPC_PREFIX_TRANSIENT (get_all_transients mi)
  ++ match idl_service_name cx with
     | Some isn => [(HEADER_IDL_SERVICE_NAME, isn)] | None => [] end.

(** The text of a biz error's extra map: the cached one, or a fresh one. *)
Definition extra_text (cx : RpcCx I) (e : BizError) : option bytes :=
  extra ← be_extra e;
  match ext_biz_error_extra (cx_extensions cx) with
  | Some x => Some x
  | None => json_to_string extra
  end.

Definition biz_entries (cx : RpcCx I) (e : BizError) : list (bytes * bytes) :=
  [(TT_HEADER_BIZ_STATUS_KEY, dec_of_int (be_status_code e));
   (TT_HEADER_BIZ_MESSAGE_KEY, be_status_message e)]
  ++ match extra_text cx e with
     | Some x => [(TT_HEADER_BIZ_EXTRA_KEY, x)] | None => [] end.

(** The entries a server writes in the string section. *)
Definition server_entries (mi : MetaInfo) (cx : RpcCx I) : list (bytes * bytes) :=
  prefixed RPC_PREFIX_BACKWARD (get_all_backward_transients mi)
  ++ (if encode_conn_reset cx then [(str "crrst", str "1")] else [])
  ++ match biz_error (stats cx) with Some e => biz_entries cx e | None => [] end.

Definition string_entries (mi : MetaInfo) (cx : RpcCx I) : list (bytes * bytes) :=
  match ri_role (cx_rpc_info cx) with
  | Client => client_entries mi cx | Server => server_entries mi cx end.

(** The entries of the integer section. *)
Definition client_int_entries (cx : RpcCx I) : list (IntMetaKey * bytes) :=
  let ri := cx_rpc_info cx in
  [(WithHeader, str "3")]
  ++ match cfg_rpc_timeout (ri_config ri) with
     | Some t => [(RPCTimeout, dec_of_Z (as_millis t))] | None => [] end
  ++ match cfg_connect_timeout (ri_config ri) with
     | Some t => [(ConnTimeout, dec_of_Z (as_millis t))] | None => [] end
  ++ [(FromService, ep_service_name (ri_caller ri)); (ToMethod, ri_method ri);
      (ToService, ep_service_name (ri_callee ri))]
  ++ match ep_address (ri_callee ri) with
     | Some a => [(DestAddress, address_to_string a)] | None => [] end.

End Entries.

Section EncodeFacts.
Context `{BuildProfile} `{TTHeaderEnv} `{AddrText} {I : Type} `{ThriftContext I}.

Lemma put_string_kv_emits p st kv st' :
  put_string_kv p st kv = Done st' -> emits [kv_bytes (p ++ kv.1, kv.2)] st st'.
Proof.
  destruct st as [dst n], kv as [k v]. cbn. intros Hp.
  apply bind_done_inv in Hp as (m & Hm & [= <-]).
  unfold u16_succ in Hm. apply checked_inv in Hm as [_ [j ->]]; [|lia].
  split; cbn.
  - unfold kv_bytes. cbn. by rewrite Zlen_app, app_nil_r, <- !app_assoc.
  - exists j. unfold Zlen. cbn. lia.
Qed.

Lemma put_int_kv_emits k v st st' :
  put_int_kv k v st = Done st' -> emits [int_kv_bytes (k, v)] st st'.
Proof.
  destruct st as [dst n]. cbn. intros Hp.
  apply bind_done_inv in Hp as (m & Hm & [= <-]).
  unfold u16_succ in Hm. apply checked_inv in Hm as [_ [j ->]]; [|lia].
  split; cbn; [by rewrite app_nil_r|]. exists j. unfold Zlen. cbn. lia.
Qed.

Lemma foldM_put_emits p kvs st st' :
  foldM (put_string_kv p) kvs st = Done st' ->
  emits (kv_bytes <$> prefixed p (Some kvs)) st st'.
Proof.
  revert st. induction kvs as [|kv kvs IH]; intros st Hf; cbn in *.
  - done_inv. apply emits_nil.
  - apply bind_done_inv in Hf as (st1 & H1' & H2').
    apply (emits_app [_]) with st1; [by apply put_string_kv_emits|by apply IH].
Qed.

Lemma opt_foldM_emits p o st st' :
  match o with Some kvs => foldM (put_string_kv p) kvs st | None => Done st end = Done st' ->
  emits (kv_bytes <$> prefixed p o) st st'.
Proof.
  destruct o; [apply foldM_put_emits|]. intros [= ->]. apply emits_nil.
Qed.

Lemma encode_client_emits mi cx st st' :
  encode_client_string_kv mi cx st = Done st' ->
  emits (kv_bytes <$> client_entries (I := I) mi cx) st st'.
Proof.
  unfold encode_client_string_kv, client_entries. intros He.
  apply bind_done_inv in He as (st1 & H1' & He).
  apply bind_done_inv in He as (st2 & H2' & H3').
  rewrite !fmap_app. apply emits_app with st1; [by apply opt_foldM_emits|].
  apply emits_app with st2; [by apply opt_foldM_emits|].
  destruct (idl_service_name cx); [by apply put_string_kv_emits in H3'|].
  done_inv. apply emits_nil.
Qed.

Lemma encode_biz_error_emits cx e st st' :
  encode_biz_error cx e st = Done st' ->
  emits (kv_bytes <$> biz_entries (I := I) cx e) st st' /\
  (be_extra e <> None -> extra_text cx e <> None).
Proof.
  unfold encode_biz_error, biz_entries, extra_text. intros He.
  apply bind_done_inv in He as (st1 & H1' & He).
  apply bind_done_inv in He as (st2 & H2' & H3').
  apply put_string_kv_emits in H1', H2'.
  destruct (be_extra e) as [extra|]; cbn.
  - apply bind_done_inv in H3' as (x & Hx & H3').
    apply put_string_kv_emits in H3'.
    assert (match ext_biz_error_extra (cx_extensions cx) with
            | Some x => Some x | None => json_to_string extra end = Some x) as ->.
    { destruct (ext_biz_error_extra _); by done_inv. }
    split; [|done].
    apply (emits_app [_] [_; _]) with st1; [done|].
    by apply (emits_app [_] [_]) with st2.
  - done_inv. split; [|done]. by apply (emits_app [_] [_]) with st1.
Qed.

Lemma encode_client_int_emits cx st st' :
  encode_client_int_kv cx st = Done st' ->
  emits (int_kv_bytes <$> client_int_entries (I := I) cx) st st'.
Proof.
  unfold encode_client_int_kv, client_int_entries. intros He.
  repeat match goal with
  | Hx : mbind _ _ = Done _ |- _ => apply bind_done_inv in Hx as (? & ? & Hx)
  | Hx : put_int_kv _ _ _ = Done _ |- _ => apply put_int_kv_emits in Hx
  | Hx : match ?o with Some _ => _ | None => _ end = Done _ |- _ => destruct o
  | Hx : Done _ = Done _ |- _ => injection Hx as ->
  end; cbn -[int_kv_bytes];
  repeat first [eassumption | eapply (emits_app [_] (_ :: _)); [eassumption|]].
Qed.

Lemma encode_server_emits mi cx st st' :
  encode_server_string_kv mi cx st = Done st' ->
  emits (kv_bytes <$> server_entries (I := I) mi cx) st st'.
Proof.
  unfold encode_server_string_kv, server_entries. intros He.
  apply bind_done_inv in He as (st1 & H1' & He).
  apply bind_done_inv in He as (st2 & H2' & H3').
  rewrite !fmap_app. apply emits_app with st1; [by apply opt_foldM_emits|].
  apply emits_app with st2.
  - destruct (encode_conn_reset cx); [by apply put_string_kv_emits in H2'|].
    done_inv. apply emits_nil.
  - destruct (biz_error (stats cx)); [by apply encode_biz_error_emits|].
    done_inv. apply emits_nil.
Qed.

(** * Byte layout *)

(** A counted section: id, entry count, entries. *)
Lemma section_patch dst id n es :
  patch (Zlen (dst ++ put_u8 id)) (put_u16 n) (((dst ++ put_u8 id) ++ [x00; x00]) ++ es)
  = dst ++ put_u8 id ++ put_u16 n ++ es.
Proof. rewrite <- app_assoc, patch_app by done. by rewrite <- app_assoc. Qed.

(** [counts n es]: the entry counter holds the number of entries, modulo its
    width. *)
Definition counts (n : Z) (es : list bytes) : Prop := exists k, n = Zlen es + k * 2 ^ 16.

Lemma encode_string_section_layout mi (cx : RpcCx I) dst dst' :
  encode_string_section mi cx dst = Done dst' ->
  let es := kv_bytes <$> string_entries mi cx in
  if has_string_kv mi cx
  then exists n, counts n es /\ dst' = dst ++ put_u8 INFO_KEY_VALUE ++ put_u16 n ++ concat es
  else dst' = dst.
Proof.
  unfold encode_string_section, string_entries. destruct (has_string_kv mi cx); [|by intros [= ->]].
  intros He. apply bind_done_inv in He as ([d n] & He & [= <-]).
  assert (emits (kv_bytes <$> match ri_role (cx_rpc_info cx) with
            | Client => client_entries mi cx | Server => server_entries mi cx end)
            ((dst ++ put_u8 INFO_KEY_VALUE) ++ [x00; x00], 0) (d, n)) as [E [k Hk]].
  { destruct (ri_role _); [by apply encode_client_emits|by apply encode_server_emits]. }
  cbn [fst snd] in *. exists n. split; [by exists k|]. rewrite E. apply section_patch.
Qed.

(** The integer entries for either role. *)
Definition int_entries (cx : RpcCx I) (mt : TMessageType) : list (IntMetaKey * bytes) :=
  match ri_role (cx_rpc_info cx) with
  | Client => client_int_entries cx
  | Server => [(MsgType, [byte_of_Z (msg_type_to_u8 mt)])]
  end.

Lemma encode_int_section_layout (cx : RpcCx I) dst dst' :
  encode_int_section cx dst = Done dst' ->
  exists mt n,
    (ri_role (cx_rpc_info cx) = Server -> @msg_type I _ ThriftException cx = Done mt) /\
    let es := int_kv_bytes <$> int_entries cx mt in
    counts n es /\ dst' = dst ++ put_u8 INFO_INT_KEY_VALUE ++ put_u16 n ++ concat es.
Proof.
  unfold encode_int_section, int_entries. intros He.
  apply bind_done_inv in He as ([d n] & He & [= <-]).
  assert (exists mt, (ri_role (cx_rpc_info cx) = Server ->
            @msg_type I _ ThriftException cx = Done mt) /\
    emits (int_kv_bytes <$> match ri_role (cx_rpc_info cx) with
            | Client => client_int_entries cx
            | Server => [(MsgType, [byte_of_Z (msg_type_to_u8 mt)])] end)
      ((dst ++ put_u8 INFO_INT_KEY_VALUE) ++ [x00; x00], 0) (d, n)) as (mt & Hmt & E & k & Hk).
  { destruct (ri_role _).
    - exists Call. split; [done|]. by apply encode_client_int_emits.
    - unfold encode_server_int_kv in He. apply bind_done_inv in He as (mt & Hmt & He).
      exists mt. split; [done|]. by apply put_int_kv_emits. }
  cbn [fst snd] in *. exists mt, n. split; [done|]. split; [by exists k|].
  rewrite E. apply section_patch.
Qed.

(** The info sections of a header. *)
Definition info_sections (mi : MetaInfo) (cx : RpcCx I) (mt : TMessageType) (ns ni : Z) : bytes :=
  (if has_string_kv mi cx
   then put_u8 INFO_KEY_VALUE ++ put_u16 ns ++ concat (kv_bytes <$> string_entries mi cx)
   else [])
  ++ put_u8 INFO_INT_KEY_VALUE ++ put_u16 ni ++ concat (int_kv_bytes <$> int_entries cx mt).

Definition header_padding (secs : bytes) : bytes :=
  replicate (Z.to_nat ((4 - (2 + Zlen secs) mod 4) mod 4)) x00.

(** The size of a header from its info sections. *)
Definition header_size (secs : bytes) : Z := 16 + Zlen secs + Zlen (header_padding secs).

Lemma Zlen_header_padding_eq secs :
  Zlen (header_padding secs) = (4 - (2 + Zlen secs) mod 4) mod 4.
Proof.
  unfold header_padding. unfold Zlen at 1. rewrite length_replicate, Z2Nat.id; [done|].
  apply Z.mod_pos_bound. lia.
Qed.

Lemma Zlen_header_padding secs :
  0 <= Zlen (header_padding secs) <= 3 /\ (2 + Zlen secs + Zlen (header_padding secs)) mod 4 = 0.
Proof.
  rewrite Zlen_header_padding_eq. set (m := 2 + Zlen secs).
  pose proof (Z.mod_pos_bound (4 - m mod 4) 4 ltac:(lia)). split; [lia|].
  rewrite Zplus_mod_idemp_r. pose proof (Z.div_mod m 4 ltac:(lia)).
  apply Z.mod_divide; [lia|]. exists (m / 4 + 1). lia.
Qed.

(** The header written in front of the payload, as one sequence of fields. *)
Definition header_bytes (cx : RpcCx I) (secs : bytes) (size : Z) : bytes :=
  put_u32 (header_size secs + size - 4)
  ++ put_u16 TT_HEADER_MAGIC ++ put_u16 0 ++ put_u32 (seq_id cx)
  ++ put_u16 ((header_size secs - 14) / 4)
  ++ put_u8 (protocol_id_to_u8 (default Binary (ext_protocol_id (cx_extensions cx))))
  ++ put_u8 0 ++ secs ++ header_padding secs.

Lemma encode_lengths_layout (cx : RpcCx I) dst secs size out :
  0 <= size < 2 ^ 63 ->
  encode_lengths (Zlen dst) size (encode_fixed cx dst ++ secs) = Done out ->
  out = dst ++ header_bytes cx secs size /\
  (header_size secs - 14) / 4 < 2 ^ 16 /\ header_size secs + size - 4 < 2 ^ 32.
Proof.
  intros Hs. unfold encode_lengths.
  replace (Zlen (encode_fixed cx dst ++ secs) - 14 - Zlen dst) with (2 + Zlen secs)
    by (unfold encode_fixed; zlen).
  fold (header_padding secs).
  replace (Zlen ((encode_fixed cx dst ++ secs) ++ header_padding secs) - Zlen dst)
    with (header_size secs) by (unfold encode_fixed, header_size; zlen).
  case_bool_decide as Hw; [|done]. intros He.
  apply bind_done_inv in He as (t & Ht & He).
  assert (t = header_size secs + size) as ->.
  { apply checked_inv in Ht as [Hr [k Ek]]; [|lia].
    pose proof (Zlen_header_padding secs). pose proof (Zlen_nonneg secs).
    assert (header_size secs < 2 ^ 20)
      by (pose proof (Z.div_mod (header_size secs - 14) 4 ltac:(lia));
          pose proof (Z.mod_pos_bound (header_size secs - 14) 4 ltac:(lia)); lia).
    unfold header_size in *. lia. }
  case_bool_decide as Ht'; [|done]. injection He as <-.
  split; [|done]. unfold encode_fixed, header_bytes.
  rewrite <- !app_assoc.
  set (pre := [x00; x00; x00; x00] ++ put_u16 TT_HEADER_MAGIC ++ put_u16 0 ++ put_u32 (seq_id cx)).
  set (post := put_u8 _ ++ _).
  transitivity (patch (Zlen dst) (put_u32 (header_size secs + size - 4))
    (patch (Zlen (dst ++ pre)) (put_u16 ((header_size secs - 14) / 4))
       ((dst ++ pre) ++ [x00; x00] ++ post))).
  { do 2 f_equal; [unfold pre; zlen|]. unfold pre. by rewrite <- !app_assoc. }
  rewrite patch_app by done. unfold pre. rewrite <- !app_assoc.
  by rewrite patch_app.
Qed.

(** Everything [encode] writes: the destination is kept, followed by one
    well-formed header whose size fields fit their widths. *)
Lemma encode_layout mi (cx : RpcCx I) dst size out :
  0 <= size < 2 ^ 63 ->
  encode mi cx dst size = Done out ->
  exists mt ns ni,
    let secs := info_sections mi cx mt ns ni in
    (ri_role (cx_rpc_info cx) = Server -> @msg_type I _ ThriftException cx = Done mt) /\
    counts ns (kv_bytes <$> string_entries mi cx) /\
    counts ni (int_kv_bytes <$> int_entries cx mt) /\
    out = dst ++ header_bytes cx secs size /\
    (header_size secs - 14) / 4 < 2 ^ 16 /\ header_size secs + size - 4 < 2 ^ 32.
Proof.
  intros Hs He. unfold encode in He.
  apply bind_done_inv in He as (d1 & H1' & He).
  apply bind_done_inv in He as (d2 & H2' & He).
  apply encode_string_section_layout in H1'.
  apply encode_int_section_layout in H2' as (mt & ni & Hmt & Hni & ->).
  unfold info_sections. destruct (has_string_kv mi cx).
  - destruct H1' as (ns & Hns & ->). exists mt, ns, ni.
    rewrite <- !app_assoc in He. rewrite <- !app_assoc.
    apply encode_lengths_layout in He; auto.
  - exists mt, (Zlen (kv_bytes <$> string_entries mi cx)), ni. subst d1.
    apply encode_lengths_layout in He; [|done]. split_and!; try apply He; auto.
    exists 0. lia.
Qed.

Lemma Zlen_header_bytes (cx : RpcCx I) secs size : Zlen (header_bytes cx secs size) = header_size secs.
Proof. unfold header_bytes, header_size. zlen. Qed.

(** The padding is determined by the length of the sections. *)
Lemma header_size_mod secs : header_size secs mod 4 = 14 mod 4.
Proof.
  destruct (Zlen_header_padding secs) as [_ Hm]. unfold header_size.
  replace (16 + Zlen secs + _) with (14 + (2 + Zlen secs + Zlen (header_padding secs))) by lia.
  rewrite <- Zplus_mod_idemp_r, Hm. done.
Qed.

(** * [encode_size] *)

Lemma Zlen_concat_kv (es : list (bytes * bytes)) :
  Zlen (concat (kv_bytes <$> es)) = foldr (fun kv n => 2 + Zlen kv.1 + 2 + Zlen kv.2 + n) 0 es.
Proof.
  induction es as [|kv es IH]; [done|]. cbn [fmap list_fmap concat foldr].
  rewrite Zlen_app, Zlen_kv_bytes, IH. lia.
Qed.

Lemma kv_map_size_spec p kvs len :
  kv_map_size p kvs len = len + Zlen (concat (kv_bytes <$> prefixed p (Some kvs))).
Proof.
  unfold kv_map_size. revert len. induction kvs as [|[k v] kvs IH]; intros len;
    [cbn -[Zlen]; rewrite Zlen_nil; lia|].
  cbn [fold_left]. rewrite IH. 
  change (prefixed p (Some ((k, v) :: kvs))) with ((p ++ k, v) :: prefixed p (Some kvs)).
  rewrite fmap_cons. cbn [concat]. rewrite Zlen_app, Zlen_kv_bytes. cbn [fst snd].
  rewrite Zlen_app. lia.
Qed.

Lemma opt_kv_map_size_spec p o len :
  match o with Some kvs => kv_map_size p kvs len | None => len end
  = len + Zlen (concat (kv_bytes <$> prefixed p o)).
Proof. destruct o; [apply kv_map_size_spec|]. cbn -[Zlen]. rewrite Zlen_nil. lia. Qed.

Lemma size_client_string_kv_spec mi (cx : RpcCx I) len :
  size_client_string_kv mi cx len = len + Zlen (concat (kv_bytes <$> client_entries mi cx)).
Proof.
  unfold size_client_string_kv, client_entries. cbv zeta. rewrite !opt_kv_map_size_spec.
  rewrite !fmap_app, !concat_app, !Zlen_app.
  destruct (idl_service_name cx); rewrite ?fmap_cons, ?fmap_nil; cbn [concat];
    rewrite ?Zlen_app, ?Zlen_kv_bytes; cbn [fst snd]; rewrite ?Zlen_nil; lia.
Qed.

Lemma size_client_int_kv_spec (cx : RpcCx I) len :
  size_client_int_kv cx len = len + Zlen (concat (int_kv_bytes <$> client_int_entries cx)).
Proof.
  unfold size_client_int_kv, client_int_entries. cbv zeta.
  rewrite !fmap_app, !concat_app, !Zlen_app.
  destruct (cfg_rpc_timeout _), (cfg_connect_timeout _), (ep_address _);
    rewrite ?fmap_cons, ?fmap_nil; cbn [concat]; rewrite ?Zlen_app, ?Zlen_int_kv_bytes;
    cbn [fst snd]; rewrite ?Zlen_nil; lia.
Qed.

Context `{!ThriftContextLaws I}.

Lemma size_biz_error_spec (cx cx' : RpcCx I) e len n :
  size_biz_error cx e len = Done (cx', n) ->
  n = len + Zlen (concat (kv_bytes <$> biz_entries cx' e)) /\
  exists f, cx' = RpcCx.extensions_mut f cx.
Proof.
  unfold size_biz_error, biz_entries, extra_text. intros Hs.
  destruct (be_extra e) as [extra|]; cbn [mbind option_bind].
  - apply bind_done_inv in Hs as (x & Hx & [= <- <-]). split; [|eauto].
    cbn [RpcCx.extensions_mut cx_extensions Extensions.insert_biz_error_extra ext_biz_error_extra].
    rewrite fmap_app, !fmap_cons, fmap_nil. cbn [concat app].
    rewrite !Zlen_app, !Zlen_kv_bytes. cbn [fst snd]. rewrite Zlen_nil. lia.
  - injection Hs as <- <-. split; [|exists (fun x => x); by destruct cx].
    rewrite app_nil_r, !fmap_cons, fmap_nil. cbn [concat].
    rewrite !Zlen_app, !Zlen_kv_bytes. cbn [fst snd]. rewrite Zlen_nil. lia.
Qed.

Lemma size_server_string_kv_spec mi (cx cx' : RpcCx I) len n :
  size_server_string_kv mi cx len = Done (cx', n) ->
  n = len + Zlen (concat (kv_bytes <$> server_entries mi cx')) /\
  exists f, cx' = RpcCx.extensions_mut f cx.
Proof.
  unfold size_server_string_kv, server_entries. cbv zeta. rewrite opt_kv_map_size_spec.
  intros Hs.
  assert (exists f, cx' = RpcCx.extensions_mut f cx) as [f Hf].
  { destruct (biz_error _); [by apply size_biz_error_spec in Hs as [_ ?]|].
    injection Hs as <- <-. exists (fun x => x). by destruct cx. }
  split; [|eauto]. rewrite !fmap_app, !concat_app, !Zlen_app.
  assert (encode_conn_reset cx' = encode_conn_reset cx) as ->
    by (subst; apply conn_reset_extensions_mut).
  assert (stats cx' = stats cx) as -> by (subst; apply stats_extensions_mut).
  assert (Zlen (concat (kv_bytes <$> [(str "crrst", str "1")])) = 10) as E10 by done.
  assert (Zlen (concat (kv_bytes <$> [])) = 0) as E0 by done.
  destruct (biz_error (stats cx)).
  - apply size_biz_error_spec in Hs as [-> _].
    destruct (encode_conn_reset cx); rewrite ?E10, ?E0; unfold Zlen; cbn; lia.
  - injection Hs as _ <-.
    destruct (encode_conn_reset cx); rewrite ?E10, ?E0; unfold Zlen; cbn; lia.
Qed.

(** A length with the padding [encode_size] adds. *)
Definition padded (len : Z) : Z := len + (4 - (len - 14) mod 4) mod 4.

Lemma padded_sections secs : padded (16 + Zlen secs) = header_size secs.
Proof.
  unfold padded, header_size. rewrite Zlen_header_padding_eq.
  by replace (16 + Zlen secs - 14) with (2 + Zlen secs) by lia.
Qed.

Lemma Zlen_info_sections mi (cx : RpcCx I) mt ns ni :
  Zlen (info_sections mi cx mt ns ni)
  = (if has_string_kv mi cx then 3 + Zlen (concat (kv_bytes <$> string_entries mi cx)) else 0)
    + 3 + Zlen (concat (int_kv_bytes <$> int_entries cx mt)).
Proof. unfold info_sections. destruct (has_string_kv mi cx); zlen. Qed.

Lemma encode_size_spec mi (cx cx' : RpcCx I) n :
  encode_size mi cx = Done (cx', n) ->
  (exists f, cx' = RpcCx.extensions_mut f cx) /\
  exists mt,
    (ri_role (cx_rpc_info cx) = Server -> @msg_type I _ ThriftException cx = Done mt) /\
    n = padded (16 + (if size_has_string_kv mi cx
                      then 3 + Zlen (concat (kv_bytes <$> string_entries mi cx')) else 0)
                + 3 + Zlen (concat (int_kv_bytes <$> int_entries cx' mt))).
Proof.
  unfold encode_size, string_entries, int_entries. intros Hs.
  apply bind_done_inv in Hs as ([cx1 len] & H1' & Hs).
  assert ((exists f, cx1 = RpcCx.extensions_mut f cx) /\
          len = 16 + (if size_has_string_kv mi cx
                      then 3 + Zlen (concat (kv_bytes <$> string_entries mi cx1)) else 0))
    as [[f Hf] ->].
  { destruct (size_has_string_kv mi cx).
    - unfold string_entries. destruct (ri_role (cx_rpc_info cx)) eqn:Er.
      + injection H1' as <- <-. rewrite Er. split; [exists (fun x => x); by destruct cx|].
        rewrite size_client_string_kv_spec. lia.
      + apply size_server_string_kv_spec in H1' as [-> [f ->]]. split; [eauto|].
        cbn [RpcCx.extensions_mut cx_rpc_info]. rewrite Er. lia.
    - injection H1' as <- <-. split; [exists (fun x => x); by destruct cx|]. lia. }
  assert (ri_role (cx_rpc_info cx1) = ri_role (cx_rpc_info cx)) as Er by (by subst).
  rewrite Er in Hs. apply bind_done_inv in Hs as (len & Hl & [= <- <-]).
  fold (padded len).
  split; [eauto|]. rewrite Er. unfold string_entries in *. rewrite Er in *.
  destruct (ri_role (cx_rpc_info cx)).
  - exists Call. split; [done|]. injection Hl as <-. rewrite size_client_int_kv_spec.
    f_equal. lia.
  - apply bind_done_inv in Hl as (mt & Hmt & [= <-]). exists mt.
    subst cx1. rewrite msg_type_extensions_mut in Hmt. split; [done|].
    change (Zlen (concat (int_kv_bytes <$> [(MsgType, [byte_of_Z (msg_type_to_u8 mt)])])))
      with 5. change (Zlen [byte_of_Z (msg_type_to_u8 mt)]) with 1.
    f_equal. lia.
Qed.

(** The context [encode_size] leaves: at most the cached text of the biz
    error's extra map is new. *)
Lemma encode_size_cx mi (cx cx' : RpcCx I) n :
  encode_size mi cx = Done (cx', n) ->
  cx' = cx \/ exists e x s, biz_error (stats cx) = Some e /\ be_extra e = Some x /\
    json_to_string x = Some s /\
    cx' = RpcCx.extensions_mut (Extensions.insert_biz_error_extra s) cx.
Proof.
  unfold encode_size. intros Hs. apply bind_done_inv in Hs as ([cx1 len] & H1' & Hs).
  apply bind_done_inv in Hs as (? & _ & [= <- _]).
  destruct (size_has_string_kv mi cx); [|injection H1' as <- _; by left].
  destruct (ri_role (cx_rpc_info cx)); [injection H1' as <- _; by left|].
  unfold size_server_string_kv, size_biz_error in H1'.
  destruct (biz_error (stats cx)) as [e|]; [|injection H1' as <- _; by left].
  destruct (be_extra e) as [ex|] eqn:Ex; [|injection H1' as <- _; by left].
  apply bind_done_inv in H1' as (s & Hs' & [= <- _]). right. exists e, ex, s.
  split_and!; try done. by destruct (json_to_string ex) as [s'|]; [injection Hs' as ->|].
Qed.

Lemma has_string_kv_extensions mi f (cx : RpcCx I) :
  has_string_kv mi (RpcCx.extensions_mut f cx) = has_string_kv mi cx.
Proof.
  unfold has_string_kv. cbn [RpcCx.extensions_mut cx_rpc_info].
  change (mkRpcCx _ _ _) with (RpcCx.extensions_mut f cx).
  by rewrite isn_extensions_mut, conn_reset_extensions_mut, stats_extensions_mut.
Qed.

Lemma padded_bounds len : len <= padded len <= len + 3.
Proof. unfold padded. pose proof (Z.mod_pos_bound (4 - (len - 14) mod 4) 4). lia. Qed.

(** Both sizes over the same pieces: [st] is the string section without its
    condition, [it] the integer section. *)
Lemma encode_after_size mi (cx cx' : RpcCx I) n dst size out :
  0 <= size < 2 ^ 63 ->
  encode_size mi cx = Done (cx', n) ->
  encode mi cx' dst size = Done out ->
  exists it,
    let st := 3 + Zlen (concat (kv_bytes <$> string_entries mi cx')) in
    n = padded (16 + (if size_has_string_kv mi cx then st else 0) + it) /\
    Zlen out = Zlen dst + padded (16 + (if has_string_kv mi cx then st else 0) + it).
Proof.
  intros Hs Hn He. apply encode_size_spec in Hn as ([f Hf] & mt & Hmt & ->).
  apply encode_layout in He as (mt' & ns & ni & Hmt' & _ & _ & -> & _); [|done].
  exists (3 + Zlen (concat (int_kv_bytes <$> int_entries cx' mt))). cbv zeta.
  rewrite !Z.add_assoc. split; [done|].
  rewrite Zlen_app, Zlen_header_bytes, <- padded_sections, Zlen_info_sections.
  replace (int_entries cx' mt') with (int_entries cx' mt).
  2: { unfold int_entries. subst cx'. cbn [RpcCx.extensions_mut cx_rpc_info] in *.
       change (mkRpcCx _ _ _) with (RpcCx.extensions_mut f cx) in *.
       destruct (ri_role (cx_rpc_info cx)); [done|].
       rewrite msg_type_extensions_mut in Hmt'. specialize (Hmt eq_refl).
       specialize (Hmt' eq_refl). congruence. }
  subst cx'. rewrite has_string_kv_extensions. by rewrite !Z.add_assoc.
Qed.

Lemma encode_size_client mi (cx cx' : RpcCx I) n :
  ri_role (cx_rpc_info cx) = Client -> encode_size mi cx = Done (cx', n) -> cx' = cx.
Proof.
  unfold encode_size. intros -> Hs. apply bind_done_inv in Hs as ([cx1 len] & H1' & Hs).
  apply bind_done_inv in Hs as (? & _ & [= <- _]).
  by destruct (size_has_string_kv mi cx); injection H1' as <- _.
Qed.

Lemma encode_size_nonneg mi (cx cx' : RpcCx I) n :
  encode_size mi cx = Done (cx', n) -> 0 <= n.
Proof.
  intros (_ & mt & _ & ->)%encode_size_spec.
  match goal with |- 0 <= padded ?len => pose proof (padded_bounds len) end.
  pose proof (Zlen_nonneg (concat (int_kv_bytes <$> int_entries cx' mt))).
  pose proof (Zlen_nonneg (concat (kv_bytes <$> string_entries mi cx'))).
  destruct (size_has_string_kv mi cx); lia.
Qed.

(** The frame's own length and magic come first. *)
Lemma encode_prefix mi (cx : RpcCx I) size out :
  0 <= size < 2 ^ 63 -> encode mi cx [] size = Done out ->
  0 <= Zlen out + size - 4 < 2 ^ 32 /\ 4 <= Zlen out /\
  exists tl, out = put_u32 (Zlen out + size - 4) ++ x10 :: x00 :: tl.
Proof.
  intros Hs He. apply encode_layout in He as (mt & ns & ni & _ & _ & _ & -> & _ & Ht); [|done].
  cbn [app]. rewrite Zlen_header_bytes in *.
  set (secs := info_sections _ _ _ _ _) in *.
  pose proof (Zlen_nonneg secs). destruct (Zlen_header_padding secs) as [Hp _].
  unfold header_bytes, header_size in *. split_and!; [lia|lia|lia|]. by eexists.
Qed.

(** [encode_size] is exact. Whenever its test for a string section agrees
    with the encoder's (always on a client; on a server whenever there is
    backward metainfo, a connection reset, or no biz error), the header that
    [encode] appends has exactly the computed size. *)
Theorem encode_size_exact mi (cx cx' : RpcCx I) n dst size out :
  0 <= size < 2 ^ 63 ->
  ri_role (cx_rpc_info cx) = Client \/
    is_Some (get_all_backward_transients mi) \/ encode_conn_reset cx = true \/
    biz_error (stats cx) = None ->
  encode_size mi cx = Done (cx', n) ->
  encode mi cx' dst size = Done out ->
  Zlen out = Zlen dst + n.
Proof.
  intros Hs Hc Hn He.
  destruct (encode_after_size _ _ _ _ _ _ _ Hs Hn He) as (it & -> & ->).
  replace (has_string_kv mi cx) with (size_has_string_kv mi cx); [done|].
  unfold size_has_string_kv, has_string_kv.
  destruct (ri_role (cx_rpc_info cx)); [done|]. symmetry.
  destruct Hc as [|[Hb|[Hr|Hb]]]; [done|..].
  - by rewrite bool_decide_eq_true_2.
  - by rewrite Hr, !orb_true_r.
  - rewrite Hb. rewrite (bool_decide_eq_false_2 (is_Some None)) by apply is_Some_None.
    by rewrite orb_false_r.
Qed.

(** the remaining case: a server answering with a biz error, no backward
    metainfo and no connection reset. [encode] writes the biz-error section
    and [encode_size] leaves it out, so the computed size is too small. *)
Theorem encode_size_omits_biz_error mi (cx cx' : RpcCx I) n dst size out :
  0 <= size < 2 ^ 63 ->
  ri_role (cx_rpc_info cx) = Server ->
  get_all_backward_transients mi = None -> encode_conn_reset cx = false ->
  biz_error (stats cx) <> None ->
  encode_size mi cx = Done (cx', n) ->
  encode mi cx' dst size = Done out ->
  Zlen dst + n < Zlen out.
Proof.
  intros Hs Hr Hb Hc Hbiz Hn He.
  destruct (encode_after_size _ _ _ _ _ _ _ Hs Hn He) as (it & -> & ->).
  unfold size_has_string_kv, has_string_kv. rewrite Hr, Hb, Hc.
  rewrite (bool_decide_eq_false_2 (is_Some None)) by apply is_Some_None.
  rewrite (bool_decide_eq_true_2 (is_Some (biz_error _))) by (by apply not_eq_None_Some).
  cbn [orb].
  assert (1 <= Zlen (concat (kv_bytes <$> string_entries mi cx'))) as Hl.
  { unfold string_entries, server_entries.
    apply encode_size_spec in Hn as ([f ->] & _).
    cbn [RpcCx.extensions_mut cx_rpc_info].
    change (mkRpcCx _ _ _) with (RpcCx.extensions_mut f cx).
    rewrite Hr, Hb, conn_reset_extensions_mut, Hc, stats_extensions_mut.
    destruct (biz_error (stats cx)) as [e|]; [|done].
    unfold prefixed, biz_entries. rewrite !fmap_app, !concat_app, !Zlen_app, !fmap_cons.
    cbn [concat]. rewrite Zlen_app, Zlen_kv_bytes. cbn [fst snd].
    unfold Zlen. lia. }
  pose proof (padded_bounds (16 + 0 + it)).
  pose proof (padded_bounds (16 + (3 + Zlen (concat (kv_bytes <$> string_entries mi cx'))) + it)).
  lia.
Qed.
End EncodeFacts.
