(* ===== verification/TTHeaderRoundTrip.v ===== *)
(** The TTHeader round trip: what a decoder recovers from an encoded header. *)

From stdpp Require Import fin_maps.
From S2P Require Import Prelude Net Context TTHeader TTHeaderDecode TTHeaderEncode.

(** An entry fits the two-byte length fields. *)
Definition fits (kv : bytes * bytes) : Prop := Zlen kv.1 < 2 ^ 16 /\ Zlen kv.2 < 2 ^ 16.
Definition int_fits (kv : IntMetaKey * bytes) : Prop := Zlen kv.2 < 2 ^ 16.

(** The map built by inserting the entries in order. *)
Definition inserts {K V} `{Countable K} (m : gmap K V) (es : list (K * V)) : gmap K V :=
  fold_left (fun m kv => <[kv.1 := kv.2]> m) es m.

Lemma inserts_union {K V} `{Countable K} (m : gmap K V) es :
  NoDup es.*1 -> inserts m es = list_to_map es ∪ m.
Proof.
  revert m. induction es as [|[k v] es IH]; intros m Hd.
  - cbn. by rewrite (left_id_L ∅ _).
  - rewrite fmap_cons in Hd. apply NoDup_cons in Hd as [Hk Hd].
    change (inserts m ((k, v) :: es)) with (inserts (<[k := v]> m) es).
    rewrite IH by done. cbn [list_to_map foldr curry].
    rewrite <- insert_union_l. symmetry. apply insert_union_r.
    by apply not_elem_of_list_to_map_1.
Qed.

Lemma inserts_list_to_map {K V} `{Countable K} (es : list (K * V)) :
  NoDup es.*1 -> inserts ∅ es = list_to_map es.
Proof. intros. rewrite inserts_union by done. by rewrite (right_id_L ∅ _). Qed.

(** Removing a reserved key from the decoded headers. *)
Lemma delete_reserved {K V} `{Countable K} (k : K) (es es' : list (K * V)) v :
  k ∉ es.*1 -> k ∉ es'.*1 ->
  delete k (list_to_map (es ++ (k, v) :: es') : gmap K V) = list_to_map (es ++ es').
Proof.
  intros Hk Hk'. apply map_eq. intros j. rewrite !list_to_map_app.
  rewrite lookup_delete. case_decide as Hj.
  - subst. symmetry. apply lookup_union_None.
    split; by apply not_elem_of_list_to_map_1.
  - rewrite !lookup_union. cbn. by rewrite lookup_insert_ne.
Qed.

Lemma delete_absent {K V} `{Countable K} (k : K) (es : list (K * V)) :
  k ∉ es.*1 -> delete k (list_to_map es : gmap K V) = list_to_map es.
Proof. intros Hk. by apply delete_id, not_elem_of_list_to_map_1. Qed.

(** Decides a closed decidable goal by evaluation. *)
Ltac vm_decide := apply (bool_decide_unpack _); vm_compute; exact I.

Section RoundTrip.
Context `{BuildProfile} `{TTHeaderEnv} `{AddrText} {I : Type} `{ThriftContext I}.

(** Runs a decoder forward: each read meets the bytes it expects. *)
Ltac run_simpl :=
  unfold with_src; cbn [mbind outcome_bind ds_src ds_remaining ds_headers ds_int_headers].

Lemma consume_header_ok n src rem hs ih :
  0 <= n <= rem -> rem < 2 ^ 64 ->
  consume_header n (mkDec src rem hs ih) = Done (mkDec src (rem - n) hs ih).
Proof.
  intros Hn Hr. unfold consume_header, usize_sub. cbn [ds_remaining].
  rewrite checked_ok by lia. done.
Qed.

Ltac run :=
  repeat (run_simpl; first
    [ rewrite consume_header_ok by lia
    | rewrite get_u8_app by lia
    | rewrite get_u16_app by lia
    | rewrite get_u32_app by lia
    | rewrite split_to_app by done ]); run_simpl.

Lemma decode_string_entry_ok kv rest rem hs ih :
  fits kv -> Zlen (kv_bytes kv) <= rem < 2 ^ 64 ->
  decode_string_entry (mkDec (kv_bytes kv ++ rest) rem hs ih)
  = Done (mkDec rest (rem - Zlen (kv_bytes kv)) (<[kv.1 := kv.2]> hs) ih).
Proof.
  intros [Hk Hv] Hr. rewrite Zlen_kv_bytes in *.
  pose proof (Zlen_nonneg kv.1). pose proof (Zlen_nonneg kv.2).
  unfold decode_string_entry, kv_bytes. rewrite <- !app_assoc.
  run.
  do 2 f_equal. lia.
Qed.

Lemma decode_int_entry_ok kv rest rem hs ih :
  int_fits kv -> Zlen (int_kv_bytes kv) <= rem < 2 ^ 64 ->
  decode_int_entry (mkDec (int_kv_bytes kv ++ rest) rem hs ih)
  = Done (mkDec rest (rem - Zlen (int_kv_bytes kv)) hs (<[kv.1 := kv.2]> ih)).
Proof.
  intros Hv Hr. unfold int_fits in Hv. rewrite Zlen_int_kv_bytes in *.
  pose proof (Zlen_nonneg kv.2).
  assert (0 <= int_meta_key_to_u16 kv.1 < 2 ^ 16) by (destruct kv.1; cbn; lia).
  unfold decode_int_entry, int_kv_bytes. rewrite <- !app_assoc.
  run.
  rewrite int_meta_key_from_to. do 2 f_equal. lia.
Qed.

Lemma repeat_string_entries_ok es rest rem hs ih :
  Forall fits es -> Zlen (concat (kv_bytes <$> es)) <= rem < 2 ^ 64 ->
  repeatM (length es) decode_string_entry (mkDec (concat (kv_bytes <$> es) ++ rest) rem hs ih)
  = Done (mkDec rest (rem - Zlen (concat (kv_bytes <$> es))) (inserts hs es) ih).
Proof.
  intros Hf. revert rem hs. induction Hf as [|kv es Hkv Hes IH]; intros rem hs Hr.
  - cbn. rewrite Zlen_nil, Z.sub_0_r. done.
  - rewrite fmap_cons in *. cbn [concat length repeatM] in *. rewrite Zlen_app in *.
    pose proof (Zlen_nonneg (concat (kv_bytes <$> es))).
    pose proof (Zlen_nonneg (kv_bytes kv)).
    rewrite <- app_assoc, decode_string_entry_ok by (done || lia). cbn [mbind outcome_bind].
    rewrite IH by lia. do 2 f_equal. lia.
Qed.

Lemma repeat_int_entries_ok es rest rem hs ih :
  Forall int_fits es -> Zlen (concat (int_kv_bytes <$> es)) <= rem < 2 ^ 64 ->
  repeatM (length es) decode_int_entry (mkDec (concat (int_kv_bytes <$> es) ++ rest) rem hs ih)
  = Done (mkDec rest (rem - Zlen (concat (int_kv_bytes <$> es))) hs (inserts ih es)).
Proof.
  intros Hf. revert rem ih. induction Hf as [|kv es Hkv Hes IH]; intros rem ih Hr.
  - cbn. rewrite Zlen_nil, Z.sub_0_r. done.
  - rewrite fmap_cons in *. cbn [concat length repeatM] in *. rewrite Zlen_app in *.
    pose proof (Zlen_nonneg (concat (int_kv_bytes <$> es))).
    pose proof (Zlen_nonneg (int_kv_bytes kv)).
    rewrite <- app_assoc, decode_int_entry_ok by (done || lia). cbn [mbind outcome_bind].
    rewrite IH by lia. do 2 f_equal. lia.
Qed.

(** One section of each kind, and one padding byte. *)
Definition string_section (es : list (bytes * bytes)) : bytes :=
  put_u8 INFO_KEY_VALUE ++ put_u16 (Zlen es) ++ concat (kv_bytes <$> es).

Definition int_section (es : list (IntMetaKey * bytes)) : bytes :=
  put_u8 INFO_INT_KEY_VALUE ++ put_u16 (Zlen es) ++ concat (int_kv_bytes <$> es).

Lemma decode_string_section_ok es rest rem hs ih :
  Forall fits es -> Zlen es < 2 ^ 16 -> Zlen (string_section es) <= rem < 2 ^ 64 ->
  decode_info (mkDec (string_section es ++ rest) rem hs ih)
  = Done (mkDec rest (rem - Zlen (string_section es)) (inserts hs es) ih).
Proof.
  intros Hf Hn Hr. unfold string_section in *. rewrite !Zlen_app, Zlen_put_u8, Zlen_put_u16 in *.
  pose proof (Zlen_nonneg (concat (kv_bytes <$> es))). pose proof (Zlen_nonneg es).
  unfold decode_info. rewrite <- !app_assoc.
  rewrite consume_header_ok by lia. run_simpl. rewrite get_u8_app by done. run_simpl.
  unfold decode_info_body.
  rewrite bool_decide_eq_false_2, bool_decide_eq_true_2 by done. run.
  replace (Z.to_nat (Zlen es)) with (length es) by (unfold Zlen; lia).
  rewrite repeat_string_entries_ok by (done || lia). do 2 f_equal. lia.
Qed.

Lemma decode_int_section_ok es rest rem hs ih :
  Forall int_fits es -> Zlen es < 2 ^ 16 -> Zlen (int_section es) <= rem < 2 ^ 64 ->
  decode_info (mkDec (int_section es ++ rest) rem hs ih)
  = Done (mkDec rest (rem - Zlen (int_section es)) hs (inserts ih es)).
Proof.
  intros Hf Hn Hr. unfold int_section in *. rewrite !Zlen_app, Zlen_put_u8, Zlen_put_u16 in *.
  pose proof (Zlen_nonneg (concat (int_kv_bytes <$> es))). pose proof (Zlen_nonneg es).
  unfold decode_info. rewrite <- !app_assoc.
  rewrite consume_header_ok by lia. run_simpl. rewrite get_u8_app by done. run_simpl.
  unfold decode_info_body.
  rewrite !bool_decide_eq_false_2, bool_decide_eq_true_2 by done. run.
  replace (Z.to_nat (Zlen es)) with (length es) by (unfold Zlen; lia).
  rewrite repeat_int_entries_ok by (done || lia). do 2 f_equal. lia.
Qed.

Lemma decode_padding_ok rest rem hs ih :
  1 <= rem < 2 ^ 64 ->
  decode_info (mkDec (x00 :: rest) rem hs ih) = Done (mkDec rest (rem - 1) hs ih).
Proof.
  intros Hr. unfold decode_info. rewrite consume_header_ok by lia. run_simpl.
  change (x00 :: rest) with (put_u8 0 ++ rest). rewrite get_u8_app by lia. run_simpl.
  unfold decode_info_body. by rewrite bool_decide_eq_true_2.
Qed.

(** The loop's result does not depend on the fuel. *)
Lemma decode_infos_mono f f' d r :
  decode_infos f d = r -> halts r -> (f <= f')%nat -> decode_infos f' d = r.
Proof.
  revert f' d. induction f as [|f IH]; intros f' d E Hr Hle; cbn in E; [by subst|].
  destruct f' as [|f']; [lia|]. cbn. case_bool_decide; [|done].
  destruct (decode_info d); cbn in *; [|done..]. apply IH; [done..|lia].
Qed.

Lemma decode_infos_done f f' d r :
  decode_infos f d = Done r -> halts (decode_infos f' d) -> decode_infos f' d = Done r.
Proof.
  intros E Hh. destruct (decide (f <= f')%nat).
  - by eapply decode_infos_mono.
  - symmetry. rewrite <- E. apply decode_infos_mono with f'; [done..|lia].
Qed.

Lemma decode_infos_padding n rest hs ih :
  Z.of_nat n < 2 ^ 64 ->
  decode_infos (S n) (mkDec (replicate n x00 ++ rest) (Z.of_nat n) hs ih)
  = Done (mkDec rest 0 hs ih).
Proof.
  induction n as [|n IH]; intros Hn.
  - done.
  - cbn [decode_infos ds_remaining]. rewrite bool_decide_eq_true_2 by lia.
    cbn [replicate app]. rewrite decode_padding_ok by lia. cbn [mbind outcome_bind].
    replace (Z.of_nat (S n) - 1) with (Z.of_nat n) by lia. apply IH. lia.
Qed.

Lemma protocol_id_from_to p : protocol_id_from_u8 (protocol_id_to_u8 p) = Some p.
Proof. by destruct p. Qed.

Lemma decode_infos_step f d d' :
  0 < ds_remaining d -> decode_info d = Done d' -> decode_infos (S f) d = decode_infos f d'.
Proof. intros Hr Hd. cbn. rewrite bool_decide_eq_true_2 by done. by rewrite Hd. Qed.

(** The sections of a header, read back by the loop. *)
Definition sections (ses : option (list (bytes * bytes))) (ies : list (IntMetaKey * bytes)) : bytes :=
  from_option string_section [] ses ++ int_section ies.

Lemma decode_infos_sections ses ies payload :
  Forall fits (default [] ses) -> Zlen (default [] ses) < 2 ^ 16 ->
  Forall int_fits ies -> Zlen ies < 2 ^ 16 ->
  let secs := sections ses ies in
  let rem := Zlen secs + Zlen (header_padding secs) in
  rem < 2 ^ 64 ->
  exists f, decode_infos f (mkDec (secs ++ header_padding secs ++ payload) rem ∅ ∅)
    = Done (mkDec payload 0 (inserts ∅ (default [] ses)) (inserts ∅ ies)).
Proof.
  intros Hf Hn Hif Hin secs rem Hr. subst rem.
  destruct (Zlen_header_padding secs) as [Hpad _].
  remember (header_padding secs) as pad eqn:Ep.
  assert (pad = replicate (length pad) x00) as Epad.
  { subst pad. unfold header_padding. by rewrite length_replicate. }
  pose proof (Zlen_nonneg (int_section ies)) as Hi.
  assert (Zlen (int_section ies) = 3 + Zlen (concat (int_kv_bytes <$> ies))) as Ei
    by (unfold int_section; zlen).
  pose proof (Zlen_nonneg (concat (int_kv_bytes <$> ies))).
  assert (forall hs, exists f,
    decode_infos f (mkDec (int_section ies ++ pad ++ payload)
                      (Zlen (int_section ies) + Zlen pad) hs ∅)
    = Done (mkDec payload 0 hs (inserts ∅ ies))) as Hint.
  { intros hs. unfold secs, sections in Hr. rewrite Zlen_app in Hr.
    pose proof (Zlen_nonneg (from_option string_section [] ses)).
    exists (S (S (length pad))).
    rewrite (decode_infos_step _ _ (mkDec (pad ++ payload) (Zlen pad) hs (inserts ∅ ies)));
      [|cbn [ds_remaining]; lia|].
    - rewrite Epad at 2. apply decode_infos_padding. unfold Zlen in *. lia.
    - rewrite decode_int_section_ok by (done || lia). do 2 f_equal. lia. }
  unfold secs, sections in *. destruct ses as [es|]; cbn [from_option id] in *.
  - rewrite Zlen_app in *.
    assert (Zlen (string_section es) = 3 + Zlen (concat (kv_bytes <$> es))) as Es
      by (unfold string_section; zlen).
    pose proof (Zlen_nonneg (concat (kv_bytes <$> es))).
    destruct (Hint (inserts ∅ es)) as [f Hf']. exists (S f).
    rewrite <- Hf'. apply decode_infos_step; [cbn [ds_remaining]; lia|].
    rewrite <- app_assoc, decode_string_section_ok by (done || lia). do 2 f_equal. lia.
  - apply Hint.
Qed.

(** The header of a frame after its four length bytes, read back. *)
Lemma decode_header_ok seq p ses ies payload :
  Forall fits (default [] ses) -> Zlen (default [] ses) < 2 ^ 16 ->
  Forall int_fits ies -> Zlen ies < 2 ^ 16 ->
  let secs := sections ses ies in
  (header_size secs - 14) / 4 < 2 ^ 16 ->
  decode_header (put_u16 TT_HEADER_MAGIC ++ put_u16 0 ++ put_u32 seq
    ++ put_u16 ((header_size secs - 14) / 4) ++ put_u8 (protocol_id_to_u8 p) ++ put_u8 0
    ++ secs ++ header_padding secs ++ payload)
  = Done (p, mkDec payload 0 (inserts ∅ (default [] ses)) (inserts ∅ ies)).
Proof.
  intros Hf Hn Hif Hin secs Hw.
  pose proof (header_size_mod secs) as Hm.
  pose proof (Zlen_nonneg secs). destruct (Zlen_header_padding secs) as [Hp _].
  assert ((header_size secs - 14) / 4 * 4 = header_size secs - 14) as Hd.
  { pose proof (Z.div_mod (header_size secs) 4 ltac:(lia)). rewrite Hm in *.
    change (14 mod 4) with 2 in *.
    replace (header_size secs - 14) with ((header_size secs / 4 - 3) * 4) by lia.
    rewrite Z.div_mul by lia. done. }
  assert (header_size secs = 16 + Zlen secs + Zlen (header_padding secs)) as Eh by done.
  unfold decode_header.
  do 2 (rewrite get_u16_app by done; run_simpl).
  rewrite get_u32_wrap. run_simpl.
  rewrite get_u16_app by lia. run_simpl.
  rewrite get_u8_app by (by destruct p). run_simpl. rewrite protocol_id_from_to.
  rewrite get_u8_app by done. run_simpl.
  rewrite bool_decide_eq_false_2 by done. run_simpl.
  unfold usize_sub. rewrite Hd, checked_ok by lia. run_simpl.
  rewrite checked_ok by lia. run_simpl.
  replace (header_size secs - 14 - 2 - 0) with (Zlen secs + Zlen (header_padding secs)) by lia.
  destruct (decode_infos_sections ses ies payload) as [f Ef]; [done..|subst secs; lia|].
  erewrite decode_infos_done; [done|exact Ef|]. apply halts_decode_infos. cbn. lia.
Qed.

(** * From the encoder's output to the decoder's input *)

Lemma put_u16_counts n es : counts n es -> put_u16 n = put_u16 (Zlen es).
Proof. intros [k ->]. apply (be_encode_wrap 2). Qed.

Lemma info_sections_eq mi (cx : RpcCx I) mt ns ni :
  counts ns (kv_bytes <$> string_entries mi cx) ->
  counts ni (int_kv_bytes <$> int_entries cx mt) ->
  info_sections mi cx mt ns ni
  = sections (if has_string_kv mi cx then Some (string_entries mi cx) else None)
             (int_entries cx mt).
Proof.
  intros Hs Hi. unfold info_sections, sections, string_section, int_section.
  rewrite (put_u16_counts _ _ Hs), (put_u16_counts _ _ Hi).
  unfold Zlen. rewrite !length_fmap. by destruct (has_string_kv mi cx).
Qed.

(** Without a string section there are no string entries. *)
Lemma no_string_entries mi (cx : RpcCx I) : has_string_kv mi cx = false -> string_entries mi cx = [].
Proof.
  unfold has_string_kv, string_entries, client_entries, server_entries.
  destruct (ri_role _); rewrite !orb_false_iff, ?bool_decide_eq_false, ?eq_None_not_Some;
    [intros [[Ha Hb] Hc]|intros [[Ha Hb] Hc]];
    rewrite <- ?eq_None_not_Some in *; rewrite ?Ha, ?Hb, ?Hc; done.
Qed.

(** What the header loop recovers from an encoded header: all the entries. *)
Lemma decode_encoded_header mi (cx : RpcCx I) size out payload :
  0 <= size < 2 ^ 63 ->
  encode mi cx [] size = Done out ->
  (forall mt, Forall int_fits (int_entries cx mt)) ->
  Forall fits (string_entries mi cx) -> Zlen (string_entries mi cx) < 2 ^ 16 ->
  exists mt, (ri_role (cx_rpc_info cx) = Server -> @msg_type I _ ThriftException cx = Done mt) /\
  decode_header (drop 4 out ++ payload)
  = Done (default Binary (ext_protocol_id (cx_extensions cx)),
          mkDec payload 0 (inserts ∅ (string_entries mi cx)) (inserts ∅ (int_entries cx mt))).
Proof.
  intros Hs He Hif Hf Hn.
  apply encode_layout in He as (mt & ns & ni & Hmt & Hns & Hni & -> & Hw & _); [|done].
  exists mt. split; [done|].
  rewrite info_sections_eq in * by done.
  set (ses := if has_string_kv mi cx then Some (string_entries mi cx) else None) in *.
  assert (default [] ses = string_entries mi cx) as Eses.
  { unfold ses. destruct (has_string_kv mi cx) eqn:E; [done|]. by rewrite no_string_entries. }
  cbn [app]. unfold header_bytes.
  rewrite drop_app_length' by done.
  rewrite <- !app_assoc, decode_header_ok; rewrite ?Eses; try done.
  unfold int_entries, client_int_entries. destruct (ri_role _); [|done].
  destruct (cfg_rpc_timeout _), (cfg_connect_timeout _), (ep_address _); done.
Qed.
End RoundTrip.

(** * The two directions of a call *)

(** What the codec relies on in other crates: a [HashMap] iterates over its
    entries, the metainfo prefixes are told apart from each other and from
    the codec's own keys, JSON text parses back. *)
Class MetainfoLaws `{TTHeaderEnv} : Prop := {
  hash_iter_perm : forall m, hash_into_iter m ≡ₚ map_to_list m;
  transient_not_persistent : forall k,
    starts_with (RPC_PREFIX_TRANSIENT ++ k) RPC_PREFIX_PERSISTENT = false;
  persistent_not_reserved : forall k,
    RPC_PREFIX_PERSISTENT ++ k ∉ [HEADER_IDL_SERVICE_NAME; HEADER_TRANS_REMOTE_ADDR];
  transient_not_reserved : forall k,
    RPC_PREFIX_TRANSIENT ++ k ∉ [HEADER_IDL_SERVICE_NAME; HEADER_TRANS_REMOTE_ADDR];
  backward_not_reserved : forall k,
    RPC_PREFIX_BACKWARD ++ k ∉ [HEADER_TRANS_REMOTE_ADDR; HEADER_CONNECTION_READY_TO_RESET;
      TT_HEADER_BIZ_STATUS_KEY; TT_HEADER_BIZ_MESSAGE_KEY; TT_HEADER_BIZ_EXTRA_KEY];
  json_round_trip : forall x s, json_to_string x = Some s -> json_from_str s = Some (Some x);
}.

Section Directions.
Context `{BuildProfile} `{TTHeaderEnv} `{AddrText} `{!MetainfoLaws}.
Context {I1 : Type} `{ThriftContext I1} `{!ThriftContextLaws I1}.
Context {I2 : Type} `{ThriftContext I2} `{!ThriftContextLaws I2}.

(** A forward entry: persistent or transient, with its unprefixed key. *)
Inductive Forward := Persistent (k v : bytes) | Transient (k v : bytes).

Definition forward_set (mi : MetaInfo) (f : Forward) : MetaInfo :=
  match f with
  | Persistent k v => strip_rpc_prefix_and_set_persistent (RPC_PREFIX_PERSISTENT ++ k) v mi
  | Transient k v => strip_rpc_prefix_and_set_upstream (RPC_PREFIX_TRANSIENT ++ k) v mi
  end.

Definition forward_entries (mi : MetaInfo) : list Forward :=
  ((fun kv => Persistent kv.1 kv.2) <$> default [] (get_all_persistents mi))
  ++ ((fun kv => Transient kv.1 kv.2) <$> default [] (get_all_transients mi)).

Definition forward_kv (f : Forward) : bytes * bytes :=
  match f with
  | Persistent k v => (RPC_PREFIX_PERSISTENT ++ k, v)
  | Transient k v => (RPC_PREFIX_TRANSIENT ++ k, v)
  end.

(** The server's context after the header of the client's call. *)
Definition server_view (ccx : RpcCx I1) (scx : RpcCx I2) : RpcCx I2 :=
  let ri := cx_rpc_info ccx in
  let p := default Binary (ext_protocol_id (cx_extensions ccx)) in
  let scx := RpcCx.extensions_mut (Extensions.insert_protocol_id p) scx in
  let scx := match idl_service_name ccx with
             | Some isn => set_idl_service_name isn scx | None => scx end in
  let scx := RpcCx.rpc_info_mut
    (RpcInfo.caller_mut (Endpoint.set_service_name (ep_service_name (ri_caller ri)))) scx in
  let scx := RpcCx.rpc_info_mut
    (RpcInfo.callee_mut (Endpoint.set_service_name (ep_service_name (ri_callee ri)))) scx in
  match cfg_rpc_timeout (ri_config ri) with
  | Some t => RpcCx.rpc_info_mut (RpcInfo.config_mut
      (Config.set_rpc_timeout (Some (from_millis (as_millis t))))) scx
  | None => scx
  end.

Lemma set_forward_metainfo_kv mi f : set_forward_metainfo mi (forward_kv f) = forward_set mi f.
Proof.
  destruct f as [k v|k v]; cbn.
  - by rewrite starts_with_app.
  - by rewrite transient_not_persistent, starts_with_app.
Qed.

Lemma forward_kv_not_reserved f r :
  r ∈ [HEADER_IDL_SERVICE_NAME; HEADER_TRANS_REMOTE_ADDR] -> (forward_kv f).1 <> r.
Proof.
  intros Hr Hf. destruct f as [k v|k v]; cbn in Hf; subst r;
    [by apply persistent_not_reserved in Hr|by apply transient_not_reserved in Hr].
Qed.

Lemma client_entries_forward mi (cx : RpcCx I1) :
  client_entries mi cx = (forward_kv <$> forward_entries mi)
    ++ match idl_service_name cx with
       | Some isn => [(HEADER_IDL_SERVICE_NAME, isn)] | None => [] end.
Proof.
  unfold client_entries, forward_entries, prefixed. rewrite app_assoc, fmap_app. f_equal. f_equal;
    rewrite <- list_fmap_compose; apply list_fmap_ext; by intros ? [].
Qed.

Lemma reserved_notin r mi :
  r ∈ [HEADER_IDL_SERVICE_NAME; HEADER_TRANS_REMOTE_ADDR] ->
  r ∉ (forward_kv <$> forward_entries mi).*1.
Proof.
  intros Hr. rewrite <- list_fmap_compose. intros (f & -> & _)%list_elem_of_fmap.
  by eapply forward_kv_not_reserved.
Qed.

(** Iterating over the decoded headers sets the forward entries, in some
    order. *)
Lemma fold_forward (m : gmap bytes bytes) fs mi :
  m = list_to_map (forward_kv <$> fs) -> NoDup (forward_kv <$> fs).*1 ->
  exists fs', fs' ≡ₚ fs /\
    fold_left set_forward_metainfo (hash_into_iter m) mi = fold_left forward_set fs' mi.
Proof.
  intros -> Hd.
  assert (hash_into_iter (list_to_map (forward_kv <$> fs)) ≡ₚ forward_kv <$> fs) as Hp.
  { etransitivity; [apply hash_iter_perm|]. by apply map_to_list_to_map. }
  apply Permutation_map_inv in Hp as (fs' & E & Hp).
  exists fs'. split; [by symmetry|]. rewrite E. clear E Hp.
  revert mi. induction fs' as [|f fs' IH]; intros mi; [done|]. cbn.
  by rewrite set_forward_metainfo_kv, IH.
Qed.

(** The context part of the server's decoding. *)
Lemma decode_server_view (ccx : RpcCx I1) (scx : RpcCx I2) smi p ih hs hs' :
  p = default Binary (ext_protocol_id (cx_extensions ccx)) ->
  hs !! HEADER_IDL_SERVICE_NAME = idl_service_name ccx ->
  delete HEADER_IDL_SERVICE_NAME hs = hs' -> hs' !! HEADER_TRANS_REMOTE_ADDR = None ->
  ih = inserts ∅ (client_int_entries ccx) ->
  (forall t, cfg_rpc_timeout (ri_config (cx_rpc_info ccx)) = Some t -> 0 <= as_millis t < 2 ^ 64) ->
  decode_server (RpcCx.extensions_mut (Extensions.insert_protocol_id p) scx) smi hs ih
  = (server_view ccx scx, fold_left set_forward_metainfo (hash_into_iter hs') smi).
Proof.
  intros -> Hisn Hdel Hrip -> Ht. unfold decode_server, hash_remove, server_view.
  rewrite Hisn, Hdel. cbv zeta.
  assert (inserts ∅ (client_int_entries ccx) !! FromService
          = Some (ep_service_name (ri_caller (cx_rpc_info ccx)))) as ->.
  { unfold client_int_entries, inserts.
    destruct (cfg_rpc_timeout _), (cfg_connect_timeout _), (ep_address _); done. }
  assert (delete FromService (inserts ∅ (client_int_entries ccx)) !! ToService
          = Some (ep_service_name (ri_callee (cx_rpc_info ccx)))) as ->.
  { unfold client_int_entries, inserts.
    destruct (cfg_rpc_timeout _), (cfg_connect_timeout _), (ep_address _); done. }
  assert (delete ToService (delete FromService (inserts ∅ (client_int_entries ccx))) !! RPCTimeout
          = (fun t => dec_of_Z (as_millis t)) <$> cfg_rpc_timeout (ri_config (cx_rpc_info ccx))) as ->.
  { unfold client_int_entries, inserts.
    destruct (cfg_rpc_timeout _), (cfg_connect_timeout _), (ep_address _); done. }
  rewrite Hrip, delete_id by done. cbn [mbind option_bind].
  destruct (cfg_rpc_timeout (ri_config (cx_rpc_info ccx))) as [t|]; cbn [fmap option_fmap option_map mbind option_bind].
  - rewrite parse_unsigned_dec by (by apply Ht). done.
  - done.
Qed.

(** The header of a call fits the wire format: two-byte lengths and counts,
    one value per metainfo key, and a timeout in the [u64] range. *)
Record call_fits (mi : MetaInfo) (cx : RpcCx I1) : Prop := {
  cf_string : Forall fits (client_entries mi cx);
  cf_count : Zlen (client_entries mi cx) < 2 ^ 16;
  cf_keys : NoDup (forward_kv <$> forward_entries mi).*1;
  cf_int : Forall int_fits (client_int_entries cx);
  cf_timeout : forall t,
    cfg_rpc_timeout (ri_config (cx_rpc_info cx)) = Some t -> 0 <= as_millis t < 2 ^ 64;
}.

Lemma decode_encoded_call mi (ccx : RpcCx I1) size out smi (scx : RpcCx I2) payload :
  0 <= size < 2 ^ 63 ->
  ri_role (cx_rpc_info ccx) = Client -> ri_role (cx_rpc_info scx) = Server ->
  call_fits mi ccx ->
  encode mi ccx [] size = Done out ->
  exists fs, fs ≡ₚ forward_entries mi /\
    decode scx smi (drop 4 out ++ payload)
    = Done (server_view ccx scx, fold_left forward_set fs smi, payload).
Proof.
  intros Hs Hc Hsv [Hf Hn Hk Hif Ht] He.
  assert (string_entries mi ccx = client_entries mi ccx) as Ese
    by (unfold string_entries; by rewrite Hc).
  assert (forall mt, int_entries ccx mt = client_int_entries ccx) as Eie
    by (intros; unfold int_entries; by rewrite Hc).
  destruct (decode_encoded_header mi ccx size out payload) as (mt & _ & Hh);
    rewrite ?Ese; try done; [intros mt; by rewrite Eie|].
  rewrite Ese, Eie, client_entries_forward in Hh.
  set (isn := match idl_service_name ccx with
              | Some isn => [(HEADER_IDL_SERVICE_NAME, isn)] | None => [] end) in *.
  pose proof (reserved_notin HEADER_IDL_SERVICE_NAME mi ltac:(constructor)) as Hisn.
  pose proof (reserved_notin HEADER_TRANS_REMOTE_ADDR mi ltac:(do 2 constructor)) as Hrip.
  assert (NoDup ((forward_kv <$> forward_entries mi) ++ isn).*1) as Hnd.
  { rewrite fmap_app. unfold isn. destruct (idl_service_name ccx); [|by rewrite app_nil_r].
    apply NoDup_app. split_and!; [done| |apply NoDup_singleton].
    intros x Hx ->%list_elem_of_singleton. done. }
  rewrite inserts_list_to_map in Hh by done.
  edestruct (fold_forward (list_to_map (forward_kv <$> forward_entries mi))) as (fs & Hp & Efs);
    [done..|].
  exists fs. split; [exact Hp|]. unfold decode. rewrite Hh. cbn [mbind outcome_bind].
  cbn [RpcCx.extensions_mut cx_rpc_info]. rewrite Hsv.
  rewrite decode_server_view with (ccx := ccx)
    (hs' := list_to_map (forward_kv <$> forward_entries mi)); [by rewrite Efs|done|..|done|done].
  - cbn [ds_headers]. unfold isn.
    rewrite list_to_map_app, lookup_union_r by (by apply not_elem_of_list_to_map_1).
    by destruct (idl_service_name ccx).
  - cbn [ds_headers]. unfold isn. destruct (idl_service_name ccx).
    + rewrite delete_reserved by (done || apply not_elem_of_nil). by rewrite app_nil_r.
    + rewrite app_nil_r. by apply delete_absent.
  - by apply not_elem_of_list_to_map_1.
Qed.

(** C21: a call survives the wire. A server that decodes the header a client
    encoded gets the client's protocol id, IDL service name, caller and callee
    names, its RPC timeout (in whole milliseconds), each persistent and
    transient metainfo entry exactly once as such, and the untouched payload. *)
Theorem ttheader_client_to_server mi (ccx : RpcCx I1) size out smi (scx : RpcCx I2) payload :
  0 <= size < 2 ^ 63 ->
  ri_role (cx_rpc_info ccx) = Client -> ri_role (cx_rpc_info scx) = Server ->
  call_fits mi ccx ->
  encode mi ccx [] size = Done out ->
  exists fs, fs ≡ₚ forward_entries mi /\
    decode scx smi (drop 4 out ++ payload)
    = Done (server_view ccx scx, fold_left forward_set fs smi, payload).
Proof. exact (decode_encoded_call mi ccx size out smi scx payload). Qed.

(** ** The reply *)

Definition backward_set (mi : MetaInfo) (kv : bytes * bytes) : MetaInfo :=
  strip_rpc_prefix_and_set_backward_downstream (RPC_PREFIX_BACKWARD ++ kv.1) kv.2 mi.

Definition backward_kvs (mi : MetaInfo) : list (bytes * bytes) :=
  default [] (get_all_backward_transients mi).

(** What the client records of a biz error: code [0] means none. *)
Definition reply_biz_error (e : option BizError) (ccx : RpcCx I2) : RpcCx I2 :=
  match e with
  | Some e => if bool_decide (be_status_code e = 0) then ccx
              else stats_mut (CommonStats.set_biz_error e) ccx
  | None => ccx
  end.

Lemma backward_not_prefix r :
  r ∈ [HEADER_TRANS_REMOTE_ADDR; HEADER_CONNECTION_READY_TO_RESET;
       TT_HEADER_BIZ_STATUS_KEY; TT_HEADER_BIZ_MESSAGE_KEY; TT_HEADER_BIZ_EXTRA_KEY] ->
  starts_with r RPC_PREFIX_BACKWARD = false.
Proof.
  intros Hr. destruct (starts_with r RPC_PREFIX_BACKWARD) eqn:E; [|done].
  apply starts_with_spec in E as [t ->]. by apply backward_not_reserved in Hr.
Qed.

Lemma fold_left_filter {A B} (f : A -> B -> A) (p : B -> bool) l a :
  fold_left (fun a x => if p x then f a x else a) l a = fold_left f (base.filter (fun x => p x = true) l) a.
Proof.
  revert a. induction l as [|x l IH]; intros a; [done|].
  rewrite filter_cons. cbn. destruct (p x); cbn; apply IH.
Qed.

(** Iterating over headers whose backward part is [bk]. *)
Lemma fold_backward (m : gmap bytes bytes) bk mi :
  NoDup (prefixed RPC_PREFIX_BACKWARD (Some bk)).*1 ->
  (forall k v, starts_with k RPC_PREFIX_BACKWARD = true ->
     m !! k = Some v <-> (k, v) ∈ prefixed RPC_PREFIX_BACKWARD (Some bk)) ->
  exists bs, bs ≡ₚ bk /\
    fold_left (fun mi '(k, v) => if starts_with k RPC_PREFIX_BACKWARD
        then strip_rpc_prefix_and_set_backward_downstream k v mi else mi)
      (hash_into_iter m) mi = fold_left backward_set bs mi.
Proof.
  intros Hd Hm.
  set (g := fun mi (kv : bytes * bytes) =>
    strip_rpc_prefix_and_set_backward_downstream kv.1 kv.2 mi).
  set (p := fun kv : bytes * bytes => starts_with kv.1 RPC_PREFIX_BACKWARD).
  assert (base.filter (fun x => p x = true) (hash_into_iter m)
            ≡ₚ (fun kv => (RPC_PREFIX_BACKWARD ++ kv.1, kv.2)) <$> bk) as Hp.
  { rewrite hash_iter_perm. apply NoDup_Permutation.
    - apply NoDup_filter, NoDup_map_to_list.
    - by apply NoDup_fmap_1 in Hd.
    - intros [k v]. rewrite list_elem_of_filter, elem_of_map_to_list. unfold p. cbn.
      split; [intros [Hs Hk]; by apply Hm|]. intros Hin.
      assert (starts_with k RPC_PREFIX_BACKWARD = true) as Hs.
      { apply list_elem_of_fmap in Hin as ([k' v'] & [= -> ->] & _). apply starts_with_app. }
      split; [done|]. by apply Hm. }
  apply Permutation_map_inv in Hp as (bs & E & Hp). exists bs. split; [by symmetry|].
  transitivity (fold_left (fun mi x => if p x then g mi x else mi) (hash_into_iter m) mi).
  { generalize (hash_into_iter m) as l. intros l. clear. revert mi.
    induction l as [|[k v] l IH]; intros mi; [done|]. cbn. apply IH. }
  rewrite fold_left_filter, E. clear E Hp.
  revert mi. induction bs as [|b bs IH]; intros mi; [done|]. cbn. apply IH.
Qed.

(** The reply fits the wire format; the cached text of the biz error's extra
    map, when there is one, is the text of that map. *)
Record reply_fits (mi : MetaInfo) (cx : RpcCx I1) : Prop := {
  rf_string : Forall fits (server_entries mi cx);
  rf_count : Zlen (server_entries mi cx) < 2 ^ 16;
  rf_keys : NoDup (prefixed RPC_PREFIX_BACKWARD (Some (backward_kvs mi))).*1;
  rf_code : forall e, biz_error (stats cx) = Some e -> - 2 ^ 31 <= be_status_code e < 2 ^ 31;
  rf_extra : forall e x, biz_error (stats cx) = Some e -> be_extra e = Some x ->
    json_to_string x <> None /\
    (ext_biz_error_extra (cx_extensions cx) = None \/
     ext_biz_error_extra (cx_extensions cx) = json_to_string x);
}.

(** The codec's own entries of a reply. *)
Definition reply_own (cx : RpcCx I1) : list (bytes * bytes) :=
  (if encode_conn_reset cx then [(str "crrst", str "1")] else [])
  ++ match biz_error (stats cx) with Some e => biz_entries cx e | None => [] end.

Definition reply_keys : list bytes :=
  [HEADER_CONNECTION_READY_TO_RESET; TT_HEADER_BIZ_STATUS_KEY;
   TT_HEADER_BIZ_MESSAGE_KEY; TT_HEADER_BIZ_EXTRA_KEY].

Lemma reply_own_keys cx : (reply_own cx).*1 `sublist_of` reply_keys.
Proof.
  unfold reply_own, biz_entries, reply_keys. rewrite fmap_app.
  destruct (encode_conn_reset cx), (biz_error (stats cx)) as [e|]; cbn;
    try destruct (extra_text cx e); cbn; repeat constructor.
Qed.

Lemma backward_keys_reserved bk r :
  r ∈ HEADER_TRANS_REMOTE_ADDR :: reply_keys ->
  r ∉ (prefixed RPC_PREFIX_BACKWARD (Some bk)).*1.
Proof.
  intros Hr. unfold prefixed. rewrite <- list_fmap_compose.
  intros (kv & -> & _)%list_elem_of_fmap. by apply backward_not_reserved in Hr.
Qed.

Lemma server_entries_own mi (cx : RpcCx I1) :
  server_entries mi cx = prefixed RPC_PREFIX_BACKWARD (Some (backward_kvs mi)) ++ reply_own cx.
Proof. unfold server_entries, reply_own, prefixed, backward_kvs. by destruct (get_all_backward_transients mi). Qed.

Lemma server_entries_nodup mi (cx : RpcCx I1) :
  NoDup (prefixed RPC_PREFIX_BACKWARD (Some (backward_kvs mi))).*1 ->
  NoDup (server_entries mi cx).*1.
Proof.
  intros Hd. rewrite server_entries_own, fmap_app. apply NoDup_app. split_and!; [done| |].
  - intros r Hr Hin. eapply backward_keys_reserved; [|exact Hr]. right.
    by eapply elem_of_sublist, reply_own_keys.
  - eapply sublist_NoDup; [|apply reply_own_keys].
    apply (bool_decide_unpack _). by vm_compute.
Qed.

(** The headers [m] hold the backward entries [bk], and any other header the
    client removes. *)
Definition holds_backward (m : gmap bytes bytes) (bk : list (bytes * bytes)) : Prop :=
  forall k v, starts_with k RPC_PREFIX_BACKWARD = true ->
    m !! k = Some v <-> (k, v) ∈ prefixed RPC_PREFIX_BACKWARD (Some bk).

Lemma holds_backward_delete m bk r :
  r ∈ HEADER_TRANS_REMOTE_ADDR :: reply_keys ->
  holds_backward m bk -> holds_backward (delete r m) bk.
Proof.
  intros Hr Hm k v Hk. rewrite lookup_delete_ne; [by apply Hm|].
  intros ->. by rewrite backward_not_prefix in Hk.
Qed.

Lemma reply_headers_backward mi (cx : RpcCx I1) :
  NoDup (prefixed RPC_PREFIX_BACKWARD (Some (backward_kvs mi))).*1 ->
  holds_backward (list_to_map (server_entries mi cx)) (backward_kvs mi).
Proof.
  intros Hd k v Hk. rewrite server_entries_own, list_to_map_app.
  rewrite lookup_union_l; [by rewrite elem_of_list_to_map|].
  apply not_elem_of_list_to_map_1. intros Hin.
  eapply elem_of_sublist in Hin; [|apply reply_own_keys].
  rewrite backward_not_prefix in Hk; [done|]. by right.
Qed.

Lemma reply_headers_own mi (cx : RpcCx I1) r :
  r ∈ HEADER_TRANS_REMOTE_ADDR :: reply_keys ->
  (list_to_map (server_entries mi cx) : gmap bytes bytes) !! r
  = (list_to_map (reply_own cx) : gmap bytes bytes) !! r.
Proof.
  intros Hr. rewrite server_entries_own, list_to_map_app.
  apply lookup_union_r, not_elem_of_list_to_map_1. by apply backward_keys_reserved.
Qed.

(** Removing the biz-error headers of a reply. *)
Lemma set_biz_error_header_reply (m : gmap bytes bytes) bk (scx : RpcCx I1) (ccx : RpcCx I2) e :
  be_extra e = None \/ (exists x, be_extra e = Some x /\ extra_text scx e = json_to_string x /\
                         json_to_string x <> None) ->
  - 2 ^ 31 <= be_status_code e < 2 ^ 31 ->
  m !! TT_HEADER_BIZ_STATUS_KEY = Some (dec_of_int (be_status_code e)) ->
  m !! TT_HEADER_BIZ_MESSAGE_KEY = Some (be_status_message e) ->
  m !! TT_HEADER_BIZ_EXTRA_KEY = extra_text scx e ->
  holds_backward m bk ->
  exists m', holds_backward m' bk /\
    set_biz_error_header ccx m = (reply_biz_error (Some e) ccx, m').
Proof.
  intros Hx Hc Hs Hm He Hb.
  pose proof (fun r H => holds_backward_delete m bk r H Hb) as Hd.
  unfold set_biz_error_header, hash_remove, reply_biz_error. rewrite Hs, parse_signed_dec by lia.
  case_bool_decide; [eexists; split; [apply Hd|done]; vm_decide|].
  rewrite lookup_delete_ne by done. rewrite Hm.
  rewrite !lookup_delete_ne by done. rewrite He.
  eexists. split; [|do 3 f_equal].
  - do 3 (apply holds_backward_delete; [vm_decide|]). done.
  - destruct e as [c msg ex]; cbn in *. f_equal. destruct Hx as [->|(x & -> & -> & Hj)]; [done|].
    destruct (json_to_string x) as [s|] eqn:Es; [|done]. cbn.
    by rewrite (json_round_trip _ _ Es).
Qed.

(** The codec's own headers of a reply. *)
Lemma reply_own_lookups (scx : RpcCx I1) :
  let m : gmap bytes bytes := list_to_map (reply_own scx) in
  m !! HEADER_TRANS_REMOTE_ADDR = None /\
  m !! HEADER_CONNECTION_READY_TO_RESET
    = (if encode_conn_reset scx then Some (str "1") else None) /\
  m !! TT_HEADER_BIZ_STATUS_KEY
    = ((fun e => dec_of_int (be_status_code e)) <$> biz_error (stats scx)) /\
  m !! TT_HEADER_BIZ_MESSAGE_KEY = be_status_message <$> biz_error (stats scx) /\
  m !! TT_HEADER_BIZ_EXTRA_KEY = biz_error (stats scx) ≫= extra_text scx.
Proof.
  unfold reply_own, biz_entries.
  destruct (encode_conn_reset scx), (biz_error (stats scx)) as [e|]; cbn [mbind option_bind];
    try destruct (extra_text scx e); done.
Qed.

Lemma reply_extra mi (scx : RpcCx I1) e :
  reply_fits mi scx -> biz_error (stats scx) = Some e ->
  be_extra e = None \/ (exists x, be_extra e = Some x /\ extra_text scx e = json_to_string x /\
                         json_to_string x <> None).
Proof.
  intros Hf He. destruct (be_extra e) as [x|] eqn:Ex; [right|by left].
  destruct (rf_extra _ _ Hf e x He Ex) as [Hj Hc].
  exists x. split_and!; [done| |done]. unfold extra_text. rewrite Ex. cbn.
  destruct Hc as [-> | ->]; [done|]. by destruct (json_to_string x).
Qed.

(** The client's part of decoding a reply's headers. *)
Lemma decode_client_reply mi (scx : RpcCx I1) (ccx : RpcCx I2) cmi :
  reply_fits mi scx ->
  exists bs ccx', bs ≡ₚ backward_kvs mi /\
    (if encode_conn_reset scx then set_conn_reset_by_ttheader true ccx else Done ccx)
      = @Done ThriftException _ ccx' /\
    decode_client ccx cmi (list_to_map (server_entries mi scx))
    = Done (reply_biz_error (biz_error (stats scx)) ccx', fold_left backward_set bs cmi).
Proof.
  intros Hf. pose proof (reply_headers_backward mi scx (rf_keys _ _ Hf)) as Hb.
  destruct (reply_own_lookups scx) as (Hr & Hcr & Hst & Hms & Hex).
  rewrite <- (reply_headers_own mi) in Hr, Hcr, Hst, Hms, Hex by vm_decide.
  set (m := list_to_map (server_entries mi scx)) in *.
  unfold decode_client, hash_remove at 1. rewrite Hr. cbn [mbind option_bind].
  unfold hash_remove at 1. rewrite lookup_delete_ne by done. rewrite Hcr.
  apply (holds_backward_delete _ _ HEADER_TRANS_REMOTE_ADDR) in Hb; [|vm_decide].
  apply (holds_backward_delete _ _ HEADER_CONNECTION_READY_TO_RESET) in Hb; [|vm_decide].
  set (m' := delete HEADER_CONNECTION_READY_TO_RESET (delete HEADER_TRANS_REMOTE_ADDR m)) in *.
  assert (exists ccx', (if encode_conn_reset scx then set_conn_reset_by_ttheader true ccx else Done ccx)
      = @Done ThriftException _ ccx') as [ccx' Hccx'].
  { destruct (encode_conn_reset scx); [|by eexists].
    destruct (conn_reset_true ThriftException ccx) as (x & -> & _). by eexists. }
  assert (exists m'', holds_backward m'' (backward_kvs mi) /\
    set_biz_error_header ccx' m' = (reply_biz_error (biz_error (stats scx)) ccx', m''))
    as (m'' & Hb'' & Hset).
  { destruct (biz_error (stats scx)) as [e|] eqn:Ee.
    - apply set_biz_error_header_reply with scx; unfold m'; rewrite ?lookup_delete_ne by done;
        eauto using reply_extra, rf_code.
    - unfold set_biz_error_header, hash_remove, m'. rewrite !lookup_delete_ne by done.
      rewrite Hst. cbn. eexists; split; [|done]. apply holds_backward_delete; [vm_decide|done]. }
  destruct (fold_backward m'' (backward_kvs mi) cmi (rf_keys _ _ Hf) Hb'') as (bs & Hp & Ebs).
  exists bs, ccx'. split_and!; [done..|]. fold m'. clearbody m'.
  destruct (encode_conn_reset scx); cbn [str]; [cbn [app]|].
  - change (str "1") with [x31]. cbv beta iota. rewrite Hccx'. cbn [mbind outcome_bind].
    rewrite Hset. by rewrite Ebs.
  - injection Hccx' as ->. cbn [mbind outcome_bind]. rewrite Hset. by rewrite Ebs.
Qed.

Lemma decode_encoded_reply mi (scx : RpcCx I1) size out cmi (ccx : RpcCx I2) payload :
  0 <= size < 2 ^ 63 ->
  ri_role (cx_rpc_info scx) = Server -> ri_role (cx_rpc_info ccx) = Client ->
  reply_fits mi scx ->
  encode mi scx [] size = Done out ->
  let p := default Binary (ext_protocol_id (cx_extensions scx)) in
  let ccx0 := RpcCx.extensions_mut (Extensions.insert_protocol_id p) ccx in
  exists bs ccx', bs ≡ₚ backward_kvs mi /\
    (if encode_conn_reset scx then set_conn_reset_by_ttheader true ccx0 else Done ccx0)
      = @Done ThriftException _ ccx' /\
    decode ccx cmi (drop 4 out ++ payload)
    = Done (reply_biz_error (biz_error (stats scx)) ccx', fold_left backward_set bs cmi, payload).
Proof.
  intros Hs Hsv Hc Hf He p ccx0.
  assert (string_entries mi scx = server_entries mi scx) as Ese
    by (unfold string_entries; by rewrite Hsv).
  assert (forall mt, Forall int_fits (int_entries scx mt)) as Hif.
  { intros mt. unfold int_entries. rewrite Hsv. by repeat constructor. }
  destruct (decode_encoded_header mi scx size out payload) as (mt & _ & Hh);
    rewrite ?Ese; try apply Hf; try done.
  rewrite Ese, inserts_list_to_map in Hh by apply server_entries_nodup, Hf.
  destruct (decode_client_reply mi scx ccx0 cmi Hf) as (bs & ccx' & Hp & Hr & Hd).
  exists bs, ccx'. split_and!; [done..|]. unfold decode. rewrite Hh. cbn [mbind outcome_bind].
  cbn [RpcCx.extensions_mut cx_rpc_info]. rewrite Hc. cbn [ds_headers ds_src].
  fold p. change (RpcCx.extensions_mut (Extensions.insert_protocol_id p) ccx) with ccx0.
  by rewrite Hd.
Qed.

(** C22: a reply survives the wire. A client that decodes the header a server
    encoded learns whether the connection is to be reset, gets the biz error
    (with its code, message and extra map; code zero means none), each
    backward metainfo entry exactly once, and the untouched payload. *)
Theorem ttheader_server_to_client mi (scx : RpcCx I1) size out cmi (ccx : RpcCx I2) payload :
  0 <= size < 2 ^ 63 ->
  ri_role (cx_rpc_info scx) = Server -> ri_role (cx_rpc_info ccx) = Client ->
  reply_fits mi scx ->
  encode mi scx [] size = Done out ->
  let p := default Binary (ext_protocol_id (cx_extensions scx)) in
  let ccx0 := RpcCx.extensions_mut (Extensions.insert_protocol_id p) ccx in
  exists bs ccx', bs ≡ₚ backward_kvs mi /\
    (if encode_conn_reset scx then set_conn_reset_by_ttheader true ccx0 else Done ccx0)
      = @Done ThriftException _ ccx' /\
    decode ccx cmi (drop 4 out ++ payload)
    = Done (reply_biz_error (biz_error (stats scx)) ccx', fold_left backward_set bs cmi, payload).
Proof. exact (decode_encoded_reply mi scx size out cmi ccx payload). Qed.
End Directions.
