(* ===== verification/TTHeaderExample.v ===== *)
(** Concrete calls through the TTHeader codec.

    Stand-ins for the other crates' code that satisfy what the codec relies
    on, and the theorems of the TTHeader files at a concrete call, reply and
    biz error. *)

From stdpp Require Import fin_maps.
From S2P Require Import Prelude Net Context TTHeader TTHeaderDecode TTHeaderEncode TTHeaderRoundTrip.

Module TTHeaderExample.

(** Three key-value stores. *)
Record Stores : Type := mkStores {
  st_persistents : option (list (bytes * bytes));
  st_transients : option (list (bytes * bytes));
  st_backward : option (list (bytes * bytes));
}.

Definition push (kv : bytes * bytes) (l : option (list (bytes * bytes))) :=
  Some (default [] l ++ [kv]).

(** A text form of a string map: the bits of its countable code. *)
Fixpoint bits (p : positive) : bytes :=
  match p with
  | xH => []
  | xO p => "0"%byte :: bits p
  | xI p => "1"%byte :: bits p
  end.

Fixpoint of_bits (s : bytes) : positive :=
  match s with
  | [] => xH
  | b :: s => if bool_decide (b = "0"%byte) then xO (of_bits s) else xI (of_bits s)
  end.

Lemma of_bits_bits p : of_bits (bits p) = p.
Proof. induction p as [p IH|p IH|]; cbn; by rewrite ?IH. Qed.

Definition map_text (x : gmap bytes bytes) : bytes := bits (countable.encode x).

Definition map_of_text (s : bytes) : option (option (gmap bytes bytes)) :=
  Some (countable.decode (of_bits s)).

Definition example_env : TTHeaderEnv := {|
  MetaInfo := Stores;
  RPC_PREFIX_PERSISTENT := str "rpc-persist-";
  RPC_PREFIX_TRANSIENT := str "rpc-transit-";
  RPC_PREFIX_BACKWARD := str "rpc-backward-";
  get_all_persistents := st_persistents;
  get_all_transients := st_transients;
  get_all_backward_transients := st_backward;
  strip_rpc_prefix_and_set_persistent k v mi :=
    mkStores (push (drop 12 k, v) (st_persistents mi)) (st_transients mi) (st_backward mi);
  strip_rpc_prefix_and_set_upstream k v mi :=
    mkStores (st_persistents mi) (push (drop 12 k, v) (st_transients mi)) (st_backward mi);
  strip_rpc_prefix_and_set_backward_downstream k v mi :=
    mkStores (st_persistents mi) (st_transients mi) (push (drop 13 k, v) (st_backward mi));
  msg_type_to_u8 t := match t with Call => 1 | Reply => 2 | Exception => 3 | OneWay => 4 end;
  json_to_string x := Some (map_text x);
  json_from_str := map_of_text;
  hash_into_iter := map_to_list;
|}.

#[local] Existing Instance example_env.

#[local] Instance example_text : AddrText := {|
  fmt_socket_addr a := match a with
    | SocketAddrV4 ip p => dec_of_Z ip ++ str ":" ++ dec_of_Z p
    | SocketAddrV6 ip p _ _ => str "[" ++ dec_of_Z ip ++ str "]:" ++ dec_of_Z p end;
  parse_socket_addr _ := None;
  escape_ascii n := n;
  to_string_lossy p := p;
|}.

#[local] Instance example_laws : MetainfoLaws.
Proof.
  split; cbn; try done.
  - intros k Hk. rewrite !elem_of_cons in Hk. by destruct Hk as [|[|?%elem_of_nil]].
  - intros k Hk. rewrite !elem_of_cons in Hk. by destruct Hk as [|[|?%elem_of_nil]].
  - intros k Hk. rewrite !elem_of_cons in Hk. by destruct Hk as [|[|[|[|[|?%elem_of_nil]]]]].
  - intros x s [= <-]. unfold map_of_text, map_text. by rewrite of_bits_bits, decode_encode.
Qed.

#[local] Instance example_profile : BuildProfile := true.

(** A call with a timeout, a destination and metainfo of both kinds. *)
Definition call_info : RpcInfo :=
  mkRpcInfo Client (Endpoint.new (str "caller"))
    (Endpoint.set_address (Ip (SocketAddrV4 2130706433 8888)) (Endpoint.new (str "callee")))
    (str "Get") (mkConfig (Some (from_millis 300)) None None).

Definition call_cx : ClientContext :=
  set_idl_service_name (str "ItemService") (ClientContext.new 7 call_info Call).

Definition call_metainfo : @MetaInfo example_env :=
  mkStores (Some [(str "k", str "v")]) (Some [(str "k", str "w")]) None.

Definition no_metainfo : @MetaInfo example_env := mkStores None None None.

(** A reply carrying a biz error; [reset] asks for the connection to close. *)
Definition biz : BizError :=
  mkBizError (-404) (str "no item") (Some {[ str "id" := str "3" ]}).

Definition reply_cx (reset : bool) : ServerContext :=
  RpcCx.inner_mut (fun i =>
    mkServerCxInner (Some 7) (Some Call) (Some Reply) reset None (s_stats i)
      (CommonStats.set_biz_error biz CommonStats.empty)) ServerContext.default.

Definition reply_metainfo : @MetaInfo example_env :=
  mkStores None None (Some [(str "b", str "x"); (str "c", [])]).

Definition bytes_of {E} (o : outcome E bytes) : bytes :=
  match o with Done b => b | _ => [] end.

Definition sized {A} (o : outcome ThriftException (RpcCx A * Z)) (d : RpcCx A) : RpcCx A * Z :=
  match o with Done r => r | _ => (d, 0) end.

Lemma decode_terminates_witness :
  halts (decode (I := ClientCxInner) call_cx no_metainfo [x10; x00]).
Proof. apply (decode_terminates call_cx no_metainfo [x10; x00]). Defined.

Lemma call_encodes : encode call_metainfo call_cx [] 3
  = Done (bytes_of (encode call_metainfo call_cx [] 3)).
Proof. vm_compute. reflexivity. Qed.

Lemma reply_encodes b : encode reply_metainfo (reply_cx b) [] 3
  = Done (bytes_of (encode reply_metainfo (reply_cx b) [] 3)).
Proof. destruct b; vm_compute; reflexivity. Qed.

Lemma ttheader_client_to_server_witness :
  exists fs, fs ≡ₚ forward_entries call_metainfo /\
    decode ServerContext.default no_metainfo
      (drop 4 (bytes_of (encode call_metainfo call_cx [] 3)) ++ [x01; x02; x03])
    = Done (server_view call_cx ServerContext.default,
            fold_left forward_set fs no_metainfo, [x01; x02; x03]).
Proof.
  apply (ttheader_client_to_server call_metainfo call_cx 3);
    [lia|done|done| |apply call_encodes].
  split; [vm_decide|vm_compute; done|vm_decide|vm_decide|].
  intros t [= <-]. vm_compute. split; congruence.
Defined.

Lemma ttheader_server_to_client_witness :
  exists bs ccx', bs ≡ₚ backward_kvs reply_metainfo /\
    set_conn_reset_by_ttheader true
      (RpcCx.extensions_mut (Extensions.insert_protocol_id Binary) call_cx)
      = @Done ThriftException _ ccx' /\
    decode call_cx no_metainfo
      (drop 4 (bytes_of (encode reply_metainfo (reply_cx true) [] 3)) ++ [x01])
    = Done (reply_biz_error (Some biz) ccx', fold_left backward_set bs no_metainfo, [x01]).
Proof.
  destruct (ttheader_server_to_client reply_metainfo (reply_cx true) 3
    (bytes_of (encode reply_metainfo (reply_cx true) [] 3)) no_metainfo call_cx [x01])
    as (bs & ccx' & Hp & Hr & Hd); [lia|done|done| |apply reply_encodes|].
  - split; [vm_decide|vm_compute; done|vm_decide| |].
    + intros e [= <-]. vm_compute. split; congruence.
    + intros e x [= <-] [= <-]. split; [done|by left].
  - exists bs, ccx'. split; [exact Hp|split; [exact Hr|exact Hd]].
Defined.

Lemma decode_consumes_declared_header_witness :
  exists hd rest,
    drop 4 (bytes_of (encode call_metainfo call_cx [] 3)) ++ [x01] = hd ++ rest.
Proof.
  set (src := drop 4 (bytes_of (encode call_metainfo call_cx [] 3)) ++ [x01]).
  destruct (decode (I := ServerCxInner) ServerContext.default no_metainfo src)
    as [[[cx mi] rest]| | |] eqn:E; [|exfalso; vm_compute in E; discriminate E..].
  destruct (decode_consumes_declared_header ServerContext.default no_metainfo src cx mi rest)
    as (hd & Hhd & _); [vm_compute; done|exact E|].
  exists hd, rest. exact Hhd.
Defined.

Lemma encode_size_exact_witness :
  Zlen (bytes_of (encode call_metainfo call_cx [] 3))
  = 0 + (sized (encode_size call_metainfo call_cx) call_cx).2.
Proof.
  apply (encode_size_exact call_metainfo call_cx call_cx
    (sized (encode_size call_metainfo call_cx) call_cx).2 [] 3
    (bytes_of (encode call_metainfo call_cx [] 3)));
    [lia|by left|vm_compute; reflexivity|apply call_encodes].
Defined.

Lemma encode_size_omits_biz_error_witness :
  let sz := sized (encode_size no_metainfo (reply_cx false)) (reply_cx false) in
  0 + sz.2 < Zlen (bytes_of (encode no_metainfo sz.1 [] 3)).
Proof.
  set (sz := sized (encode_size no_metainfo (reply_cx false)) (reply_cx false)).
  apply (encode_size_omits_biz_error no_metainfo (reply_cx false) sz.1 sz.2 [] 3);
    [lia|done|done|done|done|vm_compute; reflexivity|vm_compute; reflexivity].
Defined.
End TTHeaderExample.
