(* ===== verification/BufReader.v ===== *)
(** The buffered reader: [volo/src/util/buf_reader.rs].

    The reader under the buffer is any [AsyncRead]; {!ByteSource} is what the
    buffer relies on, and what the buffer promises in turn to its users. *)

From S2P Require Import Prelude.

(** * Polls and I/O results *)

Inductive poll (A : Type) : Type :=
| Ready (a : A)
| Pending.
Arguments Ready {A} a.
Arguments Pending {A}.

Inductive IoErrorKind : Type := IoInvalidData | IoUnexpectedEof | IoOther (code : Z).

Record io_error : Type := mkIoError { io_kind : IoErrorKind; io_msg : bytes }.

(** [io::Result]. *)
Inductive io_result (A : Type) : Type :=
| IoOk (a : A)
| IoErr (e : io_error).
Arguments IoOk {A} a.
Arguments IoErr {A} e.

(** [tokio]'s [AsyncRead::poll_read] into a buffer with [n] free bytes gives
    the bytes it put there; [AsyncReadExt::read] is awaited, so it only
    returns a ready result. *)
Class AsyncRead (R : Type) := {
  poll_read : forall {E}, Z -> R -> outcome E (poll (io_result bytes) * R);
  read : forall {E}, Z -> R -> outcome E (io_result bytes * R);
}.

(** A read of at most [n] bytes takes a prefix of the bytes to come, and
    takes nothing only when there are none; any other poll takes nothing. *)
Definition reads (n : Z) (before : bytes) (o : poll (io_result bytes)) (after : bytes) : Prop :=
  match o with
  | Ready (IoOk bs) =>
      Zlen bs <= n /\ before = bs ++ after /\ (bs = [] -> 0 < n -> before = [])
  | _ => after = before
  end.

(** What a reader promises: it delivers the bytes of its stream in order,
    without panicking, and a [healthy] one reports no error. *)
Class ByteSource (R : Type) `{AsyncRead R} := {
  source_wf : R -> Prop;
  healthy : R -> Prop;
  upcoming : R -> bytes;
  poll_read_spec : forall E r n, source_wf r -> 0 <= n < 2 ^ 63 ->
    exists o r', poll_read (E := E) n r = Done (o, r') /\ source_wf r' /\
      reads n (upcoming r) o (upcoming r') /\
      (healthy r -> healthy r' /\ forall e, o <> Ready (IoErr e));
}.

(** Awaiting a read returns: the same promise for a ready result. *)
Class AnsweringSource (R : Type) `{ByteSource R} : Prop := {
  read_spec : forall E r n, source_wf r -> 0 <= n < 2 ^ 63 ->
    exists o r', read (E := E) n r = Done (o, r') /\ source_wf r' /\
      reads n (upcoming r) (Ready o) (upcoming r') /\
      (healthy r -> healthy r' /\ forall e, o <> IoErr e);
}.

(** * The buffer *)

Definition DEFAULT_BUF_SIZE : Z := 8 * 1024.

Record BufReader (R : Type) : Type := mkBufReader {
  br_inner : R;
  br_buf : bytes;
  br_pos : Z;
  br_len : Z;
  br_cap : Z;
}.
Arguments mkBufReader {R}.
Arguments br_inner {R}.
Arguments br_buf {R}.
Arguments br_pos {R}.
Arguments br_len {R}.
Arguments br_cap {R}.

(** [&buf[i..j]] panics unless [i <= j <= buf.len()]. *)
Definition slice {E} (i j : Z) (buf : bytes) : outcome E bytes :=
  if bool_decide (0 <= i <= j /\ j <= Zlen buf)
  then Done (take (Z.to_nat (j - i)) (drop (Z.to_nat i) buf))
  else Panic.

Section BufReader.
Context `{BuildProfile} {R : Type} `{AsyncRead R} {E : Type}.

Definition with_capacity (capacity : Z) (inner : R) : BufReader R :=
  mkBufReader inner (replicate (Z.to_nat capacity) x00) 0 0 capacity.

Definition new (inner : R) : BufReader R := with_capacity DEFAULT_BUF_SIZE inner.

Definition buffer (self : BufReader R) : outcome E bytes :=
  slice (br_pos self) (br_len self) (br_buf self).

(** [compact]: [ptr::copy] moves the unread bytes to the front. *)
Definition compact (self : BufReader R) : BufReader R :=
  if bool_decide (br_len self = br_pos self)
  then mkBufReader (br_inner self) (br_buf self) 0 0 (br_cap self)
  else
    let len := br_len self - br_pos self in
    let unread := take (Z.to_nat len) (drop (Z.to_nat (br_pos self)) (br_buf self)) in
    mkBufReader (br_inner self) (patch 0 unread (br_buf self)) 0 len (br_cap self).

Definition clear (self : BufReader R) : BufReader R :=
  mkBufReader (br_inner self) (br_buf self) 0 0 (br_cap self).

Definition discard_buffer (self : BufReader R) : BufReader R :=
  mkBufReader (br_inner self) (br_buf self) 0 0 (br_cap self).

Definition set_inner (r : R) (self : BufReader R) : BufReader R :=
  mkBufReader r (br_buf self) (br_pos self) (br_len self) (br_cap self).

(** The bytes read into [buf[len..]]. *)
Definition appended (bs : bytes) (r : R) (self : BufReader R) : BufReader R :=
  mkBufReader r (patch (br_len self) bs (br_buf self)) (br_pos self)
    (br_len self + Zlen bs) (br_cap self).

(** The [while] loop of [fill_buf_at_least]; every round reads at least a
    byte, so [len] rounds are enough. *)
Fixpoint fill_loop (fuel : nat) (len : Z) (self : BufReader R)
  : outcome E (io_result bytes * BufReader R) :=
  match fuel with
  | O => OutOfFuel
  | S fuel' =>
      avail ← usize_sub (br_len self) (br_pos self);
      if bool_decide (avail < len) then
        free ← slice (br_len self) (br_cap self) (br_buf self);
        '(res, r) ← read (Zlen free) (br_inner self);
        match res with
        | IoErr e => Done (IoErr e, set_inner r self)
        | IoOk bs =>
            if bool_decide (Zlen bs = 0)
            then Done (IoErr (mkIoError IoInvalidData (str "invalid eof")), set_inner r self)
            else fill_loop fuel' len (appended bs r self)
        end
      else
        b ← buffer self;
        Done (IoOk b, self)
  end.

Definition fill_buf_at_least (len : Z) (self : BufReader R)
  : outcome E (io_result bytes * BufReader R) :=
  if bool_decide (len = 0) then Done (IoOk [], self)
  else
    avail ← usize_sub (br_len self) (br_pos self);
    if bool_decide (len <= avail) then
      b ← buffer self;
      Done (IoOk b, self)
    else if bool_decide (len <= br_cap self) then
      room ← usize_sub (br_cap self) (br_pos self);
      let self := if bool_decide (room < len) then compact self else self in
      fill_loop (S (Z.to_nat len)) len self
    else Panic.

(** [poll_fill_buf]. *)
Definition poll_fill_buf (self : BufReader R)
  : outcome E (poll (io_result bytes) * BufReader R) :=
  if bool_decide (br_cap self <= br_pos self) then
    if overflow_checks && negb (bool_decide (br_pos self = br_cap self)) then Panic
    else
      '(o, r) ← poll_read (Zlen (br_buf self)) (br_inner self);
      match o with
      | Pending => Done (Pending, set_inner r self)
      | Ready (IoErr e) => Done (Ready (IoErr e), set_inner r self)
      | Ready (IoOk bs) =>
          let self := mkBufReader r (patch 0 bs (br_buf self)) 0 (Zlen bs) (br_cap self) in
          b ← buffer self;
          Done (Ready (IoOk b), self)
      end
  else if bool_decide (br_len self < br_cap self) then
    free ← slice (br_len self) (br_cap self) (br_buf self);
    '(o, r) ← poll_read (Zlen free) (br_inner self);
    match o with
    | Pending =>
        let self := set_inner r self in
        if bool_decide (br_pos self < br_len self) then
          b ← buffer self;
          Done (Ready (IoOk b), self)
        else Done (Pending, self)
    | Ready (IoErr e) => Done (Ready (IoErr e), set_inner r self)
    | Ready (IoOk bs) =>
        let self := appended bs r self in
        b ← buffer self;
        Done (Ready (IoOk b), self)
    end
  else
    b ← buffer self;
    Done (Ready (IoOk b), self).

Definition consume (amt : Z) (self : BufReader R) : outcome E (BufReader R) :=
  p ← checked 64 (br_pos self + amt);
  Done (mkBufReader (br_inner self) (br_buf self) (Z.min p (br_len self)) (br_len self)
          (br_cap self)).

(** [poll_read] of the buffer, into a buffer with [n] free bytes. *)
Definition buf_poll_read (n : Z) (self : BufReader R)
  : outcome E (poll (io_result bytes) * BufReader R) :=
  if bool_decide (br_pos self = br_len self /\ Zlen (br_buf self) <= n) then
    '(o, r) ← poll_read n (br_inner self);
    match o with
    | Pending => Done (Pending, set_inner r self)
    | Ready res => Done (Ready res, discard_buffer (set_inner r self))
    end
  else
    '(o, self) ← poll_fill_buf self;
    match o with
    | Pending => Done (Pending, self)
    | Ready (IoErr e) => Done (Ready (IoErr e), self)
    | Ready (IoOk rem) =>
        let amt := Z.min (Zlen rem) n in
        self ← consume amt self;
        Done (Ready (IoOk (take (Z.to_nat amt) rem)), self)
    end.
End BufReader.

(** * Facts *)

(** The unread bytes of the buffer. *)
Definition unread {R} (self : BufReader R) : bytes :=
  take (Z.to_nat (br_len self - br_pos self)) (drop (Z.to_nat (br_pos self)) (br_buf self)).

(** The buffer's bounds: what every operation keeps. *)
Record buf_wf {R} `{ByteSource R} (self : BufReader R) : Prop := {
  bw_pos : 0 <= br_pos self <= br_len self;
  bw_len : br_len self <= br_cap self;
  bw_cap : Zlen (br_buf self) = br_cap self;
  bw_max : br_cap self < 2 ^ 62;
  bw_inner : source_wf (br_inner self);
}.

(** What is still to be read: the unread bytes, then the inner stream. *)
Definition stream {R} `{ByteSource R} (self : BufReader R) : bytes :=
  unread self ++ upcoming (br_inner self).

Section Facts.
Context `{BuildProfile} {R : Type} `{ByteSource R}.

(** A well-formed buffer is what was read, what is unread and the rest. *)
Lemma buf_split (self : BufReader R) :
  buf_wf self -> exists pre post,
    br_buf self = pre ++ unread self ++ post /\ Zlen pre = br_pos self /\
    Zlen (unread self) = br_len self - br_pos self /\ Zlen post = br_cap self - br_len self.
Proof.
  intros [[Hp0 Hp] Hl Hc _ _]. unfold unread.
  exists (take (Z.to_nat (br_pos self)) (br_buf self)),
    (drop (Z.to_nat (br_len self - br_pos self)) (drop (Z.to_nat (br_pos self)) (br_buf self))).
  rewrite !take_drop. unfold Zlen in *.
  rewrite !length_take, !length_drop. split_and!; [done|lia..].
Qed.

Lemma unread_split (r : R) pre u post pos len cap :
  pos = Zlen pre -> len = pos + Zlen u -> unread (mkBufReader r (pre ++ u ++ post) pos len cap) = u.
Proof.
  intros -> ->. unfold unread. cbn.
  replace (Z.to_nat (Zlen pre)) with (length pre) by (unfold Zlen; lia).
  rewrite drop_app_length. apply take_app_length'. unfold Zlen. lia.
Qed.

Lemma Zlen_unread (self : BufReader R) :
  buf_wf self -> Zlen (unread self) = br_len self - br_pos self.
Proof. intros Hw. by destruct (buf_split self Hw) as (?&?&?&?&?&?). Qed.

Lemma buffer_ok {E} (self : BufReader R) : buf_wf self -> @buffer R E self = Done (unread self).
Proof.
  intros [Hp Hl Hc _ _]. unfold buffer, slice. by rewrite bool_decide_eq_true_2 by lia.
Qed.

Lemma free_ok {E} (self : BufReader R) :
  buf_wf self -> exists fr, @slice E (br_len self) (br_cap self) (br_buf self) = Done fr /\
    Zlen fr = br_cap self - br_len self.
Proof.
  intros [Hp Hl Hc _ _]. unfold slice. rewrite bool_decide_eq_true_2 by lia.
  eexists; split; [done|]. unfold Zlen in *. rewrite length_take, length_drop. lia.
Qed.

Lemma set_inner_wf (self : BufReader R) r :
  buf_wf self -> source_wf r -> buf_wf (set_inner r self).
Proof. by intros [] ?. Qed.

Lemma discard_wf (self : BufReader R) : buf_wf self -> buf_wf (discard_buffer self).
Proof. intros [Hp Hl Hc Hm Hi]. split; cbn; lia || done. Qed.

Lemma compact_ok (self : BufReader R) :
  buf_wf self ->
  buf_wf (compact self) /\ unread (compact self) = unread self /\
  br_pos (compact self) = 0 /\ br_inner (compact self) = br_inner self /\
  br_cap (compact self) = br_cap self.
Proof.
  intros Hw. destruct (buf_split self Hw) as (pre & post & Eb & Hpre & Hu & Hpost).
  destruct Hw as [Hp Hl Hc Hm Hi]. unfold compact. case_bool_decide as He.
  - split_and!; [split; cbn; lia || done| |done..].
    assert (unread self = []) as -> by (apply length_zero_iff_nil; unfold Zlen in Hu; lia).
    done.
  - fold (unread self). unfold patch.
    change (take (Z.to_nat 0) (br_buf self)) with (@nil byte). cbn [app].
    split_and!; cbn [br_pos br_inner br_cap]; [split; cbn; [lia|lia| |lia|done]| |done..].
    + rewrite Zlen_app. unfold Zlen in *. rewrite length_drop. lia.
    + apply (unread_split _ [] (unread self)); [done|]. lia.
Qed.

Lemma appended_ok (self : BufReader R) bs r :
  buf_wf self -> source_wf r -> Zlen bs <= br_cap self - br_len self ->
  buf_wf (appended bs r self) /\ unread (appended bs r self) = unread self ++ bs.
Proof.
  intros Hw Hr Hbs. destruct (buf_split self Hw) as (pre & post & Eb & Hpre & Hu & Hpost).
  destruct Hw as [Hp Hl Hc Hm Hi]. pose proof (Zlen_nonneg bs).
  set (old := take (length bs) post). set (post' := drop (length bs) post).
  assert (post = old ++ post') as Epost by (symmetry; apply take_drop).
  assert (length old = length bs) as Eold
    by (unfold old, Zlen in *; rewrite length_take; lia).
  assert (patch (br_len self) bs (br_buf self) = pre ++ (unread self ++ bs) ++ post') as Ep.
  { rewrite Eb, Epost, app_assoc. rewrite patch_app; [by rewrite <- !app_assoc| |done].
    rewrite Zlen_app. lia. }
  unfold appended. rewrite Ep. split.
  - split; cbn; [lia|lia| |lia|done]. rewrite Eb, Epost, !Zlen_app in Hc.
    rewrite !Zlen_app. unfold Zlen in *. lia.
  - apply unread_split; [done|]. rewrite Zlen_app. lia.
Qed.

Lemma consume_ok {E} (self : BufReader R) n :
  buf_wf self -> 0 <= n <= Zlen (unread self) ->
  exists self', @consume _ R E n self = Done self' /\ buf_wf self' /\
    unread self' = drop (Z.to_nat n) (unread self) /\ br_inner self' = br_inner self /\
    br_cap self' = br_cap self.
Proof.
  intros Hw Hn. pose proof (Zlen_unread self Hw) as Hu. destruct Hw as [Hp Hl Hc Hm Hi].
  unfold consume. rewrite checked_ok by lia. cbn.
  eexists; split_and!; [done| | |done..].
  - split; cbn; lia || done.
  - unfold unread. cbn. rewrite Z.min_l by lia. rewrite skipn_firstn_comm, drop_drop.
    f_equal; [lia|]. f_equal. lia.
Qed.

(** Replacing the whole contents by what was just read. *)
Lemma refilled_ok (self : BufReader R) bs r :
  buf_wf self -> source_wf r -> Zlen bs <= br_cap self ->
  let self' := mkBufReader r (patch 0 bs (br_buf self)) 0 (Zlen bs) (br_cap self) in
  buf_wf self' /\ unread self' = bs.
Proof.
  intros [Hp Hl Hc Hm Hi] Hr Hbs. unfold patch.
  change (take (Z.to_nat 0) (br_buf self)) with (@nil byte). cbn [app].
  pose proof (Zlen_nonneg bs). split.
  - split; cbn; [lia|lia| |lia|done]. rewrite Zlen_app. unfold Zlen in *. rewrite length_drop. lia.
  - apply (unread_split _ [] bs); [done|lia].
Qed.

(** A fill keeps the stream and the bounds, and shows no byte only at the
    stream's end. *)
Lemma poll_fill_buf_ok {E} (self : BufReader R) :
  buf_wf self -> 0 < br_cap self ->
  exists o self', @poll_fill_buf _ R _ E self = Done (o, self') /\ buf_wf self' /\
    stream self' = stream self /\ br_cap self' = br_cap self /\
    (forall b, o = Ready (IoOk b) -> b = unread self' /\ (b = [] -> stream self = [])) /\
    (healthy (br_inner self) -> healthy (br_inner self') /\ forall e, o <> Ready (IoErr e)).
Proof.
  intros Hw H0c. pose proof Hw as [Hp Hl Hc Hm Hi]. unfold poll_fill_buf.
  pose proof (Zlen_unread self Hw) as Hu.
  case_bool_decide as Hfull; [|case_bool_decide as Hroom].
  - rewrite (bool_decide_eq_true_2 (br_pos self = br_cap self)), andb_false_r by lia.
    destruct (poll_read_spec E (br_inner self) (Zlen (br_buf self))) as (o & r & -> & Hr & Ho & Hh);
      [done|lia|]. cbn [mbind outcome_bind].
    assert (unread self = []) as Eu by (apply length_zero_iff_nil; unfold Zlen in Hu; lia).
    unfold stream. rewrite Eu. cbn [app].
    destruct o as [[bs|e]|]; cbn in Ho.
    + destruct Ho as (Hbs & Ebs & Heof). rewrite Hc in Hbs.
      destruct (refilled_ok self bs r) as [Hw' Eu']; [done..|].
      rewrite buffer_ok by done. cbn [mbind outcome_bind]. rewrite Eu'.
      eexists _, _. split_and!; [done|done|..]; [by rewrite Eu'|done| |naive_solver].
      intros b [= <-]. split; [done|]. intros ->. apply Heof; [done|lia].
    + eexists _, _. split_and!; [done|by apply set_inner_wf|..];
        [|done|done|intros Hhe; by apply Hh in Hhe as [? Hne]; destruct (Hne e)].
      unfold set_inner, unread; cbn; fold (unread self). by rewrite Eu, Ho.
    + eexists _, _. split_and!; [done|by apply set_inner_wf|..]; [|done|done|naive_solver].
      unfold set_inner, unread; cbn; fold (unread self). by rewrite Eu, Ho.
  - destruct (free_ok (E := E) self Hw) as (fr & -> & Hfr). cbn [mbind outcome_bind].
    destruct (poll_read_spec E (br_inner self) (Zlen fr)) as (o & r & -> & Hr & Ho & Hh);
      [done|lia|]. cbn [mbind outcome_bind].
    destruct o as [[bs|e]|]; cbn in Ho.
    + destruct Ho as (Hbs & Ebs & Heof).
      destruct (appended_ok self bs r) as [Hw' Eu']; [done|done|lia|].
      rewrite buffer_ok by done. cbn [mbind outcome_bind]. rewrite Eu'.
      eexists _, _. split_and!; [done|done|..];
        [unfold stream; by rewrite Eu', Ebs, app_assoc|done| |naive_solver].
      intros b [= <-]. split; [done|]. intros [Eu ->]%app_eq_nil.
      unfold stream. rewrite Eu, Heof; [done|done|lia].
    + eexists _, _. split_and!; [done|by apply set_inner_wf|..];
        [|done|done|intros Hhe; by apply Hh in Hhe as [? Hne]; destruct (Hne e)].
      unfold stream. by cbn; rewrite Ho.
    + cbn [br_pos br_len set_inner]. case_bool_decide.
      * rewrite buffer_ok by (by apply set_inner_wf). cbn [mbind outcome_bind].
        eexists _, _. split_and!; [done|by apply set_inner_wf|..]; [|done| |naive_solver].
        { unfold stream. by cbn; rewrite Ho. }
        intros b [= <-]. split; [done|]. change (unread (set_inner r self)) with (unread self).
        intros Eu. rewrite Eu, Zlen_nil in Hu. lia.
      * eexists _, _. split_and!; [done|by apply set_inner_wf|..]; [|done|done|naive_solver].
        unfold stream. by cbn; rewrite Ho.
  - rewrite buffer_ok by done. cbn [mbind outcome_bind].
    eexists _, _. split_and!; [done|done|done|done| |naive_solver].
    intros b [= <-]. split; [done|]. intros Eu. rewrite Eu, Zlen_nil in Hu. lia.
Qed.

(** A poll of the buffer is a read of its stream. *)
Lemma buf_poll_read_ok {E} (self : BufReader R) n :
  buf_wf self -> 0 <= n < 2 ^ 63 ->
  exists o self', @buf_poll_read _ R _ E n self = Done (o, self') /\ buf_wf self' /\
    br_cap self' = br_cap self /\
    reads n (stream self) o (stream self') /\
    (healthy (br_inner self) -> healthy (br_inner self') /\ forall e, o <> Ready (IoErr e)).
Proof.
  intros Hw Hn. pose proof Hw as [Hp Hl Hc Hm Hi]. pose proof (Zlen_unread self Hw) as Hu.
  unfold buf_poll_read. case_bool_decide as Hby.
  - assert (unread self = []) as Eu by (apply length_zero_iff_nil; unfold Zlen in Hu; lia).
    destruct (poll_read_spec E (br_inner self) n Hi Hn) as (o & r & -> & Hr & Ho & Hh).
    cbn [mbind outcome_bind].
    destruct o as [res|]; eexists _, _; (split_and!; [done|..]).
    + by apply discard_wf, set_inner_wf.
    + done.
    + unfold stream. rewrite Eu. exact Ho.
    + exact Hh.
    + by apply set_inner_wf.
    + done.
    + unfold stream in *. change (unread (set_inner r self)) with (unread self).
      rewrite Eu. exact Ho.
    + exact Hh.
  - destruct (decide (0 < br_cap self)) as [H0c|H0c].
    2: { exfalso. apply Hby. lia. }
    destruct (poll_fill_buf_ok (E := E) self Hw H0c) as (o & self1 & -> & Hw1 & Es & Ec & Hb & Hh).
    cbn [mbind outcome_bind].
    destruct o as [[rem|e]|]; [|eexists _, _; split_and!; try done..].
    destruct (Hb rem eq_refl) as [-> Heof]. pose proof (Zlen_nonneg (unread self1)).
    destruct (consume_ok (E := E) self1 (Z.min (Zlen (unread self1)) n))
      as (self2 & -> & Hw2 & Eu2 & Ei2 & Ec2); [done|lia|]. cbn [mbind outcome_bind].
    eexists _, _. split_and!; [done|done|congruence| |].
    + cbn. split_and!.
      * unfold Zlen in *. rewrite length_take. lia.
      * rewrite <- Es. unfold stream. by rewrite Eu2, Ei2, app_assoc, take_drop.
      * intros Et H0n. apply Heof. apply length_zero_iff_nil.
        apply (f_equal length) in Et. rewrite length_take in Et. unfold Zlen in *. cbn in *. lia.
    + rewrite Ei2. intros Hhe. split; [by apply Hh|done].
Qed.

(** C24: the buffer is transparent. A poll of a well-formed buffered reader
    does not panic and behaves as a reader of the unread bytes followed by
    the inner stream: the bytes come in order, none lost or repeated, and an
    empty read means the stream has ended; a healthy inner reader gives no
    error. *)
Theorem buf_poll_read_transparent {E} (self : BufReader R) n :
  buf_wf self -> 0 <= n < 2 ^ 63 ->
  exists o self', @buf_poll_read _ R _ E n self = Done (o, self') /\ buf_wf self' /\
    br_cap self' = br_cap self /\
    reads n (stream self) o (stream self') /\
    (healthy (br_inner self) -> healthy (br_inner self') /\ forall e, o <> Ready (IoErr e)).
Proof. exact (buf_poll_read_ok self n). Qed.

(** The loop of [fill_buf_at_least]. *)
Lemma fill_loop_ok `{!AnsweringSource R} {E} fuel (self : BufReader R) len :
  buf_wf self -> len <= br_cap self - br_pos self ->
  Z.max 0 (len - Zlen (unread self)) < Z.of_nat fuel ->
  exists res self', @fill_loop _ R _ E fuel len self = Done (res, self') /\ buf_wf self' /\
    stream self' = stream self /\ br_cap self' = br_cap self /\
    (forall b, res = IoOk b -> b = unread self' /\ len <= Zlen b) /\
    (healthy (br_inner self) -> healthy (br_inner self') /\
       forall e, res = IoErr e -> Zlen (stream self) < len).
Proof.
  revert self. induction fuel as [|fuel IH]; intros self Hw Hlen Hf;
    pose proof (Zlen_unread self Hw) as Hu; pose proof Hw as [Hp Hl Hc Hm Hi].
  - exfalso. lia.
  - cbn [fill_loop]. unfold usize_sub. rewrite checked_ok by lia. cbn [mbind outcome_bind].
    case_bool_decide as Hneed.
    2: { rewrite buffer_ok by done. eexists _, _. split_and!; [done..| |].
         - intros b [= <-]. split; [done|lia].
         - intros Hhe. split; [done|]. done. }
    destruct (free_ok (E := E) self Hw) as (fr & -> & Hfr). cbn [mbind outcome_bind].
    destruct (read_spec E (br_inner self) (Zlen fr)) as (o & r & -> & Hr & Ho & Hh); [done|lia|].
    cbn [mbind outcome_bind]. destruct o as [bs|e]; cbn in Ho.
    + destruct Ho as (Hbs & Ebs & Heof). pose proof (Zlen_nonneg bs). case_bool_decide as Hz.
      * assert (bs = []) as -> by (apply length_zero_iff_nil; unfold Zlen in Hz; lia).
        cbn in Ebs. eexists _, _. split_and!; [done|by apply set_inner_wf| |done|done|].
        { unfold stream. by cbn; rewrite Ebs. }
        intros Hhe. split; [naive_solver|]. intros e _. unfold stream.
        rewrite Heof, app_nil_r by (done || lia). lia.
      * destruct (appended_ok self bs r) as [Hw' Eu']; [done|done|lia|].
        destruct (IH (appended bs r self)) as (res & self' & -> & Hw'' & Es & Ec & Hb & Hhe);
          [done|cbn; lia|rewrite Eu', Zlen_app; lia|].
        assert (stream (appended bs r self) = stream self) as Es'
          by (unfold stream; by rewrite Eu', Ebs, app_assoc).
        eexists _, _. split_and!; [done|done|congruence|done|done|].
        intros Hx. rewrite <- Es'. apply Hhe. by apply Hh.
    + eexists _, _. split_and!; [done|by apply set_inner_wf| |done|done|].
      { unfold stream. by cbn; rewrite Ho. }
      intros Hx. split; [by apply Hh|]. by destruct (proj2 (Hh Hx) e).
Qed.

(** [fill_buf_at_least] on a request the buffer can hold. *)
Lemma fill_buf_at_least_ok `{!AnsweringSource R} {E} (self : BufReader R) len :
  buf_wf self -> 0 < len <= br_cap self ->
  exists res self', @fill_buf_at_least _ R _ E len self = Done (res, self') /\ buf_wf self' /\
    stream self' = stream self /\ br_cap self' = br_cap self /\
    (forall b, res = IoOk b -> b = unread self' /\ len <= Zlen b) /\
    (healthy (br_inner self) -> healthy (br_inner self') /\
       forall e, res = IoErr e -> Zlen (stream self) < len).
Proof.
  intros Hw Hlen. pose proof Hw as [Hp Hl Hc Hm Hi]. pose proof (Zlen_unread self Hw) as Hu.
  unfold fill_buf_at_least, usize_sub. rewrite bool_decide_eq_false_2 by lia.
  rewrite (checked_ok 64 (br_len self - br_pos self)) by lia. cbn [mbind outcome_bind].
  case_bool_decide as Hhave.
  - rewrite buffer_ok by done. eexists _, _.
    split_and!; [done..| |by intros ?; split].
    intros b [= <-]. split; [done|rewrite Hu; lia].
  - rewrite bool_decide_eq_true_2 by lia. rewrite checked_ok by lia. cbn [mbind outcome_bind].
    case_bool_decide as Hroom.
    + destruct (compact_ok self Hw) as (Hw' & Eu & Ep & Ei & Ec).
      assert (stream (compact self) = stream self) as Es by (unfold stream; by rewrite Eu, Ei).
      destruct (fill_loop_ok (E := E) (S (Z.to_nat len)) (compact self) len)
        as (res & self' & Hf & Hrest); [done|rewrite Ep, Ec; lia|rewrite Eu; lia|].
      rewrite Es, Ei, Ec in Hrest. eauto.
    + apply fill_loop_ok; [done|lia|lia].
Qed.

(** asking for [len] bytes that fit the capacity returns (whatever the
    chunks the transport delivers), never panics and loses nothing: on
    success the unread bytes are shown and there are at least [len] of them;
    over a healthy transport it fails only when the stream ends first. *)
Theorem fill_buf_at_least_spec `{!AnsweringSource R} {E} (self : BufReader R) len :
  buf_wf self -> 0 < len <= br_cap self -> healthy (br_inner self) ->
  exists res self', @fill_buf_at_least _ R _ E len self = Done (res, self') /\ buf_wf self' /\
    stream self' = stream self /\ healthy (br_inner self') /\
    match res with
    | IoOk b => len <= Zlen b /\ b = unread self' /\ len <= Zlen (stream self)
    | IoErr _ => Zlen (stream self) < len
    end.
Proof.
  intros Hw Hl Hh. destruct (fill_buf_at_least_ok (E := E) self len Hw Hl)
    as (res & self' & Ef & Hw' & Es & _ & Hb & He).
  destruct (He Hh) as [Hh' Herr]. exists res, self'. split_and!; [done..|].
  destruct res as [b|e]; [|by eapply Herr].
  destruct (Hb b eq_refl) as [Eb Hlb]. split_and!; [done|done|].
  rewrite <- Es. unfold stream. rewrite <- Eb, Zlen_app. pose proof (Zlen_nonneg (upcoming (br_inner self'))). lia.
Qed.
End Facts.

(** * A transport that delivers given chunks *)

Module Chunks.
(** A chunk of data, a poll that is not ready, or an error. *)
Inductive event : Type := Data (bs : bytes) | NotReady | Error (e : io_error).

Fixpoint await (n : Z) (evs : list event) : io_result bytes * list event :=
  match evs with
  | [] => (IoOk [], [])
  | NotReady :: evs => await n evs
  | Error e :: evs => (IoErr e, evs)
  | Data [] :: evs => await n evs
  | Data bs :: evs => (IoOk (take (Z.to_nat n) bs), Data (drop (Z.to_nat n) bs) :: evs)
  end.

(** A poll that meets [NotReady] answers [Pending] once. *)
Definition poll_event (n : Z) (evs : list event) : poll (io_result bytes) * list event :=
  match evs with
  | NotReady :: evs => (Pending, evs)
  | _ => let '(o, evs) := await n evs in (Ready o, evs)
  end.

#[export] Instance chunk_reader : AsyncRead (list event) := {|
  poll_read E n evs := Done (poll_event n evs);
  read E n evs := Done (await n evs);
|}.

Definition payload (evs : list event) : bytes :=
  concat ((fun ev => match ev with Data bs => bs | _ => [] end) <$> evs).

Definition no_error (evs : list event) : Prop :=
  Forall (fun ev => match ev with Error _ => False | _ => True end) evs.

Lemma await_ok n evs :
  0 <= n -> reads n (payload evs) (Ready (await n evs).1) (payload (await n evs).2) /\
  (no_error evs -> no_error (await n evs).2 /\ forall e, (await n evs).1 <> IoErr e).
Proof.
  intros Hn. induction evs as [|ev evs IH]; [cbn; split; [split_and!; [unfold Zlen; cbn; lia|done..]|done]|].
  assert (forall bs, payload (Data bs :: evs) = bs ++ payload evs) as Ed by done.
  destruct ev as [[|b bs]| |e]; cbn [await].
  - rewrite Ed. destruct IH as [IH1 IH2]. split; [exact IH1|].
    intros [_ Hne]%Forall_cons. by apply IH2.
  - rewrite Ed. cbn [fst snd]. rewrite Ed. split.
    + cbn [reads]. split_and!.
      * unfold Zlen. rewrite length_take. lia.
      * by rewrite app_assoc, take_drop.
      * intros Et H0. apply (f_equal length) in Et. rewrite length_take in Et. cbn in Et. lia.
    + intros [_ Hne]%Forall_cons. split; [by constructor|done].
  - destruct IH as [IH1 IH2]. split; [exact IH1|]. intros [_ Hne]%Forall_cons. by apply IH2.
  - split; [done|]. by intros [[] _]%Forall_cons.
Qed.

#[export] Program Instance chunk_source : ByteSource (list event) := {|
  source_wf _ := True;
  healthy := no_error;
  upcoming := payload;
|}.
Next Obligation.
  intros E evs n _ Hn. cbn. exists (poll_event n evs).1, (poll_event n evs).2.
  split_and!; [by destruct (poll_event n evs)|done|..].
  all: destruct (await_ok n evs) as [H1 H2]; [lia|].
  all: destruct evs as [|[bs| |e] evs]; try done.
  all: unfold poll_event; try (destruct (await n _) as [o evs'] eqn:Ea; cbn in *).
  all: try done.
  all: intros Hne; try (destruct (H2 Hne) as [? Hx]); split; try done.
  - intros e [= ->]. by apply (Hx e).
  - by apply Forall_cons in Hne as [_ ?].
  - intros e' [= ->]. by apply (Hx e').
Qed.

#[export] Instance chunk_answering : AnsweringSource (list event).
Proof.
  split. intros E evs n _ Hn. cbn. exists (await n evs).1, (await n evs).2.
  destruct (await_ok n evs) as [H1 H2]; [lia|]. split_and!; [by destruct (await n evs)|done..].
Qed.
End Chunks.
