(* ===== verification/Codec.v ===== *)
(** The Thrift codec stack: [volo-thrift/src/message_wrapper.rs],
    [volo-thrift/src/codec/default/thrift.rs], [framed.rs], the two trait
    implementations of [ttheader.rs], and the [DefaultEncoder] and
    [DefaultDecoder] of [codec/default/mod.rs].

    The traits [ZeroCopyEncoder] and [ZeroCopyDecoder] are classes; a layer is
    an instance over its inner layer, as the code composes them. *)

From S2P Require Import Prelude Net Context BufReader TTHeader.

(** [enum Protocol]. *)
Inductive Protocol : Type := ProtoBinary | ApacheCompact | FBThriftCompact.

#[export] Instance Protocol_eq_dec : EqDecision Protocol.
Proof. solve_decision. Defined.

Definition protocol_debug (p : Protocol) : bytes :=
  match p with
  | ProtoBinary => str "Binary"
  | ApacheCompact => str "ApacheCompact"
  | FBThriftCompact => str "FBThriftCompact"
  end.

(** * Messages *)

Record MessageMeta : Type := mkMeta {
  mm_msg_type : TMessageType;
  mm_method : bytes;
  mm_seq_id : Z;
}.

(** [data: Result<M, ApplicationException>]. *)
Record ThriftMessage (M X : Type) : Type := mkMessage {
  tm_data : M + X;
  tm_meta : MessageMeta;
}.
Arguments mkMessage {M X}.
Arguments tm_data {M X}.
Arguments tm_meta {M X}.

Definition mk_client_msg {M X} (cx : ClientContext) (msg : M) : ThriftMessage M X :=
  mkMessage (inl msg)
    (mkMeta (c_message_type (cx_inner cx)) (ri_method (cx_rpc_info cx)) (c_seq_id (cx_inner cx))).

Definition mk_server_resp {M X} (cx : ServerContext) (msg : M + X) : ThriftMessage M X :=
  mkMessage msg
    (mkMeta (match msg with inl _ => Reply | inr _ => Exception end)
       (ri_method (cx_rpc_info cx)) (default 0 (s_seq_id (cx_inner cx)))).

(** * Code of other crates the stack calls

    [pilota]'s protocols and generated messages: what each writes, its
    computed length, and how it is read from a buffer or from a reader. *)
Class Pilota (R : Type) := {
  Msg : Type;
  AppException : Type;
  message_begin_len : Protocol -> TMessageIdentifier -> Z;
  message_end_len : Protocol -> Z;
  msg_size : Protocol -> Msg -> Z;
  exn_size : Protocol -> AppException -> Z;
  zero_copy_len : Protocol -> ThriftMessage Msg AppException -> Z;
  write_message_begin : Protocol -> TMessageIdentifier -> outcome ThriftException bytes;
  write_message_end : Protocol -> outcome ThriftException bytes;
  msg_encode : Protocol -> Msg -> outcome ThriftException bytes;
  exn_encode : Protocol -> AppException -> outcome ThriftException bytes;
  read_message_begin : Protocol -> bytes -> outcome ThriftException (TMessageIdentifier * bytes);
  read_message_end : Protocol -> bytes -> outcome ThriftException bytes;
  msg_decode : Protocol -> TMessageIdentifier -> bytes -> outcome ThriftException (Msg * bytes);
  exn_decode : Protocol -> bytes -> outcome ThriftException (AppException * bytes);
  read_message_begin_async : Protocol -> BufReader R ->
    outcome ThriftException (TMessageIdentifier * BufReader R);
  read_message_end_async : Protocol -> BufReader R -> outcome ThriftException (BufReader R);
  msg_decode_async : Protocol -> TMessageIdentifier -> BufReader R ->
    outcome ThriftException (Msg * BufReader R);
  exn_decode_async : Protocol -> BufReader R ->
    outcome ThriftException (AppException * BufReader R);
  thrift_of_io : io_error -> ThriftException;
  append_msg : bytes -> ThriftException -> ThriftException;
}.

(** [tokio]'s awaited [fill_buf] and [read_exact] on the buffered reader, and
    [write_all_vectored] and [flush] on the writer. *)
Class TokioExt (R W : Type) := {
  fill_buf : BufReader R -> outcome ThriftException (io_result bytes * BufReader R);
  read_exact : Z -> BufReader R -> outcome ThriftException (io_result bytes * BufReader R);
  write_all : bytes -> W -> io_result unit * W;
  flush : W -> io_result unit * W;
}.

(** The instants at which the statistics are recorded. *)
Inductive Stamp : Type :=
| EncodeStart | EncodeEnd | WriteStart | WriteEnd
| DecodeStart | DecodeEnd | ReadStart | ReadEnd.

Class Clock := now : Stamp -> Z.

Section Codec.
Context `{BuildProfile} `{TTHeaderEnv} `{AddrText} `{Clock}.
Context {R W : Type} `{AsyncRead R} `{Pilota R} `{TokioExt R W}.
Context {I : Type} `{ThriftContext I}.

Abbreviation TMsg := (ThriftMessage Msg AppException).
Abbreviation Cx := (RpcCx I).

Definition message_ident (m : TMsg) : TMessageIdentifier :=
  mkIdent (mm_method (tm_meta m)) (mm_msg_type (tm_meta m)) (mm_seq_id (tm_meta m)).

(** [ThriftMessage::size]. *)
Definition message_size (p : Protocol) (m : TMsg) : Z :=
  match tm_data m with
  | inl inner => message_begin_len p (message_ident m) + msg_size p inner + message_end_len p
  | inr inner => message_begin_len p (message_ident m) + exn_size p inner + message_end_len p
  end.

(** [ThriftMessage::encode], onto the bytes written so far. *)
Definition message_encode (p : Protocol) (m : TMsg) (dst : bytes) : outcome ThriftException bytes :=
  b ← write_message_begin p (message_ident m);
  d ← match tm_data m with
      | inl v => msg_encode p v
      | inr e => exn_encode p e
      end;
  e ← write_message_end p;
  Done (dst ++ b ++ d ++ e).

(** [ThriftMessage::decode]. *)
Definition message_decode (p : Protocol) (cx : Cx) (src : bytes)
  : outcome ThriftException (TMsg * Cx * bytes) :=
  '(ident, src) ← read_message_begin p src;
  let cx := handle_decoded_msg_ident ident cx in
  '(res, src) ←
     match id_message_type ident with
     | Exception => '(e, src) ← exn_decode p src; Done (inr e, src)
     | _ => '(v, src) ← msg_decode p ident src; Done (inl v, src)
     end;
  src ← read_message_end p src;
  Done (mkMessage res
          (mkMeta (id_message_type ident) (id_name ident) (id_sequence_number ident)), cx, src).

(** [ThriftMessage::decode_async]. *)
Definition message_decode_async (p : Protocol) (cx : Cx) (r : BufReader R)
  : outcome ThriftException (TMsg * Cx * BufReader R) :=
  '(ident, r) ← read_message_begin_async p r;
  let cx := handle_decoded_msg_ident ident cx in
  '(res, r) ←
     match id_message_type ident with
     | Exception => '(e, r) ← exn_decode_async p r; Done (inr e, r)
     | _ => '(v, r) ← msg_decode_async p ident r; Done (inl v, r)
     end;
  r ← read_message_end_async p r;
  Done (mkMessage res
          (mkMeta (id_message_type ident) (id_name ident) (id_sequence_number ident)), cx, r).

(** * The layer traits *)

(** The metainfo is the task-local [METAINFO]; [zc_encode] appends to the
    linked bytes, [zc_size] gives the real and the recommended size. *)
Class ZeroCopyEncoder (E : Type) := {
  zc_encode : MetaInfo -> E -> Cx -> bytes -> TMsg -> outcome ThriftException (E * Cx * bytes);
  zc_size : MetaInfo -> E -> Cx -> TMsg -> outcome ThriftException (E * Cx * (Z * Z));
}.

Class ZeroCopyDecoder (D : Type) := {
  zc_decode : D -> Cx -> MetaInfo -> bytes ->
    outcome ThriftException (option TMsg * Cx * MetaInfo * bytes);
  zc_decode_async : D -> Cx -> MetaInfo -> BufReader R ->
    outcome ThriftException (option TMsg * Cx * MetaInfo * BufReader R);
}.

(** * [thrift.rs] *)

Definition THRIFT_DETECT_LENGTH : Z := 1.

Record ThriftCodec : Type := mkThriftCodec { tc_protocol : Protocol }.

(** [detect]: [buf[0]] panics on an empty buffer. *)
Definition detect (buf : bytes) : outcome ThriftException Protocol :=
  match buf with
  | [] => Panic
  | b :: _ =>
      if bool_decide (b = x80) || bool_decide (b = x00) then Done ProtoBinary
      else if bool_decide (b = x82) then Done ApacheCompact
      else Fail (ProtocolException BadVersion
                   (str "unknown protocol, first byte: " ++ dec_of_Z (Z_of_byte b)))
  end.

Definition unsupported {A} (p : Protocol) : outcome ThriftException A :=
  Fail (ProtocolException NotImplemented
          (str "protocol " ++ protocol_debug p ++ str " is not supported")).

Definition not_enough_bytes {A} : outcome ThriftException A :=
  Fail (ProtocolException BadVersion (str "not enough bytes to detect protocol in thrift codec")).

Definition thrift_decode (self : ThriftCodec) (cx : Cx) (mi : MetaInfo) (src : bytes)
  : outcome ThriftException (option TMsg * Cx * MetaInfo * bytes) :=
  if bool_decide (Zlen src < THRIFT_DETECT_LENGTH) then not_enough_bytes
  else
    protocol ← detect src;
    match protocol with
    | ProtoBinary =>
        '(msg, cx, src) ← message_decode ProtoBinary cx src;
        Done (Some msg, RpcCx.extensions_mut Extensions.insert_protocol_binary cx, mi, src)
    | ApacheCompact =>
        '(msg, cx, src) ← message_decode ApacheCompact cx src;
        Done (Some msg, RpcCx.extensions_mut Extensions.insert_protocol_apache_compact cx, mi, src)
    | p => unsupported p
    end.

Definition thrift_decode_async (self : ThriftCodec) (cx : Cx) (mi : MetaInfo) (r : BufReader R)
  : outcome ThriftException (option TMsg * Cx * MetaInfo * BufReader R) :=
  '(res, r) ← fill_buf_at_least THRIFT_DETECT_LENGTH r;
  match res with
  | IoErr _ => not_enough_bytes
  | IoOk buf =>
      protocol ← detect buf;
      '(msg, cx, r) ←
         match protocol with
         | ProtoBinary =>
             '(msg, cx, r) ← message_decode_async ProtoBinary cx r;
             Done (msg, RpcCx.extensions_mut Extensions.insert_protocol_binary cx, r)
         | ApacheCompact =>
             '(msg, cx, r) ← message_decode_async ApacheCompact cx r;
             Done (msg, RpcCx.extensions_mut Extensions.insert_protocol_apache_compact cx, r)
         | p => unsupported p
         end;
      Done (Some msg, stats_mut (CommonStats.record_read_end_at (now ReadEnd)) cx, mi, r)
  end.

(** The protocol to write: the one detected in this exchange, if any. *)
Definition chosen_protocol (self : ThriftCodec) (cx : Cx) : Protocol :=
  if ext_protocol_binary (cx_extensions cx) then ProtoBinary
  else if ext_protocol_apache_compact (cx_extensions cx) then ApacheCompact
  else tc_protocol self.

Definition thrift_encode (mi : MetaInfo) (self : ThriftCodec) (cx : Cx) (dst : bytes) (msg : TMsg)
  : outcome ThriftException (ThriftCodec * Cx * bytes) :=
  match chosen_protocol self cx with
  | ProtoBinary => dst ← message_encode ProtoBinary msg dst; Done (self, cx, dst)
  | ApacheCompact => dst ← message_encode ApacheCompact msg dst; Done (self, cx, dst)
  | p => unsupported p
  end.

Definition thrift_size (mi : MetaInfo) (self : ThriftCodec) (cx : Cx) (msg : TMsg)
  : outcome ThriftException (ThriftCodec * Cx * (Z * Z)) :=
  let sizes p :=
    let real_size := message_size p msg in
    malloc_size ← usize_sub real_size (zero_copy_len p msg);
    Done (self, cx, (real_size, malloc_size)) in
  match chosen_protocol self cx with
  | ProtoBinary => sizes ProtoBinary
  | ApacheCompact => sizes ApacheCompact
  | p => unsupported p
  end.

#[export] Instance thrift_encoder : ZeroCopyEncoder ThriftCodec :=
  {| zc_encode := thrift_encode; zc_size := thrift_size |}.

#[export] Instance thrift_decoder : ZeroCopyDecoder ThriftCodec :=
  {| zc_decode := thrift_decode; zc_decode_async := thrift_decode_async |}.

(** * [framed.rs] *)

Definition DEFAULT_MAX_FRAME_SIZE : Z := 16 * 1024 * 1024.
Definition FRAMED_HEADER_SIZE : Z := 4.

(** [check_framed_size]. *)
Definition check_framed_size (size max_frame_size : Z) : outcome ThriftException unit :=
  if bool_decide (max_frame_size < size) then
    Fail (ProtocolException SizeLimit
            (str "frame size " ++ dec_of_int size ++ str " exceeds max frame size "
               ++ dec_of_int max_frame_size))
  else if bool_decide (size < 0) then
    Fail (ProtocolException NegativeSize
            (str "frame size " ++ dec_of_int size ++ str " is negative"))
  else Done tt.

(** [is_framed]: the slice [buf[4..6]] panics on a shorter buffer. *)
Definition is_framed (buf : bytes) : outcome ThriftException bool :=
  if bool_decide (6 <= Zlen buf)
  then Done (bool_decide (take 2 (drop 4 buf) = [x80; x01])
             || bool_decide (take 1 (drop 4 buf) = [x82]))
  else Panic.

(** [get_i32]. *)
Definition get_i32 {E} (src : bytes) : outcome E (Z * bytes) :=
  '(z, src) ← get_u32 src; Done (swrap 32 z, src).

Record FramedDecoder (D : Type) : Type := mkFramedDecoder {
  fd_inner : D;
  fd_max_frame_size : Z;
}.
#[global] Arguments mkFramedDecoder {D}.
#[global] Arguments fd_inner {D}.
#[global] Arguments fd_max_frame_size {D}.

Record FramedEncoder (E : Type) : Type := mkFramedEncoder {
  fe_inner : E;
  fe_inner_size : Z;
  fe_max_frame_size : Z;
}.
#[global] Arguments mkFramedEncoder {E}.
#[global] Arguments fe_inner {E}.
#[global] Arguments fe_inner_size {E}.
#[global] Arguments fe_max_frame_size {E}.

Definition framed_decode {D} `{ZeroCopyDecoder D} (self : FramedDecoder D)
    (cx : Cx) (mi : MetaInfo) (src : bytes)
  : outcome ThriftException (option TMsg * Cx * MetaInfo * bytes) :=
  if bool_decide (Zlen src < HEADER_DETECT_LENGTH) then zc_decode (fd_inner self) cx mi src
  else
    framed ← is_framed (take 6 src);
    if framed : bool then
      '(size, src) ← get_i32 src;
      _ ← check_framed_size size (fd_max_frame_size self);
      zc_decode (fd_inner self) (RpcCx.extensions_mut Extensions.insert_has_framed cx) mi src
    else zc_decode (fd_inner self) cx mi src.

(** [size as usize] of a negative [i32] sign-extends. *)
Definition framed_decode_async {D} `{ZeroCopyDecoder D} (self : FramedDecoder D)
    (cx : Cx) (mi : MetaInfo) (r : BufReader R)
  : outcome ThriftException (option TMsg * Cx * MetaInfo * BufReader R) :=
  '(res, r) ← fill_buf_at_least HEADER_DETECT_LENGTH r;
  match res with
  | IoErr _ => zc_decode_async (fd_inner self) cx mi r
  | IoOk buf =>
      framed ← is_framed buf;
      if framed : bool then
        '(size, _) ← get_i32 buf;
        read_size ← checked 64 (wrap 64 size + 4);
        let cx := stats_mut (CommonStats.set_read_size read_size) cx in
        r ← consume 4 r;
        _ ← check_framed_size size (fd_max_frame_size self);
        '(res, r) ← read_exact size r;
        match res with
        | IoErr e => Fail (thrift_of_io e)
        | IoOk buffer =>
            let cx := stats_mut (CommonStats.record_read_end_at (now ReadEnd)) cx in
            let cx := RpcCx.extensions_mut Extensions.insert_has_framed cx in
            '(msg, cx, mi, _) ← zc_decode (fd_inner self) cx mi buffer;
            Done (msg, cx, mi, r)
        end
      else zc_decode_async (fd_inner self) cx mi r
  end.

(** The frame is written by a client, and by a server that has seen one. *)
Definition writes_framed (cx : Cx) : bool :=
  bool_decide (ri_role (cx_rpc_info cx) = Client) || ext_has_framed (cx_extensions cx).

Definition framed_encode {E} `{ZeroCopyEncoder E} (mi : MetaInfo) (self : FramedEncoder E)
    (cx : Cx) (dst : bytes) (msg : TMsg)
  : outcome ThriftException (FramedEncoder E * Cx * bytes) :=
  let dst := if writes_framed cx then dst ++ put_u32 (fe_inner_size self) else dst in
  '(inner, cx, dst) ← zc_encode mi (fe_inner self) cx dst msg;
  Done (mkFramedEncoder inner (fe_inner_size self) (fe_max_frame_size self), cx, dst).

Definition framed_size {E} `{ZeroCopyEncoder E} (mi : MetaInfo) (self : FramedEncoder E)
    (cx : Cx) (msg : TMsg)
  : outcome ThriftException (FramedEncoder E * Cx * (Z * Z)) :=
  '(inner, cx, (real_size, malloc_size)) ← zc_size mi (fe_inner self) cx msg;
  let self := mkFramedEncoder inner (swrap 32 real_size) (fe_max_frame_size self) in
  if writes_framed cx then
    _ ← check_framed_size (fe_inner_size self) (fe_max_frame_size self);
    real_size ← checked 64 (real_size + FRAMED_HEADER_SIZE);
    malloc_size ← checked 64 (malloc_size + FRAMED_HEADER_SIZE);
    Done (self, cx, (real_size, malloc_size))
  else Done (self, cx, (real_size, malloc_size)).

#[export] Instance framed_encoder {E} `{ZeroCopyEncoder E} : ZeroCopyEncoder (FramedEncoder E) :=
  {| zc_encode := framed_encode; zc_size := framed_size |}.

#[export] Instance framed_decoder {D} `{ZeroCopyDecoder D} : ZeroCopyDecoder (FramedDecoder D) :=
  {| zc_decode := framed_decode; zc_decode_async := framed_decode_async |}.

(** * The layer of [ttheader.rs] *)

Record TTHeaderDecoder (D : Type) : Type := mkTTHeaderDecoder { td_inner : D }.
#[global] Arguments mkTTHeaderDecoder {D}.
#[global] Arguments td_inner {D}.

Record TTHeaderEncoder (E : Type) : Type := mkTTHeaderEncoder { te_inner : E; te_inner_size : Z }.
#[global] Arguments mkTTHeaderEncoder {E}.
#[global] Arguments te_inner {E}.
#[global] Arguments te_inner_size {E}.

Definition ttheader_decode {D} `{ZeroCopyDecoder D} (self : TTHeaderDecoder D)
    (cx : Cx) (mi : MetaInfo) (src : bytes)
  : outcome ThriftException (option TMsg * Cx * MetaInfo * bytes) :=
  if bool_decide (Zlen src < HEADER_DETECT_LENGTH) then zc_decode (td_inner self) cx mi src
  else
    tt ← is_ttheader (take 6 src);
    if tt : bool then
      '(_, src) ← get_u32 src;
      '(cx, mi, src) ← decode cx mi src;
      zc_decode (td_inner self) (RpcCx.extensions_mut Extensions.insert_has_ttheader cx) mi src
    else zc_decode (td_inner self) cx mi src.

Definition ttheader_decode_async {D} `{ZeroCopyDecoder D} (self : TTHeaderDecoder D)
    (cx : Cx) (mi : MetaInfo) (r : BufReader R)
  : outcome ThriftException (option TMsg * Cx * MetaInfo * BufReader R) :=
  '(res, r) ← fill_buf_at_least HEADER_DETECT_LENGTH r;
  match res with
  | IoErr _ => zc_decode_async (td_inner self) cx mi r
  | IoOk buf =>
      tt ← is_ttheader buf;
      if tt : bool then
        '(size, _) ← get_u32 buf;
        read_size ← checked 64 (size + 4);
        let cx := stats_mut (CommonStats.set_read_size read_size) cx in
        r ← consume 4 r;
        '(res, r) ← read_exact size r;
        match res with
        | IoErr e => Fail (thrift_of_io e)
        | IoOk buffer =>
            let cx := stats_mut (CommonStats.record_read_end_at (now ReadEnd)) cx in
            '(cx, mi, buffer) ← decode cx mi buffer;
            let cx := RpcCx.extensions_mut Extensions.insert_has_ttheader cx in
            '(msg, cx, mi, _) ← zc_decode (td_inner self) cx mi buffer;
            Done (msg, cx, mi, r)
        end
      else zc_decode_async (td_inner self) cx mi r
  end.

(** The header is written by a client, and by a server that has seen one. *)
Definition writes_ttheader (cx : Cx) : bool :=
  bool_decide (ri_role (cx_rpc_info cx) = Client) || ext_has_ttheader (cx_extensions cx).

Definition ttheader_encode {E} `{ZeroCopyEncoder E} (mi : MetaInfo) (self : TTHeaderEncoder E)
    (cx : Cx) (dst : bytes) (msg : TMsg)
  : outcome ThriftException (TTHeaderEncoder E * Cx * bytes) :=
  dst ← (if writes_ttheader cx then encode mi cx dst (te_inner_size self) else Done dst);
  '(inner, cx, dst) ← zc_encode mi (te_inner self) cx dst msg;
  Done (mkTTHeaderEncoder inner (te_inner_size self), cx, dst).

Definition ttheader_size {E} `{ZeroCopyEncoder E} (mi : MetaInfo) (self : TTHeaderEncoder E)
    (cx : Cx) (msg : TMsg)
  : outcome ThriftException (TTHeaderEncoder E * Cx * (Z * Z)) :=
  '(inner, cx, (real_size, malloc_size)) ← zc_size mi (te_inner self) cx msg;
  let self := mkTTHeaderEncoder inner real_size in
  if writes_ttheader cx then
    '(cx, size) ← encode_size mi cx;
    real_size ← checked 64 (real_size + size);
    malloc_size ← checked 64 (malloc_size + size);
    Done (self, cx, (real_size, malloc_size))
  else Done (self, cx, (real_size, malloc_size)).

#[export] Instance ttheader_encoder {E} `{ZeroCopyEncoder E}
  : ZeroCopyEncoder (TTHeaderEncoder E) :=
  {| zc_encode := ttheader_encode; zc_size := ttheader_size |}.

#[export] Instance ttheader_decoder {D} `{ZeroCopyDecoder D}
  : ZeroCopyDecoder (TTHeaderDecoder D) :=
  {| zc_decode := ttheader_decode; zc_decode_async := ttheader_decode_async |}.

(** * [DefaultEncoder] and [DefaultDecoder] *)

Record DefaultEncoder (E : Type) : Type := mkDefaultEncoder {
  de_encoder : E;
  de_writer : W;
  de_linked_bytes : bytes;
}.
#[global] Arguments mkDefaultEncoder {E}.
#[global] Arguments de_encoder {E}.
#[global] Arguments de_writer {E}.
#[global] Arguments de_linked_bytes {E}.

(** The text appended to an encode error. *)
Definition encode_error_msg (rpc_info_debug : bytes) (real_size malloc_size : Z) : bytes :=
  str ", cx: " ++ rpc_info_debug ++ str ", encode real size: " ++ dec_of_Z real_size
    ++ str ", malloc size: " ++ dec_of_Z malloc_size.

(** [DefaultEncoder::encode]: the linked bytes are reset before and after,
    and a write is followed by a flush. *)
Definition default_encode {E} `{ZeroCopyEncoder E} (rpc_info_debug : RpcInfo -> bytes)
    (mi : MetaInfo) (self : DefaultEncoder E) (cx : Cx) (msg : TMsg)
  : outcome ThriftException (option ThriftException * DefaultEncoder E * Cx) :=
  let cx := stats_mut (CommonStats.record_encode_start_at (now EncodeStart)) cx in
  '(enc, cx, (real_size, malloc_size)) ← zc_size mi (de_encoder self) cx msg;
  let cx := stats_mut (CommonStats.set_write_size real_size) cx in
  '(enc, cx, linked, encoded) ←
     match zc_encode mi enc cx [] msg with
     | Done (enc, cx, linked) =>
         Done (enc, stats_mut (CommonStats.record_encode_end_at (now EncodeEnd)) cx, linked, None)
     | Fail e =>
         Done (enc, stats_mut (CommonStats.record_encode_end_at (now EncodeEnd)) cx, [], Some e)
     | Panic => Panic
     | OutOfFuel => OutOfFuel
     end;
  let '(result, w, cx) :=
    match encoded with
    | Some e => (Some e, de_writer self, cx)
    | None =>
        let cx := stats_mut (CommonStats.record_write_start_at (now WriteStart)) cx in
        match write_all linked (de_writer self) with
        | (IoErr e, w) => (Some (thrift_of_io e), w, cx)
        | (IoOk _, w) =>
            match flush w with
            | (IoErr e, w) => (Some (thrift_of_io e), w, cx)
            | (IoOk _, w) => (None, w, cx)
            end
        end
    end in
  let cx := stats_mut (CommonStats.record_write_end_at (now WriteEnd)) cx in
  let self := mkDefaultEncoder enc w [] in
  match result with
  | None => Done (None, self, cx)
  | Some e =>
      let msg := encode_error_msg (rpc_info_debug (cx_rpc_info cx)) real_size malloc_size in
      Done (Some (append_msg msg e), self, cx)
  end.

(** [DefaultDecoder::decode], without the [shmipc] feature: [None] at the end
    of the stream. *)
Definition default_decode {D} `{ZeroCopyDecoder D} (decoder : D) (cx : Cx) (mi : MetaInfo)
    (r : BufReader R)
  : outcome ThriftException (option TMsg * Cx * MetaInfo * BufReader R) :=
  '(res, r) ← fill_buf r;
  match res with
  | IoErr e => Fail (thrift_of_io e)
  | IoOk [] => Done (None, cx, mi, r)
  | IoOk (_ :: _) =>
      let cx := stats_mut (CommonStats.record_decode_start_at (now DecodeStart)) cx in
      let cx := stats_mut (CommonStats.record_read_start_at (now ReadStart)) cx in
      '(msg, cx, mi, r) ← zc_decode_async decoder cx mi r;
      Done (msg, stats_mut (CommonStats.record_decode_end_at (now DecodeEnd)) cx, mi, r)
  end.

(** The default stack: [TTHeader<Framed<Thrift>>]. *)
Abbreviation StackEncoder := (TTHeaderEncoder (FramedEncoder ThriftCodec)).
Abbreviation StackDecoder := (TTHeaderDecoder (FramedDecoder ThriftCodec)).

Definition default_stack_encoder : StackEncoder :=
  mkTTHeaderEncoder (mkFramedEncoder (mkThriftCodec ProtoBinary) 0 DEFAULT_MAX_FRAME_SIZE) 0.

Definition default_stack_decoder : StackDecoder :=
  mkTTHeaderDecoder (mkFramedDecoder (mkThriftCodec ProtoBinary) DEFAULT_MAX_FRAME_SIZE).
End Codec.
