(* ===== verification/CodecRoundTrip.v ===== *)
(** The codec stack end to end: sizes, frame boundaries, and calls and
    replies carried over a chunked transport. *)

From S2P Require Import Prelude Net Context BufReader TTHeader TTHeaderDecode TTHeaderEncode TTHeaderRoundTrip Codec.

(** * What the stack relies on *)

(** An identifier the protocols can carry. *)
Definition ident_ok (id : TMessageIdentifier) : Prop :=
  Zlen (id_name id) < 2 ^ 31 /\ - 2 ^ 31 <= id_sequence_number id < 2 ^ 31.

(** [pilota]: computed lengths are the written ones, what is written reads
    back, the end of a message is not marked, and the two protocols start
    with their own version bytes. *)
Class PilotaLaws (R : Type) `{Pilota R} : Prop := {
  begin_len : forall p id b, write_message_begin p id = Done b -> Zlen b = message_begin_len p id;
  msg_len : forall p m b, msg_encode p m = Done b -> Zlen b = msg_size p m;
  exn_len : forall p x b, exn_encode p x = Done b -> Zlen b = exn_size p x;
  end_len : forall p, message_end_len p = 0;
  write_end : forall p, write_message_end p = Done [];
  read_end : forall p src, read_message_end p src = Done src;
  begin_reads_back : forall p id b src,
    ident_ok id -> write_message_begin p id = Done b -> read_message_begin p (b ++ src) = Done (id, src);
  msg_reads_back : forall p id m b, msg_encode p m = Done b -> msg_decode p id b = Done (m, []);
  exn_reads_back : forall p x b, exn_encode p x = Done b -> exn_decode p b = Done (x, []);
  binary_version : forall id b, write_message_begin ProtoBinary id = Done b ->
    exists b', b = x80 :: x01 :: b';
  compact_version : forall id b, write_message_begin ApacheCompact id = Done b ->
    exists c b', b = x82 :: c :: b';
}.

(** [tokio]'s loops over the polls of the buffered reader. *)
Section Tokio.
Context `{BuildProfile} {R : Type} `{AsyncRead R}.

(** [fill_buf]: polls until ready. *)
Inductive filled : BufReader R -> io_result bytes -> BufReader R -> Prop :=
| filled_ready r o r' :
    poll_fill_buf (E := ThriftException) r = Done (Ready o, r') -> filled r o r'
| filled_pending r r1 o r' :
    poll_fill_buf (E := ThriftException) r = Done (Pending, r1) -> filled r1 o r' -> filled r o r'.

(** [read_exact]: polls until the buffer is full; an empty read before that
    is an unexpected end of file. *)
Inductive read_exactly : Z -> BufReader R -> io_result bytes -> BufReader R -> Prop :=
| rx_full r : read_exactly 0 r (IoOk []) r
| rx_pending n r r1 o r' :
    0 < n -> buf_poll_read (E := ThriftException) n r = Done (Pending, r1) ->
    read_exactly n r1 o r' -> read_exactly n r o r'
| rx_error n r e r' :
    0 < n -> buf_poll_read (E := ThriftException) n r = Done (Ready (IoErr e), r') ->
    read_exactly n r (IoErr e) r'
| rx_eof n r r' e :
    0 < n -> buf_poll_read (E := ThriftException) n r = Done (Ready (IoOk []), r') ->
    io_kind e = IoUnexpectedEof -> read_exactly n r (IoErr e) r'
| rx_more n r bs r1 o r' :
    0 < n -> bs <> [] -> buf_poll_read (E := ThriftException) n r = Done (Ready (IoOk bs), r1) ->
    read_exactly (n - Zlen bs) r1 o r' ->
    read_exactly n r (match o with IoOk cs => IoOk (bs ++ cs) | IoErr e => IoErr e end) r'.
End Tokio.

Class TokioLaws (R W : Type) `{BuildProfile} `{ByteSource R} `{TokioExt R W} : Prop := {
  fill_buf_filled : forall r, buf_wf r -> 0 < br_cap r ->
    exists o r', fill_buf r = Done (o, r') /\ filled r o r';
  read_exact_reads : forall n r, buf_wf r -> 0 <= n < 2 ^ 63 ->
    exists o r', read_exact n r = Done (o, r') /\ read_exactly n r o r';
}.

(** * Reading from the buffered reader *)

Section Reading.
Context `{BuildProfile} {R : Type} `{ByteSource R}.

(** A reader that is well formed, healthy, has room for a detection and will
    deliver [s]. *)
Record delivers (r : BufReader R) (s : bytes) : Prop := {
  dl_wf : buf_wf r;
  dl_healthy : healthy (br_inner r);
  dl_cap : HEADER_DETECT_LENGTH <= br_cap r;
  dl_stream : stream r = s;
}.

Lemma filled_delivers r o r' s :
  delivers r s -> filled r o r' ->
  delivers r' s /\ exists b, o = IoOk b /\ (b = [] -> s = []).
Proof.
  intros Hd Hf. induction Hf as [r o r' Hp|r r1 o r' Hp Hf IH].
  all: destruct Hd as [Hw Hh Hc <-].
  all: destruct (poll_fill_buf_ok (E := ThriftException) r) as (o1 & r1' & E1 & Hw1 & Es & Ec & Hb & Hhe);
    [done|unfold HEADER_DETECT_LENGTH in Hc; lia|]; rewrite E1 in Hp; simplify_eq.
  all: destruct (Hhe Hh) as [Hh1 Hne].
  - split; [split; congruence|]. destruct o as [b|e]; [|by destruct (Hne e)].
    exists b. split; [done|]. intros ->. by apply (Hb []).
  - apply IH. split; congruence.
Qed.

Lemma read_exactly_delivers n r o r' a s :
  delivers r (a ++ s) -> n = Zlen a -> n < 2 ^ 63 -> read_exactly n r o r' ->
  o = IoOk a /\ delivers r' s.
Proof.
  intros Hd Hn Hmax Hr. revert a Hd Hn. induction Hr; intros a Hd En; try subst n.
  all: try (destruct (buf_poll_read_ok (E := ThriftException) r (Zlen a))
    as (o1 & r1' & E1 & Hw1 & Ec & Hrd & Hhe); [apply Hd|lia|];
    destruct (Hhe (dl_healthy _ _ Hd)) as [Hh1 Hne];
    match goal with Hp : buf_poll_read _ _ = Done (?o', _) |- _ =>
      tryif is_var o' then fail else (rewrite E1 in Hp; simplify_eq) end;
    rewrite (dl_stream _ _ Hd) in Hrd; cbn in Hrd;
    pose proof (dl_cap _ _ Hd)).
  - assert (a = []) as -> by (apply length_zero_iff_nil; unfold Zlen in *; lia). done.
  - apply IHHr; [done|split; congruence|done].
  - by destruct (Hne e).
  - destruct Hrd as (_ & _ & Heof). specialize (Heof eq_refl ltac:(done)).
    apply app_eq_nil in Heof as [-> _]. rewrite Zlen_nil in *. lia.
  - destruct Hrd as (Hl & Ebs & _).
    assert (a = bs ++ drop (length bs) a) as Ea.
    { apply (f_equal (take (length bs))) in Ebs.
      rewrite take_app_le, take_app_length in Ebs by (unfold Zlen in *; lia).
      by rewrite <- Ebs at 1; rewrite take_drop. }
    rewrite Ea in Ebs. rewrite <- app_assoc in Ebs. apply app_inv_head in Ebs.
    destruct (IHHr ltac:(unfold Zlen in *; lia) (drop (length bs) a)) as [-> Hd'].
    + split; congruence.
    + rewrite Ea at 1. rewrite Zlen_app. lia.
    + split; [by rewrite <- Ea|done].
Qed.

(** A detection of [n] bytes shows the beginning of what will be delivered. *)
Lemma detect_delivers `{!AnsweringSource R} {E} n r s :
  delivers r s -> 0 < n <= HEADER_DETECT_LENGTH -> n <= Zlen s ->
  exists b r', fill_buf_at_least (E := E) n r = Done (IoOk b, r') /\ delivers r' s /\
    n <= Zlen b /\ b = unread r' /\ exists t, s = b ++ t.
Proof.
  intros [Hw Hh Hc <-] Hn Hl.
  destruct (fill_buf_at_least_ok (E := E) r n) as (res & r' & Ef & Hw' & Es & Ec & Hb & He);
    [done|unfold HEADER_DETECT_LENGTH in *; lia|].
  destruct (He Hh) as [Hh' Herr]. destruct res as [b|e]; [|specialize (Herr e eq_refl); lia].
  destruct (Hb b eq_refl) as [Eb Hlb]. exists b, r'. split_and!; try done; [split; congruence|].
  exists (upcoming (br_inner r')). rewrite <- Es, Eb. done.
Qed.

Lemma consume_delivers {E} n (r : BufReader R) s :
  delivers r s -> 0 <= n <= Zlen (unread r) ->
  exists r', consume (E := E) n r = Done r' /\ delivers r' (drop (Z.to_nat n) s).
Proof.
  intros [Hw Hh Hc <-] Hn.
  destruct (consume_ok (E := E) r n) as (r' & Ec' & Hw' & Eu & Ei & Ecap); [done..|].
  exists r'. split; [done|]. split; [done|congruence|congruence|].
  unfold stream. rewrite Eu, Ei. symmetry. apply drop_app_le. unfold Zlen in *. lia.
Qed.
End Reading.

(** * The layers *)

Section Layers.
Context `{BuildProfile} `{TTHeaderEnv} `{AddrText} `{Clock}.
Context {R W : Type} `{ByteSource R} `{Pilota R} `{TokioExt R W} `{!PilotaLaws R}.
Context {I : Type} `{ThriftContext I}.

Abbreviation TMsg := (ThriftMessage Msg AppException).

(** A message whose type tells its data apart. *)
Definition message_ok (m : TMsg) : Prop :=
  ident_ok (message_ident m) /\
  match tm_data m with
  | inl _ => mm_msg_type (tm_meta m) <> Exception
  | inr _ => mm_msg_type (tm_meta m) = Exception
  end.

Definition supported (p : Protocol) : bool :=
  match p with FBThriftCompact => false | _ => true end.

(** The mark the thrift layer leaves in the context. *)
Definition mark_protocol (p : Protocol) : Extensions -> Extensions :=
  match p with
  | ApacheCompact => Extensions.insert_protocol_apache_compact
  | _ => Extensions.insert_protocol_binary
  end.

Lemma message_encode_inv p m dst out :
  message_encode p m dst = Done out -> exists b d,
    write_message_begin p (message_ident m) = Done b /\
    match tm_data m with inl v => msg_encode p v | inr e => exn_encode p e end = Done d /\
    out = dst ++ b ++ d.
Proof.
  unfold message_encode. intros Hm. rewrite write_end in Hm. done_inv.
  eexists _, _. split_and!; [done..|]. by rewrite app_nil_r.
Qed.

Lemma message_encode_append p m dst out :
  message_encode p m dst = Done out ->
  exists pay, message_encode p m [] = Done pay /\ out = dst ++ pay.
Proof.
  intros Hm. pose proof Hm as (b & d & Hb & Hd & ->)%message_encode_inv.
  exists (b ++ d). split; [|done]. unfold message_encode. rewrite Hb, Hd. cbn.
  by rewrite write_end; cbn; rewrite app_nil_r.
Qed.

Lemma message_size_exact p m pay :
  message_encode p m [] = Done pay -> message_size p m = Zlen pay.
Proof.
  intros (b & d & Hb & Hd & ->)%message_encode_inv. cbn [app]. rewrite Zlen_app.
  unfold message_size. rewrite end_len. apply begin_len in Hb.
  destruct (tm_data m); [apply msg_len in Hd|apply exn_len in Hd]; lia.
Qed.

Lemma message_decode_back p m (cx : RpcCx I) pay :
  message_ok m -> message_encode p m [] = Done pay ->
  message_decode p cx pay = Done (m, handle_decoded_msg_ident (message_ident m) cx, []).
Proof.
  intros [Hid Hty] (b & d & Hb & Hd & ->)%message_encode_inv. unfold message_decode. cbn [app].
  erewrite begin_reads_back by done. cbn [mbind outcome_bind].
  change (id_message_type (message_ident m)) with (mm_msg_type (tm_meta m)).
  destruct m as [[v|e] [ty name seq]]; cbn [tm_data tm_meta mm_msg_type] in *.
  - apply (msg_reads_back p (message_ident (mkMessage (inl v) (mkMeta ty name seq)))) in Hd.
    destruct ty; try done; rewrite Hd; cbn; by rewrite read_end.
  - subst ty. apply exn_reads_back in Hd. rewrite Hd. cbn. by rewrite read_end.
Qed.

Lemma message_version p m pay :
  supported p = true -> message_encode p m [] = Done pay ->
  exists c tl, pay = (if bool_decide (p = ProtoBinary) then x80 else x82) :: c :: tl /\
    (p = ProtoBinary -> c = x01).
Proof.
  intros Hs (b & d & Hb & _ & ->)%message_encode_inv. cbn [app]. destruct p; [| |done].
  - apply binary_version in Hb as [b' ->]. by exists x01, (b' ++ d).
  - apply compact_version in Hb as (c & b' & ->). by exists c, (b' ++ d).
Qed.

Lemma thrift_decode_back self p m (cx : RpcCx I) mi pay :
  supported p = true -> message_ok m -> message_encode p m [] = Done pay ->
  thrift_decode self cx mi pay
  = Done (Some m, RpcCx.extensions_mut (mark_protocol p)
                    (handle_decoded_msg_ident (message_ident m) cx), mi, []).
Proof.
  intros Hs Hok Hm. pose proof (message_decode_back p m cx pay Hok Hm) as Hd.
  destruct (message_version p m pay Hs Hm) as (c & tl & Epay & _).
  unfold thrift_decode. rewrite bool_decide_eq_false_2.
  2: { rewrite Epay, !Zlen_cons. pose proof (Zlen_nonneg tl). unfold THRIFT_DETECT_LENGTH. lia. }
  assert (detect pay = Done p) as -> by (rewrite Epay; by destruct p).
  cbn [mbind outcome_bind]. destruct p; [| |done]; rewrite Hd; done.
Qed.

Lemma get_i32_small {E} n rest : 0 <= n < 2 ^ 31 -> @get_i32 E (put_u32 n ++ rest) = Done (n, rest).
Proof.
  intros Hn. unfold get_i32. rewrite get_u32_app by lia. cbn [mbind outcome_bind].
  by rewrite swrap_small by lia.
Qed.

Lemma check_framed_size_ok n mx : 0 <= n <= mx -> check_framed_size n mx = Done tt.
Proof. intros. unfold check_framed_size. rewrite !bool_decide_eq_false_2 by lia. done. Qed.

(** A frame around a message is recognised. *)
Lemma is_framed_frame p m pay rest n :
  supported p = true -> message_encode p m [] = Done pay ->
  is_framed (put_u32 n ++ pay ++ rest) = Done true /\
  is_framed (take 6 (put_u32 n ++ pay ++ rest)) = Done true /\
  HEADER_DETECT_LENGTH <= Zlen (put_u32 n ++ pay ++ rest).
Proof.
  intros Hs (c & tl & -> & Hc)%message_version; [|done]. split_and!.
  - unfold is_framed. rewrite bool_decide_eq_true_2.
    + f_equal. rewrite drop_app_length' by done. destruct p; [by rewrite Hc|by rewrite orb_true_r|done].
    + rewrite !Zlen_app, Zlen_put_u32, !Zlen_cons.
      pose proof (Zlen_nonneg tl). pose proof (Zlen_nonneg rest). lia.
  - unfold is_framed. destruct p; [by rewrite Hc| |done].
    by rewrite bool_decide_eq_true_2 by done.
  - rewrite !Zlen_app, Zlen_put_u32, !Zlen_cons. unfold HEADER_DETECT_LENGTH.
    pose proof (Zlen_nonneg tl). pose proof (Zlen_nonneg rest). lia.
Qed.

Lemma framed_decode_back (self : FramedDecoder ThriftCodec) p m (cx : RpcCx I) mi pay :
  supported p = true -> message_ok m -> message_encode p m [] = Done pay ->
  Zlen pay <= fd_max_frame_size self < 2 ^ 31 ->
  framed_decode self cx mi (put_u32 (Zlen pay) ++ pay)
  = Done (Some m, RpcCx.extensions_mut (mark_protocol p)
            (handle_decoded_msg_ident (message_ident m)
               (RpcCx.extensions_mut Extensions.insert_has_framed cx)), mi, []).
Proof.
  intros Hs Hok Hm Hl. destruct (is_framed_frame p m pay [] (Zlen pay) Hs Hm) as (_ & Hf & Hlen).
  rewrite app_nil_r in Hf, Hlen. pose proof (Zlen_nonneg pay). unfold framed_decode.
  rewrite bool_decide_eq_false_2 by lia. rewrite Hf. cbn [mbind outcome_bind].
  rewrite get_i32_small by lia. cbn [mbind outcome_bind].
  rewrite check_framed_size_ok by lia. cbn [mbind outcome_bind].
  by apply thrift_decode_back.
Qed.

(** The context handed to the header decoder, and the one left at the end. *)
Definition reading_cx (n : Z) (cx : RpcCx I) : RpcCx I :=
  stats_mut (CommonStats.record_read_end_at (now ReadEnd))
    (stats_mut (CommonStats.set_read_size n) cx).

Definition decoded_cx (p : Protocol) (m : TMsg) (cx : RpcCx I) : RpcCx I :=
  RpcCx.extensions_mut (mark_protocol p)
    (handle_decoded_msg_ident (message_ident m)
       (RpcCx.extensions_mut Extensions.insert_has_framed
          (RpcCx.extensions_mut Extensions.insert_has_ttheader cx))).

(** A header, a frame and the rest of the stream, read by the outermost
    decoder: exactly the header and the frame are taken from the reader. *)
Lemma ttheader_decode_async_back `{!AnsweringSource R} `{!TokioLaws R W}
    (self : TTHeaderDecoder (FramedDecoder ThriftCodec)) r rest hdr tl p m pay
    (cx cx2 : RpcCx I) mi mi2 :
  supported p = true -> message_ok m -> message_encode p m [] = Done pay ->
  Zlen pay <= fd_max_frame_size (td_inner self) < 2 ^ 31 ->
  let frame := put_u32 (Zlen pay) ++ pay in
  let size := Zlen hdr + Zlen frame - 4 in
  0 <= size < 2 ^ 32 -> hdr = put_u32 size ++ x10 :: x00 :: tl ->
  delivers r (hdr ++ frame ++ rest) ->
  decode (reading_cx (size + 4) cx) mi (drop 4 hdr ++ frame) = Done (cx2, mi2, frame) ->
  exists r', ttheader_decode_async self cx mi r = Done (Some m, decoded_cx p m cx2, mi2, r') /\
    delivers r' rest.
Proof.
  intros Hs Hok Hm Hmax frame size Hsize Ehdr Hd Hdec.
  destruct (detect_delivers (E := ThriftException) HEADER_DETECT_LENGTH r (hdr ++ frame ++ rest))
    as (b & r1 & Ef & Hd1 & Hb6 & Eb & t & Et); [done|done| |].
  { rewrite Ehdr, !Zlen_app, Zlen_put_u32, !Zlen_cons. unfold HEADER_DETECT_LENGTH.
    pose proof (Zlen_nonneg tl). pose proof (Zlen_nonneg frame). pose proof (Zlen_nonneg rest). lia. }
  unfold ttheader_decode_async. rewrite Ef. cbn [mbind outcome_bind].
  assert (exists b', b = put_u32 size ++ x10 :: x00 :: b') as [b' Eb'].
  { rewrite Ehdr, <- !app_assoc in Et. cbn [app] in Et.
    assert (take 6 b = put_u32 size ++ [x10; x00]) as E6.
    { unfold HEADER_DETECT_LENGTH in Hb6.
      rewrite <- (take_app_le b t) by (unfold Zlen in Hb6; lia). rewrite <- Et. done. }
    exists (drop 6 b). rewrite <- (take_drop 6 b) at 1. by rewrite E6, <- app_assoc. }
  assert (is_ttheader (E := ThriftException) b = Done true) as ->.
  { unfold is_ttheader. rewrite bool_decide_eq_true_2 by done. by rewrite Eb'. }
  assert (get_u32 (E := ThriftException) b = Done (size, x10 :: x00 :: b')) as E32
    by (rewrite Eb'; by rewrite get_u32_app).
  cbn [mbind outcome_bind]. rewrite E32. cbn [mbind outcome_bind].
  rewrite checked_ok by lia. cbn [mbind outcome_bind].
  destruct (consume_delivers (E := ThriftException) 4 r1 _ Hd1) as (r2 & -> & Hd2).
  { rewrite <- Eb. unfold HEADER_DETECT_LENGTH in Hb6. lia. }
  cbn [mbind outcome_bind].
  rewrite drop_app_le in Hd2 by (rewrite Ehdr, length_app; cbn; lia). rewrite app_assoc in Hd2.
  destruct (read_exact_reads size r2) as (o & r3 & -> & Hrx); [apply Hd2|lia|].
  apply (read_exactly_delivers _ _ _ _ _ _ Hd2) in Hrx as [-> Hd3]; [|..|lia].
  2: { rewrite Zlen_app. unfold size. unfold Zlen at 1 3. rewrite length_drop, Ehdr.
       rewrite length_app. cbn. lia. }
  cbn [mbind outcome_bind]. fold (reading_cx (size + 4) cx).
  change (Z.to_nat 4) with 4%nat. rewrite Hdec. cbn [mbind outcome_bind].
  exists r3. split; [|done]. unfold frame. cbn [zc_decode framed_decoder].
  by rewrite (framed_decode_back _ p m).
Qed.

(** * What the outermost encoder writes *)

Abbreviation StackEncoder := (TTHeaderEncoder (FramedEncoder ThriftCodec)).

Definition stack_max (enc : StackEncoder) : Z := fe_max_frame_size (te_inner enc).
Definition stack_codec (enc : StackEncoder) : ThriftCodec := fe_inner (te_inner enc).

Lemma check_framed_size_inv n mx u : check_framed_size n mx = Done u -> 0 <= n <= mx.
Proof. unfold check_framed_size. repeat case_bool_decide; try done. lia. Qed.

Lemma thrift_size_inv mi self (cx : RpcCx I) m self' cx' rs ms :
  thrift_size mi self cx m = Done (self', cx', (rs, ms)) ->
  self' = self /\ cx' = cx /\ rs = message_size (chosen_protocol self cx) m /\
  supported (chosen_protocol self cx) = true.
Proof.
  unfold thrift_size. destruct (chosen_protocol self cx); intros Hs; try discriminate;
    by done_inv.
Qed.

Lemma thrift_encode_inv mi self (cx : RpcCx I) dst m self' cx' out :
  thrift_encode mi self cx dst m = Done (self', cx', out) ->
  exists pay, message_encode (chosen_protocol self cx) m [] = Done pay /\ out = dst ++ pay.
Proof.
  unfold thrift_encode. destruct (chosen_protocol self cx); intros Hs; try discriminate;
    apply bind_done_inv in Hs as (o & Ho & [= _ _ <-]); by apply message_encode_append in Ho.
Qed.

(** The sizes and the bytes of a message under both transports. *)
Lemma stack_encode_layout `{!ThriftContextLaws I} (enc enc' enc'' : StackEncoder)
    (cx cx' cx'' : RpcCx I) f mi m rs ms out p :
  chosen_protocol (stack_codec enc) cx = p ->
  writes_ttheader cx = true -> writes_framed cx = true ->
  0 <= message_size p m < 2 ^ 31 ->
  zc_size mi enc cx m = Done (enc', cx', (rs, ms)) ->
  zc_encode mi enc' (stats_mut f cx') [] m = Done (enc'', cx'', out) ->
  supported p = true /\ exists n pay hdr, encode_size mi cx = Done (cx', n) /\
    message_encode p m [] = Done pay /\ Zlen pay <= stack_max enc /\
    encode mi (stats_mut f cx') [] (Zlen pay + 4) = Done hdr /\
    out = hdr ++ put_u32 (Zlen pay) ++ pay /\
    (rs < 2 ^ 64 -> Zlen pay + 4 + n < 2 ^ 64 -> rs = Zlen pay + 4 + n).
Proof.
  intros Hp Htt Hfr Hms Hsz Hen. cbn [zc_size ttheader_encoder] in Hsz.
  unfold ttheader_size in Hsz. apply bind_done_inv in Hsz as ([[fr cx1] [rs1 ms1]] & Hf & Hsz).
  cbn [zc_size framed_encoder] in Hf. unfold framed_size in Hf.
  apply bind_done_inv in Hf as ([[tc cx0] [rs0 ms0]] & Ht & Hf).
  cbn [zc_size thrift_encoder] in Ht. apply thrift_size_inv in Ht as (-> & -> & -> & Hsup).
  fold (stack_codec enc) in *. rewrite Hp in *.
  split; [done|]. rewrite Hfr in Hf. apply bind_done_inv in Hf as (u & Hck & Hf).
  cbn [fe_inner_size fe_max_frame_size] in Hck. rewrite swrap_small in Hck, Hf by lia.
  apply check_framed_size_inv in Hck. unfold FRAMED_HEADER_SIZE in Hf.
  rewrite (checked_ok 64 (message_size p m + 4)) in Hf by lia. cbn [mbind outcome_bind] in Hf.
  apply bind_done_inv in Hf as (ms1' & _ & [= <- <- <- _]).
  rewrite Htt in Hsz. apply bind_done_inv in Hsz as ([cx2 n] & Hes & Hsz).
  apply bind_done_inv in Hsz as (rs2 & Hrs & Hsz). apply bind_done_inv in Hsz as (ms2 & _ & [= <- <- <- _]).
  assert (writes_ttheader (stats_mut f cx2) = true /\ writes_framed (stats_mut f cx2) = true /\
          chosen_protocol (stack_codec enc) (stats_mut f cx2) = p) as (Htt2 & Hfr2 & Hp2).
  { unfold writes_ttheader, writes_framed, chosen_protocol in *.
    rewrite rpc_info_stats_mut, extensions_stats_mut.
    apply encode_size_cx in Hes as [-> | (? & ? & ? & _ & _ & _ & ->)]; done. }
  cbn [zc_encode ttheader_encoder] in Hen. unfold ttheader_encode in Hen.
  rewrite Htt2 in Hen. cbn [te_inner_size te_inner] in Hen.
  apply bind_done_inv in Hen as (hdr & Hh & Hen).
  apply bind_done_inv in Hen as ([[e1 c1] o1] & Hf & [= _ _ <-]).
  cbn [zc_encode framed_encoder] in Hf. unfold framed_encode in Hf. rewrite Hfr2 in Hf.
  cbn [fe_inner fe_inner_size] in Hf.
  apply bind_done_inv in Hf as ([[e2 c2] o2] & Ht & [= _ _ <-]).
  cbn [zc_encode thrift_encoder] in Ht. apply thrift_encode_inv in Ht as (pay & Hpay & ->).
  rewrite Hp2 in Hpay. pose proof (message_size_exact _ _ _ Hpay) as Esz. rewrite Esz in *.
  exists n, pay, hdr. split_and!; [done|done|unfold stack_max; lia|done|by rewrite <- app_assoc|].
  intros _ Hlt. apply checked_inv in Hrs as [Hr [k Ek]]; [|lia].
  assert (0 <= n) by (eapply encode_size_nonneg; done). lia.
Qed.
End Layers.

(** * End to end *)

Section EndToEnd.
Context `{BuildProfile} `{TTHeaderEnv} `{AddrText} `{Clock} `{!MetainfoLaws}.
Context {R W : Type} `{ByteSource R} `{Pilota R} `{TokioExt R W}.
Context `{!PilotaLaws R} `{!AnsweringSource R} `{!TokioLaws R W}.

Abbreviation TMsg := (ThriftMessage Msg AppException).
Abbreviation StackEncoder := (TTHeaderEncoder (FramedEncoder ThriftCodec)).
Abbreviation StackDecoder := (TTHeaderDecoder (FramedDecoder ThriftCodec)).

(** What [default_encode] did when it reports success: one write, one flush. *)
Lemma default_encode_inv {I} `{ThriftContext I} dbg mi (self self' : DefaultEncoder StackEncoder)
    (cx cx' : RpcCx I) m :
  default_encode dbg mi self cx m = Done (None, self', cx') ->
  let cx0 := stats_mut (CommonStats.record_encode_start_at (now EncodeStart)) cx in
  exists enc1 cx1 rs ms enc2 cx2 out,
    zc_size mi (de_encoder self) cx0 m = Done (enc1, cx1, (rs, ms)) /\
    zc_encode mi enc1 (stats_mut (CommonStats.set_write_size rs) cx1) [] m = Done (enc2, cx2, out) /\
    de_writer self' = (flush (write_all out (de_writer self)).2).2 /\ de_linked_bytes self' = [].
Proof.
  unfold default_encode. cbv zeta. intros He.
  apply bind_done_inv in He as ([[enc1 cx1] [rs ms]] & Hs & He).
  destruct (zc_encode _ _ _ _ _) as [[[enc2 cx2] out]|e| |] eqn:Ez; cbn [mbind outcome_bind] in He;
    [|discriminate He..].
  exists enc1, cx1, rs, ms, enc2, cx2, out. split_and!; [done..| |].
  all: destruct (write_all out (de_writer self)) as [[[]|e] w1] eqn:Ew; [|discriminate He].
  all: destruct (flush w1) as [[[]|e] w2] eqn:Efl; [|discriminate He]; injection He as <- _.
  - cbn. by rewrite Efl.
  - done.
Qed.

(** A stack decoder reads at least the frames the encoder may write. *)
Definition accepts (dec : StackDecoder) (enc : StackEncoder) : Prop :=
  stack_max enc <= fd_max_frame_size (td_inner dec) < 2 ^ 31.

(** The server's context says what the client's header said. *)
Record hears (p : Protocol) (ccx : ClientContext) (scx' : ServerContext) : Prop := {
  hs_ttheader : ext_has_ttheader (cx_extensions scx') = true;
  hs_framed : ext_has_framed (cx_extensions scx') = true;
  hs_protocol : forall c, chosen_protocol c scx' = p;
  hs_method : ri_method (cx_rpc_info scx') = ri_method (cx_rpc_info ccx);
  hs_seq : s_seq_id (cx_inner scx') = Some (c_seq_id (cx_inner ccx));
  hs_caller : ep_service_name (ri_caller (cx_rpc_info scx'))
              = ep_service_name (ri_caller (cx_rpc_info ccx));
  hs_callee : ep_service_name (ri_callee (cx_rpc_info scx'))
              = ep_service_name (ri_callee (cx_rpc_info ccx));
  hs_timeout : forall t, cfg_rpc_timeout (ri_config (cx_rpc_info ccx)) = Some t ->
    cfg_rpc_timeout (ri_config (cx_rpc_info scx')) = Some (from_millis (as_millis t));
  hs_isn : forall n, c_idl_service_name (cx_inner ccx) = Some n ->
    s_idl_service_name (cx_inner scx') = Some n;
}.

Lemma default_decode_delivers {I} `{ThriftContext I} (dec : StackDecoder) (cx : RpcCx I) mi r b s :
  delivers r (b :: s) ->
  exists r1, delivers r1 (b :: s) /\ default_decode dec cx mi r
    = ('(msg, cx, mi, r) ← ttheader_decode_async dec
          (stats_mut (CommonStats.record_read_start_at (now ReadStart))
            (stats_mut (CommonStats.record_decode_start_at (now DecodeStart)) cx)) mi r1;
       Done (msg, stats_mut (CommonStats.record_decode_end_at (now DecodeEnd)) cx, mi, r)).
Proof.
  intros Hd. destruct (fill_buf_filled r) as (o & r1 & Ef & Hf);
    [apply Hd|pose proof (dl_cap _ _ Hd); unfold HEADER_DETECT_LENGTH in *; lia|].
  destruct (filled_delivers r o r1 (b :: s) Hd Hf) as (Hd1 & b' & -> & Hne).
  exists r1. split; [done|]. unfold default_decode. rewrite Ef. cbn [mbind outcome_bind].
  destruct b' as [|b0 b']; [by specialize (Hne eq_refl)|]. done.
Qed.

Lemma hears_decoded p v (ccx ccx1 : ClientContext) (scx scx1 : ServerContext) f g :
  supported p = true -> ext_protocol_binary (cx_extensions scx) = false ->
  ccx1 = stats_mut f ccx -> cx_rpc_info scx1 = cx_rpc_info scx ->
  cx_extensions scx1 = cx_extensions scx ->
  hears p ccx (stats_mut g (decoded_cx p (mk_client_msg (X := AppException) ccx v : TMsg)
                              (server_view ccx1 scx1))).
Proof.
  intros Hp Hb -> Hri Hex. destruct ccx as [ri [seq ty re isn st cst] ex].
  destruct scx as [sri sin sex], scx1 as [sri1 sin1 sex1]. cbn in Hri, Hex, Hb. subst.
  unfold server_view. cbn. destruct (cfg_rpc_timeout (ri_config ri)) as [t|] eqn:Et, isn as [n|];
    destruct p; try discriminate Hp; (split; cbn; try done; try congruence);
    intros c; unfold chosen_protocol; cbn; by rewrite ?Hb.
Qed.

(** C1: a call over the wire. Whatever chunks the transport delivers, a
    server that reads the bytes a client's encoder wrote gets the client's
    message, a context that says what the client's header said and answers in
    the same transports and protocol, each metainfo entry once, and a reader
    that stands exactly at the bytes after the call. *)
Theorem call_over_the_wire dbg mi (ccx ccx' : ClientContext) v
    (enc enc' : @DefaultEncoder W StackEncoder) (dec : StackDecoder) (scx : ServerContext) smi :
  let m : TMsg := mk_client_msg ccx v in
  let p := chosen_protocol (stack_codec (de_encoder enc)) ccx in
  ri_role (cx_rpc_info ccx) = Client -> ri_role (cx_rpc_info scx) = Server ->
  ext_protocol_binary (cx_extensions scx) = false ->
  call_fits mi ccx -> message_ok m -> 0 <= message_size p m < 2 ^ 31 ->
  accepts dec (de_encoder enc) ->
  default_encode dbg mi enc ccx m = Done (None, enc', ccx') ->
  exists out, de_writer enc' = (flush (write_all out (de_writer enc)).2).2 /\
    forall r rest, delivers r (out ++ rest) ->
    exists fs scx' r', fs ≡ₚ forward_entries mi /\ delivers r' rest /\ hears p ccx scx' /\
      default_decode dec scx smi r = Done (Some m, scx', fold_left forward_set fs smi, r').
Proof.
  intros m p Hc Hsv Hb Hfits Hok Hms Hacc He.
  apply default_encode_inv in He as (enc1 & cx1 & rs & ms & enc2 & cx2 & out & Hsz & Hen & Hw & _).
  set (cx0 := stats_mut (CommonStats.record_encode_start_at (now EncodeStart)) ccx) in *.
  assert (writes_ttheader cx0 = true) as Htt
    by (unfold writes_ttheader; cbn; by rewrite Hc).
  assert (writes_framed cx0 = true) as Hfr by (unfold writes_framed; cbn; by rewrite Hc).
  destruct (stack_encode_layout (de_encoder enc) enc1 enc2 cx0 cx1 cx2
    (CommonStats.set_write_size rs) mi m rs ms out p)
    as (Hsup & n & pay & hdr & Hes & Hpay & Hlp & Hhdr & -> & _); [done..|].
  exists (hdr ++ put_u32 (Zlen pay) ++ pay). split; [done|]. intros r rest Hd.
  pose proof (Zlen_nonneg pay) as Hp0. rewrite (message_size_exact _ _ _ Hpay) in Hms.
  destruct (encode_prefix mi _ (Zlen pay + 4) hdr ltac:(lia) Hhdr) as (Hrange & H4l & tl & Ehdr).
  rewrite <- !app_assoc in Hd.
  apply encode_size_client in Hes as ->; [|exact Hc].
  set (frame := put_u32 (Zlen pay) ++ pay).
  assert (Zlen hdr + (Zlen pay + 4) - 4 = Zlen hdr + Zlen frame - 4) as Esize
    by (unfold frame; rewrite Zlen_app, Zlen_put_u32; lia).
  rewrite Esize in *.
  destruct hdr as [|h0 hdr]; [rewrite Zlen_nil in H4l; lia|].
  destruct (default_decode_delivers dec scx smi r h0 (hdr ++ frame ++ rest)) as (r1 & Hd1 & ->);
    [unfold frame; by rewrite <- app_assoc|].
  set (scx0 := stats_mut _ (stats_mut _ scx)).
  set (scx1 := reading_cx (Zlen (h0 :: hdr) + Zlen frame - 4 + 4) scx0).
  destruct (decode_encoded_call mi (stats_mut (CommonStats.set_write_size rs) cx0) (Zlen pay + 4)
    (h0 :: hdr) smi scx1 frame) as (fs & Hperm & Hdec); [lia|exact Hc|exact Hsv| |done|].
  { destruct Hfits as [F1 F2 F3 F4 F5]. by split. }
  edestruct (ttheader_decode_async_back dec r1 rest (h0 :: hdr) tl p m pay scx0)
    as (r' & -> & Hd'); [done|done|done|unfold accepts in Hacc; lia| |done|exact Hd1|exact Hdec|].
  { exact Hrange. }
  cbn [mbind outcome_bind]. eexists fs, _, r'. split_and!; [done|done| |done].
  apply (hears_decoded p v ccx _ scx scx1 (fun st => CommonStats.set_write_size rs
    (CommonStats.record_encode_start_at (now EncodeStart) st))); done.
Qed.

(** Sizing a reply keeps that it fits. *)
Lemma reply_fits_sized mi (scx scx1 : ServerContext) f g n :
  reply_fits mi scx ->
  biz_error (f (s_common_stats (cx_inner scx))) = biz_error (s_common_stats (cx_inner scx)) ->
  (forall st, biz_error (g st) = biz_error st) ->
  encode_size mi (stats_mut f scx) = Done (scx1, n) -> reply_fits mi (stats_mut g scx1).
Proof.
  intros Hfit Hf Hg Hes.
  assert (biz_error (stats (stats_mut g scx1)) = biz_error (stats scx) /\
          encode_conn_reset (stats_mut g scx1) = encode_conn_reset scx /\
          (forall e x, biz_error (stats scx) = Some e -> be_extra e = Some x ->
             extra_text (stats_mut g scx1) e = json_to_string x /\
             (ext_biz_error_extra (cx_extensions scx1) = None \/
              ext_biz_error_extra (cx_extensions scx1) = json_to_string x)))
    as (Hbiz & Hcr & Hex).
  { apply encode_size_cx in Hes as [-> | (e & x & s & He & Hx & Hs & ->)].
    - split_and!; [cbn; by rewrite Hg, Hf|done|]. intros e x He Hx. unfold extra_text. rewrite Hx. cbn.
      destruct (rf_extra _ _ Hfit e x He Hx) as [Hj [-> | ->]]; [by split; [|left]|].
      split; [by destruct (json_to_string x)|by right].
    - split_and!; [cbn; by rewrite Hg, Hf|done|]. intros e' x' He' Hx'.
      cbn in He, He'. rewrite Hf in He. simplify_eq. unfold extra_text. rewrite Hx. cbn.
      rewrite Hs. by split; [|right]. }
  assert (server_entries mi (stats_mut g scx1) = server_entries mi scx) as Ese.
  { unfold server_entries. rewrite Hbiz, Hcr. do 2 f_equal.
    destruct (biz_error (stats scx)) as [e|] eqn:Ee; [|done]. unfold biz_entries. f_equal.
    destruct (be_extra e) as [x|] eqn:Ex.
    - destruct (Hex e x eq_refl Ex) as [-> _]. unfold extra_text. rewrite Ex. cbn.
      destruct (rf_extra _ _ Hfit e x Ee Ex) as [Hj [-> | ->]]; [done|].
      by destruct (json_to_string x).
    - unfold extra_text. by rewrite Ex. }
  destruct Hfit as [F1 F2 F3 F4 F5].
  split; rewrite ?Ese, ?Hbiz; try done.
  intros e x He Hx. split; [by eapply F5|]. by apply (Hex e x).
Qed.

(** What the client's context learns from a reply. *)
Record learns (scx : ServerContext) (ccx ccx' : ClientContext) : Prop := {
  ln_biz : biz_error (stats ccx') =
    match biz_error (stats scx) with
    | Some e => if bool_decide (be_status_code e = 0) then biz_error (stats ccx) else Some e
    | None => biz_error (stats ccx)
    end;
  ln_reuse : c_should_reuse (cx_inner ccx') =
    (if s_conn_reset (cx_inner scx) then false else c_should_reuse (cx_inner ccx));
  ln_info : cx_rpc_info ccx' = cx_rpc_info ccx;
}.

Lemma learns_decoded p (m : TMsg) (scx : ServerContext) (ccx ccx0 ccx1 ccx2 : ClientContext) g q :
  biz_error (stats ccx0) = biz_error (stats ccx) -> cx_rpc_info ccx0 = cx_rpc_info ccx ->
  c_should_reuse (cx_inner ccx0) = c_should_reuse (cx_inner ccx) ->
  ccx1 = RpcCx.extensions_mut q ccx0 ->
  (if encode_conn_reset scx then set_conn_reset_by_ttheader true ccx1 else Done ccx1)
    = @Done ThriftException _ ccx2 ->
  (forall st, biz_error (g st) = biz_error st) ->
  learns scx ccx (stats_mut g (decoded_cx p m
    (reply_biz_error (biz_error (stats scx)) ccx2))).
Proof.
  intros Hb Hi Hre -> Hr Hg.
  assert (biz_error (stats ccx2) = biz_error (stats ccx) /\ cx_rpc_info ccx2 = cx_rpc_info ccx /\
    c_should_reuse (cx_inner ccx2)
    = if s_conn_reset (cx_inner scx) then false else c_should_reuse (cx_inner ccx))
    as (Hb2 & Hi2 & Hr2).
  { cbn [encode_conn_reset server_thrift_context] in Hr. destruct (s_conn_reset (cx_inner scx)).
    - cbn in Hr. unfold set_reuse in Hr. rewrite andb_false_r in Hr. cbn in Hr.
      injection Hr as <-. cbn. by split_and!.
    - injection Hr as <-. by split_and!. }
  unfold reply_biz_error. destruct (biz_error (stats scx)) as [e|] eqn:Ee;
    [case_bool_decide as Hz|]; cbn in Ee, Hb2; split; try done; cbn; rewrite Hg, Ee; try done.
  - by rewrite bool_decide_eq_true_2.
  - rewrite bool_decide_eq_false_2 by done. by destruct (c_common_stats _).
Qed.

(** C2: a reply over the wire. Whatever chunks the transport delivers, a
    client that reads the bytes a server's encoder wrote (the server having
    seen a framed call with a header) gets the server's message, learns the
    biz error and whether the connection may be reused, gets each backward
    metainfo entry once, and stands exactly at the bytes after the reply. *)
Theorem reply_over_the_wire dbg mi (scx scx' : ServerContext) res
    (enc enc' : @DefaultEncoder W StackEncoder) (dec : StackDecoder) (ccx : ClientContext) cmi :
  let m : TMsg := mk_server_resp scx res in
  let p := chosen_protocol (stack_codec (de_encoder enc)) scx in
  ri_role (cx_rpc_info scx) = Server -> ri_role (cx_rpc_info ccx) = Client ->
  ext_has_ttheader (cx_extensions scx) = true -> ext_has_framed (cx_extensions scx) = true ->
  reply_fits mi scx -> message_ok m -> 0 <= message_size p m < 2 ^ 31 ->
  accepts dec (de_encoder enc) ->
  default_encode dbg mi enc scx m = Done (None, enc', scx') ->
  exists out, de_writer enc' = (flush (write_all out (de_writer enc)).2).2 /\
    forall r rest, delivers r (out ++ rest) ->
    exists bs ccx' r', bs ≡ₚ backward_kvs mi /\ delivers r' rest /\ learns scx ccx ccx' /\
      default_decode dec ccx cmi r = Done (Some m, ccx', fold_left backward_set bs cmi, r').
Proof.
  intros m p Hsv Hc Hht Hhf Hfits Hok Hms Hacc He.
  apply default_encode_inv in He as (enc1 & cx1 & rs & ms & enc2 & cx2 & out & Hsz & Hen & Hw & _).
  set (cx0 := stats_mut (CommonStats.record_encode_start_at (now EncodeStart)) scx) in *.
  assert (writes_ttheader cx0 = true) as Htt
    by (unfold writes_ttheader; cbn; by rewrite Hht, orb_true_r).
  assert (writes_framed cx0 = true) as Hfr
    by (unfold writes_framed; cbn; by rewrite Hhf, orb_true_r).
  destruct (stack_encode_layout (de_encoder enc) enc1 enc2 cx0 cx1 cx2
    (CommonStats.set_write_size rs) mi m rs ms out p)
    as (Hsup & n & pay & hdr & Hes & Hpay & Hlp & Hhdr & -> & _); [done..|].
  exists (hdr ++ put_u32 (Zlen pay) ++ pay). split; [done|]. intros r rest Hd.
  pose proof (Zlen_nonneg pay) as Hp0. rewrite (message_size_exact _ _ _ Hpay) in Hms.
  destruct (encode_prefix mi _ (Zlen pay + 4) hdr ltac:(lia) Hhdr) as (Hrange & H4l & tl & Ehdr).
  rewrite <- !app_assoc in Hd.
  assert (reply_fits mi (stats_mut (CommonStats.set_write_size rs) cx1)) as Hfits1.
  { eapply reply_fits_sized; [done| | |exact Hes]; [by destruct (s_common_stats _)|by intros []]. }
  set (frame := put_u32 (Zlen pay) ++ pay).
  assert (Zlen hdr + (Zlen pay + 4) - 4 = Zlen hdr + Zlen frame - 4) as Esize
    by (unfold frame; rewrite Zlen_app, Zlen_put_u32; lia).
  rewrite Esize in *.
  destruct hdr as [|h0 hdr]; [rewrite Zlen_nil in H4l; lia|].
  destruct (default_decode_delivers dec ccx cmi r h0 (hdr ++ frame ++ rest)) as (r1 & Hd1 & ->);
    [unfold frame; by rewrite <- app_assoc|].
  set (ccx0 := stats_mut _ (stats_mut _ ccx)).
  set (ccx1 := reading_cx (Zlen (h0 :: hdr) + Zlen frame - 4 + 4) ccx0).
  assert (biz_error (stats (stats_mut (CommonStats.set_write_size rs) cx1)) = biz_error (stats scx)
    /\ encode_conn_reset (stats_mut (CommonStats.set_write_size rs) cx1) = encode_conn_reset scx
    /\ ri_role (cx_rpc_info cx1) = Server) as (Ebiz & Ecr & Er1).
  { apply encode_size_cx in Hes as [-> | (? & ? & ? & _ & _ & _ & ->)]; cbn; (split_and!; [|done|done]);
      by destruct (s_common_stats _). }
  destruct (decode_encoded_reply mi (stats_mut (CommonStats.set_write_size rs) cx1) (Zlen pay + 4)
    (h0 :: hdr) cmi ccx1 frame) as (bs & ccx2 & Hperm & Hrst & Hdec);
    [lia|exact Er1|exact Hc|done|done|].
  rewrite Ebiz in Hdec. rewrite Ecr in Hrst.
  edestruct (ttheader_decode_async_back dec r1 rest (h0 :: hdr) tl p m pay ccx0)
    as (r' & -> & Hd'); [done|done|done|unfold accepts in Hacc; lia|exact Hrange|done|exact Hd1|exact Hdec|].
  cbn [mbind outcome_bind]. eexists bs, _, r'. split_and!; [done|done| |done].
  eapply (learns_decoded p m scx ccx ccx1); [..|exact Hrst|]; try done; [|by intros []].
  cbn. by destruct (c_common_stats (cx_inner ccx)).
Qed.

Lemma encode_size_stats mi (cx : ClientContext) f n :
  ri_role (cx_rpc_info cx) = Client ->
  encode_size mi cx = Done (cx, n) -> encode_size mi (stats_mut f cx) = Done (stats_mut f cx, n).
Proof.
  intros Hc. unfold encode_size, size_has_string_kv.
  change (cx_rpc_info (stats_mut f cx)) with (cx_rpc_info cx).
  change (idl_service_name (stats_mut f cx)) with (idl_service_name cx).
  rewrite Hc. destruct (_ || _); cbn [mbind outcome_bind]; rewrite Hc;
    change (cx_rpc_info (stats_mut f cx)) with (cx_rpc_info cx); rewrite Hc;
    cbn [mbind outcome_bind]; intros Hs; by injection Hs as <-.
Qed.

(** the size the default stack announces for a client's message (what
    the trait calls the exact size of the encoded message) is the number of
    bytes its encoder then writes. *)
Theorem stack_size_exact (enc enc' enc'' : StackEncoder) (cx cx' cx'' : ClientContext) f mi
    (m : TMsg) rs ms out :
  ri_role (cx_rpc_info cx) = Client ->
  0 <= message_size (chosen_protocol (stack_codec enc) cx) m < 2 ^ 31 ->
  zc_size mi enc cx m = Done (enc', cx', (rs, ms)) ->
  zc_encode mi enc' (stats_mut f cx') [] m = Done (enc'', cx'', out) ->
  rs < 2 ^ 64 -> rs = Zlen out.
Proof.
  intros Hc Hms Hsz Hen Hrs.
  destruct (stack_encode_layout enc enc' enc'' cx cx' cx'' f mi m rs ms out
    (chosen_protocol (stack_codec enc) cx))
    as (_ & n & pay & hdr & Hes & Hpay & _ & Hhdr & -> & Hrseq);
    [done|unfold writes_ttheader; by rewrite Hc|unfold writes_framed; by rewrite Hc|done..|].
  rewrite (message_size_exact _ _ _ Hpay) in Hms. pose proof (Zlen_nonneg pay).
  pose proof Hes as ->%encode_size_client; [|done].
  assert (Zlen hdr = n) as Eh.
  { apply (encode_size_stats mi cx f n Hc) in Hes.
    destruct (encode_after_size mi _ _ n [] (Zlen pay + 4) hdr ltac:(lia) Hes Hhdr) as (it & -> & ->).
    unfold size_has_string_kv, has_string_kv. cbn [cx_rpc_info stats_mut].
    change (cx_rpc_info (stats_mut f cx)) with (cx_rpc_info cx). by rewrite Hc. }
  destruct (encode_prefix mi _ (Zlen pay + 4) hdr ltac:(lia) Hhdr) as (Hrange & _).
  rewrite Hrseq by lia. rewrite !Zlen_app, Zlen_put_u32. lia.
Qed.

Lemma get_i32_put {E} n rest :
  - 2 ^ 31 <= n < 2 ^ 31 -> @get_i32 E (put_u32 n ++ rest) = Done (n, rest).
Proof.
  intros Hn. unfold get_i32. rewrite get_u32_wrap. cbn [mbind outcome_bind].
  unfold swrap. do 2 f_equal.
  rewrite Zplus_mod_idemp_l, Z.mod_small by lia. lia.
Qed.

(** a frame whose declared size is above the limit or negative is
    refused before its body is read: with a size-limit error above it, and
    with a negative-size error below zero. With overflow checks on, though,
    the sizes -4 to -1 overflow the statistics computed first and panic. *)
Theorem framed_refuses_bad_size {I} `{ThriftContext I}
    (self : FramedDecoder ThriftCodec) (cx : RpcCx I) mi (r : BufReader R) size v0 v1 rest :
  - 2 ^ 31 <= size < 2 ^ 31 -> 0 <= fd_max_frame_size self ->
  size < 0 \/ fd_max_frame_size self < size ->
  (v0, v1) = (x80, x01) \/ v0 = x82 ->
  delivers r (put_u32 size ++ v0 :: v1 :: rest) ->
  if bool_decide (-4 <= size < 0) && overflow_checks
  then framed_decode_async self cx mi r = Panic
  else exists msg, framed_decode_async self cx mi r
    = Fail (ProtocolException (if bool_decide (size < 0) then NegativeSize else SizeLimit) msg).
Proof.
  intros Hsz Hmx Hbad Hv Hd.
  destruct (detect_delivers (E := ThriftException) HEADER_DETECT_LENGTH r _ Hd)
    as (b & r1 & Ef & Hd1 & Hb6 & Eb & t & Et); [done| |].
  { rewrite Zlen_app, Zlen_put_u32, !Zlen_cons. pose proof (Zlen_nonneg rest).
    unfold HEADER_DETECT_LENGTH. lia. }
  assert (b = put_u32 size ++ v0 :: v1 :: drop 6 b) as Eb6.
  { rewrite <- (take_drop 6 b) at 1. unfold HEADER_DETECT_LENGTH in Hb6.
    rewrite <- (take_app_le b t) by (unfold Zlen in Hb6; lia). rewrite <- Et.
    change (put_u32 size ++ v0 :: v1 :: rest) with ((put_u32 size ++ [v0; v1]) ++ rest).
    rewrite take_app_length' by done. by rewrite <- app_assoc. }
  unfold framed_decode_async. rewrite Ef. cbn [mbind outcome_bind].
  assert (is_framed b = Done true) as ->.
  { unfold is_framed. rewrite bool_decide_eq_true_2 by done. f_equal. rewrite Eb6.
    rewrite drop_app_length' by done. cbn.
    destruct Hv as [[= -> ->]| ->]; [done|by rewrite orb_true_r]. }
  assert (get_i32 (E := ThriftException) b = Done (size, v0 :: v1 :: drop 6 b)) as E32
    by (rewrite Eb6 at 1; by apply get_i32_put).
  cbn [mbind outcome_bind]. rewrite E32. cbn [mbind outcome_bind].
  assert (wrap 64 size = if bool_decide (size < 0) then size + 2 ^ 64 else size) as Ew.
  { unfold wrap. case_bool_decide.
    - rewrite <- (Z.mod_small (size + 2 ^ 64) (2 ^ 64)) by lia.
      rewrite <- (Z_mod_plus_full size 1). f_equal; lia.
    - apply Z.mod_small. lia. }
  destruct (consume_delivers (E := ThriftException) 4 r1 _ Hd1) as (r2 & Hcons & _).
  { rewrite <- Eb. unfold HEADER_DETECT_LENGTH in Hb6. lia. }
  assert (exists msg, check_framed_size size (fd_max_frame_size self)
    = Fail (ProtocolException (if bool_decide (size < 0) then NegativeSize else SizeLimit) msg))
    as [msg Hck].
  { unfold check_framed_size. repeat case_bool_decide; eauto; lia. }
  destruct (bool_decide (-4 <= size < 0) && overflow_checks) eqn:Eov.
  - apply andb_true_iff in Eov as [Hr%bool_decide_eq_true Ho].
    rewrite (bool_decide_eq_true_2 (size < 0)) in Ew by lia. unfold checked.
    rewrite Ew, bool_decide_eq_false_2 by lia. by rewrite Ho.
  - assert (exists n, checked (E := ThriftException) 64 (wrap 64 size + 4) = Done n) as [n ->].
    { destruct (checked_cases (E := ThriftException) 64 (wrap 64 size + 4)) as [|Hp]; [done|].
      unfold checked in Hp. destruct overflow_checks;
        [|destruct (bool_decide (0 <= wrap 64 size + 4 < 2 ^ 64)); discriminate Hp].
      rewrite andb_true_r in Eov. apply bool_decide_eq_false in Eov.
      rewrite bool_decide_eq_true_2 in Hp; [done|]. rewrite Ew.
      destruct (decide (size < 0));
        [rewrite bool_decide_eq_true_2 by done|rewrite bool_decide_eq_false_2 by done]; lia. }
    cbn [mbind outcome_bind]. rewrite Hcons. cbn [mbind outcome_bind]. rewrite Hck.
    by exists msg.
Qed.
End EndToEnd.
