(* ===== verification/CodecExample.v ===== *)
(** A concrete exchange through the codec stack.

    A chunked transport with [tokio]'s loops over it, a strict binary message
    format, and the end-to-end theorems at one call, one reply and one bad
    frame. *)

From S2P Require Import Prelude Net Context BufReader TTHeader TTHeaderDecode TTHeaderEncode TTHeaderRoundTrip TTHeaderExample Codec CodecRoundTrip.
Import Chunks TTHeaderExample.

Module CodecExample.

#[local] Existing Instance example_env.
#[local] Existing Instance example_text.
#[local] Existing Instance example_laws.
#[local] Existing Instance example_profile.

#[local] Instance example_clock : Clock := fun _ => 0.

Abbreviation Reader := (BufReader (list event)).

(** ** The transport *)

Fixpoint fill_buf_loop (fuel : nat) (r : Reader)
  : outcome ThriftException (io_result bytes * Reader) :=
  match fuel with
  | O => OutOfFuel
  | S fuel =>
      '(o, r) ← poll_fill_buf r;
      match o with Ready o => Done (o, r) | Pending => fill_buf_loop fuel r end
  end.

Fixpoint read_exact_loop (fuel : nat) (n : Z) (r : Reader)
  : outcome ThriftException (io_result bytes * Reader) :=
  match fuel with
  | O => OutOfFuel
  | S fuel =>
      if bool_decide (n <= 0) then Done (IoOk [], r)
      else
        '(o, r) ← buf_poll_read n r;
        match o with
        | Pending => read_exact_loop fuel n r
        | Ready (IoErr e) => Done (IoErr e, r)
        | Ready (IoOk []) => Done (IoErr (mkIoError IoUnexpectedEof (str "early eof")), r)
        | Ready (IoOk bs) =>
            '(o, r) ← read_exact_loop fuel (n - Zlen bs) r;
            Done (match o with IoOk cs => IoOk (bs ++ cs) | IoErr e => IoErr e end, r)
        end
  end.

#[export] Instance example_tokio : TokioExt (list event) bytes := {|
  fill_buf r := fill_buf_loop (S (length (br_inner r))) r;
  read_exact n r := read_exact_loop (S (Z.to_nat n + length (br_inner r))) n r;
  write_all bs w := (IoOk tt, w ++ bs);
  flush w := (IoOk tt, w);
|}.

(** A pending poll takes an event; no poll adds one. *)
Definition pending_cost {A} (o : poll A) : nat := match o with Pending => 1 | _ => 0 end.

Lemma await_length n evs : (length (await n evs).2 <= length evs)%nat.
Proof. induction evs as [|[[]| |] evs IH]; cbn; lia. Qed.

Lemma poll_event_length n evs :
  (length (poll_event n evs).2 + pending_cost (poll_event n evs).1 <= length evs)%nat.
Proof.
  destruct evs as [|ev evs]; [cbn; lia|]. pose proof (await_length n (ev :: evs)).
  destruct ev; unfold poll_event; try (destruct (await _ _) as [o evs'] eqn:E);
    cbn in *; lia.
Qed.

Lemma poll_fill_buf_length (r r' : Reader) o :
  poll_fill_buf (E := ThriftException) r = Done (o, r') ->
  (length (br_inner r') + pending_cost o <= length (br_inner r))%nat.
Proof.
  unfold poll_fill_buf. cbn [poll_read chunk_reader]. intros Hp.
  case_bool_decide; [destruct (_ && _); [done|]|case_bool_decide].
  - cbn [mbind outcome_bind] in Hp. pose proof (poll_event_length (Zlen (br_buf r)) (br_inner r)) as Hl.
    destruct (poll_event _ _) as [[[]|] evs]; cbn in Hl; done_inv; simplify_eq; cbn; lia.
  - apply bind_done_inv in Hp as (fr & _ & Hp). cbn [mbind outcome_bind] in Hp.
    pose proof (poll_event_length (Zlen fr) (br_inner r)) as Hl.
    destruct (poll_event _ _) as [[[]|] evs]; cbn in Hl; cbn [set_inner br_pos br_len] in Hp;
      done_inv; simplify_eq; cbn; lia.
  - done_inv. simplify_eq. cbn. lia.
Qed.

Lemma buf_poll_read_length n (r r' : Reader) o :
  buf_poll_read (E := ThriftException) n r = Done (o, r') ->
  (length (br_inner r') + pending_cost o <= length (br_inner r))%nat.
Proof.
  unfold buf_poll_read. cbn [poll_read chunk_reader]. intros Hp. case_bool_decide.
  - cbn [mbind outcome_bind] in Hp. pose proof (poll_event_length n (br_inner r)) as Hl.
    destruct (poll_event _ _) as [[]]; cbn in Hl; injection Hp as <- <-; cbn; lia.
  - apply bind_done_inv in Hp as ([o1 r1] & Hf & Hp). apply poll_fill_buf_length in Hf.
    destruct o1 as [[]|]; unfold consume in Hp; done_inv; simplify_eq; cbn in *; lia.
Qed.

Lemma fill_buf_loop_ok fuel (r : Reader) :
  buf_wf r -> 0 < br_cap r -> (length (br_inner r) < fuel)%nat ->
  exists o r', fill_buf_loop fuel r = Done (o, r') /\ filled r o r'.
Proof.
  revert r. induction fuel as [|fuel IH]; intros r Hw Hc Hf; [lia|]. cbn.
  destruct (poll_fill_buf_ok (E := ThriftException) r Hw Hc) as (o & r1 & E & Hw1 & _ & Ec & _).
  pose proof (poll_fill_buf_length _ _ _ E) as Hl. rewrite E. cbn [mbind outcome_bind].
  destruct o as [o|]; [eexists _, _; split; [done|by constructor]|].
  destruct (IH r1) as (o & r2 & E2 & Hf2); [done|lia|cbn in Hl; lia|].
  exists o, r2. split; [done|]. by econstructor 2.
Qed.

Lemma read_exact_loop_ok fuel n (r : Reader) :
  buf_wf r -> 0 <= n < 2 ^ 63 -> (Z.to_nat n + length (br_inner r) < fuel)%nat ->
  exists o r', read_exact_loop fuel n r = Done (o, r') /\ read_exactly n r o r'.
Proof.
  revert n r. induction fuel as [|fuel IH]; intros n r Hw Hn Hf; [lia|]. cbn.
  case_bool_decide as Hz; [replace n with 0 by lia; eexists _, _; split; [done|constructor]|].
  destruct (buf_poll_read_ok (E := ThriftException) r n Hw Hn) as (o & r1 & E & Hw1 & _ & Hr & _).
  pose proof (buf_poll_read_length _ _ _ _ E) as Hl. rewrite E. cbn [mbind outcome_bind].
  destruct o as [[[|b bs]|e]|].
  - eexists _, _. split; [done|]. apply rx_eof; [lia|done|done].
  - destruct Hr as [Hbs _]. cbn in Hl. rewrite Zlen_cons in *. pose proof (Zlen_nonneg bs).
    destruct (IH (n - (1 + Zlen bs)) r1) as (o & r2 & E2 & Hx); [done|lia|lia|].
    rewrite E2. cbn [mbind outcome_bind]. eexists _, _. split; [done|].
    apply (rx_more n r (b :: bs) r1 o r2); [lia|done|done|by rewrite Zlen_cons].
  - eexists _, _. split; [done|]. apply rx_error; [lia|done].
  - cbn in Hl. destruct (IH n r1) as (o & r2 & E2 & Hx); [done|lia|lia|].
    exists o, r2. split; [done|]. apply (rx_pending n r r1); [lia|done|done].
Qed.

#[export] Instance example_tokio_laws : TokioLaws (list event) bytes.
Proof.
  split.
  - intros r Hw Hc. apply fill_buf_loop_ok; [done|done|lia].
  - intros n r Hw Hn. apply read_exact_loop_ok; [done|done|lia].
Qed.

(** ** The message format: strict binary, the body being the whole rest *)

Definition type_byte (t : TMessageType) : Z :=
  match t with Call => 1 | Reply => 2 | Exception => 3 | OneWay => 4 end.

Definition type_of_byte (z : Z) : TMessageType :=
  if bool_decide (z = 1) then Call else if bool_decide (z = 2) then Reply
  else if bool_decide (z = 3) then Exception else OneWay.

Definition version (p : Protocol) : bytes :=
  match p with ApacheCompact => [x82; x21] | _ => [x80; x01] end.

Definition begin_bytes (p : Protocol) (id : TMessageIdentifier) : bytes :=
  version p ++ put_u16 (type_byte (id_message_type id)) ++ put_u32 (Zlen (id_name id))
    ++ id_name id ++ put_u32 (id_sequence_number id).

Definition read_begin (src : bytes) : outcome ThriftException (TMessageIdentifier * bytes) :=
  '(_, src) ← get_u16 src;
  '(t, src) ← get_u16 src;
  '(n, src) ← get_u32 src;
  '(name, src) ← split_to n src;
  '(s, src) ← get_i32 src;
  Done (mkIdent name (type_of_byte t) s, src).

#[export] Instance example_pilota : Pilota (list event) := {|
  Msg := bytes;
  AppException := bytes;
  message_begin_len p id := 12 + Zlen (id_name id);
  message_end_len _ := 0;
  msg_size _ m := Zlen m;
  exn_size _ m := Zlen m;
  zero_copy_len _ _ := 0;
  write_message_begin p id := Done (begin_bytes p id);
  write_message_end _ := Done [];
  msg_encode _ m := Done m;
  exn_encode _ m := Done m;
  read_message_begin _ := read_begin;
  read_message_end _ src := Done src;
  msg_decode _ _ src := Done (src, []);
  exn_decode _ src := Done (src, []);
  read_message_begin_async _ _ := Fail (TransportException []);
  read_message_end_async _ r := Done r;
  msg_decode_async _ _ _ := Fail (TransportException []);
  exn_decode_async _ _ := Fail (TransportException []);
  thrift_of_io e := TransportException (io_msg e);
  append_msg s e := e;
|}.

#[export] Instance example_pilota_laws : PilotaLaws (list event).
Proof.
  split; cbn [write_message_begin write_message_end msg_encode exn_encode message_begin_len
    message_end_len msg_size exn_size read_message_begin read_message_end msg_decode exn_decode
    example_pilota]; try done.
  - intros p id b [= <-]. unfold begin_bytes. rewrite !Zlen_app, !Zlen_put_u32, Zlen_put_u16.
    destruct p; unfold Zlen; cbn; lia.
  - by intros p m b [= <-].
  - by intros p m b [= <-].
  - intros p [name t s] b src [Hn Hs] [= <-]. cbn in Hn, Hs. unfold begin_bytes, read_begin.
    cbn [id_name id_message_type id_sequence_number].
    pose proof (Zlen_nonneg name).
    rewrite <- !app_assoc.
    assert (forall tl, get_u16 (E := ThriftException) (version p ++ tl)
      = Done (be_decode (version p), tl)) as ->.
    { intros tl. unfold get_u16, get_be. by rewrite split_to_app by (by destruct p). }
    cbn [mbind outcome_bind]. rewrite get_u16_app by (by destruct t). cbn [mbind outcome_bind].
    rewrite get_u32_app by lia. cbn [mbind outcome_bind].
    rewrite split_to_app by done. cbn [mbind outcome_bind].
    rewrite get_i32_put by done. cbn [mbind outcome_bind]. by destruct t.
  - by intros p _ m b [= <-].
  - by intros p m b [= <-].
  - intros id b [= <-]. by eexists.
  - intros id b [= <-]. by eexists _, _.
Qed.

(** ** One exchange *)

Definition enc : @DefaultEncoder bytes (TTHeaderEncoder (FramedEncoder ThriftCodec)) :=
  mkDefaultEncoder default_stack_encoder [] [].

Definition written {A} (o : outcome ThriftException
    (option ThriftException * @DefaultEncoder bytes (TTHeaderEncoder (FramedEncoder ThriftCodec))
     * RpcCx A)) : bytes :=
  match o with Done (_, e, _) => de_writer e | _ => [] end.

Definition debug (ri : RpcInfo) : bytes := ri_method ri.

Definition body : @Msg _ example_pilota := str "item 3".

Definition call_encoding :=
  default_encode (R := list event) debug call_metainfo enc call_cx (mk_client_msg call_cx body).

(** The call arrives in two chunks, the second with the next bytes. *)
Definition call_reader : Reader :=
  new [Data (take 9 (written call_encoding)); NotReady;
       Data (drop 9 (written call_encoding) ++ [x07; x08])].

Lemma reader_delivers evs s :
  no_error evs -> payload evs = s -> delivers (new evs) s.
Proof.
  intros Hne <-. split; [|done|by vm_compute|done].
  split; cbn; try done; by vm_compute.
Qed.

Lemma call_over_the_wire_witness :
  exists fs scx' r', fs ≡ₚ forward_entries call_metainfo /\ delivers r' [x07; x08] /\
    hears ProtoBinary call_cx scx' /\
    default_decode (W := bytes) default_stack_decoder ServerContext.default no_metainfo call_reader
    = Done (Some (mk_client_msg call_cx body), scx', fold_left forward_set fs no_metainfo, r').
Proof.
  destruct call_encoding as [[[[e|] enc'] ccx']|e| |] eqn:E; [vm_compute in E; discriminate E| |
    vm_compute in E; discriminate E..].
  destruct (call_over_the_wire (R := list event) debug call_metainfo call_cx ccx' body enc enc' default_stack_decoder
    ServerContext.default no_metainfo) as (out & Hw & Hdel); [done|done|done| | | | |exact E|].
  - split; [vm_decide|vm_compute; done|vm_decide|vm_decide|].
    intros t [= <-]. vm_compute. split; congruence.
  - split; [split; vm_compute; try split; congruence|done].
  - vm_compute. split; congruence.
  - vm_compute. split; congruence.
  - apply Hdel. apply reader_delivers; [by repeat constructor|].
    assert (out = written call_encoding) as -> by (rewrite E; exact (eq_sym Hw)).
    unfold payload. cbn [fmap list_fmap concat app]. rewrite app_nil_r, app_assoc.
    by rewrite (take_drop 9 (written call_encoding)).
Defined.

(** A reply with a biz error, on a connection that saw a framed call. *)
Definition seen_cx : ServerContext :=
  RpcCx.extensions_mut (fun e => Extensions.insert_has_framed (Extensions.insert_has_ttheader e))
    (reply_cx true).

Definition reply_encoding :=
  default_encode (R := list event) debug reply_metainfo enc seen_cx
    (mk_server_resp seen_cx (inl body)).

Definition reply_reader : Reader := new [NotReady; Data (written reply_encoding)].

Lemma reply_encoding_done : match reply_encoding with Done (None, _, _) => true | _ => false end = true.
Proof. vm_compute. reflexivity. Qed.

Lemma reply_over_the_wire_witness :
  exists bs ccx' r', bs ≡ₚ backward_kvs reply_metainfo /\ delivers r' [] /\
    learns seen_cx call_cx ccx' /\
    default_decode (W := bytes) default_stack_decoder call_cx no_metainfo reply_reader
    = Done (Some (mk_server_resp seen_cx (inl body)), ccx', fold_left backward_set bs no_metainfo, r').
Proof.
  pose proof reply_encoding_done as K.
  destruct reply_encoding as [[[[e|] enc'] ccx']|e| |] eqn:E; [discriminate K| |discriminate K..].
  destruct (reply_over_the_wire (R := list event) debug reply_metainfo seen_cx ccx' (inl body)
    enc enc' default_stack_decoder call_cx no_metainfo) as (out & Hw & Hdel);
    [done|done|done|done| | | | |exact E|].
  - split; [vm_decide|vm_compute; done|vm_decide| |].
    + intros e [= <-]. vm_compute. split; congruence.
    + intros e x [= <-] [= <-]. split; [done|by left].
  - split; [split; vm_compute; try split; congruence|done].
  - vm_compute. split; congruence.
  - vm_compute. split; congruence.
  - apply Hdel. apply reader_delivers; [by repeat constructor|].
    assert (out = written reply_encoding) as -> by (rewrite E; exact (eq_sym Hw)).
    unfold payload. cbn [fmap list_fmap concat app]. done.
Defined.

Definition call_size :=
  zc_size (R := list event) call_metainfo default_stack_encoder call_cx
    (mk_client_msg call_cx body).

Lemma call_size_done :
  match call_size with
  | Done (enc', cx', _) =>
      match zc_encode (R := list event) call_metainfo enc' (stats_mut id cx') [] (mk_client_msg call_cx body) with
      | Done _ => true | _ => false end
  | _ => false
  end = true.
Proof. vm_compute. reflexivity. Qed.

Lemma stack_size_exact_witness :
  exists enc' cx' rs ms enc'' cx'' out,
    call_size = Done (enc', cx', (rs, ms)) /\
    zc_encode (R := list event) call_metainfo enc' (stats_mut id cx') [] (mk_client_msg call_cx body)
      = Done (enc'', cx'', out) /\ rs = Zlen out.
Proof.
  pose proof call_size_done as K.
  destruct call_size as [[[enc' cx'] [rs ms]]| | |] eqn:E; [|discriminate K..].
  destruct (zc_encode (R := list event) call_metainfo enc' (stats_mut id cx') []
    (mk_client_msg call_cx body)) as [[[enc'' cx''] out]| | |] eqn:E2;
    [|discriminate K..].
  exists enc', cx', rs, ms, enc'', cx'', out. split; [done|split; [done|]].
  apply (stack_size_exact default_stack_encoder enc' enc'' call_cx cx' cx'' id call_metainfo
    (mk_client_msg call_cx body) rs ms out); [done|vm_compute; split; congruence|done|done|].
  vm_compute in E. injection E as _ _ <- _. vm_compute. done.
Defined.

Lemma framed_refuses_bad_size_witness :
  let r : Reader := new [Data (put_u32 (-2)); Data [x80; x01]] in
  framed_decode_async (W := bytes) (mkFramedDecoder (mkThriftCodec ProtoBinary) 100)
    call_cx no_metainfo r = Panic.
Proof.
  refine (framed_refuses_bad_size (W := bytes) (mkFramedDecoder (mkThriftCodec ProtoBinary) 100)
    call_cx no_metainfo (new [Data (put_u32 (-2)); Data [x80; x01]]) (-2) x80 x01 [] _ _ _ _ _);
    [done|done|by left|by left|]. apply reader_delivers; [by repeat constructor|done].
Defined.

Definition small_reader : Reader := with_capacity 8 [Data [x01; x02]; NotReady; Data [x03]].

Lemma small_reader_wf : buf_wf small_reader.
Proof. split; cbn; try lia; done. Qed.

Lemma buf_poll_read_transparent_witness :
  exists o r', buf_poll_read (E := ThriftException) 3 small_reader = Done (o, r') /\
    reads 3 [x01; x02; x03] o (stream r').
Proof.
  destruct (buf_poll_read_transparent (E := ThriftException)
    small_reader 3)
    as (o & r' & E & _ & _ & Hr & _); [exact small_reader_wf|lia|].
  exists o, r'. split; [exact E|exact Hr].
Defined.

Lemma fill_buf_at_least_spec_witness :
  exists b r', fill_buf_at_least (E := ThriftException) 3 small_reader = Done (IoOk b, r') /\ b = unread r'.
Proof.
  destruct (fill_buf_at_least_spec (E := ThriftException)
    small_reader 3)
    as (res & r' & E & _ & _ & _ & Hr); [exact small_reader_wf|cbn; lia|by repeat constructor|].
  destruct res as [b|e]; [|vm_compute in E; discriminate E].
  destruct Hr as (_ & Hb & _). by exists b, r'.
Defined.
End CodecExample.
