(* ===== verification/Discovery.v ===== *)
(** Service discovery: [volo/src/discovery/mod.rs].

    Instances, the change between two discovery results, the static
    discoverers, and the [Discover] trait as a class. *)

From S2P Require Import Prelude Net Context.

(** [Instance]; [tags] is a string map. *)
Record Instance : Type := mkInstance {
  inst_address : Address;
  inst_weight : Z;
  inst_tags : gmap bytes bytes;
}.

#[export] Instance Instance_eq_dec : EqDecision Instance.
Proof. solve_decision. Defined.

Record Change (K : Type) : Type := mkChange {
  ch_key : K;
  ch_all : list Instance;
  ch_added : list Instance;
  ch_updated : list Instance;
  ch_removed : list Instance;
}.
Arguments mkChange {K}.
Arguments ch_key {K}.
Arguments ch_all {K}.
Arguments ch_added {K}.
Arguments ch_updated {K}.
Arguments ch_removed {K}.

(** A [HashSet<Address>]: the inserted addresses. A look-up finds an entry
    with the same hash that compares equal. *)
Abbreviation AddressSet := (list Address) (only parsing).

Definition set_contains (s : AddressSet) (a : Address) : bool :=
  existsb (fun b => bool_decide (address_hash b = address_hash a) && address_eqb b a) s.

Definition set_insert (a : Address) (s : AddressSet) : AddressSet :=
  if set_contains s a then s else s ++ [a].

(** The two [for] loops that fill a set from the instances' addresses. *)
Definition collect_addresses (l : list Instance) : AddressSet :=
  fold_left (fun s i => set_insert (inst_address i) s) l [].

(** The loop that pushes the instances whose address is not in [s]. *)
Fixpoint push_missing (s : AddressSet) (l : list Instance) : list Instance :=
  match l with
  | [] => []
  | i :: l => if negb (set_contains s (inst_address i)) then i :: push_missing s l
              else push_missing s l
  end.

Definition is_nil {A} (l : list A) : bool := match l with [] => true | _ => false end.

(** [diff_address]. *)
Definition diff_address {K} (key : K) (prev next : list Instance) : Change K * bool :=
  let prev_set := collect_addresses prev in
  let next_set := collect_addresses next in
  let added := push_missing prev_set next in
  let removed := push_missing next_set prev in
  let changed := negb (is_nil added) || negb (is_nil removed) in
  (mkChange key next added [] removed, changed).

(** [trait Discover], with the awaited result of [discover]. *)
Class Discover (D K E : Type) := {
  discover : D -> Endpoint -> outcome E (list Instance);
  discover_key : D -> Endpoint -> K;
}.

Record StaticDiscover : Type := mkStaticDiscover { sd_instances : list Instance }.

Definition static_from (addrs : list SocketAddr) : StaticDiscover :=
  mkStaticDiscover ((fun a => mkInstance (Ip a) 1 ∅) <$> addrs).

#[export] Instance static_discover : Discover StaticDiscover unit Empty_set := {|
  discover self _ := Done (sd_instances self);
  discover_key _ _ := tt;
|}.

Record WeightedStaticDiscover : Type := mkWeightedStaticDiscover { wsd_instances : list Instance }.

Definition weighted_static_from (addrs : list (SocketAddr * Z)) : WeightedStaticDiscover :=
  mkWeightedStaticDiscover ((fun a => mkInstance (Ip a.1) a.2 ∅) <$> addrs).

#[export] Instance weighted_static_discover : Discover WeightedStaticDiscover unit Empty_set := {|
  discover self _ := Done (wsd_instances self);
  discover_key _ _ := tt;
|}.

Inductive DummyDiscover : Type := mkDummyDiscover.

#[export] Instance dummy_discover : Discover DummyDiscover unit Empty_set := {|
  discover _ _ := Done [];
  discover_key _ _ := tt;
|}.

(** * Facts *)

(** Same hash and equal: the same address. *)
Lemma same_key_eq a b :
  bool_decide (address_hash b = address_hash a) && address_eqb b a = true <-> b = a.
Proof.
  rewrite andb_true_iff, bool_decide_eq_true. split.
  - intros [Hh He]. destruct a as [i|[]], b as [j|[]]; cbn in *; try done;
      rewrite ?bool_decide_eq_true in He; congruence.
  - intros ->. by rewrite address_eqb_refl.
Qed.

Lemma set_contains_elem s a : set_contains s a = true <-> a ∈ s.
Proof.
  unfold set_contains. rewrite existsb_exists. split.
  - intros (b & Hb & Hk%same_key_eq). subst. by apply list_elem_of_In.
  - intros Ha. exists a. rewrite <- list_elem_of_In. split; [done|]. by apply same_key_eq.
Qed.

Lemma set_contains_not s a : set_contains s a = false <-> a ∉ s.
Proof. rewrite <- set_contains_elem. by destruct (set_contains s a). Qed.

Lemma set_insert_elem a b s : b ∈ set_insert a s <-> b = a \/ b ∈ s.
Proof.
  unfold set_insert. destruct (set_contains s a) eqn:E.
  - apply set_contains_elem in E. naive_solver.
  - rewrite elem_of_app, list_elem_of_singleton. naive_solver.
Qed.

Lemma set_insert_nodup a s : NoDup s -> NoDup (set_insert a s).
Proof.
  intros Hs. unfold set_insert. destruct (set_contains s a) eqn:E; [done|].
  apply set_contains_not in E. apply NoDup_app. split_and!; [done| |apply NoDup_singleton].
  intros b Hb ->%list_elem_of_singleton. done.
Qed.

Lemma collect_addresses_elem l a : a ∈ collect_addresses l <-> a ∈ inst_address <$> l.
Proof.
  unfold collect_addresses.
  cut (forall s, a ∈ fold_left (fun s i => set_insert (inst_address i) s) l s
                 <-> a ∈ s \/ a ∈ inst_address <$> l).
  { intros H. rewrite H. rewrite elem_of_nil. naive_solver. }
  induction l as [|i l IH]; intros s; cbn [fold_left fmap list_fmap].
  - rewrite elem_of_nil. naive_solver.
  - rewrite IH, set_insert_elem, elem_of_cons. naive_solver.
Qed.

Lemma push_missing_filter s l :
  push_missing s l = base.filter (fun i => inst_address i ∉ s) l.
Proof.
  induction l as [|i l IH]; [done|]. cbn [push_missing]. rewrite filter_cons.
  destruct (set_contains s (inst_address i)) eqn:E; cbn.
  - apply set_contains_elem in E. rewrite decide_False; naive_solver.
  - apply set_contains_not in E. rewrite decide_True by done. by rewrite IH.
Qed.

Lemma is_nil_spec {A} (l : list A) : is_nil l = true <-> l = [].
Proof. by destruct l. Qed.

Lemma diff_added {K} (key : K) prev next i :
  i ∈ ch_added (diff_address key prev next).1 <->
  i ∈ next /\ inst_address i ∉ inst_address <$> prev.
Proof.
  cbn. rewrite push_missing_filter, list_elem_of_filter, collect_addresses_elem. naive_solver.
Qed.

Lemma diff_removed {K} (key : K) prev next i :
  i ∈ ch_removed (diff_address key prev next).1 <->
  i ∈ prev /\ inst_address i ∉ inst_address <$> next.
Proof.
  cbn. rewrite push_missing_filter, list_elem_of_filter, collect_addresses_elem. naive_solver.
Qed.

(** the change between two discovery results. [all] is the new result,
    an instance is reported added (removed) exactly when its address is new
    (gone), nothing is reported updated, and the flag is false exactly when
    the two results have the same addresses. *)
Theorem diff_address_spec {K} (key : K) prev next :
  let '(c, changed) := diff_address key prev next in
  ch_all c = next /\ ch_updated c = [] /\
  (forall i, i ∈ ch_added c <-> i ∈ next /\ inst_address i ∉ inst_address <$> prev) /\
  (forall i, i ∈ ch_removed c <-> i ∈ prev /\ inst_address i ∉ inst_address <$> next) /\
  (changed = false <-> forall a, a ∈ inst_address <$> prev <-> a ∈ inst_address <$> next).
Proof.
  pose proof (diff_added key prev next) as Ha. pose proof (diff_removed key prev next) as Hr.
  destruct (diff_address key prev next) as [c changed] eqn:E. cbn in Ha, Hr.
  unfold diff_address in E. injection E as <- <-. split_and!; [done..|]. cbn in Ha, Hr.
  rewrite orb_false_iff, !negb_false_iff, !is_nil_spec. split.
  - intros [Ea Er] a. rewrite Ea in Ha. rewrite Er in Hr.
    split; intros (i & -> & Hi)%list_elem_of_fmap; apply dec_stable; intros Hn.
    + by apply (elem_of_nil i), Hr.
    + by apply (elem_of_nil i), Ha.
  - intros Heq. split; apply elem_of_nil_inv; intros i.
    + intros [Hi Hn]%Ha. apply Hn, Heq. apply list_elem_of_fmap. eauto.
    + intros [Hi Hn]%Hr. apply Hn, Heq. apply list_elem_of_fmap. eauto.
Qed.
