(* ===== verification/RandomBalance.v ===== *)
(** Weighted random load balancing: [volo/src/loadbalance/random.rs].

    The random draw is an input, and the binary search is the standard
    library's: among equal elements it may return any. *)

From stdpp Require Import sorting.
From S2P Require Import Prelude Net Context Discovery.

(** [LoadBalanceError]. *)
Inductive LoadBalanceError : Type :=
| LbRetry
| LbDiscover (msg : bytes)
| MissRequestHash.

(** [slice::binary_search]: [inl] found, [inr] where to insert. *)
Class BinarySearch := binary_search : list Z -> Z -> nat + nat.

Class BinarySearchLaws `{BinarySearch} : Prop := {
  search_spec : forall l x, Sorted Z.le l ->
    match binary_search l x with
    | inl i => l !! i = Some x
    | inr i => (i <= length l)%nat /\
        forall j y, l !! j = Some y -> ((j < i)%nat -> y < x) /\ ((i <= j)%nat -> x < y)
    end;
}.

Module Random.

Record WeightedInstances : Type := mkWeighted {
  wi_sum_of_weights : Z;
  wi_prefix_sum_of_weights : list Z;
  wi_instances : list Instance;
}.

(** The loop of [From<Vec<Arc<Instance>>>]: the running sum and the sums
    pushed so far. *)
Definition weigh_step (acc : Z * list Z) (i : Instance) : Z * list Z :=
  let sum := acc.1 + inst_weight i in (sum, acc.2 ++ [sum]).

Definition weighted_from (instances : list Instance) : WeightedInstances :=
  let '(sum, prefix) := fold_left weigh_step instances (0, []) in
  mkWeighted sum prefix instances.

Record InstancePicker : Type := mkPicker {
  pk_shared_instances : WeightedInstances;
  pk_sum_of_weights : Z;
  pk_last_offset : option nat;
  pk_iter_times : Z;
}.

Section Pick.
Context `{BinarySearch} {E : Type}.

(** [pick_one], for a draw of [random_range(0..sum_of_weight)]. *)
Definition pick_one (draw sum_of_weight : Z) (prefix : list Z) (instances : list Instance)
  : outcome E (option (nat * Instance)) :=
  if bool_decide (sum_of_weight = 0) then Done None
  else if is_nil instances then Done None
  else
    let weight := draw + 1 in
    let index := match binary_search prefix weight with inl i => i | inr i => i end in
    i ← unwrap (instances !! index);
    Done (Some (index, i)).

(** [InstancePicker::next]. *)
Definition next (draw : Z) (self : InstancePicker) : outcome E (option Address * InstancePicker) :=
  let shared := wi_instances (pk_shared_instances self) in
  let prefix := wi_prefix_sum_of_weights (pk_shared_instances self) in
  if is_nil shared then Done (None, self)
  else
    let self := mkPicker (pk_shared_instances self) (pk_sum_of_weights self)
                  (pk_last_offset self) (pk_iter_times self + 1) in
    match pk_last_offset self with
    | None =>
        r ← pick_one draw (pk_sum_of_weights self) prefix shared;
        match r with
        | None => Done (None, self)
        | Some (offset, i) =>
            Done (Some (inst_address i),
                  mkPicker (pk_shared_instances self) (pk_sum_of_weights self) (Some offset)
                    (pk_iter_times self))
        end
    | Some last_offset =>
        if bool_decide (Zlen shared < pk_iter_times self) then Done (None, self)
        else
          let offset := S last_offset in
          let offset := if bool_decide (offset = length shared) then O else offset in
          i ← unwrap (shared !! offset);
          Done (Some (inst_address i),
                mkPicker (pk_shared_instances self) (pk_sum_of_weights self) (Some offset)
                  (pk_iter_times self))
    end.

(** Driving the iterator for at most [fuel] rounds. *)
Fixpoint picks (fuel : nat) (draw : Z) (self : InstancePicker) : outcome E (list Address) :=
  match fuel with
  | O => OutOfFuel
  | S fuel =>
      '(o, self) ← next draw self;
      match o with
      | None => Done []
      | Some a => l ← picks fuel draw self; Done (a :: l)
      end
  end.
End Pick.

(** [WeightedRandomBalance]: the cached lists by key. *)
Abbreviation Router K := (gmap K WeightedInstances).

Section Balance.
Context {D K E : Type} `{Discover D K E} `{Countable K} (into : E -> LoadBalanceError).

Definition get_picker (endpoint : Endpoint) (d : D) (router : Router K)
  : outcome LoadBalanceError (InstancePicker * Router K) :=
  let key := discover_key d endpoint in
  '(weighted_list, router) ←
     match router !! key with
     | Some instances => Done (instances, router)
     | None =>
         l ← map_err into (discover d endpoint);
         let instances := weighted_from l in
         Done (instances, <[key := instances]> router)
     end;
  Done (mkPicker weighted_list (wi_sum_of_weights weighted_list) None 0, router).

Definition rebalance (changes : Change K) (router : Router K) : Router K :=
  match router !! ch_key changes with
  | Some _ => <[ch_key changes := weighted_from (ch_all changes)]> router
  | None => router
  end.
End Balance.

(** * Facts *)

Fixpoint prefix_sums (acc : Z) (l : list Instance) : list Z :=
  match l with
  | [] => []
  | i :: l => (acc + inst_weight i) :: prefix_sums (acc + inst_weight i) l
  end.

Fixpoint weight_sum (l : list Instance) : Z :=
  match l with [] => 0 | i :: l => inst_weight i + weight_sum l end.

Lemma weigh_fold l acc p :
  fold_left weigh_step l (acc, p) = (acc + weight_sum l, p ++ prefix_sums acc l).
Proof.
  revert acc p. induction l as [|i l IH]; intros acc p; cbn.
  - by rewrite Z.add_0_r, app_nil_r.
  - unfold weigh_step at 2. cbn. rewrite IH, <- app_assoc. cbn. f_equal. lia.
Qed.

Lemma weighted_from_eq l : weighted_from l = mkWeighted (weight_sum l) (prefix_sums 0 l) l.
Proof. unfold weighted_from. rewrite weigh_fold. done. Qed.

Definition weights_ok (l : list Instance) : Prop := Forall (fun i => 0 <= inst_weight i) l.

Lemma length_prefix_sums acc l : length (prefix_sums acc l) = length l.
Proof. revert acc. induction l as [|i l IH]; intros acc; cbn; auto. Qed.

(** The entry of an instance: what came before it and its own weight. *)
Lemma prefix_sums_lookup acc l j :
  (j < length l)%nat -> prefix_sums acc l !! j = Some (acc + weight_sum (take (S j) l)).
Proof.
  revert acc j. induction l as [|i l IH]; intros acc j Hj; [cbn in Hj; lia|].
  destruct j as [|j]; cbn [prefix_sums lookup list_lookup] in *.
  - rewrite firstn_cons, take_0. cbn. f_equal. lia.
  - rewrite IH by (cbn in Hj; lia). rewrite !firstn_cons. cbn [weight_sum]. f_equal. lia.
Qed.

Lemma prefix_sums_sorted acc l : weights_ok l -> Sorted Z.le (prefix_sums acc l).
Proof.
  intros Hw. revert acc. induction Hw as [|i l Hi Hl IH]; intros acc; cbn; [constructor|].
  constructor; [apply IH|]. destruct Hl; cbn; constructor; lia.
Qed.

Lemma weight_sum_take_mono l j k :
  weights_ok l -> (j <= k)%nat -> weight_sum (take j l) <= weight_sum (take k l).
Proof.
  intros Hw. revert j k. induction Hw as [|i l Hi Hl IH]; intros j k Hjk.
  - by rewrite !take_nil.
  - destruct j as [|j], k as [|k]; [done| |lia|]; rewrite ?firstn_cons, ?take_0; cbn [weight_sum].
    + specialize (IH O k ltac:(lia)). rewrite take_0 in IH. cbn [weight_sum] in IH. lia.
    + specialize (IH j k ltac:(lia)). lia.
Qed.

Section Facts.
Context `{BinarySearchLaws} {E : Type}.

Definition chosen (l : list Instance) (draw : Z) : nat :=
  match binary_search (prefix_sums 0 l) (draw + 1) with inl i => i | inr i => i end.

(** The chosen entry exists and its prefix sum covers the draw; what comes
    before it does not exceed the draw. *)
Lemma chosen_bounds l draw :
  weights_ok l -> 0 <= draw < weight_sum l ->
  (chosen l draw < length l)%nat /\ draw < weight_sum (take (S (chosen l draw)) l) /\
  (Forall (fun i => 0 < inst_weight i) l -> weight_sum (take (chosen l draw) l) <= draw).
Proof.
  intros Hw Hd. unfold chosen.
  pose proof (search_spec (prefix_sums 0 l) (draw + 1) (prefix_sums_sorted 0 l Hw)) as Hs.
  pose proof (length_prefix_sums 0 l) as Hlen.
  destruct (binary_search _ _) as [i|i].
  - assert (i < length l)%nat as Hi by (rewrite <- Hlen; by eapply lookup_lt_Some).
    rewrite prefix_sums_lookup in Hs by done. injection Hs as Hs. split_and!; [done|lia|].
    intros Hpos. destruct (lookup_lt_is_Some_2 l i Hi) as [x Hx].
    rewrite (take_S_r l i x Hx) in Hs.
    assert (0 < inst_weight x) by (eapply Forall_lookup in Hpos; [|done]; done).
    assert (forall l1 l2, weight_sum (l1 ++ l2) = weight_sum l1 + weight_sum l2) as Happ.
    { clear. intros l1 l2. induction l1 as [|a l1 IH]; cbn; [done|]. rewrite IH. lia. }
    rewrite Happ in Hs. cbn in Hs. lia.
  - destruct Hs as [Hle Hs].
    assert (i < length l)%nat as Hi.
    { destruct (decide (i < length l)%nat); [done|]. exfalso.
      destruct l as [|x l']; [cbn in Hd; lia|]. set (l := x :: l') in *.
      assert (prefix_sums 0 l !! pred (length l) = Some (0 + weight_sum (take (S (pred (length l))) l)))
        as El by (apply prefix_sums_lookup; cbn; lia).
      apply Hs in El as [Hlt _]. rewrite take_ge in Hlt by (cbn; lia). cbn in *. lia. }
    split_and!; [done| |].
    + pose proof (prefix_sums_lookup 0 l i Hi) as El. apply Hs in El as [_ Hgt].
      specialize (Hgt ltac:(lia)). lia.
    + intros _. destruct i as [|i]; [rewrite take_0; cbn; lia|].
      pose proof (prefix_sums_lookup 0 l i ltac:(lia)) as El. apply Hs in El as [Hlt _].
      specialize (Hlt ltac:(lia)). lia.
Qed.

Lemma pick_one_chosen l draw :
  weights_ok l -> 0 <= draw < weight_sum l ->
  exists i, l !! chosen l draw = Some i /\
    pick_one (E := E) draw (weight_sum l) (prefix_sums 0 l) l = Done (Some (chosen l draw, i)).
Proof.
  intros Hw Hd. destruct (chosen_bounds l draw Hw Hd) as (Hi & _).
  destruct (lookup_lt_is_Some_2 l _ Hi) as [i Ei]. exists i. split; [done|].
  unfold pick_one. rewrite bool_decide_eq_false_2 by lia.
  destruct l as [|x l]; [cbn in Hd; lia|]. cbn [is_nil].
  change (match binary_search (prefix_sums 0 (x :: l)) (draw + 1) with
    inl i => i | inr i => i end) with (chosen (x :: l) draw). by rewrite Ei.
Qed.

(** the shares of a weighted pick. When every weight is positive, entry
    [j] is picked by exactly the draws between the weight before it and the
    weight up to it: as many draws as its weight. *)
Theorem pick_one_shares l draw j :
  Forall (fun i => 0 < inst_weight i) l -> 0 <= draw < weight_sum l -> (j < length l)%nat ->
  (exists i, pick_one (E := E) draw (wi_sum_of_weights (weighted_from l))
     (wi_prefix_sum_of_weights (weighted_from l)) l = Done (Some (j, i))) <->
  weight_sum (take j l) <= draw < weight_sum (take (S j) l).
Proof.
  intros Hpos Hd Hj. rewrite weighted_from_eq. cbn [wi_sum_of_weights wi_prefix_sum_of_weights].
  assert (weights_ok l) as Hw by (eapply Forall_impl; [exact Hpos|cbn; lia]).
  destruct (chosen_bounds l draw Hw Hd) as (Hc & Hup & Hlo). specialize (Hlo Hpos).
  destruct (pick_one_chosen l draw Hw Hd) as (i & Ei & ->). split.
  - intros [i' [= <- <-]]. done.
  - intros [Hjl Hju]. exists i. do 3 f_equal.
    destruct (lt_eq_lt_dec j (chosen l draw)) as [[Hlt|Heq]|Hgt]; [|done|].
    + pose proof (weight_sum_take_mono l (S j) (chosen l draw) Hw Hlt). lia.
    + pose proof (weight_sum_take_mono l (S (chosen l draw)) j Hw Hgt). lia.
Qed.

Definition rotated (k : nat) (l : list Instance) : list Address :=
  inst_address <$> (drop k l ++ take k l).

(** Where the walk stands after [t] picks from offset [k]. *)
Lemma walk_offset n k t :
  (k < n)%nat -> (t < n)%nat ->
  (if bool_decide (S ((k + t) mod n) = n) then O else S ((k + t) mod n)) = ((k + S t) mod n)%nat.
Proof.
  intros Hk Ht. pose proof (Nat.mod_upper_bound (k + t) n ltac:(lia)) as Hb.
  replace ((k + S t) mod n)%nat with ((1 + (k + t) mod n) mod n)%nat.
  2: { rewrite Nat.Div0.add_mod_idemp_r. f_equal. lia. }
  set (m := ((k + t) mod n)%nat) in *. case_bool_decide as Hn.
  - replace (1 + m)%nat with n by lia. by rewrite Nat.Div0.mod_same.
  - by rewrite Nat.mod_small by lia.
Qed.

Lemma rotated_lookup l k t :
  (k < length l)%nat -> (t < length l)%nat ->
  rotated k l !! t = inst_address <$> l !! ((k + t) mod length l)%nat.
Proof.
  intros Hk Ht. unfold rotated. rewrite list_lookup_fmap. f_equal.
  destruct (decide (t < length l - k)%nat).
  - rewrite lookup_app_l by (rewrite length_drop; lia). rewrite lookup_drop.
    by rewrite Nat.mod_small by lia.
  - rewrite lookup_app_r by (rewrite length_drop; lia). rewrite length_drop.
    rewrite lookup_take_lt by lia.
    f_equal.
    replace (k + t)%nat with ((t - (length l - k)) + 1 * length l)%nat by lia.
    by rewrite Nat.Div0.mod_add, Nat.mod_small by lia.
Qed.

(** The rest of a walk that has made [S t] picks from offset [k]. *)
Lemma picks_walk l k t fuel draw s :
  (k < length l)%nat -> (t < length l)%nat -> (length l - t < fuel)%nat ->
  picks (E := E) fuel draw
    (mkPicker (mkWeighted s (prefix_sums 0 l) l) s (Some ((k + t) mod length l)%nat) (Z.of_nat (S t)))
  = Done (drop (S t) (rotated k l)).
Proof.
  intros Hk. assert (length (rotated k l) = length l) as Hlen.
  { unfold rotated. rewrite length_fmap, length_app, length_drop, length_take. lia. }
  revert t. induction fuel as [|fuel IH]; intros t Ht Hf; [lia|]. cbn [picks].
  unfold next. cbn [pk_shared_instances wi_instances pk_last_offset pk_iter_times pk_sum_of_weights].
  destruct (is_nil l) eqn:En; [apply is_nil_spec in En; subst; cbn in Hk; lia|].
  case_bool_decide as Hend.
  - cbn [mbind outcome_bind]. rewrite drop_ge; [done|]. rewrite Hlen. unfold Zlen in Hend. lia.
  - unfold Zlen in Hend. rewrite walk_offset by lia.
    assert ((k + S t) mod length l < length l)%nat as Hm by (apply Nat.mod_upper_bound; lia).
    destruct (lookup_lt_is_Some_2 l _ Hm) as [i Ei]. rewrite Ei. cbn [unwrap mbind outcome_bind].
    replace (Z.of_nat (S t) + 1) with (Z.of_nat (S (S t))) by lia.
    rewrite IH by lia. cbn [mbind outcome_bind].
    rewrite (drop_S (rotated k l) (inst_address i) (S t)); [done|].
    rewrite rotated_lookup by lia. by rewrite Ei.
Qed.

Lemma picks_S fuel draw p :
  picks (E := E) (S fuel) draw p
  = ('(o, p) ← next draw p;
     match o with None => Done [] | Some a => l ← picks fuel draw p; Done (a :: l) end).
Proof. done. Qed.

(** a picker visits every instance. From a fresh picker over instances of
    positive total weight, whatever is drawn, iterating ends after exactly one
    turn: the addresses come in order, starting at the weighted pick, each
    instance once, and no index is out of range. *)
Theorem random_picker_one_turn l draw :
  weights_ok l -> 0 <= draw < weight_sum l ->
  exists k, (k < length l)%nat /\ rotated k l ≡ₚ inst_address <$> l /\
    picks (E := E) (S (S (length l))) draw
      (mkPicker (weighted_from l) (wi_sum_of_weights (weighted_from l)) None 0)
    = Done (rotated k l).
Proof.
  intros Hw Hd. destruct (chosen_bounds l draw Hw Hd) as (Hc & _).
  destruct (pick_one_chosen l draw Hw Hd) as (i & Ei & Hp).
  exists (chosen l draw). split_and!; [done| |].
  { unfold rotated. by rewrite app_Permutation_comm, take_drop. }
  rewrite weighted_from_eq, picks_S. cbn [wi_sum_of_weights]. unfold next.
  cbn [pk_shared_instances wi_instances wi_prefix_sum_of_weights pk_last_offset pk_iter_times
    pk_sum_of_weights].
  destruct (is_nil l) eqn:En; [apply is_nil_spec in En; subst; cbn in Hd; lia|].
  rewrite Hp. cbn [mbind outcome_bind].
  assert (chosen l draw = (chosen l draw + 0) mod length l)%nat as Emod
    by (rewrite Nat.add_0_r, Nat.mod_small; done).
  assert (0 < length l)%nat by lia.
  pose proof (picks_walk l (chosen l draw) 0 (S (length l)) draw (weight_sum l)) as Hwk.
  rewrite <- Emod in Hwk. change (0 + 1) with (Z.of_nat 1).
  rewrite Hwk by lia. cbn [mbind outcome_bind].
  pose proof (rotated_lookup l (chosen l draw) 0 Hc ltac:(lia)) as Hr.
  rewrite <- Emod, Ei in Hr. cbn in Hr.
  destruct (rotated (chosen l draw) l) as [|a r]; [done|]. cbn in *. by simplify_eq.
Qed.

(** A list of one instance is picked with any random number. *)
Lemma next_single addr w draw :
  0 <= draw < w ->
  exists p, next (E := E) draw (mkPicker (weighted_from [mkInstance addr w ∅]) (wi_sum_of_weights (weighted_from [mkInstance addr w ∅])) None 0) =
    Done (Some addr, p).
Proof.
  intros Hd. set (l := [mkInstance addr w ∅]). assert (weights_ok l) as Hw by (constructor; [cbn; lia|constructor]).
  assert (0 <= draw < weight_sum l) as Hd' by (cbn; lia).
  destruct (pick_one_chosen l draw Hw Hd') as (i & Hi & Hp). rewrite weighted_from_eq. unfold next.
  cbn [pk_shared_instances wi_instances pk_last_offset pk_sum_of_weights wi_sum_of_weights wi_prefix_sum_of_weights].
  cbn [is_nil l]. fold l. rewrite Hp. cbn [mbind outcome_bind].
  assert (i = mkInstance addr w ∅) as ->; [|by eexists].
  apply list_elem_of_lookup_2, list_elem_of_singleton in Hi. done.
Qed.
End Facts.
End Random.

(** * A search that keeps the contract, and concrete picks *)

Module RandomExample.
Fixpoint scan (l : list Z) (x : Z) : nat + nat :=
  match l with
  | [] => inr O
  | y :: l =>
      if bool_decide (y = x) then inl O
      else if bool_decide (x < y) then inr O
      else match scan l x with inl i => inl (S i) | inr i => inr (S i) end
  end.

#[export] Instance scan_search : BinarySearch := scan.

#[export] Instance scan_laws : BinarySearchLaws.
Proof.
  split. intros l x. unfold binary_search, scan_search.
  induction l as [|y l IH]; intros Hs; cbn [scan].
  { split; [cbn; lia|]. intros j z Hj. by rewrite lookup_nil in Hj. }
  apply Sorted_StronglySorted in Hs; [|intros ???; lia].
  inversion Hs as [|?? Hs' Hf]; subst. specialize (IH (StronglySorted_Sorted Hs')).
  case_bool_decide; [by subst|]. case_bool_decide.
  - split; [lia|]. intros [|j] z Hj; cbn in Hj; split; try lia; intros _.
    + by simplify_eq.
    + eapply Forall_lookup in Hf; [|exact Hj]. lia.
  - destruct (scan l x) as [i|i]; [done|]. destruct IH as [Hi Hz].
    split; [cbn; lia|]. intros [|j] z Hj; cbn in Hj; split; try lia.
    + intros _. simplify_eq. lia.
    + intros Hji. apply (Hz j z Hj). lia.
    + intros Hji. apply (Hz j z Hj). lia.
Qed.

Definition three : list Instance :=
  [mkInstance (Ip (SocketAddrV4 1 80)) 2 ∅; mkInstance (Ip (SocketAddrV4 2 80)) 3 ∅;
   mkInstance (Ip (SocketAddrV4 3 80)) 1 ∅].

Lemma three_positive : Forall (fun i => 0 < inst_weight i) three.
Proof. repeat constructor. Qed.

Lemma pick_one_shares_witness :
  (exists i, Random.pick_one (E := Empty_set) 4
     (Random.wi_sum_of_weights (Random.weighted_from three))
     (Random.wi_prefix_sum_of_weights (Random.weighted_from three)) three = Done (Some (1%nat, i))).
Proof.
  apply (Random.pick_one_shares three 4 1); [apply three_positive|by vm_compute|cbn; lia|by vm_compute].
Defined.

Lemma random_picker_one_turn_witness :
  exists k, (k < 3)%nat /\ Random.rotated k three ≡ₚ inst_address <$> three /\
    Random.picks (E := Empty_set) 5 4
      (Random.mkPicker (Random.weighted_from three) 6 None 0) = Done (Random.rotated k three).
Proof.
  apply (Random.random_picker_one_turn three 4); [by repeat constructor|by vm_compute].
Defined.
End RandomExample.
