(* ===== verification/ConsistentHash.v ===== *)
(** Consistent-hash load balancing: [volo/src/loadbalance/consistent_hash.rs].

    The hash function ([mur3]) and the unstable sort are parameters. *)

From stdpp Require Import sorting.
From S2P Require Import Prelude Net Context Discovery RandomBalance.

Module ConsistentHash.

Record ConsistentHashOption : Type := mkOption {
  opt_replicas : Z;
  opt_virtual_factor : Z;
  opt_weighted : bool;
}.

Definition default_option : ConsistentHashOption := mkOption 1 100 true.

(** A virtual node: its real node and its place on the ring. *)
Record VirtualNode : Type := mkVirtualNode {
  vn_real_node : Instance;
  vn_hash : Z;
}.

(** [Ord for VirtualNode] compares the hashes. *)
Definition vn_le (a b : VirtualNode) : Prop := vn_hash a <= vn_hash b.

(** [mur3::murmurhash3_x64_128(..).0] and [sort_unstable]. *)
Class HashEnv := {
  murmurhash3 : bytes -> Z;
  sort_unstable : list VirtualNode -> list VirtualNode;
}.

Class HashEnvLaws `{HashEnv} : Prop := {
  sort_perm : forall l, sort_unstable l ≡ₚ l;
  sort_sorted : forall l, Sorted vn_le (sort_unstable l);
}.

Record WeightedInstances : Type := mkWeighted {
  wi_real_nodes : list Instance;
  wi_virtual_nodes : list VirtualNode;
}.

Record InstancePicker : Type := mkPicker {
  pk_shared_instances : WeightedInstances;
  pk_request_hash : Z;
  pk_last_pick : option nat;
  pk_used : list Address;
  pk_replicas : Z;
}.

Definition vn_address (v : VirtualNode) : Address := inst_address (vn_real_node v).

(** [partition_point] on a partitioned slice: how many satisfy [p]. *)
Fixpoint partition_point {A} (p : A -> bool) (l : list A) : nat :=
  match l with
  | [] => O
  | x :: l => if p x then S (partition_point p l) else O
  end.

Section Picker.
Context {E : Type}.

(** The [for] loop of [next]: [n] rounds from [index]. *)
Fixpoint find_unused (n : nat) (index : nat) (used : list Address) (vns : list VirtualNode)
  : outcome E (option (nat * Address)) :=
  match n with
  | O => Done None
  | S n =>
      let index := S index in
      let index := if bool_decide (index = length vns) then O else index in
      v ← unwrap (vns !! index);
      if set_contains used (vn_address v) then find_unused n index used vns
      else Done (Some (index, vn_address v))
  end.

(** [InstancePicker::next]. *)
Definition next (self : InstancePicker) : outcome E (option Address * InstancePicker) :=
  let vns := wi_virtual_nodes (pk_shared_instances self) in
  let real := wi_real_nodes (pk_shared_instances self) in
  if is_nil real then Done (None, self)
  else if bool_decide (pk_replicas self <= Zlen (pk_used self)) then Done (None, self)
  else
    match pk_last_pick self with
    | None =>
        let replicas := Z.min (pk_replicas self) (Zlen real) in
        let index := partition_point (fun vn => bool_decide (vn_hash vn < pk_request_hash self)) vns in
        let index := if bool_decide (index = length vns) then O else index in
        v ← unwrap (vns !! index);
        Done (Some (vn_address v),
              mkPicker (pk_shared_instances self) (pk_request_hash self) (Some index)
                (set_insert (vn_address v) (pk_used self)) replicas)
    | Some last_pick =>
        r ← find_unused (length vns) last_pick (pk_used self) vns;
        match r with
        | Some (index, addr) =>
            Done (Some addr,
                  mkPicker (pk_shared_instances self) (pk_request_hash self) (Some index)
                    (set_insert addr (pk_used self)) (pk_replicas self))
        | None => Done (None, self)
        end
    end.

(** Driving the iterator for at most [fuel] rounds. *)
Fixpoint picks (fuel : nat) (self : InstancePicker) : outcome E (list Address) :=
  match fuel with
  | O => OutOfFuel
  | S fuel =>
      '(o, self) ← next self;
      match o with
      | None => Done []
      | Some a => l ← picks fuel self; Done (a :: l)
      end
  end.
End Picker.

(** * Building the ring *)

Section Build.
Context `{BuildProfile} `{AddrText} `{HashEnv} {E : Type}.

(** The [while serial > 0] loop: the digits of [serial], written backwards
    from [pos]. *)
Fixpoint write_serial (fuel : nat) (serial : Z) (pos : nat) (buf : bytes)
  : outcome E (nat * bytes) :=
  match fuel with
  | O => OutOfFuel
  | S fuel =>
      if bool_decide (0 < serial) then
        match pos with
        | O => Panic
        | S pos =>
            let buf := <[pos := digit (serial mod 10)]> buf in
            write_serial fuel (serial / 10) pos buf
        end
      else Done (pos, buf)
  end.

(** [buf.iter_mut().take(pos).skip(sharp_pos + 1)] set to zero digits. *)
Definition zero_fill (sharp_pos pos : nat) (buf : bytes) : bytes :=
  take (S sharp_pos) buf ++ replicate (pos - S sharp_pos) (digit 0) ++ drop (max pos (S sharp_pos)) buf.

(** The first ['#'] of the buffer. *)
Fixpoint sharp_index (buf : bytes) : nat :=
  match buf with
  | [] => O
  | b :: buf => if bool_decide (b = "#"%byte) then O else S (sharp_index buf)
  end.

(** One round of the serial loop: the buffer is reused. *)
Definition label_step (sharp_pos : nat) (serial : Z) (buf : bytes) : outcome E bytes :=
  '(pos, buf) ← write_serial (S (S (Z.to_nat (Z.log2 serial)))) serial (length buf) buf;
  Done (zero_fill sharp_pos pos buf).

(** The serials [i], [i + 1], ... ([n] of them): the virtual nodes pushed. *)
Fixpoint push_vnodes (n : nat) (i : Z) (sharp_pos : nat) (buf : bytes) (real : Instance)
    (acc : list VirtualNode) : outcome E (list VirtualNode) :=
  match n with
  | O => Done acc
  | S n =>
      buf ← label_step sharp_pos i buf;
      push_vnodes n (i + 1) sharp_pos buf real (acc ++ [mkVirtualNode real (murmurhash3 buf)])
  end.

Definition push_instance (opt : ConsistentHashOption)
    (acc : list Instance * list VirtualNode) (instance : Instance)
  : outcome E (list Instance * list VirtualNode) :=
  let '(real_nodes, vns) := acc in
  let weight := if opt_weighted opt then inst_weight instance else 1 in
  vnode_lens ← checked 32 (opt_virtual_factor opt * weight);
  let buf := address_to_string (inst_address instance) ++ str "#" ++ dec_of_Z vnode_lens in
  vns ← push_vnodes (Z.to_nat vnode_lens) 0 (sharp_index buf) buf instance vns;
  Done (real_nodes ++ [instance], vns).

(** The capacity computed first; only its overflow matters. *)
Definition sum_of_nodes (opt : ConsistentHashOption) (instances : list Instance) : outcome E Z :=
  if opt_weighted opt then
    foldM (fun lhs rhs => n ← checked 32 (inst_weight rhs * opt_virtual_factor opt);
                          checked 64 (lhs + n)) instances 0
  else checked 64 (Zlen instances * opt_virtual_factor opt).

Definition build_weighted_instances (opt : ConsistentHashOption) (instances : list Instance)
  : outcome E WeightedInstances :=
  _ ← sum_of_nodes opt instances;
  '(real_nodes, vns) ← foldM (push_instance opt) instances ([], []);
  Done (mkWeighted real_nodes (sort_unstable vns)).
End Build.

(** * The balancer *)

Section Balance.
Context `{BuildProfile} `{AddrText} `{HashEnv}.
Context {D K E : Type} `{Discover D K E} `{Countable K} (into : E -> LoadBalanceError).

(** [get_picker]; the request hash comes from the task-local metainfo. *)
Definition get_picker (opt : ConsistentHashOption) (request_hash : option Z)
    (endpoint : Endpoint) (d : D) (router : gmap K WeightedInstances)
  : outcome LoadBalanceError (InstancePicker * gmap K WeightedInstances) :=
  match request_hash with
  | None => Fail MissRequestHash
  | Some request_hash =>
      let key := discover_key d endpoint in
      '(weighted_list, router) ←
         match router !! key with
         | Some instances => Done (instances, router)
         | None =>
             l ← map_err into (discover d endpoint);
             instances ← build_weighted_instances opt l;
             Done (instances, <[key := instances]> router)
         end;
      Done (mkPicker weighted_list request_hash None [] (opt_replicas opt), router)
  end.

Definition rebalance (opt : ConsistentHashOption) (changes : Change K)
    (router : gmap K WeightedInstances) : outcome LoadBalanceError (gmap K WeightedInstances) :=
  match router !! ch_key changes with
  | Some _ =>
      instances ← build_weighted_instances opt (ch_all changes);
      Done (<[ch_key changes := instances]> router)
  | None => Done router
  end.
End Balance.

(** * Facts about the picker *)

Section PickerFacts.
Context {E : Type}.

Lemma ring_step n i :
  (i < n)%nat -> (if bool_decide (S i = n) then O else S i) = ((i + 1) mod n)%nat.
Proof.
  intros Hi. case_bool_decide.
  - replace (i + 1)%nat with n by lia. by rewrite Nat.Div0.mod_same.
  - rewrite Nat.mod_small by lia. lia.
Qed.

Lemma find_unused_spec n index used vns :
  (index < length vns)%nat ->
  exists r, find_unused (E := E) n index used vns = Done r /\
    match r with
    | Some (i, a) => (a ∉ used) /\ exists v, vns !! i = Some v /\ a = vn_address v
    | None => forall k v, (1 <= k <= n)%nat ->
        vns !! ((index + k) mod length vns)%nat = Some v -> vn_address v ∈ used
    end.
Proof.
  revert index. induction n as [|n IH]; intros index Hi.
  { exists None. split; [done|]. lia. }
  cbn [find_unused]. rewrite ring_step by done.
  assert ((index + 1) mod length vns < length vns)%nat as Hm by (apply Nat.mod_upper_bound; lia).
  destruct (lookup_lt_is_Some_2 vns _ Hm) as [v Ev]. rewrite Ev. cbn [unwrap mbind outcome_bind].
  destruct (set_contains used (vn_address v)) eqn:Eu.
  - apply set_contains_elem in Eu. destruct (IH _ Hm) as (r & Er & Hr). exists r.
    split; [done|]. destruct r as [[i a]|]; [done|]. intros k w Hk Hw.
    destruct (decide (k = 1)%nat) as [->|]; [congruence|].
    apply (Hr (k - 1)%nat w); [lia|].
    rewrite Nat.Div0.add_mod_idemp_l. by replace (index + 1 + (k - 1))%nat with (index + k)%nat by lia.
  - apply set_contains_not in Eu. eexists. split; [done|]. cbn. eauto.
Qed.

(** Every place of the ring is within one turn. *)
Lemma one_turn n index i :
  (index < n)%nat -> (i < n)%nat -> exists k, (1 <= k <= n)%nat /\ ((index + k) mod n = i)%nat.
Proof.
  intros Hx Hi. destruct (decide (index < i)%nat).
  - exists (i - index)%nat. split; [lia|]. rewrite Nat.mod_small by lia. lia.
  - exists (n + i - index)%nat. split; [lia|].
    replace (index + (n + i - index))%nat with (i + 1 * n)%nat by lia.
    by rewrite Nat.Div0.mod_add, Nat.mod_small.
Qed.

(** The walk after the first pick: new addresses until the replicas are
    reached or every address of the ring is used. *)
Lemma ring_walk fuel wi h last used replicas :
  wi_real_nodes wi <> [] -> (last < length (wi_virtual_nodes wi))%nat -> NoDup used ->
  (Z.to_nat (replicas - Zlen used) < fuel)%nat ->
  exists l, picks (E := E) fuel (mkPicker wi h (Some last) used replicas) = Done l /\
    NoDup (used ++ l) /\ (Zlen used <= replicas -> Zlen (used ++ l) <= replicas) /\
    (forall a, a ∈ l -> a ∈ vn_address <$> wi_virtual_nodes wi) /\
    (replicas <= Zlen (used ++ l) \/ forall a, a ∈ vn_address <$> wi_virtual_nodes wi -> a ∈ used ++ l).
Proof.
  intros Hreal. revert last used. induction fuel as [|fuel IH]; intros last used Hlast Hnd Hf; [lia|].
  cbn [picks]. unfold next. cbn [pk_shared_instances pk_replicas pk_used pk_last_pick pk_request_hash].
  destruct (is_nil _) eqn:En; [by apply is_nil_spec in En|]. clear En.
  case_bool_decide as Hrep.
  - cbn [mbind outcome_bind]. exists []. rewrite app_nil_r. split_and!; [done|done|done| |by left].
    intros a Ha. by apply elem_of_nil in Ha.
  - destruct (find_unused_spec (length (wi_virtual_nodes wi)) last used (wi_virtual_nodes wi) Hlast)
      as (r & Er & Hr). rewrite Er. cbn [mbind outcome_bind]. clear Er. destruct r as [[i a]|].
    + destruct Hr as (Ha & v & Ev & ->). cbn [mbind outcome_bind].
      assert (set_insert (vn_address v) used = used ++ [vn_address v]) as ->.
      { unfold set_insert. by apply set_contains_not in Ha as ->. }
      destruct (IH i (used ++ [vn_address v])) as (l & El & Hnd' & Hle & Hin & Hcmp).
      { by eapply lookup_lt_Some. }
      { apply NoDup_app. split_and!; [done| |apply NoDup_singleton].
        intros x Hx ->%list_elem_of_singleton. done. }
      { rewrite Zlen_app, Zlen_cons, Zlen_nil. lia. }
      rewrite El. cbn [mbind outcome_bind]. exists (vn_address v :: l).
      rewrite <- app_assoc in *. cbn [app] in *. split_and!; [done|done| | |done].
      * intros _. apply Hle. rewrite Zlen_app, Zlen_cons, Zlen_nil. lia.
      * intros x [->|Hx]%elem_of_cons; [|by apply Hin].
        apply list_elem_of_fmap. exists v. split; [done|]. by eapply list_elem_of_lookup_2.
    + cbn [mbind outcome_bind]. exists []. rewrite app_nil_r. split_and!; [done|done|done| |].
      { intros a Ha. by apply elem_of_nil in Ha. }
      right. intros a (v & -> & Hv)%list_elem_of_fmap.
      apply list_elem_of_lookup_1 in Hv as [i Hi]. pose proof (lookup_lt_Some _ _ _ Hi) as Hil.
      destruct (one_turn _ _ _ Hlast Hil) as (k & Hk & Ek).
      apply (Hr k v Hk). by rewrite Ek.
Qed.

(** The entry of the ring the request's hash selects. *)
Definition owner (h : Z) (vns : list VirtualNode) : nat :=
  let index := partition_point (fun vn => bool_decide (vn_hash vn < h)) vns in
  if bool_decide (index = length vns) then O else index.

Lemma partition_point_le {A} (p : A -> bool) l : (partition_point p l <= length l)%nat.
Proof. induction l as [|x l IH]; cbn; [lia|]. destruct (p x); lia. Qed.

Lemma owner_lt h vns : vns <> [] -> (owner h vns < length vns)%nat.
Proof.
  intros Hv. unfold owner. pose proof (partition_point_le (fun vn => bool_decide (vn_hash vn < h)) vns).
  destruct vns; [done|]. case_bool_decide; cbn [length] in *; lia.
Qed.

(** C34: a consistent-hash picker. On a ring that is not empty, iterating a
    fresh picker ends without a panic. The first address is the owner of the
    request's hash; the addresses are pairwise distinct and come from the
    ring; there are at most [min(replicas, real nodes)] of them, and fewer
    only when every address of the ring has been returned. *)
Theorem consistent_picker_spec wi h replicas fuel :
  wi_real_nodes wi <> [] -> wi_virtual_nodes wi <> [] -> 0 < replicas ->
  (Z.to_nat replicas < fuel)%nat ->
  exists v l, wi_virtual_nodes wi !! owner h (wi_virtual_nodes wi) = Some v /\
    picks (E := E) fuel (mkPicker wi h None [] replicas) = Done (vn_address v :: l) /\
    NoDup (vn_address v :: l) /\
    Zlen (vn_address v :: l) <= Z.min replicas (Zlen (wi_real_nodes wi)) /\
    (forall a, a ∈ vn_address v :: l -> a ∈ vn_address <$> wi_virtual_nodes wi) /\
    (Zlen (vn_address v :: l) = Z.min replicas (Zlen (wi_real_nodes wi)) \/
     forall a, a ∈ vn_address <$> wi_virtual_nodes wi -> a ∈ vn_address v :: l).
Proof.
  intros Hreal Hv Hr Hf. pose proof (owner_lt h _ Hv) as Ho.
  destruct (lookup_lt_is_Some_2 _ _ Ho) as [v Ev].
  assert (1 <= Zlen (wi_real_nodes wi)) as Hr1
    by (destruct (wi_real_nodes wi) as [|x l]; [done|]; rewrite Zlen_cons;
        pose proof (Zlen_nonneg l); lia).
  destruct fuel as [|fuel]; [lia|].
  destruct (ring_walk fuel wi h (owner h (wi_virtual_nodes wi)) [vn_address v]
    (Z.min replicas (Zlen (wi_real_nodes wi)))) as (l & El & Hnd & Hle & Hin & Hcmp);
    [done|done|apply NoDup_singleton|rewrite Zlen_cons, Zlen_nil; lia|].
  exists v, l. split_and!; [done| |done| | |].
  - cbn [picks]. unfold next.
    cbn [pk_shared_instances pk_replicas pk_used pk_last_pick pk_request_hash].
    destruct (is_nil _) eqn:En; [by apply is_nil_spec in En|].
    rewrite bool_decide_eq_false_2 by (rewrite Zlen_nil; lia).
    fold (owner h (wi_virtual_nodes wi)). rewrite Ev. cbn [unwrap mbind outcome_bind].
    change (set_insert (vn_address v) []) with [vn_address v]. by rewrite El.
  - apply Hle. rewrite Zlen_cons, Zlen_nil. lia.
  - intros a [->|Ha]%elem_of_cons; [|by apply Hin].
    apply list_elem_of_fmap. exists v. split; [done|]. by eapply list_elem_of_lookup_2.
  - destruct Hcmp as [Hc|Hc]; [left|by right].
    assert (Zlen ([vn_address v] ++ l) <= Z.min replicas (Zlen (wi_real_nodes wi))) as Hx
      by (apply Hle; rewrite Zlen_cons, Zlen_nil; lia).
    cbn [app] in *. lia.
Qed.
End PickerFacts.

(** * Facts about the ring *)

Section BuildFacts.
Context `{BuildProfile} `{AddrText} `{HashEnv} {E : Type}.

(** A serial padded with leading zeros to [w] digits. *)
Definition padded_serial (w : nat) (i : Z) : bytes :=
  replicate (w - length (dec_of_Z i)) (digit 0) ++ dec_of_Z i.

Lemma dec_digits_acc fuel n acc : dec_digits fuel n acc = dec_digits fuel n [] ++ acc.
Proof.
  revert n acc. induction fuel as [|f IH]; intros n acc; [done|]. cbn.
  case_bool_decide; [done|]. rewrite IH, (IH (n / 10) [digit (n mod 10)]), <- app_assoc. done.
Qed.

(** The digits written from [pos] backwards are the numeral's. *)
Lemma write_serial_spec fuel n pos (pre tl : bytes) :
  0 < n < 10 ^ Z.of_nat fuel -> length pre = pos -> (length (dec_digits fuel n []) <= pos)%nat ->
  write_serial (E := E) (S fuel) n pos (pre ++ tl)
  = Done ((pos - length (dec_digits fuel n []))%nat,
          take (pos - length (dec_digits fuel n [])) pre ++ dec_digits fuel n [] ++ tl).
Proof.
  revert n pos pre tl. induction fuel as [|f IH]; intros n pos pre tl Hn Hpre Hle.
  { change (10 ^ Z.of_nat 0) with 1 in Hn. lia. }
  rewrite Nat2Z.inj_succ, Z.pow_succ_r in Hn by lia.
  pose proof (Z.mod_pos_bound n 10 ltac:(lia)). pose proof (Z.div_mod n 10 ltac:(lia)).
  destruct pre as [|b pre' _] using rev_ind.
  { subst pos. cbn in Hle. revert Hle. cbn [dec_digits].
    case_bool_decide; [cbn; lia|]. rewrite dec_digits_acc, length_app. cbn. lia. }
  rewrite length_app in Hpre. cbn in Hpre. destruct pos as [|pos]; [lia|].
  assert (length pre' = pos) as Hpre' by lia.
  change (write_serial (S (S f)) n (S pos) ((pre' ++ [b]) ++ tl)) with
    (if bool_decide (0 < n) then write_serial (E := E) (S f) (n / 10) pos
       (<[pos := digit (n mod 10)]> ((pre' ++ [b]) ++ tl)) else Done (S pos, (pre' ++ [b]) ++ tl)).
  rewrite bool_decide_eq_true_2 by lia. rewrite <- app_assoc. cbn [app].
  rewrite insert_app_r_alt by lia. rewrite Hpre', Nat.sub_diag. cbn [insert list_insert].
  cbn [dec_digits] in *. case_bool_decide as H10.
  - assert (n / 10 = 0) as -> by (apply Z.div_small; lia). cbn.
    rewrite Nat.sub_0_r. rewrite take_app_length' by done. done.
  - rewrite dec_digits_acc, length_app in *. cbn [length] in *.
    rewrite IH; [|split; [|apply Z.div_lt_upper_bound; lia]|done|lia].
    2: { apply Z.div_str_pos. lia. }
    do 2 f_equal; [lia|]. rewrite <- app_assoc. cbn [app].
    rewrite take_app_le by lia. f_equal. f_equal. lia.
Qed.

Lemma dec_digits_len_le fuel n k :
  0 <= n < 10 ^ Z.of_nat k -> (1 <= k)%nat -> (length (dec_digits fuel n []) <= k)%nat.
Proof.
  revert n k. induction fuel as [|f IH]; intros n k Hn Hk; [cbn; lia|]. cbn [dec_digits].
  case_bool_decide; [done|]. rewrite dec_digits_acc, length_app. cbn [length].
  destruct k as [|k]; [lia|]. rewrite Nat2Z.inj_succ, Z.pow_succ_r in Hn by lia.
  destruct k as [|k]; [change (10 ^ Z.of_nat 0) with 1 in Hn; lia|].
  enough (length (dec_digits f (n / 10) []) <= S k)%nat by lia.
  apply IH; [|lia]. split; [apply Z.div_pos; lia|apply Z.div_lt_upper_bound; lia].
Qed.

Lemma dec_digits_len_gt fuel n :
  0 <= n < 10 ^ Z.of_nat fuel -> n < 10 ^ Zlen (dec_digits fuel n []).
Proof.
  revert n. induction fuel as [|f IH]; intros n Hn; [exact (proj2 Hn)|]. cbn [dec_digits].
  case_bool_decide; [by rewrite Zlen_cons, Zlen_nil|]. rewrite dec_digits_acc, Zlen_app, Zlen_cons, Zlen_nil.
  rewrite Nat2Z.inj_succ, Z.pow_succ_r in Hn by lia.
  pose proof (Zlen_nonneg (dec_digits f (n / 10) [])).
  rewrite Z.pow_add_r by lia. change (10 ^ (1 + 0)) with 10.
  assert (n / 10 < 10 ^ Zlen (dec_digits f (n / 10) [])) as Hd.
  { apply IH. split; [apply Z.div_pos; lia|apply Z.div_lt_upper_bound; lia]. }
  pose proof (Z.div_mod n 10 ltac:(lia)). pose proof (Z.mod_pos_bound n 10 ltac:(lia)). lia.
Qed.

(** A smaller serial has no more digits. *)
Lemma dec_of_Z_len_mono i n :
  0 <= i < n -> (length (dec_of_Z i) <= length (dec_of_Z n))%nat.
Proof.
  intros Hi. apply dec_digits_len_le.
  - assert (n < 10 ^ Zlen (dec_of_Z n)) as Hn.
    { apply dec_digits_len_gt. split; [lia|]. apply log2_digits. lia. }
    unfold Zlen in Hn. lia.
  - destruct (dec_of_Z_shape n ltac:(lia)) as (d & r & _ & ->). cbn. lia.
Qed.

(** One round leaves the address, the mark and the padded serial, whatever
    the round before had left behind the mark. *)
Lemma label_step_spec (addr tl : bytes) i :
  0 <= i -> (1 <= length tl)%nat -> (length (dec_of_Z i) <= length tl)%nat ->
  label_step (E := E) (length addr) i (addr ++ str "#" ++ tl)
  = Done (addr ++ str "#" ++ padded_serial (length tl) i).
Proof.
  intros Hi Hw Hd. unfold label_step.
  assert (length (addr ++ str "#" ++ tl) = S (length addr + length tl))%nat as Hlen
    by (rewrite !length_app; cbn; lia).
  assert (forall r, take (S (length addr)) (addr ++ str "#" ++ r) = addr ++ str "#") as Htk.
  { intros r. rewrite app_assoc. apply take_app_length'. rewrite length_app. cbn. lia. }
  destruct (decide (i = 0)) as [->|Hi0].
  - cbn [write_serial]. rewrite bool_decide_eq_false_2 by lia. cbn [mbind outcome_bind].
    unfold zero_fill, padded_serial. rewrite Htk, Hlen, drop_ge by (rewrite Hlen; lia).
    rewrite app_nil_r, <- app_assoc. do 3 f_equal. change (dec_of_Z 0) with [digit 0].
    cbn [length]. rewrite <- replicate_S_end. f_equal. lia.
  - rewrite <- (app_nil_r (addr ++ str "#" ++ tl)) at 2.
    rewrite write_serial_spec; [|split; [lia|by apply log2_digits]|done|].
    2: { fold (dec_of_Z i). rewrite Hlen. lia. }
    fold (dec_of_Z i). cbn [mbind outcome_bind]. f_equal.
    set (d := length (dec_of_Z i)) in *. rewrite Hlen, app_nil_r. unfold zero_fill, padded_serial.
    set (pos := (S (length addr + length tl) - d)%nat).
    assert (take pos (addr ++ str "#" ++ tl) = addr ++ str "#" ++ take (length tl - d) tl) as Et.
    { unfold pos. rewrite !app_assoc. rewrite take_app_ge; [|rewrite length_app; change (length (str "#")) with 1%nat; lia].
      f_equal. f_equal. rewrite length_app. change (length (str "#")) with 1%nat. lia. }
    rewrite Et, <- !app_assoc, Htk, <- app_assoc. do 2 f_equal. fold d.
    replace (pos - S (length addr))%nat with (length tl - d)%nat by (unfold pos; lia). f_equal.
    rewrite Nat.max_l by (unfold pos; lia). rewrite app_assoc, app_assoc. apply drop_app_length'.
    unfold pos. rewrite !length_app, length_take. change (length (str "#")) with 1%nat. lia.
Qed.

(** The label hashed for serial [i] of [n]: address, mark, padded serial. *)
Definition vnode_label (addr : bytes) (n i : Z) : bytes :=
  addr ++ str "#" ++ padded_serial (length (dec_of_Z n)) i.

Definition vnode (real : Instance) (n i : Z) : VirtualNode :=
  mkVirtualNode real (murmurhash3 (vnode_label (address_to_string (inst_address real)) n i)).

Lemma length_padded_serial w i :
  (length (dec_of_Z i) <= w)%nat -> length (padded_serial w i) = w.
Proof. intros. unfold padded_serial. rewrite length_app, length_replicate. lia. Qed.

Lemma push_vnodes_spec m i n tl real acc :
  0 <= i -> i + Z.of_nat m <= n -> length tl = length (dec_of_Z n) ->
  let addr := address_to_string (inst_address real) in
  push_vnodes (E := E) m i (length addr) (addr ++ str "#" ++ tl) real acc
  = Done (acc ++ (vnode real n <$> seqZ i (Z.of_nat m))).
Proof.
  intros Hi Hm Htl addr. revert i tl acc Hi Hm Htl.
  induction m as [|m IH]; intros i tl acc Hi Hm Htl; cbn [push_vnodes].
  - cbn. by rewrite app_nil_r.
  - assert (length (dec_of_Z i) <= length tl)%nat as Hle
      by (rewrite Htl; apply dec_of_Z_len_mono; lia).
    rewrite label_step_spec; [|done| |done].
    2: { destruct (dec_of_Z_shape i Hi) as (? & ? & _ & E'). rewrite E' in Hle. cbn in Hle. lia. }
    cbn [mbind outcome_bind]. rewrite IH; [|lia|lia|by rewrite length_padded_serial].
    rewrite <- app_assoc. do 2 f_equal.
    rewrite (seqZ_cons i (Z.of_nat (S m))) by lia. cbn [app fmap list_fmap].
    replace (Z.pred (Z.of_nat (S m))) with (Z.of_nat m) by lia.
    rewrite Z.add_1_r. f_equal. unfold vnode, vnode_label. by rewrite Htl.
Qed.

(** An address text with no mark in it ends at the first mark. *)
Lemma sharp_index_app (addr r : bytes) :
  "#"%byte ∉ addr -> sharp_index (addr ++ str "#" ++ r) = length addr.
Proof.
  induction addr as [|b addr IH]; intros Hn; [done|]. cbn [app sharp_index length].
  rewrite not_elem_of_cons in Hn. rewrite bool_decide_eq_false_2 by naive_solver.
  by rewrite IH by naive_solver.
Qed.

(** The virtual nodes of one instance. *)
Definition vnode_count (opt : ConsistentHashOption) (i : Instance) : Z :=
  opt_virtual_factor opt * (if opt_weighted opt then inst_weight i else 1).

Definition vnodes_of (opt : ConsistentHashOption) (i : Instance) : list VirtualNode :=
  vnode i (vnode_count opt i) <$> seqZ 0 (vnode_count opt i).

Definition buildable (opt : ConsistentHashOption) (i : Instance) : Prop :=
  ("#"%byte ∉ address_to_string (inst_address i)) /\ 0 <= vnode_count opt i < 2 ^ 32.

Lemma push_instances_spec opt l reals vns :
  Forall (buildable opt) l ->
  foldM (push_instance (E := E) opt) l (reals, vns)
  = Done (reals ++ l, vns ++ concat (vnodes_of opt <$> l)).
Proof.
  intros Hb. revert reals vns. induction Hb as [|i l [Hsharp Hn] Hl IH]; intros reals vns.
  - cbn. by rewrite !app_nil_r.
  - cbn [foldM push_instance]. fold (vnode_count opt i). rewrite checked_ok by done.
    cbn [mbind outcome_bind]. rewrite sharp_index_app by done.
    rewrite (push_vnodes_spec _ 0 (vnode_count opt i)) by (done || lia).
    cbn [mbind outcome_bind]. rewrite IH, <- !app_assoc. cbn [app fmap list_fmap concat].
    by rewrite Z2Nat.id by lia.
Qed.

Lemma foldM_checked opt l acc :
  opt_weighted opt = true -> Forall (buildable opt) l -> 0 <= acc ->
  acc + Zlen l * 2 ^ 32 < 2 ^ 64 ->
  exists n, foldM (E := E) (fun lhs rhs => n ← checked 32 (inst_weight rhs * opt_virtual_factor opt);
                          checked 64 (lhs + n)) l acc = Done n.
Proof.
  intros Hw Hb. revert acc. induction Hb as [|i l [_ Hn] Hl IH]; intros acc Ha Hm; cbn; [eauto|].
  unfold vnode_count in Hn. rewrite Hw in Hn. rewrite Zlen_cons in Hm. pose proof (Zlen_nonneg l).
  rewrite (checked_ok 32) by lia. cbn [mbind outcome_bind]. rewrite checked_ok by lia.
  cbn [mbind outcome_bind]. apply IH; lia.
Qed.

(** the ring that is built. For instances whose address text has no ['#']
    and whose node counts fit [u32], building succeeds; the ring holds, sorted
    by hash, one virtual node per serial below [factor * weight] of every
    instance, hashed from the address and the serial padded with zeros to the
    width of the count (the buffer reused between serials leaves no trace). *)
Theorem build_ring_spec `{!HashEnvLaws} opt l :
  Forall (buildable opt) l -> 0 <= opt_virtual_factor opt < 2 ^ 32 -> Zlen l < 2 ^ 31 ->
  exists vns, build_weighted_instances (E := E) opt l = Done (mkWeighted l vns) /\
    vns ≡ₚ concat (vnodes_of opt <$> l) /\ Sorted vn_le vns.
Proof.
  intros Hb Hf Hl. pose proof (Zlen_nonneg l). unfold build_weighted_instances.
  assert (exists n, sum_of_nodes (E := E) opt l = Done n) as [n ->].
  { unfold sum_of_nodes. destruct (opt_weighted opt) eqn:Hw; [apply foldM_checked; [done|done|lia|lia]|].
    exists (Zlen l * opt_virtual_factor opt). apply checked_ok. nia. }
  cbn [mbind outcome_bind]. rewrite push_instances_spec by done. cbn [mbind outcome_bind app].
  eexists. split; [done|]. split; [apply sort_perm|apply sort_sorted].
Qed.

(** a ring without nodes. When every instance has weight zero (and
    weights are followed), no virtual node is built although the instances
    are kept, and asking a picker for an address panics. *)
Theorem zero_weight_ring_panics `{!HashEnvLaws} opt l h :
  l <> [] -> opt_weighted opt = true -> 0 < opt_replicas opt ->
  Forall (fun i => inst_weight i = 0) l ->
  exists wi, build_weighted_instances (E := E) opt l = Done wi /\
    next (E := E) (mkPicker wi h None [] (opt_replicas opt)) = Panic.
Proof.
  intros Hl Hw Hr Hz. exists (mkWeighted l (sort_unstable [])).
  assert (sort_unstable [] = []) as Es by (apply Permutation_nil, symmetry, sort_perm).
  split.
  - unfold build_weighted_instances, sum_of_nodes. rewrite Hw.
    assert (foldM (E := E) (fun lhs rhs => n ← checked 32 (inst_weight rhs * opt_virtual_factor opt);
                          checked 64 (lhs + n)) l 0 = Done 0) as ->.
    { clear -Hz. induction Hz as [|i l Hi _ IH]; [done|]. cbn [foldM]. by rewrite Hi. }
    cbn [mbind outcome_bind].
    assert (forall reals vns, foldM (push_instance (E := E) opt) l (reals, vns)
      = Done (reals ++ l, vns)) as ->; [|done].
    clear -Hz Hw. induction Hz as [|i l Hi _ IH]; intros reals vns; [cbn; by rewrite app_nil_r|].
    cbn [foldM push_instance]. rewrite Hw, Hi, Z.mul_0_r. cbn [mbind outcome_bind].
    rewrite checked_ok by done. cbn [mbind outcome_bind].
    change (Z.to_nat 0) with O. cbn [mbind outcome_bind push_vnodes].
    by rewrite IH, <- app_assoc.
  - unfold next. cbn [pk_shared_instances wi_real_nodes wi_virtual_nodes pk_used pk_replicas
      pk_last_pick]. destruct (is_nil l) eqn:En; [by apply is_nil_spec in En|].
    rewrite bool_decide_eq_false_2 by (rewrite Zlen_nil; lia). by rewrite Es.
Qed.
End BuildFacts.
End ConsistentHash.

(** * A concrete ring *)

Module RingExample.
Import ConsistentHash.

#[local] Instance vn_le_dec : RelDecision vn_le := fun a b => Z.le_dec (vn_hash a) (vn_hash b).

#[export] Instance sum_env : HashEnv := {|
  murmurhash3 s := be_decode s mod 1000;
  sort_unstable := merge_sort vn_le;
|}.

#[export] Instance sum_env_laws : HashEnvLaws.
Proof.
  split; intros l.
  - apply merge_sort_Permutation.
  - apply Sorted_merge_sort. intros a b. unfold vn_le. lia.
Qed.

#[local] Instance plain_text : AddrText := {|
  fmt_socket_addr a := match a with
    | SocketAddrV4 ip p => dec_of_Z ip ++ str ":" ++ dec_of_Z p
    | SocketAddrV6 ip p _ _ => dec_of_Z ip ++ str ":" ++ dec_of_Z p end;
  parse_socket_addr _ := None;
  escape_ascii n := n;
  to_string_lossy p := p;
|}.

#[local] Instance checked_profile : BuildProfile := true.

Definition nodes (w : Z) : list Instance :=
  [mkInstance (Ip (SocketAddrV4 1 80)) w ∅; mkInstance (Ip (SocketAddrV4 2 80)) w ∅].

Lemma build_ring_spec_witness :
  exists vns, build_weighted_instances (E := Empty_set) (mkOption 2 6 true) (nodes 2)
      = Done (mkWeighted (nodes 2) vns) /\
    vns ≡ₚ concat (vnodes_of (mkOption 2 6 true) <$> nodes 2) /\ Sorted vn_le vns.
Proof.
  apply (build_ring_spec (mkOption 2 6 true) (nodes 2)); [|done|done].
  repeat constructor; try done; apply (bool_decide_unpack _); by vm_compute.
Defined.

Lemma zero_weight_ring_panics_witness :
  exists wi, build_weighted_instances (E := Empty_set) default_option (nodes 0) = Done wi /\
    next (E := Empty_set) (mkPicker wi 5 None [] 1) = Panic.
Proof.
  apply (zero_weight_ring_panics default_option (nodes 0) 5); [done|done|done|by repeat constructor].
Defined.

Definition ring : WeightedInstances :=
  match build_weighted_instances (E := Empty_set) (mkOption 2 6 true) (nodes 2) with
  | Done wi => wi | _ => mkWeighted [] [] end.

Lemma consistent_picker_spec_witness :
  exists v l, wi_virtual_nodes ring !! owner 400 (wi_virtual_nodes ring) = Some v /\
    picks (E := Empty_set) 3 (mkPicker ring 400 None [] 2) = Done (vn_address v :: l) /\
    NoDup (vn_address v :: l).
Proof.
  destruct (consistent_picker_spec (E := Empty_set) ring 400 2 3)
    as (v & l & Hv & Hp & Hn & _); [vm_compute; discriminate|vm_compute; discriminate|done|cbn; lia|].
  exists v, l. split; [exact Hv|split; [exact Hp|exact Hn]].
Defined.
End RingExample.
