(* ===== verification/LbLayer.v ===== *)
(** The load-balance layer: [volo/src/loadbalance/layer.rs].

    Tries the addresses of a picker until a call succeeds, fails for good, or
    the retries are spent. The inner service, the picker and the conversion of
    errors are parameters, as the layer is generic in them. *)

From S2P Require Import Prelude Net Context Discovery RandomBalance.

Module LbLayer.

Section Layer.
Context {I Req Resp SErr Picker LB : Type} {E : Type}.

(** The inner [Service::call], which may change the context; [retryable] and
    [From<LoadBalanceError>] of its error; the balancer's picker. *)
Variable service : RpcCx I -> Req -> (Resp + SErr) * RpcCx I.
Variable retryable : SErr -> bool.
Variable of_lb : LoadBalanceError -> SErr.
Variable picker_next : Picker -> outcome E (option Address * Picker).
Variable get_picker : LB -> Endpoint -> outcome LoadBalanceError (Picker * LB).

Definition with_address (a : Address) (cx : RpcCx I) : RpcCx I :=
  RpcCx.rpc_info_mut (RpcInfo.callee_mut (Endpoint.set_address a)) cx.

(** The [for] loop over [picker.zip(0..retry + 1)]: the picker is asked
    first, then the range, which has [n] numbers left. *)
Fixpoint try_addresses (n : nat) (p : Picker) (cx : RpcCx I) (req : Req)
  : outcome E ((Resp + SErr) * RpcCx I) :=
  '(o, p) ← picker_next p;
  match o, n with
  | Some addr, S n =>
      let cx := with_address addr cx in
      match service cx req with
      | (inl resp, cx) => Done (inl resp, cx)
      | (inr err, cx) =>
          if negb (retryable err) then Done (inr err, cx) else try_addresses n p cx req
      end
  | _, _ => Done (inr (of_lb LbRetry), cx)
  end.

(** [LoadBalanceService::call]. *)
Definition call (retry : nat) (lb : LB) (cx : RpcCx I) (req : Req)
  : outcome E ((Resp + SErr) * RpcCx I * LB) :=
  match ep_address (ri_callee (cx_rpc_info cx)) with
  | Some _ => Done (service cx req, lb)
  | None =>
      match get_picker lb (ri_callee (cx_rpc_info cx)) with
      | Done (picker, lb) =>
          r ← try_addresses (retry + 1) picker cx req;
          Done (r, lb)
      | Fail err => Done (inr (of_lb err), cx, lb)
      | Panic => Panic
      | OutOfFuel => OutOfFuel
      end
  end.

(** The addresses a picker gives, to its end. *)
Inductive yields : Picker -> list Address -> Prop :=
| yields_nil p p' : picker_next p = Done (None, p') -> yields p []
| yields_cons p a p' l : picker_next p = Done (Some a, p') -> yields p' l -> yields p (a :: l).

(** Retryable failures at each address in turn. *)
Inductive retried (req : Req) : list Address -> RpcCx I -> RpcCx I -> Prop :=
| retried_nil cx : retried req [] cx cx
| retried_cons a l cx err cx1 cx2 :
    service (with_address a cx) req = (inr err, cx1) -> retryable err = true ->
    retried req l cx1 cx2 -> retried req (a :: l) cx cx2.

Lemma try_addresses_spec n p l cx req :
  yields p l ->
  exists pre cx1, retried req pre cx cx1 /\
    ((exists a rest resp cx2, take n l = pre ++ a :: rest /\
        service (with_address a cx1) req = (inl resp, cx2) /\
        try_addresses n p cx req = Done (inl resp, cx2)) \/
     (exists a rest err cx2, take n l = pre ++ a :: rest /\ retryable err = false /\
        service (with_address a cx1) req = (inr err, cx2) /\
        try_addresses n p cx req = Done (inr err, cx2)) \/
     (take n l = pre /\ try_addresses n p cx req = Done (inr (of_lb LbRetry), cx1))).
Proof.
  intros Hy. revert n cx. induction Hy as [p p' Hp|p a p' l Hp Hy IH]; intros n cx.
  - exists [], cx. split; [constructor|]. right; right. rewrite take_nil. split; [done|].
    destruct n; cbn; by rewrite Hp.
  - destruct n as [|n].
    { exists [], cx. split; [constructor|]. right; right. split; [done|]. cbn. by rewrite Hp. }
    cbn [try_addresses]. rewrite Hp. cbn [mbind outcome_bind]. rewrite firstn_cons.
    destruct (service (with_address a cx) req) as [[resp|err] cx1] eqn:Es.
    { exists [], cx. split; [constructor|]. left. exists a, (take n l), resp, cx1. by split_and!. }
    destruct (retryable err) eqn:Er; cbn [negb].
    2: { exists [], cx. split; [constructor|]. right; left. exists a, (take n l), err, cx1. by split_and!. }
    destruct (IH n cx1) as (pre & cx2 & Hre & Hres). exists (a :: pre), cx2.
    split; [by econstructor|].
    destruct Hres as [(b & rest & resp & cx3 & -> & Hs & Ht)|[(b & rest & e & cx3 & -> & Hr & Hs & Ht)|[<- Ht]]].
    + left. by exists b, rest, resp, cx3.
    + right; left. by exists b, rest, e, cx3.
    + right; right. done.
Qed.

(** retries follow the picker. When the callee has no address yet, the
    service is called at the picker's addresses in order, at most [retry + 1]
    of them, each after a retryable failure at all the ones before; the first
    success or final error is the result, and only when the addresses (or the
    retries) are spent is it the retry error. *)
Theorem lb_call_retries retry lb cx req picker lb' l :
  ep_address (ri_callee (cx_rpc_info cx)) = None ->
  get_picker lb (ri_callee (cx_rpc_info cx)) = Done (picker, lb') ->
  yields picker l ->
  exists pre cx1, retried req pre cx cx1 /\ (length pre <= retry + 1)%nat /\
    ((exists a rest resp cx2, l = pre ++ a :: rest /\ (length pre < retry + 1)%nat /\
        service (with_address a cx1) req = (inl resp, cx2) /\
        call retry lb cx req = Done (inl resp, cx2, lb')) \/
     (exists a rest err cx2, l = pre ++ a :: rest /\ (length pre < retry + 1)%nat /\
        retryable err = false /\ service (with_address a cx1) req = (inr err, cx2) /\
        call retry lb cx req = Done (inr err, cx2, lb')) \/
     (pre = take (retry + 1) l /\ call retry lb cx req = Done (inr (of_lb LbRetry), cx1, lb'))).
Proof.
  intros Ha Hp Hy. destruct (try_addresses_spec (retry + 1) picker l cx req Hy)
    as (pre & cx1 & Hre & Hres).
  assert (forall a rest, take (retry + 1) l = pre ++ a :: rest ->
    (length pre < retry + 1)%nat /\ l = pre ++ a :: (rest ++ drop (retry + 1) l)) as Htk.
  { intros a rest E1. split.
    - apply (f_equal length) in E1. rewrite length_take, length_app in E1. cbn [length] in E1. lia.
    - rewrite <- (take_drop (retry + 1) l) at 1. by rewrite E1, <- app_assoc. }
  assert (forall r, try_addresses (retry + 1) picker cx req = Done r ->
    call retry lb cx req = Done (r, lb')) as Hcall.
  { intros r Hr. unfold call. by rewrite Ha, Hp, Hr. }
  exists pre, cx1. split; [done|].
  destruct Hres as [(a & rest & resp & cx2 & E1 & Hs & Ht)|[(a & rest & e & cx2 & E1 & Hr & Hs & Ht)|[E1 Ht]]].
  - destruct (Htk _ _ E1) as [Hlt El]. split; [lia|]. left. eexists a, _, resp, cx2.
    split_and!; [exact El|done|done|by rewrite (Hcall _ Ht)].
  - destruct (Htk _ _ E1) as [Hlt El]. split; [lia|]. right; left. eexists a, _, e, cx2.
    split_and!; [exact El|done|done|done|by rewrite (Hcall _ Ht)].
  - split; [rewrite <- E1, length_take; lia|]. right; right. by rewrite (Hcall _ Ht).
Qed.
End Layer.

(** ** A concrete call *)

Module LbExample.

Definition list_next (p : list Address) : outcome Empty_set (option Address * list Address) :=
  match p with [] => Done (None, []) | a :: p => Done (Some a, p) end.

(** A server that answers at port 3 only. *)
Definition at_port_3 (cx : RpcCx unit) (req : Z) : (Z + unit) * RpcCx unit :=
  match ep_address (ri_callee (cx_rpc_info cx)) with
  | Some (Ip (SocketAddrV4 _ 3)) => (inl (req + 1), cx)
  | _ => (inr tt, cx)
  end.

Definition ports : list Address := Ip <$> [SocketAddrV4 1 1; SocketAddrV4 1 3; SocketAddrV4 1 5].

Definition cx : RpcCx unit := RpcCx.new (RpcInfo.with_role Client) tt.

Lemma lb_call_retries_witness :
  exists pre cx1, retried at_port_3 (fun _ => true) 7 pre cx cx1 /\ (length pre <= 2)%nat.
Proof.
  destruct (lb_call_retries at_port_3 (fun _ => true) (fun _ => tt) list_next
    (fun (lb : unit) _ => Done (ports, lb)) 1 tt cx 7 ports tt ports)
    as (pre & cx1 & Hr & Hl & _); [done|done|repeat econstructor|].
  exists pre, cx1. split; [exact Hr|exact Hl].
Defined.
End LbExample.
End LbLayer.
