(* ===== verification/Multiset.v ===== *)
(** Multisets as lists up to permutation: inclusion by counting, and everything
    a map holds. The connection pools count their connections with it. *)

From S2P Require Import Prelude.

(** * Inclusion, by counting *)

Section Count.
Context {A : Type} `{EqDecision A}.

Definition count (x : A) (l : list A) : nat := length (base.filter (x =.) l).

Lemma count_app x l k : count x (l ++ k) = (count x l + count x k)%nat.
Proof. unfold count. by rewrite filter_app, length_app. Qed.

Lemma count_perm x l k : l ≡ₚ k -> count x l = count x k.
Proof. unfold count. by intros ->. Qed.

Lemma count_cons x y l : count x (y :: l) = (count x [y] + count x l)%nat.
Proof. apply (count_app x [y] l). Qed.

Lemma count_submseteq l k : l ⊆+ k <-> forall x, (count x l <= count x k)%nat.
Proof.
  split.
  - intros (k' & E)%submseteq_Permutation x. rewrite (count_perm x _ _ E), count_app. lia.
  - revert k. induction l as [|y l IH]; intros k Hc; [apply submseteq_nil_l|].
    assert (y ∈ k) as (k' & E)%elem_of_Permutation.
    { specialize (Hc y). unfold count in Hc. rewrite filter_cons_True in Hc by done.
      destruct (base.filter (y =.) k) as [|z m] eqn:E; cbn in Hc; [lia|].
      assert (z ∈ base.filter (y =.) k) as [-> Hz]%list_elem_of_filter by (rewrite E; left). done. }
    rewrite E. apply submseteq_skip, IH. intros x. specialize (Hc x).
    rewrite (count_perm x k _ E), (count_cons x y l), (count_cons x y k') in Hc. lia.
Qed.
End Count.

(** Proves an inclusion of multisets from inclusions and permutations. *)
Ltac mset :=
  apply count_submseteq; let x := fresh "x" in intros x;
  repeat match goal with
  | H : _ ⊆+ _ |- _ => rewrite count_submseteq in H; specialize (H x)
  | H : _ ≡ₚ _ |- _ => apply (count_perm x) in H
  end;
  rewrite ?count_app in *;
  repeat match goal with
  | H : context [count x (?y :: ?l)] |- _ =>
      lazymatch l with [] => fail | _ => rewrite (count_cons x y l) in H end
  | |- context [count x (?y :: ?l)] =>
      lazymatch l with [] => fail | _ => rewrite (count_cons x y l) end
  end;
  change (count x []) with 0%nat in *; lia.

(** * Everything a map holds *)

Section Gather.
Context {A : Type} `{Countable A} {B C : Type} `{EqDecision C} (f : A -> B -> list C).

Definition gather (m : gmap A B) : list C := map_to_list m ≫= uncurry f.

Definition gather_at (k : A) (m : gmap A B) : list C :=
  match m !! k with Some v => f k v | None => [] end.

Lemma gather_delete k m : gather m ≡ₚ gather_at k m ++ gather (delete k m).
Proof.
  unfold gather, gather_at. destruct (m !! k) as [v|] eqn:E.
  - rewrite <- (map_to_list_delete m k v E). done.
  - by rewrite delete_id.
Qed.

Lemma gather_insert k v m : gather (<[k := v]> m) ≡ₚ f k v ++ gather (delete k m).
Proof. rewrite (gather_delete k). unfold gather_at. by rewrite lookup_insert_eq, delete_insert_eq. Qed.

(** A map entry replaced: what is gathered changes by what the entry holds. *)
Lemma gather_update k v extra m :
  f k v ⊆+ extra ++ gather_at k m -> gather (<[k := v]> m) ⊆+ extra ++ gather m.
Proof.
  intros Hs. pose proof (gather_insert k v m). pose proof (gather_delete k m). mset.
Qed.

Lemma gather_insert_None k v m : m !! k = None -> gather (<[k := v]> m) ≡ₚ f k v ++ gather m.
Proof. intros E. by rewrite gather_insert, delete_id. Qed.

Lemma gather_fmap (g : B -> B) m :
  (forall k v, f k (g v) ⊆+ f k v) -> gather (g <$> m) ⊆+ gather m.
Proof.
  intros Hg. induction m as [|k v m Hk IH] using map_ind.
  - by rewrite fmap_empty.
  - rewrite fmap_insert. pose proof (gather_insert_None k v m Hk).
    pose proof (gather_insert_None k (g v) (g <$> m)) as Hi.
    rewrite lookup_fmap, Hk in Hi. specialize (Hi eq_refl). specialize (Hg k v). mset.
Qed.

Lemma gather_filter (P : A * B -> Prop) `{!forall x, Decision (P x)} m :
  gather (base.filter P m) ⊆+ gather m.
Proof.
  induction m as [|k v m Hk IH] using map_ind.
  - by rewrite map_filter_empty.
  - pose proof (gather_insert_None k v m Hk). destruct (decide (P (k, v))) as [Hp|Hp].
    + rewrite map_filter_insert_True by done.
      pose proof (gather_insert_None k v (base.filter P m)) as Hi.
      rewrite map_lookup_filter_None in Hi. specialize (Hi (or_introl Hk)). mset.
    + rewrite map_filter_insert_not' by (congruence || done). mset.
Qed.

(** Two entries of a map are both in what is gathered. *)
Lemma gather_two i j a b m :
  m !! i = Some a -> m !! j = Some b -> i <> j -> f i a ++ f j b ⊆+ gather m.
Proof.
  intros Ha Hb Hij. pose proof (gather_delete i m) as G1. pose proof (gather_delete j (delete i m)) as G2.
  unfold gather_at in *. rewrite Ha in G1. rewrite lookup_delete_ne, Hb in G2 by done. mset.
Qed.

Lemma gather_one i a m : m !! i = Some a -> f i a ⊆+ gather m.
Proof. intros Ha. pose proof (gather_delete i m) as G1. unfold gather_at in *. rewrite Ha in G1. mset. Qed.
End Gather.

Lemma elements_delete `{Countable K} (k : K) (X : gset K) :
  k ∈ X -> elements X ≡ₚ k :: elements (X ∖ {[k]}).
Proof.
  intros Hk. rewrite <- elements_union_singleton by (by intros []%elem_of_difference; set_unfold).
  by rewrite <- union_difference_singleton_L.
Qed.
