(* ===== verification/ThriftPool.v ===== *)
(** The Thrift client's connection pool
    (volo-thrift/src/transport/pool/mod.rs).

    The pool is shared by every call of a client: a state behind a mutex, the
    one-shot channels through which a returned connection reaches a waiting
    caller, and one task per call of [Pool::get]. The operations below are the
    critical sections of the code; [PoolSteps.step] interleaves them. Time is
    in milliseconds. *)

From S2P Require Import Prelude.

(** A marker to identify what version a pooled connection is. *)
Inductive Ver : Type := PingPong | Multiplex.

#[export] Instance ver_eq_dec : EqDecision Ver.
Proof. solve_decision. Defined.

Inductive Reservation (T : Type) : Type :=
| Shared (to_keep to_return : T)
| Unique (t : T).
Arguments Shared {T} to_keep to_return.
Arguments Unique {T} t.

(** The [Poolable] trait. [reusable] asks the connection itself, so its answer
    is an input of the operations that use it; [try_checkout] is given that
    answer. *)
Class Poolable (T : Type) : Type := {
  reserve : T -> Reservation T;
  can_share : T -> bool;
  try_checkout : bool -> T -> option T
}.

(** A ping-pong [ThriftTransport] keeps the trait's default methods. *)
Record PingPongTransport : Type := mkPingPong { pp_id : nat }.

#[export] Instance pingpong_eq_dec : EqDecision PingPongTransport.
Proof. solve_decision. Defined.

#[export] Instance pingpong_poolable : Poolable PingPongTransport :=
  {| reserve t := Unique t; can_share _ := false; try_checkout _ _ := None |}.

(** A multiplex [ThriftTransport] is a handle whose clones share one connection. *)
Record MultiplexTransport : Type := mkMultiplex { mx_id : nat }.

#[export] Instance multiplex_eq_dec : EqDecision MultiplexTransport.
Proof. solve_decision. Defined.

#[export] Instance multiplex_poolable : Poolable MultiplexTransport :=
  {| reserve t := Shared t t;
     can_share _ := true;
     try_checkout healthy t := if healthy then Some t else None |}.

(** * Waiters *)

(** [WaiterList]: a linked hash map from tokens to senders, in insertion
    order; a sender is the name of its channel. *)
Record WaiterList : Type := mkWaiterList { wl_inner : list (Z * nat); wl_counter : Z }.

Module WaiterList.
Definition default : WaiterList := mkWaiterList [] 0.

Definition is_empty (self : WaiterList) : bool := bool_decide (wl_inner self = []).

(** The removed senders and the list without them. *)
Definition remove (index : Z) (self : WaiterList) : list nat * WaiterList :=
  (snd <$> filter (fun w => w.1 = index) (wl_inner self),
   mkWaiterList (filter (fun w => w.1 <> index) (wl_inner self)) (wl_counter self)).

(** The token, the senders replaced by the insertion and the list. *)
Definition insert (sender : nat) (self : WaiterList) : Z * list nat * WaiterList :=
  let index := wl_counter self in
  let '(old, self) := remove index self in
  (index, old,
   mkWaiterList (wl_inner self ++ [(index, sender)]) (wrap 64 (wl_counter self + 1))).
End WaiterList.

(** * The state behind the mutex *)

Record Idle (T : Type) : Type := mkIdle { idle_inner : T; idle_at : Z }.
Arguments mkIdle {T} idle_inner idle_at.
Arguments idle_inner {T} i.
Arguments idle_at {T} i.

Section Pool.
Context {K : Type} `{Countable K} {T : Type} `{Poolable T}.

Record Config : Type := mkConfig { max_idle_per_key : Z; cfg_timeout : Z }.

Definition Config_default : Config := mkConfig 10240 15000.

Record Inner : Type := mkInner {
  in_connecting : gset K;
  in_idle : gmap K (list (Idle T));
  in_waiters : gmap K WaiterList;
  in_timeout : Z;
  in_max_idle_per_key : Z
}.

Definition with_connecting c (s : Inner) : Inner :=
  mkInner c (in_idle s) (in_waiters s) (in_timeout s) (in_max_idle_per_key s).
Definition with_idle i (s : Inner) : Inner :=
  mkInner (in_connecting s) i (in_waiters s) (in_timeout s) (in_max_idle_per_key s).
Definition with_waiters w (s : Inner) : Inner :=
  mkInner (in_connecting s) (in_idle s) w (in_timeout s) (in_max_idle_per_key s).

(** [Pool::new]. *)
Definition Inner_new (cfg : option Config) : Inner :=
  let cfg := default Config_default cfg in
  mkInner ∅ ∅ ∅ (cfg_timeout cfg) (max_idle_per_key cfg).

(** A one-shot channel, from its receiver's side: nothing yet, a value, the
    sender gone without a value, the receiver gone. Each channel is listed
    with the key it was opened for. *)
Inductive Chan : Type :=
| ChOpen
| ChSent (t : T)
| ChTxGone
| ChRxGone.

Abbreviation Chans := (gmap nat (K * Chan)).

(** Dropping a sender. *)
Definition drop_tx (tx : nat) (chans : Chans) : Chans :=
  alter (fun c => match c with (k, ChOpen) => (k, ChTxGone) | _ => c end) tx chans.

Definition drop_txs (txs : list nat) (chans : Chans) : Chans := foldr drop_tx chans txs.

(** Dropping a receiver, with the value it may hold. *)
Definition drop_rx (rx : nat) (chans : Chans) : Chans :=
  alter (fun c => (c.1, ChRxGone)) rx chans.

(** [Sender::is_closed]. *)
Definition is_closed (chans : Chans) (tx : nat) : bool :=
  match chans !! tx with Some (_, ChOpen) => false | _ => true end.

(** [Sender::send]: a receiver of [racing] is dropped just before. *)
Definition send (racing : gset nat) (tx : nat) (t : T) (chans : Chans) : Chans + T :=
  match chans !! tx with
  | Some (k, ChOpen) =>
      if bool_decide (tx ∈ racing) then inr t else inl (<[tx := (k, ChSent t)]> chans)
  | _ => inr t
  end.

(** [Expiration::expires]. *)
Definition expires (now timeout idle_at : Z) : bool :=
  bool_decide (timeout < Z.max 0 (now - idle_at)).

(** [Inner::clear_expired]. *)
Definition clear_expired (now : Z) (self : Inner) : Inner :=
  let keep (e : Idle T) := negb (expires now (in_timeout self) (idle_at e)) in
  let idle := (fun l => base.filter (fun e => keep e = true) l) <$> in_idle self in
  with_idle (base.filter (fun kv => kv.2 <> []) idle) self.

(** The [while] loop of [Inner::put] over the popped waiters: those left, the
    value if it was not sent, the channels. *)
Fixpoint put_waiters {E} (racing : gset nat) (ws : list (Z * nat)) (value : option T)
    (chans : Chans) : outcome E (list (Z * nat) * option T * Chans) :=
  match ws with
  | [] => Done ([], value, chans)
  | (_, waiter) :: ws =>
      if is_closed chans waiter then put_waiters racing ws value chans
      else
        t ← unwrap value;
        let '(value, t) :=
          match reserve t with
          | Shared to_keep to_send => (Some to_keep, to_send)
          | Unique unique => (None, unique)
          end in
        match send racing waiter t chans with
        | inl chans =>
            if bool_decide (is_Some value) then put_waiters racing ws value chans
            else Done (ws, None, chans)
        | inr t => put_waiters racing ws (Some t) (drop_rx waiter chans)
        end
  end.

(** [Inner::put]. *)
Definition put {E} (racing : gset nat) (now : Z) (key : K) (t : T) (s : Inner * Chans)
  : outcome E (Inner * Chans) :=
  let '(self, chans) := s in
  '(value, self, chans) ←
    match in_waiters self !! key with
    | Some waiters =>
        '(ws, value, chans) ← put_waiters racing (wl_inner waiters) (Some t) chans;
        let waiters := mkWaiterList ws (wl_counter waiters) in
        let ws' := if WaiterList.is_empty waiters then delete key (in_waiters self)
                   else <[key := waiters]> (in_waiters self) in
        Done (value, with_waiters ws' self, chans)
    | None => Done (Some t, self, chans)
    end;
  match value with
  | Some t =>
      if can_share t && bool_decide (is_Some (in_idle self !! key)) then Done (self, chans)
      else
        let idle := default [] (in_idle self !! key) in
        let idle := if bool_decide (Zlen idle < in_max_idle_per_key self)
                    then idle ++ [mkIdle t now] else idle in
        Done (with_idle (<[key := idle]> (in_idle self)) self, chans)
  | None => Done (self, chans)
  end.

(** [Inner::connected]: the assertion is compiled in with the debug profile;
    the senders of the cancelled waiters are dropped. *)
Definition connected {E} `{BuildProfile} (key : K) (s : Inner * Chans)
  : outcome E (Inner * Chans) :=
  let '(self, chans) := s in
  let existed := bool_decide (key ∈ in_connecting self) in
  let self := with_connecting (in_connecting self ∖ {[key]}) self in
  if overflow_checks && negb existed then Panic
  else
    let txs := match in_waiters self !! key with
               | Some waiters => snd <$> wl_inner waiters
               | None => []
               end in
    Done (with_waiters (delete key (in_waiters self)) self, drop_txs txs chans).

(** [Drop for Connecting]; [guard] tells whether it refers to the pool. *)
Definition drop_connecting {E} `{BuildProfile} (key : K) (guard : bool) (s : Inner * Chans)
  : outcome E (Inner * Chans) :=
  if guard then connected key s else Done s.

(** [Pool::connecting]: the guard of the [Connecting] it gives, if any. *)
Definition connecting (key : K) (ver : Ver) (self : Inner) : option bool * Inner :=
  match ver with
  | Multiplex =>
      if bool_decide (key ∈ in_connecting self) then (None, self)
      else (Some true, with_connecting ({[key]} ∪ in_connecting self) self)
  | PingPong => (Some false, self)
  end.

(** [Pooled]: the connection a caller holds and whether it refers to the pool. *)
Record Pooled : Type := mkPooled { pl_key : K; pl_t : T; pl_pool : bool }.

(** [Pool::reuse]. *)
Definition reuse (key : K) (value : T) : Pooled := mkPooled key value (negb (can_share value)).

(** [Pool::pooled]: the [Connecting] it consumes is dropped at its end. *)
Definition pooled {E} `{BuildProfile} (racing : gset nat) (now : Z) (key : K) (guard : bool)
    (value : T) (s : Inner * Chans) : outcome E (Pooled * (Inner * Chans)) :=
  match reserve value with
  | Shared to_insert to_return =>
      s ← put racing now key to_insert s;
      s ← connected key s;
      Done (mkPooled key to_return false, s)
  | Unique value =>
      s ← drop_connecting key guard s;
      Done (mkPooled key value true, s)
  end.

(** The first [while] loop of [Pool::get], over shareable connections:
    a clone to return with the list left, or the list for the second loop. *)
Fixpoint fast_path (healthy : T -> bool) (now timeout : Z) (l : list (Idle T))
  : (T * list (Idle T)) + list (Idle T) :=
  match l with
  | [] => inr []
  | e :: rest =>
      if can_share (idle_inner e) then
        if expires now timeout (idle_at e) then fast_path healthy now timeout rest
        else
          match try_checkout (healthy (idle_inner e)) (idle_inner e) with
          | Some conn => inl (conn, mkIdle (idle_inner e) now :: rest)
          | None => inr l
          end
      else inr l
  end.

(** The second loop: the first entry that has not expired, and the rest. *)
Fixpoint pop_idle (now timeout : Z) (l : list (Idle T))
  : option (Idle T) * list (Idle T) :=
  match l with
  | [] => (None, [])
  | entry :: rest =>
      if expires now timeout (idle_at entry) then pop_idle now timeout rest
      else (Some entry, rest)
  end.

(** What the first critical section of [Pool::get] decides. *)
Inductive Looked : Type :=
| LookedReuse (conn : T)
| LookedEntry (entry : Idle T)
| LookedNone.

(** One round of the ['outer] loop of [Pool::get], under the lock. *)
Definition lookup_idle (healthy : T -> bool) (now : Z) (key : K) (self : Inner)
  : Looked * Inner :=
  match in_idle self !! key with
  | None => (LookedNone, self)
  | Some list =>
      match fast_path healthy now (in_timeout self) list with
      | inl (conn, list) => (LookedReuse conn, with_idle (<[key := list]> (in_idle self)) self)
      | inr list =>
          let '(o, list) := pop_idle now (in_timeout self) list in
          let self := with_idle (<[key := list]> (in_idle self)) self in
          match o with
          | Some entry => (LookedEntry entry, self)
          | None => (LookedNone, self)
          end
      end
  end.

(** The second critical section of [Pool::get] with an entry: reserve it. *)
Definition reserve_entry (now : Z) (key : K) (entry : Idle T) (self : Inner) : Pooled * Inner :=
  match reserve (idle_inner entry) with
  | Shared to_reinsert to_return =>
      (reuse key to_return,
       match in_idle self !! key with
       | Some list => with_idle (<[key := list ++ [mkIdle to_reinsert now]]> (in_idle self)) self
       | None => self
       end)
  | Unique unique => (reuse key unique, self)
  end.

(** The second critical section of [Pool::get] without an entry: the caller
    joins the waiters of the key with the channel [tx]. *)
Definition enqueue (key : K) (tx : nat) (s : Inner * Chans) : Z * (Inner * Chans) :=
  let '(self, chans) := s in
  let waiters := default WaiterList.default (in_waiters self !! key) in
  let '(token, replaced, waiters) := WaiterList.insert tx waiters in
  (token, (with_waiters (<[key := waiters]> (in_waiters self)) self,
           drop_txs replaced (<[tx := (key, ChOpen)]> chans))).

(** [Drop for Checkout] when [clean] is still set. *)
Definition drop_checkout (key : K) (token : Z) (s : Inner * Chans) : Inner * Chans :=
  let '(self, chans) := s in
  match in_waiters self !! key with
  | Some waiters =>
      let '(removed, waiters) := WaiterList.remove token waiters in
      (with_waiters (<[key := waiters]> (in_waiters self)) self, drop_txs removed chans)
  | None => s
  end.

(** [Pooled::reuse]; [reusable] is the connection's answer. *)
Definition Pooled_reuse {E} (racing : gset nat) (now : Z) (reusable : bool) (p : Pooled)
    (s : Inner * Chans) : outcome E (Inner * Chans) :=
  if reusable && pl_pool p then put racing now (pl_key p) (pl_t p) s else Done s.
End Pool.
Arguments Inner K {_ _} T.
Arguments Chan T : clear implicits.
Arguments Pooled K T : clear implicits.
Arguments Looked T : clear implicits.
Abbreviation Chans K T := (gmap nat (K * Chan T)).
