(* ===== verification/ThriftPoolSteps.v ===== *)
(** The interleaving of pool users (volo-thrift/src/transport/pool/mod.rs).

    A world is the pool, its channels and the tasks that run [Pool::get],
    each at one of its await or lock points. An event is one task doing what it
    does between two such points, time passing, the idle task running, or a
    task's future being dropped. The answers of the outside (a dial's result,
    whether a connection is healthy) come with the event. *)

From S2P Require Import Prelude ThriftPool.

Section Steps.
Context {K : Type} `{Countable K} {T : Type} `{EqDecision T} `{Poolable T} `{BuildProfile}.

(** A client asks its pool for one version of connections. *)
Context (ver : Ver).

(** The lazy connector of a call: not started, dialling, or waiting for ever
    because another task dials for the key. *)
Inductive Connector : Type :=
| CInit
| CMaking (guard : bool)
| CPending.

(** [select] polls the checkout first, then the connector. *)
Inductive Phase : Type := PWait | PChecked.

Inductive Pc : Type :=
| TLookup
| TCheck (entry : Idle T)
| TReserve (entry : Idle T)
| TEnqueue
| TSelect (rx : nat) (token : Z) (phase : Phase) (c : Connector)
| TClean (rx : nat) (token : Z) (next : Pc)
| TDropConn (guard : bool) (next : Pc)
| THold (p : Pooled K T)
| TBackground (guard : bool)
| TFailed
| TGone.

Record Task : Type := mkTask { tk_key : K; tk_pc : Pc }.

(** [w_orphans] are the receivers about to be dropped; [w_made] is the history
    of the connections dialled, with the key each was dialled for. *)
Record World : Type := mkWorld {
  w_store : Inner K T * Chans K T;
  w_tasks : gmap nat Task;
  w_orphans : gset nat;
  w_now : Z;
  w_made : list (K * T)
}.

Definition init (cfg : option Config) : World := mkWorld (Inner_new cfg, ∅) ∅ ∅ 0 [].

Inductive Event : Type :=
| ESpawn (i : nat) (key : K)
| ETick (d : Z)
| EIdleTask
| ELookup (i : nat) (healthy : T -> bool)
| ECheck (i : nat) (reusable : bool)
| EReserve (i : nat)
| EEnqueue (i rx : nat)
| EPollRx (i j : nat)
| EPollConn (i : nat) (res : option (option T)) (racing : gset nat)
| EBackground (i : nat) (res : option T) (racing : gset nat)
| EDropCheckout (i : nat)
| EDropRx (rx : nat)
| EDropConn (i : nat)
| EReturn (i : nat) (reusable : bool) (racing : gset nat)
| ECancel (i : nat).

(** An event that cannot happen now. *)
Inductive Disabled : Type := disabled.

Definition require (b : bool) : outcome Disabled unit := if b then Done tt else Fail disabled.

Definition get_task (i : nat) (w : World) : outcome Disabled Task :=
  match w_tasks w !! i with Some t => Done t | None => Fail disabled end.

Definition with_store s (w : World) : World :=
  mkWorld s (w_tasks w) (w_orphans w) (w_now w) (w_made w).

Definition set_task (i : nat) (t : Task) (w : World) : World :=
  mkWorld (w_store w) (<[i := t]> (w_tasks w)) (w_orphans w) (w_now w) (w_made w).

Definition set_pc (i : nat) (t : Task) (pc : Pc) (w : World) : World :=
  set_task i (mkTask (tk_key t) pc) w.

Definition add_orphan (rx : nat) (w : World) : World :=
  mkWorld (w_store w) (w_tasks w) ({[rx]} ∪ w_orphans w) (w_now w) (w_made w).

(** A new connection is not one dialled before. *)
Definition dialled (key : K) (t : T) (w : World) : outcome Disabled World :=
  _ ← require (bool_decide (t ∉ (w_made w).*2));
  Done (mkWorld (w_store w) (w_tasks w) (w_orphans w) (w_now w) ((key, t) :: w_made w)).

(** The dial of [key] ends: [None] is its failure. *)
Definition connector_done (racing : gset nat) (key : K) (guard : bool) (res : option T) (w : World)
  : outcome Disabled (option (Pooled K T) * World) :=
  match res with
  | Some t =>
      w ← dialled key t w;
      '(p, s) ← pooled racing (w_now w) key guard t (w_store w);
      Done (Some p, with_store s w)
  | None =>
      s ← drop_connecting key guard (w_store w);
      Done (None, with_store s w)
  end.

(** The connector is polled; [res] is the dial's answer if it is polled. *)
Definition poll_dial (racing : gset nat) (i : nat) (t : Task) (rx : nat) (token : Z) (guard : bool)
    (res : option (option T)) (w : World) : outcome Disabled World :=
  match res with
  | None => Done (set_pc i t (TSelect rx token PWait (CMaking guard)) w)
  | Some r =>
      '(o, w) ← connector_done racing (tk_key t) guard r w;
      let next := match o with Some p => THold p | None => TFailed end in
      Done (set_pc i t (TClean rx token next) w)
  end.

Definition guard_of (c : Connector) : bool :=
  match c with CMaking guard => guard | _ => false end.

Definition racing_ok (racing : gset nat) (w : World) : bool :=
  bool_decide (racing ⊆ w_orphans w).

(** [Either::Left((Ok(v), fut))]: a started connector goes on in the background. *)
Definition spawn_connector (j : nat) (t : Task) (c : Connector) (w : World)
  : outcome Disabled World :=
  match c with
  | CMaking guard =>
      _ ← require (bool_decide (w_tasks w !! j = None));
      Done (set_pc j t (TBackground guard) w)
  | _ => Done w
  end.

Definition step (e : Event) (w : World) : outcome Disabled World :=
  match e with
  | ESpawn i key =>
      _ ← require (bool_decide (w_tasks w !! i = None));
      Done (set_task i (mkTask key TLookup) w)
  | ETick d =>
      _ ← require (bool_decide (0 <= d));
      Done (mkWorld (w_store w) (w_tasks w) (w_orphans w) (w_now w + d) (w_made w))
  | EIdleTask =>
      Done (with_store (clear_expired (w_now w) (w_store w).1, (w_store w).2) w)
  | ELookup i healthy =>
      t ← get_task i w;
      match tk_pc t with
      | TLookup =>
          let '(r, inner) := lookup_idle healthy (w_now w) (tk_key t) (w_store w).1 in
          let pc := match r with
                    | LookedReuse conn => THold (reuse (tk_key t) conn)
                    | LookedEntry entry => TCheck entry
                    | LookedNone => TEnqueue
                    end in
          Done (set_pc i t pc (with_store (inner, (w_store w).2) w))
      | _ => Fail disabled
      end
  | ECheck i reusable =>
      t ← get_task i w;
      match tk_pc t with
      | TCheck entry => Done (set_pc i t (if reusable : bool then TReserve entry else TLookup) w)
      | _ => Fail disabled
      end
  | EReserve i =>
      t ← get_task i w;
      match tk_pc t with
      | TReserve entry =>
          let '(p, inner) := reserve_entry (w_now w) (tk_key t) entry (w_store w).1 in
          Done (set_pc i t (THold p) (with_store (inner, (w_store w).2) w))
      | _ => Fail disabled
      end
  | EEnqueue i rx =>
      t ← get_task i w;
      _ ← require (bool_decide ((w_store w).2 !! rx = None));
      match tk_pc t with
      | TEnqueue =>
          let '(token, s) := enqueue (tk_key t) rx (w_store w) in
          Done (set_pc i t (TSelect rx token PWait CInit) (with_store s w))
      | _ => Fail disabled
      end
  | EPollRx i j =>
      t ← get_task i w;
      match tk_pc t with
      | TSelect rx token PWait c =>
          match (w_store w).2 !! rx with
          | Some (_, ChSent v) =>
              let w := with_store ((w_store w).1, drop_rx rx (w_store w).2) w in
              spawn_connector j t c (set_pc i t (THold (reuse (tk_key t) v)) w)
          | Some (_, ChTxGone) => Done (set_pc i t (TDropConn (guard_of c) TFailed) w)
          | Some (_, ChOpen) => Done (set_pc i t (TSelect rx token PChecked c) w)
          | _ => Fail disabled
          end
      | _ => Fail disabled
      end
  | EPollConn i res racing =>
      t ← get_task i w;
      _ ← require (racing_ok racing w);
      match tk_pc t with
      | TSelect rx token PChecked CInit =>
          let '(o, inner) := connecting (tk_key t) ver (w_store w).1 in
          let w := with_store (inner, (w_store w).2) w in
          match o with
          | Some guard => poll_dial racing i t rx token guard res w
          | None => Done (set_pc i t (TSelect rx token PWait CPending) w)
          end
      | TSelect rx token PChecked (CMaking guard) => poll_dial racing i t rx token guard res w
      | TSelect rx token PChecked CPending => Done (set_pc i t (TSelect rx token PWait CPending) w)
      | _ => Fail disabled
      end
  | EBackground i res racing =>
      t ← get_task i w;
      _ ← require (racing_ok racing w);
      match tk_pc t with
      | TBackground guard =>
          '(_, w) ← connector_done racing (tk_key t) guard res w;
          Done (set_pc i t TGone w)
      | _ => Fail disabled
      end
  | EDropCheckout i =>
      t ← get_task i w;
      match tk_pc t with
      | TClean rx token next =>
          Done (set_pc i t next (add_orphan rx
            (with_store (drop_checkout (tk_key t) token (w_store w)) w)))
      | _ => Fail disabled
      end
  | EDropRx rx =>
      _ ← require (bool_decide (rx ∈ w_orphans w));
      Done (with_store ((w_store w).1, drop_rx rx (w_store w).2) w)
  | EDropConn i =>
      t ← get_task i w;
      match tk_pc t with
      | TDropConn guard next =>
          s ← drop_connecting (tk_key t) guard (w_store w);
          Done (set_pc i t next (with_store s w))
      | _ => Fail disabled
      end
  | EReturn i reusable racing =>
      t ← get_task i w;
      _ ← require (racing_ok racing w);
      match tk_pc t with
      | THold p =>
          s ← Pooled_reuse racing (w_now w) reusable p (w_store w);
          Done (set_pc i t TGone (with_store s w))
      | _ => Fail disabled
      end
  | ECancel i =>
      t ← get_task i w;
      match tk_pc t with
      | TCheck _ | THold _ => Done (set_pc i t TGone w)
      | TSelect rx token PWait c => Done (set_pc i t (TClean rx token (TDropConn (guard_of c) TGone)) w)
      | _ => Fail disabled
      end
  end.

(** A run: the events one after the other. *)
Definition run (es : list Event) (w : World) : outcome Disabled World :=
  foldM (fun w e => step e w) es w.

(** The worlds a pool can reach. *)
Inductive reachable (cfg : option Config) : World -> Prop :=
| reachable_init : reachable cfg (init cfg)
| reachable_step w e w' : reachable cfg w -> step e w = Done w' -> reachable cfg w'.

Lemma reachable_run cfg es w w' : reachable cfg w -> run es w = Done w' -> reachable cfg w'.
Proof.
  revert w. induction es as [|e es IH]; intros w Hw Hr; cbn in Hr; done_inv; eauto using reachable_step.
Qed.
End Steps.
Arguments Pc K T : clear implicits.
Arguments Task K T : clear implicits.
Arguments World K {_ _} T.
Arguments Event K T : clear implicits.

(** Reads the fields of the world an event leads to. *)
Ltac world_cbn :=
  unfold set_pc, set_task, with_store, add_orphan in *;
  cbn [w_store w_tasks w_orphans w_now w_made fst snd] in *.
