(* ===== verification/ThriftPoolSafety.v ===== *)
(** What the Thrift connection pool guarantees
    (volo-thrift/src/transport/pool/mod.rs): a connection is in one place only,
    for the address it was dialled for; at most one shared dial per address is
    under way; the idle lists stay within their limit. *)

From S2P Require Import Prelude Multiset ThriftPool ThriftPoolSteps.

(** A pool of connections that serve one call at a time. *)
Class UniquePool (T : Type) `{Poolable T} : Prop := {
  reserve_unique : forall t, reserve t = Unique t;
  never_shared : forall t, can_share t = false
}.

#[export] Instance pingpong_unique : UniquePool PingPongTransport.
Proof. by split. Qed.

Section Safety.
Context {K : Type} `{Countable K} {T : Type} `{EqDecision T} `{UniquePool T} `{BuildProfile}.

(** * The connections of the store *)

Definition idle_held (k : K) (l : list (Idle T)) : list (K * T) := (fun e => (k, idle_inner e)) <$> l.

Definition chan_held (_ : nat) (c : K * Chan T) : list (K * T) :=
  match c with (k, ChSent t) => [(k, t)] | _ => [] end.

Definition store_conns (s : Inner K T * Chans K T) : list (K * T) :=
  gather idle_held (in_idle s.1) ++ gather chan_held s.2.

Definition key_of (chans : Chans K T) (c : nat) : option K := fst <$> chans !! c.

(** A waiter listed under a key has a channel opened for that key. *)
Definition store_wf (s : Inner K T * Chans K T) : Prop :=
  forall k wl tok c, in_waiters s.1 !! k = Some wl -> (tok, c) ∈ wl_inner wl ->
    key_of s.2 c = Some k.

Definition idle_bounded (self : Inner K T) : Prop :=
  forall k l, in_idle self !! k = Some l -> Zlen l <= Z.max 0 (in_max_idle_per_key self).

(** An operation that is given the connections [inn] and gives out [out]
    creates and duplicates none. *)
Record effect (inn out : list (K * T)) (s s' : Inner K T * Chans K T) : Prop := mkEffect {
  ef_conns : out ++ store_conns s' ⊆+ inn ++ store_conns s;
  ef_keys : forall c k, key_of s.2 c = Some k -> key_of s'.2 c = Some k;
  ef_wf : store_wf s -> store_wf s';
  ef_max : in_max_idle_per_key s'.1 = in_max_idle_per_key s.1;
  ef_idle : idle_bounded s.1 -> idle_bounded s'.1
}.

Lemma effect_refl l s : effect l l s s.
Proof. by split. Qed.

Lemma effect_trans a b c s1 s2 s3 : effect a b s1 s2 -> effect b c s2 s3 -> effect a c s1 s3.
Proof.
  intros [C1 K1 W1 M1 I1] [C2 K2 W2 M2 I2]. split; eauto.
  - by etrans.
  - congruence.
Qed.

(** Only the channels change, and each keeps its key. *)
Lemma effect_chans inn out inner (chans chans' : Chans K T) :
  out ++ gather chan_held chans' ⊆+ inn ++ gather chan_held chans ->
  (forall c, key_of chans' c = key_of chans c) ->
  effect inn out (inner, chans) (inner, chans').
Proof.
  intros Hc Hk. split; cbn [fst snd]; auto.
  - unfold store_conns; cbn [fst snd]. mset.
  - intros c k. by rewrite Hk.
  - intros Hw k wl tok c E1 E2. cbn [fst snd]. rewrite Hk. by eapply Hw.
Qed.

(** Only the waiters change, each left from before. *)
Lemma effect_waiters l inner chans ws :
  (forall k wl tok c, ws !! k = Some wl -> (tok, c) ∈ wl_inner wl ->
     exists wl', in_waiters inner !! k = Some wl' /\ (tok, c) ∈ wl_inner wl') ->
  effect l l (inner, chans) (with_waiters ws inner, chans).
Proof.
  intros Hs. split; auto. intros Hw k wl tok c E1 E2.
  destruct (Hs k wl tok c E1 E2) as (wl' & E3 & E4). by eapply Hw.
Qed.

(** One idle list changes. *)
Lemma effect_idle inn out inner chans k l :
  out ++ idle_held k l ⊆+ inn ++ gather_at idle_held k (in_idle inner) ->
  (idle_bounded inner -> Zlen l <= Z.max 0 (in_max_idle_per_key inner)) ->
  effect inn out (inner, chans) (with_idle (<[k := l]> (in_idle inner)) inner, chans).
Proof.
  intros Hc Hb. split; cbn [fst snd with_idle in_max_idle_per_key]; auto.
  - unfold store_conns; cbn [fst snd with_idle in_idle]. 
    pose proof (gather_insert idle_held k l (in_idle inner)).
    pose proof (gather_delete idle_held k (in_idle inner)). mset.
  - intros Hi k' l'. cbn. destruct (decide (k' = k)) as [->|Hn].
    + rewrite lookup_insert_eq. intros [= <-]. auto.
    + rewrite lookup_insert_ne by done. apply Hi.
Qed.

(** * The effect of each operation *)

(** One channel changes, keeping its key. *)
Lemma effect_chan inn out inner chans c k ch ch' :
  chans !! c = Some (k, ch) ->
  out ++ chan_held c (k, ch') ⊆+ inn ++ chan_held c (k, ch) ->
  effect inn out (inner, chans) (inner, <[c := (k, ch')]> chans).
Proof.
  intros E1 Hs. apply effect_chans.
  - pose proof (gather_insert chan_held c (k, ch') chans).
    pose proof (gather_delete chan_held c chans) as Hd. unfold gather_at in Hd. rewrite E1 in Hd.
    cbn beta iota in Hd. mset.
  - intros d. unfold key_of. destruct (decide (d = c)) as [->|Hn].
    + by rewrite lookup_insert_eq, E1.
    + by rewrite lookup_insert_ne.
Qed.

Lemma effect_drop_tx l inner chans tx : effect l l (inner, chans) (inner, drop_tx tx chans).
Proof.
  unfold drop_tx. rewrite alter_alt. destruct (chans !! tx) as [[k ch]|] eqn:E; [|apply effect_refl].
  destruct ch; eapply effect_chan; eauto.
Qed.

Lemma effect_drop_txs l inner chans txs : effect l l (inner, chans) (inner, drop_txs txs chans).
Proof.
  induction txs as [|tx txs IH]; cbn; [apply effect_refl|].
  eapply effect_trans; [apply IH|apply effect_drop_tx].
Qed.

Lemma effect_drop_rx l inner chans rx : effect l l (inner, chans) (inner, drop_rx rx chans).
Proof.
  unfold drop_rx. rewrite alter_alt. destruct (chans !! rx) as [[k ch]|] eqn:E; [|apply effect_refl].
  eapply effect_chan; [done|]. cbn [chan_held]. mset.
Qed.

(** Receiving from a channel. *)
Lemma effect_receive inner chans rx k t :
  chans !! rx = Some (k, ChSent t) ->
  effect [] [(k, t)] (inner, chans) (inner, drop_rx rx chans).
Proof.
  intros E. unfold drop_rx. rewrite alter_alt, E. by eapply effect_chan.
Qed.

(** The channels of a waiter list are opened for its key. *)
Definition waiters_of (key : K) (chans : Chans K T) (ws : list (Z * nat)) : Prop :=
  Forall (fun w => key_of chans w.2 = Some key) ws.

Lemma put_waiters_effect {E} racing key ws t inner chans :
  waiters_of key chans ws ->
  exists ws' v chans', put_waiters (E := E) racing ws (Some t) chans = Done (ws', v, chans') /\
    ws' `suffix_of` ws /\
    effect [(key, t)] ((key,.) <$> option_list v) (inner, chans) (inner, chans').
Proof.
  revert chans. induction ws as [|[tok c] ws IH]; intros chans Hws.
  { exists [], (Some t), chans. split_and!; [done|done|apply effect_refl]. }
  apply Forall_cons in Hws as [Hc Hws]. cbn [put_waiters snd] in *.
  unfold is_closed, send, key_of in *. destruct (chans !! c) as [[k ch]|] eqn:Ech; [|done].
  injection Hc as ->.
  destruct ch; [|destruct (IH chans Hws) as (ws' & v & chans' & E1 & E2 & E3);
    exists ws', v, chans'; split_and!; [done|by apply suffix_cons_r|done]..].
  cbn [unwrap mbind outcome_bind]. rewrite reserve_unique. case_bool_decide as Hr.
  - destruct (IH (drop_rx c chans)) as (ws' & v & chans' & E1 & E2 & E3).
    { eapply Forall_impl; [exact Hws|]. intros w Hw. by apply (ef_keys _ _ _ _ (effect_drop_rx [] inner chans c)). }
    exists ws', v, chans'. split_and!; [done|by apply suffix_cons_r|].
    eapply effect_trans; [apply effect_drop_rx|exact E3].
  - rewrite bool_decide_eq_false_2 by by intros [].
    eexists ws, None, _. split_and!; [done|by apply suffix_cons_r|]. by eapply effect_chan.
Qed.

Lemma put_effect {E} racing now key t s :
  store_wf s ->
  exists s', put (E := E) racing now key t s = Done s' /\ effect [(key, t)] [] s s' /\
    in_connecting s'.1 = in_connecting s.1.
Proof.
  destruct s as [inner chans]. intros Hw. unfold put.
  assert (exists v ws chans',
    match in_waiters inner !! key with
    | Some waiters =>
        '(ws, value, chans) ← put_waiters racing (wl_inner waiters) (Some t) chans;
        Done (value,
          with_waiters (if WaiterList.is_empty (mkWaiterList ws (wl_counter waiters))
            then delete key (in_waiters inner)
            else <[key := mkWaiterList ws (wl_counter waiters)]> (in_waiters inner)) inner, chans)
    | None => Done (Some t, inner, chans)
    end = Done (E := E) (v, with_waiters ws inner, chans') /\
    effect [(key, t)] ((key,.) <$> option_list v) (inner, chans) (with_waiters ws inner, chans'))
    as (v & ws & chans' & -> & He).
  { destruct (in_waiters inner !! key) as [wl|] eqn:Ek.
    2: { exists (Some t), (in_waiters inner), chans. destruct inner. split; [done|apply effect_refl]. }
    destruct (put_waiters_effect (E := E) racing key (wl_inner wl) t inner chans) as (ws' & v & chans' & -> & Hs & He).
    { apply Forall_forall. intros [tok c] Hin. by eapply Hw. }
    eexists v, _, chans'. split; [done|]. eapply effect_trans; [exact He|]. apply effect_waiters.
    intros k wl' tok c. unfold WaiterList.is_empty. cbn [wl_inner]. case_bool_decide.
    - rewrite lookup_delete_Some. intros [? ?]; eauto.
    - rewrite lookup_insert_Some. intros [[<- <-]|[? ?]]; [|eauto]. cbn. intros Hin.
      exists wl. split; [done|]. destruct Hs as [pre ->]. apply elem_of_app. auto. }
  cbn [mbind outcome_bind]. destruct v as [v|]; cbn [option_list option_rect fmap list_fmap] in He.
  2: { eexists. split; [done|]. split; [done|by destruct inner]. }
  rewrite never_shared. cbn [andb]. eexists. split; [done|]. split; [|by destruct inner].
  eapply effect_trans; [exact He|]. apply effect_idle.
  - unfold gather_at. cbn [app]. case_bool_decide; destruct (in_idle _ !! key) as [l|]; cbn [default id];
      unfold idle_held; rewrite ?fmap_app; cbn [fmap list_fmap idle_inner]; mset.
  - intros Hb. destruct (in_idle (with_waiters ws inner) !! key) as [l|] eqn:El; cbn [default id];
      case_bool_decide; rewrite ?Zlen_app, ?Zlen_cons, ?Zlen_nil in *; [lia|by eapply Hb|lia|lia].
Qed.

Lemma effect_connecting l inner chans c :
  effect l l (inner, chans) (with_connecting c inner, chans).
Proof. by split. Qed.

Lemma connected_effect {E} key s s' :
  connected (E := E) key s = Done s' -> effect [] [] s s'.
Proof.
  destruct s as [inner chans]. unfold connected. destruct (_ && _); [done|]. intros [= <-].
  eapply effect_trans; [apply (effect_connecting _ _ _ (in_connecting inner ∖ {[key]}))|].
  eapply effect_trans; [apply effect_waiters|apply effect_drop_txs].
  intros k wl tok c [_ E1]%lookup_delete_Some. eauto.
Qed.

Lemma drop_connecting_effect {E} key guard s s' :
  drop_connecting (E := E) key guard s = Done s' -> effect [] [] s s'.
Proof.
  destruct guard; cbn; [apply connected_effect|]. intros [= <-]. apply effect_refl.
Qed.

Lemma drop_connecting_idle {E} key guard (s s' : Inner K T * Chans K T) :
  drop_connecting (E := E) key guard s = Done s' -> in_idle s'.1 = in_idle s.1.
Proof.
  destruct s as [inner chans], guard; cbn; [|by intros [= <-]].
  destruct (_ && _); [done|]. by intros [= <-].
Qed.

Lemma effect_frame l inn out s s' : effect inn out s s' -> effect (l ++ inn) (l ++ out) s s'.
Proof. intros [Hc Hk Hw Hm Hi]. split; auto. mset. Qed.

Lemma pooled_effect {E} racing now key guard t s p s' :
  pooled (E := E) racing now key guard t s = Done (p, s') ->
  effect [(key, t)] [(pl_key p, pl_t p)] s s' /\ pl_key p = key.
Proof.
  unfold pooled. rewrite reserve_unique. intros Hp. done_inv.
  split; [|done]. apply (effect_frame [(key, t)]). by eapply drop_connecting_effect.
Qed.

Lemma connecting_effect key ver o inner inner' chans :
  connecting key ver inner = (o, inner') -> effect [] [] (inner, chans) (inner', chans).
Proof.
  destruct ver; cbn; [intros [= <- <-]; apply effect_refl|].
  case_bool_decide; intros [= <- <-]; [apply effect_refl|apply effect_connecting].
Qed.

Lemma clear_expired_effect now inner chans :
  effect [] [] (inner, chans) (clear_expired now inner, chans).
Proof.
  split; cbn [fst snd clear_expired with_idle in_max_idle_per_key]; auto.
  - unfold store_conns. cbn [fst snd clear_expired with_idle in_idle app].
    apply submseteq_skips_r. etrans; [apply gather_filter|]. apply gather_fmap.
    intros k l. by apply fmap_submseteq, sublist_submseteq, sublist_filter.
  - intros Hb k l [Hl _]%map_lookup_filter_Some. cbn. rewrite lookup_fmap_Some in Hl.
    destruct Hl as (l0 & <- & Hl). specialize (Hb _ _ Hl).
    pose proof (length_filter (fun e => negb (expires now (in_timeout inner) (idle_at e)) = true) l0).
    unfold Zlen in *. lia.
Qed.

Lemma pop_idle_sublist now timeout (l : list (Idle T)) o l' :
  pop_idle now timeout l = (o, l') -> option_list o ++ l' `sublist_of` l.
Proof.
  revert o l'. induction l as [|e l IH]; intros o l'; cbn; [intros [= <- <-]; done|].
  destruct (expires _ _ _); [|intros [= <- <-]; done]. intros Hp. by apply sublist_cons, IH.
Qed.

Definition looked_held (key : K) (r : Looked T) : list (K * T) :=
  match r with LookedReuse t => [(key, t)] | LookedEntry e => [(key, idle_inner e)] | LookedNone => [] end.

Lemma lookup_idle_effect healthy now key inner chans r inner' :
  lookup_idle healthy now key inner = (r, inner') ->
  effect [] (looked_held key r) (inner, chans) (inner', chans).
Proof.
  unfold lookup_idle. destruct (in_idle inner !! key) as [l|] eqn:El; [|intros [= <- <-]; apply effect_refl].
  assert (fast_path healthy now (in_timeout inner) l = inr l) as ->.
  { destruct l as [|e l]; cbn; [done|]. by rewrite never_shared. }
  destruct (pop_idle now (in_timeout inner) l) as [o l'] eqn:Ep.
  apply pop_idle_sublist in Ep.
  assert (effect [] ((fun e => (key, idle_inner e)) <$> option_list o) (inner, chans)
    (with_idle (<[key:=l']> (in_idle inner)) inner, chans)) as He.
  { apply effect_idle.
    - unfold gather_at. rewrite El. cbn [app]. unfold idle_held. rewrite <- fmap_app.
      by apply fmap_submseteq, sublist_submseteq.
    - intros Hb. specialize (Hb _ _ El). apply sublist_length in Ep. rewrite length_app in Ep.
      unfold Zlen in *. lia. }
  destruct o; intros [= <- <-]; exact He.
Qed.

Lemma enqueue_effect key tx inner chans token s' :
  chans !! tx = None -> enqueue key tx (inner, chans) = (token, s') ->
  effect [] [] (inner, chans) s' /\ key_of s'.2 tx = Some key.
Proof.
  unfold enqueue. intros Hn. cbn. intros [= <- <-].
  set (chans1 := <[tx := (key, ChOpen)]> chans).
  assert (forall c k, key_of chans c = Some k -> key_of chans1 c = Some k) as Hk.
  { intros c k. unfold chans1, key_of. destruct (decide (c = tx)) as [->|Hne]; [by rewrite Hn|].
    by rewrite lookup_insert_ne. }
  assert (key_of chans1 tx = Some key) as Ht.
  { unfold chans1, key_of. by rewrite lookup_insert_eq. }
  split; [|by apply (ef_keys _ _ _ _ (effect_drop_txs [] inner chans1 _))].
  eapply effect_trans; [|apply effect_drop_txs]. split; auto.
  - unfold store_conns. cbn [fst snd with_waiters in_idle].
    pose proof (gather_insert_None chan_held tx (key, ChOpen) chans Hn) as Hg.
    fold chans1 in Hg. cbn [chan_held app] in *. mset.
  - intros Hw k wl tok c. cbn [fst snd with_waiters in_waiters]. rewrite lookup_insert_Some.
    intros [[<- <-]|[_ E1]] Hin; [|by eapply Hk, Hw]. cbn [wl_inner] in Hin.
    apply elem_of_app in Hin as [[_ Hin]%list_elem_of_filter|[= -> ->]%list_elem_of_singleton]; [|done].
    apply Hk. destruct (in_waiters inner !! key) as [wl|] eqn:Ew; cbn in Hin; [by eapply Hw|].
    by apply elem_of_nil in Hin.
Qed.

Lemma drop_checkout_effect key token s : effect [] [] s (drop_checkout key token s).
Proof.
  destruct s as [inner chans]. unfold drop_checkout.
  destruct (in_waiters inner !! key) as [wl|] eqn:E; [|apply effect_refl]. cbn.
  eapply effect_trans; [apply effect_waiters|apply effect_drop_txs].
  intros k wl' tok c. rewrite lookup_insert_Some. intros [[<- <-]|[? ?]]; [|eauto]. cbn.
  intros [_ Hin]%list_elem_of_filter. eauto.
Qed.

(** * The invariant of the worlds *)

Context (cfg : option Config).

(** The connections a task holds. *)
Fixpoint held (key : K) (pc : Pc K T) : list (K * T) :=
  match pc with
  | TCheck e | TReserve e => [(key, idle_inner e)]
  | THold p => [(pl_key p, pl_t p)]
  | TClean _ _ next | TDropConn _ next => held key next
  | _ => []
  end.

Definition task_held (_ : nat) (t : Task K T) : list (K * T) := held (tk_key t) (tk_pc t).

Definition world_conns (w : World K T) : list (K * T) :=
  store_conns (w_store w) ++ gather task_held (w_tasks w).

(** A task waits on a channel of its key and holds a connection of its key. *)
Fixpoint pc_ok (chans : Chans K T) (key : K) (pc : Pc K T) : Prop :=
  match pc with
  | TSelect rx _ _ _ => key_of chans rx = Some key
  | THold p => pl_key p = key
  | TClean _ _ next | TDropConn _ next => pc_ok chans key next
  | _ => True
  end.

Lemma pc_ok_mono chans chans' key pc :
  (forall c k, key_of chans c = Some k -> key_of chans' c = Some k) ->
  pc_ok chans key pc -> pc_ok chans' key pc.
Proof. intros Hk. induction pc; cbn; auto. Qed.

Record Inv (w : World K T) : Prop := mkInv {
  inv_conns : world_conns w ⊆+ w_made w;
  inv_made : NoDup (w_made w).*2;
  inv_wf : store_wf (w_store w);
  inv_tasks : forall i t, w_tasks w !! i = Some t -> pc_ok (w_store w).2 (tk_key t) (tk_pc t);
  inv_idle : idle_bounded (w_store w).1;
  inv_max : in_max_idle_per_key (w_store w).1 = max_idle_per_key (default Config_default cfg)
}.

(** A task moves to [pc] while the store changes from [w_store w] to [s]. *)
Lemma inv_move inn out fresh orphans now i key pc s w :
  Inv w -> effect inn out (w_store w) s ->
  inn ⊆+ fresh ++ gather_at task_held i (w_tasks w) ->
  held key pc ⊆+ out ->
  NoDup (fresh ++ w_made w).*2 -> pc_ok s.2 key pc ->
  Inv (mkWorld s (<[i := mkTask key pc]> (w_tasks w)) orphans now (fresh ++ w_made w)).
Proof.
  intros [Hc Hm Hw Ht Hi Hx] [Ec Ek Ew Em Ei] Hin Hout Hnd Hok. split; cbn [w_store w_tasks w_made]; auto.
  - unfold world_conns in *. cbn [w_store w_tasks].
    pose proof (gather_insert task_held i (mkTask key pc) (w_tasks w)) as G1.
    pose proof (gather_delete task_held i (w_tasks w)) as G2.
    change (task_held i (mkTask key pc)) with (held key pc) in G1. mset.
  - intros j t. rewrite lookup_insert_Some. intros [[<- <-]|[_ E]]; [done|].
    eapply pc_ok_mono; eauto.
  - congruence.
Qed.

(** Only the store changes. *)
Lemma inv_store orphans now s w :
  Inv w -> effect [] [] (w_store w) s ->
  Inv (mkWorld s (w_tasks w) orphans now (w_made w)).
Proof.
  intros [Hc Hm Hw Ht Hi Hx] [Ec Ek Ew Em Ei]. split; cbn [w_store w_tasks w_made]; auto.
  - unfold world_conns in *. cbn [w_store w_tasks]. mset.
  - intros j t E. eapply pc_ok_mono; eauto.
  - congruence.
Qed.

Lemma inv_init : Inv (init cfg).
Proof.
  split; cbn; try done. constructor.
Qed.

(** * Every event preserves it *)

Lemma get_task_inv i (w : World K T) t : get_task i w = Done t -> w_tasks w !! i = Some t.
Proof. unfold get_task. destruct (w_tasks w !! i); congruence. Qed.

Lemma require_inv b u : require b = Done u -> b = true.
Proof. by destruct b. Qed.

Lemma held_at i t (w : World K T) :
  w_tasks w !! i = Some t -> gather_at task_held i (w_tasks w) = held (tk_key t) (tk_pc t).
Proof. unfold gather_at. by intros ->. Qed.

(** A task moves without the store changing, holding no more than before. *)
Lemma inv_move_pc orphans now i t pc w :
  Inv w -> w_tasks w !! i = Some t ->
  held (tk_key t) pc ⊆+ held (tk_key t) (tk_pc t) ->
  pc_ok (w_store w).2 (tk_key t) pc ->
  Inv (mkWorld (w_store w) (<[i := mkTask (tk_key t) pc]> (w_tasks w)) orphans now (w_made w)).
Proof.
  intros Hw Et Hh Hok.
  eapply (inv_move (held (tk_key t) (tk_pc t)) (held (tk_key t) (tk_pc t)) []);
    eauto using effect_refl, inv_made.
  by rewrite (held_at _ _ _ Et).
Qed.

(** A task gives nothing to the store and takes [held pc] from it. *)
Lemma inv_take out orphans now i t pc s w :
  Inv w -> w_tasks w !! i = Some t -> effect [] out (w_store w) s ->
  held (tk_key t) pc ⊆+ out ++ held (tk_key t) (tk_pc t) -> pc_ok s.2 (tk_key t) pc ->
  Inv (mkWorld s (<[i := mkTask (tk_key t) pc]> (w_tasks w)) orphans now (w_made w)).
Proof.
  intros Hw Et He Hh Hok.
  eapply (inv_move (held (tk_key t) (tk_pc t)) (held (tk_key t) (tk_pc t) ++ out) []); eauto using inv_made.
  - rewrite <- (app_nil_r (held (tk_key t) (tk_pc t))) at 1. by apply effect_frame.
  - by rewrite (held_at _ _ _ Et).
  - mset.
Qed.

(** A new task that holds nothing. *)
Lemma inv_new_task i key pc w :
  Inv w -> held key pc = [] -> pc_ok (w_store w).2 key pc -> Inv (set_task i (mkTask key pc) w).
Proof.
  intros Hw Hh Hok. eapply (inv_move [] [] []); eauto using effect_refl, inv_made.
  - apply submseteq_nil_l.
  - by rewrite Hh.
Qed.

Lemma connector_done_inv racing key guard res w o w' :
  Inv w -> connector_done racing key guard res w = Done (o, w') ->
  exists fresh s, w' = mkWorld s (w_tasks w) (w_orphans w) (w_now w) (fresh ++ w_made w) /\
    NoDup (fresh ++ w_made w).*2 /\
    effect fresh (match o with Some p => [(pl_key p, pl_t p)] | None => [] end) (w_store w) s /\
    match o with Some p => pl_key p = key | None => True end.
Proof.
  intros Hw. unfold connector_done, dialled. destruct res as [t|]; intros Hd; done_inv.
  - match goal with H : require _ = _ |- _ => apply require_inv, bool_decide_eq_true in H end.
    match goal with H : pooled _ _ _ _ _ _ = _ |- _ => apply pooled_effect in H as [He Hk] end.
    eexists [(key, t)], _. split_and!; [done| |exact He|done].
    cbn. constructor; [done|apply Hw].
  - eexists [], _. split_and!; [done|apply Hw| |done]. by eapply drop_connecting_effect.
Qed.

Lemma poll_dial_inv racing i t rx token guard res w w' :
  Inv w -> w_tasks w !! i = Some t -> held (tk_key t) (tk_pc t) = [] ->
  key_of (w_store w).2 rx = Some (tk_key t) ->
  poll_dial racing i t rx token guard res w = Done w' -> Inv w'.
Proof.
  intros Hw Et Hh Hrx. unfold poll_dial. destruct res as [r|]; intros Hp; done_inv.
  - match goal with H : connector_done _ _ _ _ _ = _ |- _ =>
      apply connector_done_inv in H as (fresh & s & -> & Hnd & He & Hk); [|done] end.
    match goal with |- context [match ?o with Some _ => _ | None => TFailed end] => destruct o end;
    world_cbn; eapply (inv_move _ _ fresh); eauto; rewrite (held_at _ _ _ Et), Hh; by rewrite app_nil_r.
  - world_cbn. apply inv_move_pc; [done|done|cbn; apply submseteq_nil_l|done].
Qed.

(** Reads the guards of an event. *)
Ltac event_inv :=
  done_inv;
  repeat match goal with
  | H : get_task _ _ = Done _ |- _ => apply get_task_inv in H
  | H : require _ = Done _ |- _ => apply require_inv in H
  | H : match tk_pc ?t with _ => _ end = Done _ |- _ => destruct (tk_pc t) eqn:?; try discriminate H
  end; done_inv.

Ltac held_pc :=
  match goal with E : tk_pc _ = _ |- _ => rewrite E end; cbn; try mset; try apply submseteq_nil_l.

Lemma store_eta (s : Inner K T * Chans K T) : s = (s.1, s.2).
Proof. by destruct s. Qed.

Lemma poll_rx_inv ver i j w w' : Inv w -> step ver (EPollRx i j) w = Done w' -> Inv w'.
Proof.
  intros Hw. cbn [step]. intros Hs. event_inv.
  match goal with H : w_tasks w !! i = Some ?t |- _ => rename H into Et, t into t0 end.
  assert (key_of (w_store w).2 rx = Some (tk_key t0)) as Hk.
  { pose proof (inv_tasks w Hw _ _ Et) as Ht. by rewrite Heqp in Ht. }
  destruct phase; [|done]. destruct ((w_store w).2 !! rx) as [[k ch]|] eqn:Ech; [|done].
  unfold key_of in Hk. rewrite Ech in Hk. injection Hk as ->. destruct ch; done_inv; try done.
  - world_cbn. apply inv_move_pc; [done|done|held_pc|]. cbn. unfold key_of. by rewrite Ech.
  - assert (Inv (set_pc i t0 (THold (reuse (tk_key t0) t))
      (with_store ((w_store w).1, drop_rx rx (w_store w).2) w))) as Hi.
    { world_cbn. eapply (inv_take [(tk_key t0, t)]); [done|done| |held_pc|done].
      rewrite (store_eta (w_store w)) at 1. by apply effect_receive. }
    unfold spawn_connector in Hs. destruct c; [by done_inv| |by done_inv]. event_inv.
    by apply inv_new_task.
  - world_cbn. apply inv_move_pc; [done|done|held_pc|done].
Qed.

Lemma poll_conn_inv ver i res racing w w' :
  Inv w -> step ver (EPollConn i res racing) w = Done w' -> Inv w'.
Proof.
  intros Hw. cbn [step]. intros Hs. event_inv.
  match goal with H : w_tasks w !! i = Some ?t |- _ => rename H into Et, t into t0 end.
  pose proof (inv_tasks w Hw _ _ Et) as Hk. rewrite Heqp in Hk. cbn in Hk.
  destruct phase; [done|]. destruct c as [|guard|].
  - destruct (connecting _ _ _) as [o inner'] eqn:Ec.
    assert (effect [] [] (w_store w) (inner', (w_store w).2)) as He.
    { rewrite (store_eta (w_store w)) at 1. by eapply connecting_effect. }
    assert (Inv (with_store (inner', (w_store w).2) w)) as Hi by by apply inv_store.
    destruct o as [guard|]; [eapply poll_dial_inv; [exact Hi|exact Et| |done|exact Hs]; by rewrite Heqp|].
    done_inv. world_cbn. eapply (inv_take []); [done|done|exact He|held_pc|done].
  - eapply poll_dial_inv; eauto. by rewrite Heqp.
  - done_inv. world_cbn. apply inv_move_pc; [done|done|held_pc|done].
Qed.

Lemma step_inv ver e w w' : Inv w -> step ver e w = Done w' -> Inv w'.
Proof.
  intros Hw. destruct e; try (by apply poll_rx_inv || apply poll_conn_inv);
    cbn [step]; intros Hs; event_inv; world_cbn.
  - by apply inv_new_task.
  - by apply inv_store, effect_refl.
  - apply inv_store; [done|]. rewrite (store_eta (w_store w)) at 1. apply clear_expired_effect.
  - destruct (lookup_idle _ _ _ _) as [r inner'] eqn:El. done_inv. world_cbn.
    eapply (inv_take (looked_held _ r)); [done|done| |by destruct r; held_pc|by destruct r].
    rewrite (store_eta (w_store w)) at 1. by eapply lookup_idle_effect.
  - apply inv_move_pc; [done|done|destruct reusable; held_pc|by destruct reusable].
  - unfold reserve_entry in Hs. rewrite reserve_unique in Hs. done_inv. world_cbn.
    apply (inv_take []); [done|done| |held_pc|done].
    rewrite <- store_eta. apply effect_refl.
  - destruct (enqueue _ _ _) as [token s] eqn:Ee. rewrite (store_eta (w_store w)) in Ee.
    match goal with H : bool_decide _ = true |- _ => apply bool_decide_eq_true in H end.
    apply enqueue_effect in Ee as [He Hk]; [|done]. done_inv. world_cbn.
    apply (inv_take []); [done|done|by rewrite (store_eta (w_store w))|held_pc|done].
  - match goal with H : connector_done _ _ _ _ _ = _ |- _ =>
      apply connector_done_inv in H as (fresh & s & -> & Hnd & He & Hk); [|done] end.
    world_cbn. eapply (inv_move fresh _ fresh); [done|exact He| |apply submseteq_nil_l|done|done].
    mset.
  - match goal with H : w_tasks w !! i = Some ?t |- _ => pose proof (inv_tasks w Hw _ _ H) as Hk end.
    rewrite Heqp in Hk. cbn in Hk.
    apply (inv_take []); [done|done|apply drop_checkout_effect|held_pc|].
    eapply pc_ok_mono; [|exact Hk]. apply (ef_keys [] []), drop_checkout_effect.
  - apply inv_store; [done|]. rewrite (store_eta (w_store w)) at 1. apply effect_drop_rx.
  - match goal with H : w_tasks w !! i = Some ?t |- _ => pose proof (inv_tasks w Hw _ _ H) as Hk end.
    rewrite Heqp in Hk. cbn in Hk.
    match goal with H : drop_connecting _ _ _ = _ |- _ => apply drop_connecting_effect in H as He end.
    apply (inv_take []); [done|done|done|held_pc|]. eapply pc_ok_mono; [|exact Hk]. apply (ef_keys [] []), He.
  - match goal with H : w_tasks w !! i = Some ?t |- _ => rename H into Et end.
    unfold Pooled_reuse in *. destruct (reusable && pl_pool p); done_inv.
    + destruct (put_effect (E := Disabled) racing (w_now w) (pl_key p) (pl_t p) (w_store w) (inv_wf w Hw))
        as (s & Hp & He & _).
      match goal with H : put _ _ _ _ _ = Done _ |- _ => rewrite Hp in H; injection H as <- end.
      eapply (inv_move [(pl_key p, pl_t p)] [] []); eauto using inv_made; [|done].
      rewrite (held_at _ _ _ Et). by held_pc.
    + apply inv_move_pc; [done|done|held_pc|done].
  - apply inv_move_pc; [done|done|held_pc|done].
  - destruct phase; done_inv. world_cbn. apply inv_move_pc; [done|done|held_pc|done].
  - apply inv_move_pc; [done|done|held_pc|done].
Qed.

Lemma reachable_inv ver w : reachable ver cfg w -> Inv w.
Proof. induction 1; eauto using inv_init, step_inv. Qed.

(** The call of task [i] to [key] holds the connection [c]. *)
Definition holds (w : World K T) (i : nat) (key : K) (c : T) : Prop :=
  exists p, w_tasks w !! i = Some (mkTask key (THold p)) /\ pl_t p = c.

(** Two holders of one connection do not both fit in the history. *)
Lemma held_once w x y : Inv w -> [x; y] ⊆+ world_conns w -> x.2 <> y.2.
Proof.
  intros Hw Hl Hxy. assert ([x; y] ⊆+ w_made w) as Hs by (etrans; [exact Hl|apply Hw]).
  apply (fmap_submseteq snd), submseteq_Permutation in Hs as (k & E).
  pose proof (inv_made w Hw) as Hnd. rewrite E in Hnd. cbn in Hnd. rewrite Hxy in Hnd.
  apply NoDup_cons in Hnd as [Hn _]. apply Hn. left.
Qed.

(** C3: Exclusive use of connections that serve one call at a time, as the
    ping-pong transports do (multiplexed ones are shared by design): in every
    reachable world of a pool of such connections, whatever the interleaving
    of calls, returns, cancellations, time-outs and dials, the connection a
    call holds was dialled for the address of that call, is held by no other
    call and is not in an idle list, so that nobody can be given it. *)
Theorem pool_exclusive ver w i key c :
  reachable ver cfg w -> holds w i key c ->
  (key, c) ∈ w_made w /\
  (forall j key' c', holds w j key' c' -> c' = c -> j = i) /\
  (forall k l e, in_idle (w_store w).1 !! k = Some l -> e ∈ l -> idle_inner e <> c).
Proof.
  intros Hr (p & Et & <-). pose proof (reachable_inv _ _ Hr) as Hw.
  assert (pl_key p = key) as Hk by apply (inv_tasks w Hw _ _ Et).
  pose proof (gather_one task_held _ _ _ Et) as Hg. cbn [task_held held tk_key tk_pc] in Hg. rewrite Hk in Hg.
  split_and!.
  - eapply (elem_of_submseteq [(key, pl_t p)]); [left|].
    etrans; [|apply Hw]. unfold world_conns. mset.
  - intros j key' c' (p' & Et' & <-) Hc. destruct (decide (j = i)) as [|Hne]; [done|exfalso].
    pose proof (gather_two task_held _ _ _ _ _ Et' Et Hne) as Hg2. cbn [task_held held tk_key tk_pc app] in Hg2.
    rewrite Hk in Hg2.
    apply (held_once w (pl_key p', pl_t p') (key, pl_t p) Hw); [|exact Hc]. unfold world_conns. mset.
  - intros k l e El He Hc. apply list_elem_of_split in He as (l1 & l2 & ->).
    pose proof (gather_one idle_held _ _ _ El) as Hi.
    unfold idle_held at 1 in Hi. rewrite fmap_app, fmap_cons in Hi. unfold world_conns, store_conns in *.
    apply (held_once w (k, idle_inner e) (key, pl_t p) Hw); [|exact Hc]. unfold world_conns, store_conns. mset.
Qed.

(** A background dial is wasted: when a call was served by a waiter while its
    own dial was under way, the dial goes on in the background, and the
    connection it makes is neither pooled nor given to anybody. *)
Theorem background_dial_dropped ver w i t racing w' :
  reachable ver cfg w -> step ver (EBackground i (Some t) racing) w = Done w' ->
  t ∈ (w_made w').*2 /\ (t ∉ (world_conns w').*2) /\ in_idle (w_store w').1 = in_idle (w_store w).1.
Proof.
  intros Hr Hs. pose proof (reachable_inv _ _ Hr) as Hw. cbn [step] in Hs. event_inv.
  match goal with H : connector_done _ _ _ _ _ = _ |- _ => unfold connector_done, dialled in H end.
  event_inv. world_cbn.
  match goal with H : bool_decide _ = true |- _ => apply bool_decide_eq_true in H as Hf end.
  match goal with H : pooled _ _ _ _ _ _ = _ |- _ =>
    pose proof (proj1 (pooled_effect _ _ _ _ _ _ _ _ H)) as He;
    unfold pooled in H; rewrite reserve_unique in H end. done_inv.
  cbn [pl_key pl_t] in He.
  split_and!; [left| |by eapply drop_connecting_idle].
  intros Hin. apply Hf. eapply elem_of_submseteq; [exact Hin|]. apply fmap_submseteq.
  etrans; [|apply Hw]. unfold world_conns. cbn [w_store w_tasks].
  pose proof (ef_conns _ _ _ _ He) as Hc.
  match goal with |- context [<[i := ?u]> _] =>
    pose proof (gather_insert task_held i u (w_tasks w)) as G1; change (task_held i u) with (@nil (K * T)) in G1 end.
  pose proof (gather_delete task_held i (w_tasks w)) as G2. mset.
Qed.

(** The idle connections of an address never exceed [max_idle_per_key]. *)
Theorem pool_idle_limit ver (w : World K T) k l :
  reachable ver cfg w -> in_idle (w_store w).1 !! k = Some l ->
  Zlen l <= Z.max 0 (max_idle_per_key (default Config_default cfg)).
Proof.
  intros Hr El. pose proof (reachable_inv _ _ Hr) as Hw. rewrite <- (inv_max w Hw).
  by eapply (inv_idle w Hw).
Qed.
End Safety.
