(* ===== verification/ThriftPoolDials.v ===== *)
(** Dials of the Thrift connection pool (volo-thrift/src/transport/pool/mod.rs):
    the [connecting] set holds exactly the addresses a task is dialling for, so
    that a shared connection is dialled once at a time and the assertion of
    [Inner::connected] never fails. *)

From S2P Require Import Prelude Multiset ThriftPool ThriftPoolSteps ThriftPoolSafety.

Section Dials.
Context {K : Type} `{Countable K} {T : Type} `{EqDecision T} `{Poolable T} `{BuildProfile}.
Context (ver : Ver).

(** Connections that are shared are asked for as [Ver::Multiplex]. *)
Hypothesis shared_multiplex : forall t a b, reserve (T := T) t = Shared a b -> ver = Multiplex.

Definition guarded : bool := bool_decide (ver = Multiplex).

(** The keys whose [connecting] flag a task has set and not yet cleared. *)
Fixpoint guards (key : K) (pc : Pc K T) : list K :=
  match pc with
  | TSelect _ _ _ (CMaking true) | TBackground true => [key]
  | TClean _ _ next => guards key next
  | TDropConn guard next => (if guard : bool then [key] else []) ++ guards key next
  | _ => []
  end.

Definition task_guards (_ : nat) (t : Task K T) : list K := guards (tk_key t) (tk_pc t).

(** A dial carries a guard exactly when the pool asks for multiplex connections. *)
Fixpoint dial_ok (pc : Pc K T) : Prop :=
  match pc with
  | TSelect _ _ _ (CMaking guard) | TBackground guard => guard = guarded
  | TClean _ _ next => dial_ok next
  | TDropConn _ next => dial_ok next
  | _ => True
  end.

Record DialInv (w : World K T) : Prop := mkDialInv {
  di_guards : gather task_guards (w_tasks w) ≡ₚ elements (in_connecting (w_store w).1);
  di_ok : forall i t, w_tasks w !! i = Some t -> dial_ok (tk_pc t)
}.

Lemma put_waiters_total {E} racing ws (t : T) (chans : Chans K T) :
  exists r, put_waiters (E := E) racing ws (Some t) chans = Done r.
Proof.
  revert t chans. induction ws as [|[tok c] ws IH]; intros t chans; cbn [put_waiters]; [eauto|].
  destruct (is_closed chans c); [apply IH|]. cbn [unwrap mbind outcome_bind].
  destruct (reserve t) as [a b|u]; destruct (send racing c _ chans); try apply IH.
  rewrite bool_decide_eq_false_2 by by intros []. eauto.
Qed.

Lemma put_total {E} racing now key (t : T) (s : Inner K T * Chans K T) :
  exists s', put (E := E) racing now key t s = Done s' /\ in_connecting s'.1 = in_connecting s.1.
Proof.
  destruct s as [inner chans]. unfold put.
  destruct (in_waiters inner !! key) as [wl|]; [destruct (put_waiters_total (E := E) racing (wl_inner wl) t chans)
    as [[[ws v] chans'] ->]; cbn [mbind outcome_bind]; destruct v as [v|]|]; cbn [mbind outcome_bind];
    try destruct (_ && _); eexists; (split; [done|]); by destruct inner.
Qed.

Lemma connected_total {E} key (s : Inner K T * Chans K T) :
  key ∈ in_connecting s.1 ->
  exists s', connected (E := E) key s = Done s' /\
    in_connecting s'.1 = in_connecting s.1 ∖ {[key]}.
Proof.
  destruct s as [inner chans]. cbn [fst]. intros Hk. unfold connected.
  rewrite bool_decide_eq_true_2 by done. rewrite andb_false_r. eexists. split; [done|]. done.
Qed.

(** The flags after the guard of [key] is dropped. *)
Definition released (guard : bool) (key : K) (c : gset K) : gset K :=
  if guard then c ∖ {[key]} else c.

Lemma drop_connecting_total {E} key guard (s : Inner K T * Chans K T) :
  (guard = true -> key ∈ in_connecting s.1) ->
  exists s', drop_connecting (E := E) key guard s = Done s' /\
    in_connecting s'.1 = released guard key (in_connecting s.1).
Proof.
  destruct guard; cbn; [intros Hk; apply connected_total; auto|eauto].
Qed.

Lemma pooled_total {E} racing now key guard t (s : Inner K T * Chans K T) :
  guard = guarded -> (guard = true -> key ∈ in_connecting s.1) ->
  exists p s', pooled (E := E) racing now key guard t s = Done (p, s') /\
    in_connecting s'.1 = released guard key (in_connecting s.1).
Proof.
  intros Hg Hk. unfold pooled. destruct (reserve t) as [a b|u] eqn:Er.
  - assert (guard = true) as ->.
    { rewrite Hg. unfold guarded. apply bool_decide_eq_true_2. by eapply shared_multiplex. }
    destruct (put_total (E := E) racing now key a s) as (s1 & -> & E1). cbn [mbind outcome_bind].
    destruct (connected_total (E := E) key s1) as (s2 & -> & E2); [rewrite E1; auto|].
    eexists _, s2. split; [done|]. by rewrite E2, E1.
  - destruct (drop_connecting_total (E := E) key guard s Hk) as (s1 & -> & E1). eexists _, s1. done.
Qed.

(** * Every event *)

(** The event did not panic, and the world it leads to is well guarded. *)
Definition safe (m : outcome Disabled (World K T)) : Prop :=
  match m with Done w => DialInv w | Fail _ => True | _ => False end.

Lemma guards_at i t (w : World K T) :
  w_tasks w !! i = Some t -> gather_at task_guards i (w_tasks w) = guards (tk_key t) (tk_pc t).
Proof. unfold gather_at. by intros ->. Qed.

Lemma guard_flag w i t k :
  DialInv w -> w_tasks w !! i = Some t -> k ∈ guards (tk_key t) (tk_pc t) ->
  k ∈ in_connecting (w_store w).1.
Proof.
  intros Hw Et Hk. apply elem_of_elements. rewrite <- (di_guards w Hw).
  eapply elem_of_submseteq; [exact Hk|]. apply (gather_one task_guards _ _ _ Et).
Qed.

(** A task moves to [pc] while the flags change from [c] to those of [s]. *)
Lemma dial_move orphans now made i key pc s w :
  DialInv w -> dial_ok pc ->
  guards key pc ++ elements (in_connecting (w_store w).1) ≡ₚ
    gather_at task_guards i (w_tasks w) ++ elements (in_connecting s.1) ->
  DialInv (mkWorld s (<[i := mkTask key pc]> (w_tasks w)) orphans now made).
Proof.
  intros [Hg Ho] Hpc He. split; cbn [w_tasks w_store].
  - pose proof (gather_insert task_guards i (mkTask key pc) (w_tasks w)) as G1.
    pose proof (gather_delete task_guards i (w_tasks w)) as G2.
    change (task_guards i (mkTask key pc)) with (guards key pc) in G1.
    apply (anti_symm submseteq); mset.
  - intros j t. rewrite lookup_insert_Some. intros [[<- <-]|[_ E]]; [done|]. by eapply Ho.
Qed.

(** It keeps its guards and the flags stay. *)
Lemma dial_keep orphans now made i t pc s w :
  DialInv w -> w_tasks w !! i = Some t -> dial_ok pc ->
  guards (tk_key t) pc = guards (tk_key t) (tk_pc t) ->
  in_connecting s.1 = in_connecting (w_store w).1 ->
  DialInv (mkWorld s (<[i := mkTask (tk_key t) pc]> (w_tasks w)) orphans now made).
Proof.
  intros Hw Et Hpc Hg Hs. apply dial_move; [done|done|]. by rewrite (guards_at _ _ _ Et), Hg, Hs.
Qed.

(** It drops one guard with its flag. *)
Lemma dial_release orphans now made i t guard pc s w :
  DialInv w -> w_tasks w !! i = Some t -> dial_ok pc ->
  guards (tk_key t) (tk_pc t) = (if guard : bool then [tk_key t] else []) ++ guards (tk_key t) pc ->
  in_connecting s.1 = released guard (tk_key t) (in_connecting (w_store w).1) ->
  DialInv (mkWorld s (<[i := mkTask (tk_key t) pc]> (w_tasks w)) orphans now made).
Proof.
  intros Hw Et Hpc Hg Hs. apply dial_move; [done|done|]. rewrite (guards_at _ _ _ Et), Hg, Hs.
  destruct guard; cbn [app released]; [|done].
  rewrite (elements_delete (tk_key t) (in_connecting (w_store w).1)) by
    (eapply guard_flag; [done|exact Et|]; rewrite Hg; left).
  cbn. by rewrite Permutation_middle.
Qed.

(** Only the store changes, and no flag. *)
Lemma dial_store orphans now made s w :
  DialInv w -> in_connecting s.1 = in_connecting (w_store w).1 ->
  DialInv (mkWorld s (w_tasks w) orphans now made).
Proof. intros [Hg Ho] Hs. split; [|done]. cbn. by rewrite Hs. Qed.

Lemma dial_new i key pc w :
  DialInv w -> w_tasks w !! i = None -> dial_ok pc -> guards key pc = [] ->
  DialInv (set_task i (mkTask key pc) w).
Proof.
  intros Hw Hn Hpc Hg. apply dial_move; [done|done|]. unfold gather_at. by rewrite Hn, Hg.
Qed.

(** The guard of task [i] passes to the new task [j]. *)
Lemma dial_transfer orphans now made i j t pci pcj s w :
  DialInv w -> w_tasks w !! i = Some t -> <[i := mkTask (tk_key t) pci]> (w_tasks w) !! j = None ->
  dial_ok pci -> dial_ok pcj ->
  guards (tk_key t) pci ++ guards (tk_key t) pcj = guards (tk_key t) (tk_pc t) ->
  in_connecting s.1 = in_connecting (w_store w).1 ->
  DialInv (mkWorld s (<[j := mkTask (tk_key t) pcj]> (<[i := mkTask (tk_key t) pci]> (w_tasks w)))
    orphans now made).
Proof.
  intros [Hg Ho] Et Hj Hi' Hj' He Hs. split; cbn [w_tasks w_store].
  - rewrite Hs, (gather_insert_None task_guards _ _ _ Hj), gather_insert. cbn [task_guards tk_key tk_pc].
    rewrite <- Hg, (gather_delete task_guards i (w_tasks w)), (guards_at _ _ _ Et), <- He.
    change (task_guards i (mkTask (tk_key t) pci)) with (guards (tk_key t) pci).
    change (task_guards j (mkTask (tk_key t) pcj)) with (guards (tk_key t) pcj).
    apply (anti_symm submseteq); mset.
  - intros k u. rewrite !lookup_insert_Some.
    intros [[<- <-]|[_ [[<- <-]|[_ E]]]]; [done|done|]. by eapply Ho.
Qed.

Lemma connector_done_safe racing i t guard res w :
  DialInv w -> w_tasks w !! i = Some t -> guard = guarded ->
  guards (tk_key t) (tk_pc t) = (if guard : bool then [tk_key t] else []) ->
  match connector_done racing (tk_key t) guard res w with
  | Done (_, w') => exists s made, w' = mkWorld s (w_tasks w) (w_orphans w) (w_now w) made /\
      in_connecting s.1 = released guard (tk_key t) (in_connecting (w_store w).1)
  | Fail _ => True
  | _ => False
  end.
Proof.
  intros Hw Et Hg Hgs.
  assert (guard = true -> tk_key t ∈ in_connecting (w_store w).1) as Hk.
  { intros ->. eapply guard_flag; [done|exact Et|]. rewrite Hgs. left. }
  unfold connector_done, dialled. destruct res as [c|].
  - unfold require. case_bool_decide; [|done]. cbn [mbind outcome_bind w_now w_store].
    destruct (pooled_total (E := Disabled) racing (w_now w) (tk_key t) guard c (w_store w) Hg Hk)
      as (p & s & -> & Es). cbn. eauto.
  - destruct (drop_connecting_total (E := Disabled) (tk_key t) guard (w_store w) Hk) as (s & -> & Es).
    cbn. eauto.
Qed.

Lemma poll_dial_safe racing i t rx token guard res w :
  DialInv w -> w_tasks w !! i = Some t -> guard = guarded ->
  guards (tk_key t) (tk_pc t) = (if guard : bool then [tk_key t] else []) ->
  safe (poll_dial racing i t rx token guard res w).
Proof.
  intros Hw Et Hg Hgs. unfold poll_dial. destruct res as [r|].
  2: { by apply dial_keep. }
  pose proof (connector_done_safe racing i t guard r w Hw Et Hg Hgs) as Hc.
  destruct (connector_done _ _ _ _ _) as [[o w']| | |]; cbn; [|done..].
  destruct Hc as (s & made & -> & Es).
  destruct o; world_cbn; apply (dial_release _ _ _ i t guard); try done; cbn; by rewrite app_nil_r.
Qed.

Lemma clear_expired_connecting now (s : Inner K T) :
  in_connecting (clear_expired now s) = in_connecting s.
Proof. done. Qed.

Lemma lookup_idle_connecting healthy now key (s : Inner K T) :
  in_connecting (lookup_idle healthy now key s).2 = in_connecting s.
Proof.
  unfold lookup_idle. destruct (in_idle s !! key); [|done].
  destruct (fast_path _ _ _ _) as [[]|]; [done|]. destruct (pop_idle _ _ _) as [[] ?]; done.
Qed.

Lemma reserve_entry_connecting now key e (s : Inner K T) :
  in_connecting (reserve_entry now key e s).2 = in_connecting s.
Proof.
  unfold reserve_entry. destruct (reserve _); [|done]. cbn. by destruct (in_idle s !! key).
Qed.

Lemma drop_checkout_connecting key token (s : Inner K T * Chans K T) :
  in_connecting (drop_checkout key token s).1 = in_connecting s.1.
Proof. destruct s as [s chans]. unfold drop_checkout. by destruct (in_waiters s !! key). Qed.

Lemma poll_rx_safe i j w : DialInv w -> safe (step ver (EPollRx i j) w).
Proof.
  intros Hw. cbn [step]. unfold get_task. destruct (w_tasks w !! i) as [t|] eqn:Et; cbn [mbind outcome_bind]; [|done].
  pose proof (di_ok w Hw _ _ Et) as Ho.
  destruct (tk_pc t) as [| | | |rx token [|] c| | | | | |] eqn:Epc; try done.
  destruct ((w_store w).2 !! rx) as [[k []]|] eqn:Ech; try done.
  - apply dial_keep; try done. by rewrite Epc.
  - unfold spawn_connector. destruct c as [|guard|]; cbn [safe].
    1, 3: world_cbn; apply dial_keep; try done; by rewrite Epc.
    unfold require. case_bool_decide as Hj; [|done]. cbn [mbind outcome_bind safe]. world_cbn.
    apply dial_transfer; try done. rewrite Epc. by destruct guard.
  - apply dial_keep; try done. rewrite Epc. by destruct c as [|[|]|].
Qed.

(** Polling a dial overwrites the state of its task. *)
Lemma poll_dial_set racing i t pc rx token guard res (w : World K T) :
  poll_dial racing i t rx token guard res w =
  poll_dial racing i (mkTask (tk_key t) pc) rx token guard res (set_pc i t pc w).
Proof.
  unfold poll_dial, set_pc, set_task. destruct res as [r|]; cbn.
  - unfold connector_done, dialled. destruct r as [c|]; cbn.
    + destruct (require _); cbn; [|done..]. destruct (pooled _ _ _ _ _ _) as [[]| | |]; cbn; [|done..].
      by rewrite insert_insert_eq.
    + destruct (drop_connecting _ _ _); cbn; [|done..]. by rewrite insert_insert_eq.
  - by rewrite insert_insert_eq.
Qed.

(** [Pool::connecting] for a task about to dial. *)
Lemma connecting_safe i t rx token w o inner :
  DialInv w -> w_tasks w !! i = Some t -> guards (tk_key t) (tk_pc t) = [] ->
  connecting (tk_key t) ver (w_store w).1 = (o, inner) ->
  match o with
  | Some guard => guard = guarded /\
      DialInv (set_pc i t (TSelect rx token PChecked (CMaking guard)) (with_store (inner, (w_store w).2) w))
  | None => inner = (w_store w).1
  end.
Proof.
  intros Hw Et Hg. assert (guarded = bool_decide (ver = Multiplex)) as Eg by done.
  unfold connecting. destruct ver eqn:Ev; cbn in Eg.
  - intros [= <- <-]. split; [done|]. world_cbn. by apply dial_keep.
  - destruct (bool_decide (tk_key t ∈ _)) eqn:Hk; intros [= <- <-]; [done|]. split; [done|]. world_cbn.
    apply bool_decide_eq_false in Hk. apply dial_move; [done|done|]. rewrite (guards_at _ _ _ Et), Hg. cbn.
    by rewrite elements_union_singleton.
Qed.

Lemma poll_conn_safe i res racing w : DialInv w -> safe (step ver (EPollConn i res racing) w).
Proof.
  intros Hw. cbn [step]. unfold get_task. destruct (w_tasks w !! i) as [t|] eqn:Et; cbn [mbind outcome_bind]; [|done].
  unfold require. destruct (racing_ok racing w); cbn [mbind outcome_bind]; [|done].
  pose proof (di_ok w Hw _ _ Et) as Ho.
  destruct (tk_pc t) as [| | | |rx token [|] c| | | | | |] eqn:Epc; try done.
  destruct c as [|guard|].
  - destruct (connecting _ _ _) as [o inner] eqn:Ec.
    apply (connecting_safe i t rx token) in Ec; [|done|done|by rewrite Epc].
    destruct o as [guard|].
    + destruct Ec as [Eg Hi]. erewrite poll_dial_set. apply poll_dial_safe; [exact Hi| |done|].
      * world_cbn. by rewrite lookup_insert_eq.
      * by destruct guard.
    + subst inner. world_cbn. apply dial_keep; try done. by rewrite Epc.
  - apply poll_dial_safe; [done|done|done|]. rewrite Epc. by destruct guard.
  - world_cbn. apply dial_keep; try done. by rewrite Epc.
Qed.

Lemma step_safe e w : DialInv w -> safe (step ver e w).
Proof.
  intros Hw. destruct e; try (by apply poll_rx_safe || apply poll_conn_safe); cbn [step];
    unfold get_task, require;
    repeat match goal with
    | |- safe (mbind _ (match ?x with Some _ => _ | None => _ end)) =>
        destruct x eqn:?; cbn [mbind outcome_bind]; [|done]
    | |- safe (mbind _ (if ?b then _ else _)) => destruct b eqn:?; cbn [mbind outcome_bind]; [|done]
    | |- safe (match tk_pc ?t with _ => _ end) => destruct (tk_pc t) eqn:?; try done
    end;
    cbn [safe]; world_cbn;
    try match goal with
    | E : w_tasks w !! _ = Some ?t, P : tk_pc ?t = _ |- _ =>
        pose proof (di_ok w Hw _ _ E) as Ho; rewrite P in Ho; cbn in Ho;
        assert (guards (tk_key t) (tk_pc t) = guards (tk_key t) (tk_pc t)) as Hg by done;
        rewrite P in Hg at 2; cbn in Hg
    end.
  - apply bool_decide_eq_true in Heqb. by apply dial_new.
  - by apply dial_store.
  - by apply dial_store.
  - pose proof (lookup_idle_connecting healthy (w_now w) (tk_key t) (w_store w).1) as Hc.
    destruct (lookup_idle _ _ _ _) as [r inner]. cbn in Hc. destruct r; by apply dial_keep.
  - destruct reusable; by apply dial_keep.
  - pose proof (reserve_entry_connecting (w_now w) (tk_key t) entry (w_store w).1) as Hc.
    destruct (reserve_entry _ _ _ _) as [r inner]. by apply dial_keep.
  - destruct (w_store w) as [inner chans] eqn:Es. cbn. apply dial_keep; try done. by rewrite Es.
  - pose proof (connector_done_safe racing i t guard res w Hw Heqo Ho Hg) as Hc.
    destruct (connector_done _ _ _ _ _) as [[o w']| | |]; cbn; [|done..].
    destruct Hc as (s & made & -> & Es). world_cbn.
    apply (dial_release _ _ _ i t guard); try done. rewrite Hg. by destruct guard.
  - apply dial_keep; try done. apply drop_checkout_connecting.
  - by apply dial_store.
  - destruct (drop_connecting_total (E := Disabled) (tk_key t) guard (w_store w)) as (s & -> & Es).
    { intros ->. eapply guard_flag; [done|exact Heqo|]. rewrite Hg. left. }
    cbn. by apply (dial_release _ _ _ i t guard).
  - unfold Pooled_reuse. destruct (reusable && pl_pool p); [|by apply dial_keep].
    destruct (put_total (E := Disabled) racing (w_now w) (pl_key p) (pl_t p) (w_store w)) as (s & -> & Es).
    by apply dial_keep.
  - by apply dial_keep.
  - destruct phase; [|done]. apply dial_keep; try done. rewrite Hg. by destruct c as [|[|]|].
  - by apply dial_keep.
Qed.

Lemma reachable_dials cfg w : reachable ver cfg w -> DialInv w.
Proof.
  induction 1 as [|w e w' _ IH Hs]; [by split|].
  pose proof (step_safe e w IH) as Hsafe. by rewrite Hs in Hsafe.
Qed.

(** A task dials, or holds the mark of a dial that is over. *)
Fixpoint is_dialling (pc : Pc K T) : bool :=
  match pc with
  | TSelect _ _ _ (CMaking _) | TBackground _ => true
  | TClean _ _ next => is_dialling next
  | TDropConn guard next => guard || is_dialling next
  | _ => false
  end.

Definition dialling (w : World K T) (i : nat) (k : K) : Prop :=
  exists t, w_tasks w !! i = Some t /\ tk_key t = k /\ is_dialling (tk_pc t) = true.

Lemma elem_guards key pc k : guarded = true -> dial_ok pc -> k ∈ guards key pc <-> key = k /\ is_dialling pc = true.
Proof.
  intros Hg. induction pc as [| | | |rx token phase [|guard|]| |guard next IH| |guard| |]; cbn; intros Ho;
    try (rewrite elem_of_nil; split; [done|by intros [_ ?]]); auto.
  - rewrite Ho, Hg, list_elem_of_singleton. split; [by intros ->|by intros [-> _]].
  - rewrite elem_of_app, IH by done. destruct guard; cbn; [rewrite list_elem_of_singleton|rewrite elem_of_nil].
    + split; [by intros [->|[-> _]]|intros [-> _]; by left].
    + split; [by intros [?|?]|by right].
  - rewrite Ho, Hg, list_elem_of_singleton. split; [by intros ->|by intros [-> _]].
Qed.

Lemma dialling_guards w i k :
  DialInv w -> guarded = true -> dialling w i k <-> exists t, w_tasks w !! i = Some t /\ k ∈ guards (tk_key t) (tk_pc t).
Proof.
  intros Hw Hg. unfold dialling. split; intros (t & Et & Hk); exists t; (split; [done|]);
    by apply (elem_guards _ _ _ Hg (di_ok w Hw i t Et)).
Qed.

(** C23: One dial. In every reachable world of a pool that is asked for multiplexed
    connections, the keys marked as connecting are exactly those some task
    dials for, and no two tasks dial for the same key. (A pool asked for
    ping-pong connections dials as often as it is asked.) In either pool, as
    long as connections that can be shared are asked for as multiplexed ones,
    no event panics: a [Connecting] that is dropped finds its mark, whether its
    dial succeeded, failed, was cancelled or ended in the background. *)
Theorem pool_single_dial cfg w :
  reachable ver cfg w ->
  (ver = Multiplex ->
     (forall k, k ∈ in_connecting (w_store w).1 <-> exists i, dialling w i k) /\
     (forall i j k, dialling w i k -> dialling w j k -> i = j)) /\
  (forall e, step ver e w <> Panic).
Proof.
  intros Hr. pose proof (reachable_dials _ _ Hr) as Hw. split.
  2: { intros e He. pose proof (step_safe e w Hw) as Hs. by rewrite He in Hs. }
  intros Hv. assert (guarded = true) as Hgd by (unfold guarded; by apply bool_decide_eq_true_2). split.
  - intros k. rewrite <- elem_of_elements, <- (di_guards w Hw). unfold gather. rewrite list_elem_of_bind. split.
    + intros ([i t] & Hk & Et%elem_of_map_to_list). exists i. apply dialling_guards; [done..|]. by exists t.
    + intros (i & (t & Et & Hk)%dialling_guards); [|done..]. exists (i, t). by rewrite elem_of_map_to_list.
  - intros i j k (t & Et & Hk)%dialling_guards (t' & Et' & Hk')%dialling_guards; [|done..].
    destruct (decide (i = j)) as [|Hne]; [done|exfalso].
    pose proof (gather_two task_guards _ _ _ _ _ Et Et' Hne) as Hg. rewrite (di_guards w Hw) in Hg.
    apply submseteq_Permutation in Hg as (l & E). pose proof (NoDup_elements (in_connecting (w_store w).1)) as Hnd.
    rewrite E in Hnd. apply NoDup_app in Hnd as [(_ & Hd & _)%NoDup_app _]. by eapply Hd.
Qed.
End Dials.
