(* ===== verification/ThriftPoolOrder.v ===== *)
(** Who gets a connection of the Thrift pool
    (volo-thrift/src/transport/pool/mod.rs): a returned connection goes to the
    caller that has waited longest, an idle one is given out oldest first and
    never after it has expired. *)

From S2P Require Import Prelude Multiset ThriftPool ThriftPoolSteps ThriftPoolSafety ThriftPoolDials.

Section Order.
Context {K : Type} `{Countable K} {T : Type} `{UniquePool T}.

(** A waiter that can still be served. *)
Definition live (racing : gset nat) (chans : Chans K T) (w : Z * nat) : Prop :=
  (exists k, chans !! w.2 = Some (k, ChOpen)) /\ w.2 ∉ racing.

#[local] Instance live_dec racing chans w : Decision (live racing chans w).
Proof.
  unfold live. destruct (chans !! w.2) as [[k []]|]; [|right; by intros [[? ?] ?]..].
  destruct (decide (w.2 ∈ racing)); [right; by intros []|left; eauto].
Defined.

Lemma live_drop_rx racing chans c w :
  w.2 <> c -> live racing (drop_rx c chans) w <-> live racing chans w.
Proof. intros Hn. unfold live, drop_rx. by rewrite lookup_alter_ne. Qed.

Lemma put_waiters_fifo {E} racing ws t chans :
  NoDup ws.*2 ->
  exists ws' v chans', put_waiters (E := E) racing ws (Some t) chans = Done (ws', v, chans') /\
    ((exists pre tok c k, ws = pre ++ (tok, c) :: ws' /\ Forall (fun w => ~ live racing chans w) pre /\
        live racing chans (tok, c) /\ v = None /\ chans' !! c = Some (k, ChSent t)) \/
     (ws' = [] /\ v = Some t /\ Forall (fun w => ~ live racing chans w) ws)).
Proof.
  revert chans. induction ws as [|[tok c] ws IH]; intros chans Hnd.
  { exists [], (Some t), chans. split; [done|]. by right. }
  cbn in Hnd. apply NoDup_cons in Hnd as [Hc Hnd]. cbn [put_waiters].
  assert (forall chans1, (forall w, w ∈ ws -> live racing chans1 w <-> live racing chans w) ->
    ~ live racing chans (tok, c) ->
    exists ws' v chans', put_waiters (E := E) racing ws (Some t) chans1 = Done (ws', v, chans') /\
      ((exists pre tok' c' k, (tok, c) :: ws = pre ++ (tok', c') :: ws' /\
          Forall (fun w => ~ live racing chans w) pre /\
          live racing chans (tok', c') /\ v = None /\ chans' !! c' = Some (k, ChSent t)) \/
       (ws' = [] /\ v = Some t /\ Forall (fun w => ~ live racing chans w) ((tok, c) :: ws)))) as Hskip.
  { intros chans1 Hl Hdead. destruct (IH chans1 Hnd) as (ws' & v & chans' & -> & Hres).
    exists ws', v, chans'. split; [done|].
    destruct Hres as [(pre & tok' & c' & k & -> & Hpre & Hlv & -> & Hs)|(-> & -> & Hall)]; [left|right].
    - exists ((tok, c) :: pre), tok', c', k. split_and!; [done| | |done|done].
      + constructor; [done|]. rewrite Forall_forall in *. intros w Hin Hw. apply (Hpre w Hin), Hl; [|done].
        apply elem_of_app. by left.
      + apply Hl; [|done]. apply elem_of_app. right; left.
    - split_and!; [done|done|]. constructor; [done|]. rewrite Forall_forall in *.
      intros w Hin Hw. eapply Hall; [exact Hin|]. by apply Hl. }
  unfold is_closed, send. destruct (chans !! c) as [[k []]|] eqn:Ech;
    try (apply Hskip; [done|unfold live; cbn; rewrite Ech; by intros [[? ?] ?]]).
  cbn [unwrap mbind outcome_bind]. rewrite reserve_unique. case_bool_decide as Hr.
  - apply Hskip; [|by intros [_ []]]. intros w Hw. apply live_drop_rx. intros <-.
    apply Hc, list_elem_of_fmap. eauto.
  - rewrite bool_decide_eq_false_2 by by intros []. eexists ws, None, _. split; [done|]. left.
    exists [], tok, c, k. split_and!; [done|constructor| |done|by rewrite lookup_insert_eq].
    split; [|done]. cbn. eauto.
Qed.

(** First come, first served: a connection that is returned goes to the first
    waiter of its key that is still there and to nobody else; the waiters
    before it are gone for good, those behind it keep their place. Only when
    no waiter is left does it go to the end of the idle list, if that list has
    room. *)
Theorem put_in_order {E} racing now key t (inner : Inner K T) (chans : Chans K T) :
  let ws := from_option wl_inner [] (in_waiters inner !! key) in
  NoDup ws.*2 ->
  exists inner' chans', put (E := E) racing now key t (inner, chans) = Done (inner', chans') /\
    ((exists pre tok c post k, ws = pre ++ (tok, c) :: post /\
        Forall (fun w => ~ live racing chans w) pre /\ live racing chans (tok, c) /\
        chans' !! c = Some (k, ChSent t) /\ in_idle inner' = in_idle inner /\
        from_option wl_inner [] (in_waiters inner' !! key) = post) \/
     (Forall (fun w => ~ live racing chans w) ws /\ in_waiters inner' !! key = None /\
        let l := default [] (in_idle inner !! key) in
        in_idle inner' = <[key := if bool_decide (Zlen l < in_max_idle_per_key inner)
                                  then l ++ [mkIdle t now] else l]> (in_idle inner))).
Proof.
  cbn zeta. intros Hnd. unfold put. destruct (in_waiters inner !! key) as [wl|] eqn:Ew; cbn in Hnd |- *.
  2: { rewrite never_shared. cbn [andb]. eexists _, _. split; [done|]. right. by split_and!. }
  destruct (put_waiters_fifo (E := E) racing (wl_inner wl) t chans Hnd) as (ws' & v & chans' & -> & Hres).
  cbn [mbind outcome_bind]. unfold WaiterList.is_empty. cbn [wl_inner].
  destruct Hres as [(pre & tok & c & k & Ews & Hpre & Hlv & -> & Hs)|(-> & -> & Hall)].
  - eexists _, _. split; [done|]. left. exists pre, tok, c, ws', k. split_and!; try done.
    cbn. case_bool_decide as Hn; [by rewrite lookup_delete_eq, Hn|by rewrite lookup_insert_eq].
  - rewrite never_shared. cbn [andb]. eexists _, _. split; [done|]. right. split_and!; [done| |done].
    cbn. by rewrite lookup_delete_eq.
Qed.

Lemma pop_idle_spec now timeout (l : list (Idle T)) :
  exists pre, Forall (fun e => expires now timeout (idle_at e) = true) pre /\
    match pop_idle now timeout l with
    | (Some e, rest) => l = pre ++ e :: rest /\ expires now timeout (idle_at e) = false
    | (None, rest) => l = pre /\ rest = []
    end.
Proof.
  induction l as [|e l (pre & Hpre & IH)]; cbn; [by exists []|].
  destruct (expires now timeout (idle_at e)) eqn:Ee; [|by exists []].
  exists (e :: pre). split; [by constructor|]. destruct (pop_idle now timeout l) as [[e'|] rest].
  - by destruct IH as [-> ?].
  - by destruct IH as [-> ?].
Qed.

(** The oldest connection that has not expired: a call looks through the idle
    list of its key from the oldest entry, drops those that have expired and
    takes the first that has not; it finds none only when all have expired,
    and the other keys are untouched. *)
Theorem lookup_oldest_fresh healthy now key (inner : Inner K T) l :
  in_idle inner !! key = Some l ->
  exists pre rest, Forall (fun e => in_timeout inner < Z.max 0 (now - idle_at e)) pre /\
    (lookup_idle healthy now key inner).2 = with_idle (<[key := rest]> (in_idle inner)) inner /\
    ((exists e, (lookup_idle healthy now key inner).1 = LookedEntry e /\ l = pre ++ e :: rest /\
        Z.max 0 (now - idle_at e) <= in_timeout inner) \/
     ((lookup_idle healthy now key inner).1 = LookedNone /\ l = pre /\ rest = [])).
Proof.
  intros El. unfold lookup_idle. rewrite El.
  assert (fast_path healthy now (in_timeout inner) l = inr l) as ->.
  { destruct l as [|e l]; cbn; [done|]. by rewrite never_shared. }
  destruct (pop_idle_spec now (in_timeout inner) l) as (pre & Hpre & Hp).
  destruct (pop_idle now (in_timeout inner) l) as [o rest]. exists pre, rest.
  split.
  { eapply Forall_impl; [exact Hpre|]. intros e. unfold expires. by rewrite bool_decide_eq_true. }
  destruct o as [e|]; cbn; (split; [done|]).
  - destruct Hp as [-> He]. left. exists e. split_and!; [done|done|].
    unfold expires in He. apply bool_decide_eq_false in He. lia.
  - destruct Hp as [-> ->]. by right.
Qed.
End Order.

(** * Concrete runs

    Concrete runs of the Thrift connection pool: the theorems at work, and two
    runs in which the pool does less than its comments say. *)

Module ThriftPoolExample.

#[local] Instance debug : BuildProfile := true.

Section Calls.
Context {T : Type} (ok : T -> bool).

(** Call [i] to address 7 with the channel [rx] dials [c]. *)
Definition dial (i rx : nat) (c : T) : list (Event nat T) :=
  [ESpawn i 7%nat; ELookup i ok; EEnqueue i rx; EPollRx i 0; EPollConn i (Some (Some c)) ∅; EDropCheckout i].

(** Call [i] joins the waiters and starts a dial. *)
Definition wait (i rx : nat) : list (Event nat T) :=
  [ESpawn i 7%nat; ELookup i ok; EEnqueue i rx; EPollRx i 0; EPollConn i None ∅].

(** Call [i] takes an idle connection. *)
Definition take_idle (i : nat) : list (Event nat T) :=
  [ESpawn i 7%nat; ELookup i ok; ECheck i true; EReserve i].
End Calls.

Abbreviation PP := PingPongTransport.
Definition c0 : PP := mkPingPong 0.
Definition healthy {T} (_ : T) : bool := true.

(** A connection is dialled, returned and taken by the next call. *)
Definition reuse_run : list (Event nat PP) :=
  dial healthy 0 0 c0 ++ [EReturn 0 true ∅] ++ take_idle healthy 1 ++ wait healthy 2 2.

Definition reached (w : outcome Disabled (World nat PP)) : World nat PP :=
  match w with Done w => w | _ => init None end.

Definition reuse_world : World nat PP := Eval vm_compute in reached (run PingPong reuse_run (init None)).

Lemma reuse_reachable : reachable PingPong None reuse_world.
Proof. eapply (reachable_run _ _ reuse_run); [constructor|]. vm_compute. reflexivity. Qed.

Lemma pool_exclusive_witness :
  holds reuse_world 1 7%nat c0 /\ (7%nat, c0) ∈ w_made reuse_world /\
  (forall j key' c', holds reuse_world j key' c' -> c' = c0 -> j = 1%nat).
Proof.
  assert (holds reuse_world 1 7%nat c0) as Hh by (exists (mkPooled 7%nat c0 true); vm_compute; done).
  destruct (pool_exclusive None PingPong reuse_world 1 7%nat c0 reuse_reachable Hh) as (H1 & H2 & _).
  split; [exact Hh|]. split; [exact H1|exact H2].
Defined.

Definition idle_world : World nat PP :=
  Eval vm_compute in reached (run PingPong (dial healthy 0 0 c0 ++ [EReturn 0 true ∅]) (init None)).

Lemma pool_idle_limit_witness : Zlen [mkIdle c0 0] <= 10240.
Proof.
  apply (pool_idle_limit None PingPong idle_world 7%nat).
  - eapply (reachable_run _ _ (dial healthy 0 0 c0 ++ [EReturn 0 true ∅])); [constructor|].
    vm_compute. reflexivity.
  - vm_compute. reflexivity.
Defined.

(** * Who gets a connection *)

(** Call 1 uses the connection; calls 2 and 3 wait, call 2 has given up. *)
Definition waiting_world : World nat PP :=
  Eval vm_compute in reached (run PingPong
    (dial healthy 0 0 c0 ++ [EReturn 0 true ∅] ++ take_idle healthy 1 ++ wait healthy 2 2 ++ wait healthy 3 3)
    (init None)).

Lemma put_in_order_witness :
  exists inner' chans', put (E := Disabled) {[2%nat]} 5 7%nat c0 (w_store waiting_world) = Done (inner', chans') /\
    in_idle inner' = in_idle (w_store waiting_world).1.
Proof.
  assert (NoDup (from_option wl_inner [] (in_waiters (w_store waiting_world).1 !! 7%nat)).*2) as Hnd.
  { apply (bool_decide_unpack _). vm_compute. done. }
  destruct (put_in_order (E := Disabled) {[2%nat]} 5 7%nat c0 (w_store waiting_world).1 (w_store waiting_world).2 Hnd)
    as (inner' & chans' & Hp & Hres).
  exists inner', chans'. split; [exact Hp|].
  destruct Hres as [(pre & tok & c & post & k & _ & _ & _ & _ & Hi & _)|(Hall & _)]; [exact Hi|exfalso].
  vm_compute in Hall. apply Forall_cons in Hall as [_ [H3 _]%Forall_cons]. apply H3. split.
  - exists 7%nat. vm_compute. reflexivity.
  - apply (bool_decide_unpack _). vm_compute. done.
Defined.

Lemma lookup_oldest_fresh_witness :
  exists pre rest : list (Idle PP), [mkIdle c0 0] = pre ++ mkIdle c0 0 :: rest.
Proof.
  destruct (lookup_oldest_fresh healthy 9 7%nat (w_store idle_world).1 [mkIdle c0 0])
    as (pre & rest & _ & _ & [(e & He & Hl & _)|(Hn & _)]); [vm_compute; reflexivity| |].
  - vm_compute in He. injection He as <-. exists pre, rest. exact Hl.
  - vm_compute in Hn. discriminate Hn.
Defined.

(** * A dial that ends in the background *)

Definition c1 : PP := mkPingPong 1.

(** Call 2 waits and dials, then is served by call 1's return. *)
Definition served_run : list (Event nat PP) :=
  dial healthy 0 0 c0 ++ [EReturn 0 true ∅] ++ take_idle healthy 1 ++ wait healthy 2 2 ++
  [EReturn 1 true ∅; EPollRx 2 9].

Definition served_world : World nat PP := Eval vm_compute in reached (run PingPong served_run (init None)).

Definition dialled_world : World nat PP :=
  Eval vm_compute in reached (step PingPong (EBackground 9 (Some c1) ∅) served_world).

Lemma background_dial_dropped_witness :
  c1 ∈ (w_made dialled_world).*2 /\ (c1 ∉ (world_conns dialled_world).*2).
Proof.
  destruct (background_dial_dropped None PingPong served_world 9 c1 ∅ dialled_world) as (H1 & H2 & _).
  - eapply (reachable_run _ _ served_run); [constructor|]. vm_compute. reflexivity.
  - vm_compute. reflexivity.
  - split; [exact H1|exact H2].
Defined.

(** * Shared connections *)

Abbreviation MX := MultiplexTransport.
Definition m0 : MX := mkMultiplex 0.
Definition m1 : MX := mkMultiplex 1.

Definition reached_mx (w : outcome Disabled (World nat MX)) : World nat MX :=
  match w with Done w => w | _ => init None end.

Definition dialling_world : World nat MX :=
  Eval vm_compute in reached_mx (run Multiplex (wait healthy 0 0 ++ wait healthy 1 1) (init None)).

Lemma pool_single_dial_witness :
  dialling dialling_world 0 7%nat /\ (forall j, dialling dialling_world j 7%nat -> j = 0%nat) /\
  (forall e, step Multiplex e dialling_world <> Panic).
Proof.
  assert (dialling dialling_world 0 7%nat) as Hd.
  { eexists. split; [vm_compute; reflexivity|by split]. }
  destruct (pool_single_dial Multiplex (fun (_ _ _ : MX) _ => eq_refl) None dialling_world) as [H2 H3].
  { eapply (reachable_run _ _ (wait healthy 0 0 ++ wait healthy 1 1)); [constructor|]. vm_compute. reflexivity. }
  split; [exact Hd|]. split; [|exact H3]. intros j Hj. by eapply (proj2 (H2 eq_refl)).
Defined.

(** * Runs that show a fault *)

(** No dial of the run failed. *)
Definition no_dial_fails {T} (e : Event nat T) : Prop :=
  match e with
  | EPollConn _ (Some None) _ | EBackground _ None _ => False
  | _ => True
  end.

(** Call 2 is sent the connection of call 1, which empties and forgets its
    waiter list; call 3 joins a new list, whose tokens start again at 0; call 2
    is cancelled before it looks at its channel and removes its token. *)
Definition stolen_run : list (Event nat PP) :=
  dial healthy 0 0 c0 ++ [EReturn 0 true ∅] ++ take_idle healthy 1 ++ wait healthy 2 2 ++
  [EReturn 1 true ∅] ++ wait healthy 3 3 ++
  [ECancel 2; EDropCheckout 2; EPollRx 3 9; EDropConn 3].

(** A waiter removed by another call: a run of a live pool in which no dial
    fails ends with a call failing, because the cancelled [Checkout] of another
    call removed its sender under a reused token. *)
Theorem stolen_waiter :
  exists w, Forall no_dial_fails stolen_run /\ run PingPong stolen_run (init None) = Done w /\
    w_tasks w !! 3%nat = Some (mkTask 7%nat TFailed).
Proof.
  eexists. split; [repeat constructor|]. split; [vm_compute; reflexivity|]. vm_compute. reflexivity.
Qed.

(** The shared connection expires, and the next call dials another. *)
Definition unkept_run : list (Event nat MX) :=
  dial healthy 0 0 m0 ++ [ETick 15001] ++ dial healthy 1 1 m1.

(** A shared connection that is not kept: after the idle connection of an
    address has expired, the one dialled to replace it is used by its call
    alone; the pool keeps no copy of it and the next call dials again. *)
Theorem shared_connection_not_kept :
  exists w, run Multiplex unkept_run (init None) = Done w /\ holds w 1 7%nat m1 /\
    in_idle (w_store w).1 !! 7%nat = Some [] /\
    (lookup_idle healthy (w_now w) 7%nat (w_store w).1).1 = LookedNone.
Proof.
  eexists. split; [vm_compute; reflexivity|]. split; [|split; vm_compute; reflexivity].
  eexists. split; vm_compute; reflexivity.
Qed.
End ThriftPoolExample.
