(* ===== verification/Multiplex.v ===== *)
(** The multiplex Thrift transport
    (volo-thrift/src/transport/multiplex/thrift_transport.rs): calls that share
    one connection register a one-shot channel under their sequence id, write
    their message under a lock and wait; a read loop hands each reply to the
    channel of its sequence id.

    A world is the shared state with the calls and the read loop, each at one of
    its lock or await points; an event is one of them moving on. The critical
    sections on the table of channels have no await point, so each is one
    event. *)

From S2P Require Import Prelude.

Section Multiplex.

(** The content of a reply. *)
Context {M : Type}.

(** What goes through a channel: an error, the end of the connection, or a
    reply with its sequence id. *)
Inductive Reply : Type :=
| ReplyErr
| ReplyEof
| ReplyMsg (seq_id : Z) (m : M).

Inductive Chan : Type :=
| ChOpen
| ChSent (r : Reply)
| ChTxGone
| ChRxGone.

(** How a call ends: the errors [send] makes or passes on, or its answer. *)
Inductive SendError : Type :=
| ConnectionError
| ConnectionClosed
| ConnectionDirty
| WriteFailed
| ReadFailed
| RecvError.

Inductive Result : Type :=
| ResErr (e : SendError)
| ResOk (r : option (Z * M)).

Inductive Pc : Type :=
| CCheckError
| CCheckClosed
| CRegister
| CAcquire (rx : option nat)
| CWriting (rx : option nat)
| CFailed (rx : option nat)
| CRemove (rx : option nat)
| CWait (rx : nat)
| CDone (res : Result)
| CCancelled.

Record Call : Type := mkCall { cl_seq_id : Z; cl_oneway : bool; cl_pc : Pc }.

(** The read loop: at its head, waiting for a message, with what it read, or ended. *)
Inductive Reader : Type :=
| RLoop
| RReading
| RGot (r : Reply)
| REnded.

(** A channel is listed with the sequence id it was opened for; [mx_writer] is
    the holder of the lock on the write half. *)
Record World : Type := mkWorld {
  mx_dirty : bool;
  mx_tx_map : gmap Z nat;
  mx_write_error : bool;
  mx_read_error : bool;
  mx_read_closed : bool;
  mx_writer : option nat;
  mx_chans : gmap nat (Z * Chan);
  mx_calls : gmap nat Call;
  mx_reader : Reader
}.

(** [ThriftTransport::new]. *)
Definition new : World := mkWorld false ∅ false false false None ∅ ∅ RLoop.

Definition with_flags (dirty write_error : bool) (writer : option nat) (w : World) : World :=
  mkWorld dirty (mx_tx_map w) write_error (mx_read_error w) (mx_read_closed w) writer
    (mx_chans w) (mx_calls w) (mx_reader w).
Definition with_table (tx_map : gmap Z nat) (chans : gmap nat (Z * Chan)) (w : World) : World :=
  mkWorld (mx_dirty w) tx_map (mx_write_error w) (mx_read_error w) (mx_read_closed w) (mx_writer w)
    chans (mx_calls w) (mx_reader w).
Definition with_read (read_error read_closed : bool) (r : Reader) (w : World) : World :=
  mkWorld (mx_dirty w) (mx_tx_map w) (mx_write_error w) read_error read_closed (mx_writer w)
    (mx_chans w) (mx_calls w) r.
Definition with_calls (calls : gmap nat Call) (w : World) : World :=
  mkWorld (mx_dirty w) (mx_tx_map w) (mx_write_error w) (mx_read_error w) (mx_read_closed w) (mx_writer w)
    (mx_chans w) calls (mx_reader w).

Definition set_pc (i : nat) (c : Call) (pc : Pc) (w : World) : World :=
  with_calls (<[i := mkCall (cl_seq_id c) (cl_oneway c) pc]> (mx_calls w)) w.

(** The last use of a sender: a channel that is still open gets its final content. *)
Definition settle (to : Chan) (c : Z * Chan) : Z * Chan :=
  match c.2 with ChOpen => (c.1, to) | _ => c end.

(** Dropping a sender and a receiver, sending. *)
Definition drop_tx (tx : nat) (chans : gmap nat (Z * Chan)) : gmap nat (Z * Chan) :=
  alter (settle ChTxGone) tx chans.

Definition drop_rx (rx : option nat) (chans : gmap nat (Z * Chan)) : gmap nat (Z * Chan) :=
  match rx with
  | Some rx => alter (fun c => (c.1, ChRxGone)) rx chans
  | None => chans
  end.

Definition send_to (r : Reply) (tx : nat) (chans : gmap nat (Z * Chan)) : gmap nat (Z * Chan) :=
  alter (settle (ChSent r)) tx chans.

(** The table and the channels once the sender under [seq_id], if any, is
    taken out and used for [to]. *)
Definition take_out (to : Chan) (seq_id : Z) (w : World) : World :=
  match mx_tx_map w !! seq_id with
  | Some tx => with_table (delete seq_id (mx_tx_map w)) (alter (settle to) tx (mx_chans w)) w
  | None => w
  end.

(** [tx_map.drain()], each sender used for [r]. *)
Definition drain (r : Reply) (w : World) : World :=
  with_table ∅ (foldr (send_to r) (mx_chans w) (map_to_list (mx_tx_map w)).*2) w.

(** The receiver a call holds. *)
Definition rx_of (pc : Pc) : option nat :=
  match pc with
  | CAcquire rx | CWriting rx | CFailed rx | CRemove rx => rx
  | CWait rx => Some rx
  | _ => None
  end.

(** A call that returns, or is dropped, with its receiver. *)
Definition leave (i : nat) (c : Call) (rx : option nat) (pc : Pc) (w : World) : World :=
  with_table (mx_tx_map w) (drop_rx rx (mx_chans w)) (set_pc i c pc w).

Inductive Event : Type :=
| EStart (i : nat) (seq_id : Z) (oneway : bool)
| ECheck (i : nat)
| ERegister (i tx : nat)
| EAcquire (i : nat)
| EWrote (i : nat) (ok : bool)
| EFail (i : nat)
| ERemove (i : nat)
| ERecv (i : nat)
| ECancel (i : nat)
| ERead
| EArrive (r : Reply)
| EHandle.

Inductive Disabled : Type := disabled.

Definition require (b : bool) : outcome Disabled unit := if b then Done tt else Fail disabled.

Definition get_call (i : nat) (w : World) : outcome Disabled Call :=
  match mx_calls w !! i with Some c => Done c | None => Fail disabled end.

(** What a call makes of what it receives. *)
Definition result_of (r : Reply) : Result :=
  match r with
  | ReplyErr => ResErr ReadFailed
  | ReplyEof => ResOk None
  | ReplyMsg s m => ResOk (Some (s, m))
  end.

(** The read loop's handling of what it read. *)
Definition handle (r : Reply) (w : World) : World :=
  match r with
  | ReplyErr => drain ReplyErr (with_read true (mx_read_closed w) REnded w)
  | ReplyEof =>
      let w := if bool_decide (mx_tx_map w = ∅) then w
               else drain ReplyEof (with_read true (mx_read_closed w) (mx_reader w) w) in
      with_read (mx_read_error w) true REnded w
  | ReplyMsg seq_id m =>
      with_read (mx_read_error w) (mx_read_closed w) RLoop (take_out (ChSent (ReplyMsg seq_id m)) seq_id w)
  end.

Definition step (e : Event) (w : World) : outcome Disabled World :=
  match e with
  | EStart i seq_id oneway =>
      _ ← require (bool_decide (mx_calls w !! i = None));
      Done (with_calls (<[i := mkCall seq_id oneway CCheckError]> (mx_calls w)) w)
  | ECheck i =>
      c ← get_call i w;
      match cl_pc c with
      | CCheckError =>
          if mx_read_error w then Done (set_pc i c (CDone (ResErr ConnectionError)) w)
          else Done (set_pc i c CCheckClosed w)
      | CCheckClosed =>
          if mx_read_closed w then Done (set_pc i c (CDone (ResErr ConnectionClosed)) w)
          else Done (set_pc i c CRegister w)
      | _ => Fail disabled
      end
  | ERegister i tx =>
      c ← get_call i w;
      _ ← require (bool_decide (mx_chans w !! tx = None));
      match cl_pc c with
      | CRegister =>
          if cl_oneway c then Done (set_pc i c (CAcquire None) w)
          else
            let w := take_out ChTxGone (cl_seq_id c) w in
            Done (set_pc i c (CAcquire (Some tx))
              (with_table (<[cl_seq_id c := tx]> (mx_tx_map w)) (<[tx := (cl_seq_id c, ChOpen)]> (mx_chans w)) w))
      | _ => Fail disabled
      end
  | EAcquire i =>
      c ← get_call i w;
      _ ← require (bool_decide (mx_writer w = None));
      match cl_pc c with
      | CAcquire rx =>
          if mx_dirty w then
            Done (with_flags (mx_dirty w) true None (leave i c rx (CDone (ResErr ConnectionDirty)) w))
          else Done (set_pc i c (CWriting rx) (with_flags true (mx_write_error w) (Some i) w))
      | _ => Fail disabled
      end
  | EWrote i ok =>
      c ← get_call i w;
      match cl_pc c with
      | CWriting rx =>
          let w := with_flags false (mx_write_error w) None w in
          if ok : bool then
            match rx with
            | Some rx => Done (set_pc i c (CWait rx) w)
            | None => Done (set_pc i c (CDone (ResOk None)) w)
            end
          else Done (set_pc i c (CFailed rx) w)
      | _ => Fail disabled
      end
  | EFail i =>
      c ← get_call i w;
      match cl_pc c with
      | CFailed rx =>
          let w := with_flags (mx_dirty w) true (mx_writer w) w in
          if cl_oneway c then Done (leave i c rx (CDone (ResErr WriteFailed)) w)
          else Done (set_pc i c (CRemove rx) w)
      | _ => Fail disabled
      end
  | ERemove i =>
      c ← get_call i w;
      match cl_pc c with
      | CRemove rx => Done (leave i c rx (CDone (ResErr WriteFailed)) (take_out ChTxGone (cl_seq_id c) w))
      | _ => Fail disabled
      end
  | ERecv i =>
      c ← get_call i w;
      match cl_pc c with
      | CWait rx =>
          match mx_chans w !! rx with
          | Some (_, ChSent r) => Done (set_pc i c (CDone (result_of r)) w)
          | Some (_, ChTxGone) => Done (set_pc i c (CDone (ResErr RecvError)) w)
          | _ => Fail disabled
          end
      | _ => Fail disabled
      end
  | ECancel i =>
      c ← get_call i w;
      match cl_pc c with
      | CDone _ | CCancelled => Fail disabled
      | CWriting rx => Done (with_flags (mx_dirty w) (mx_write_error w) None (leave i c rx CCancelled w))
      | pc => Done (leave i c (rx_of pc) CCancelled w)
      end
  | ERead =>
      match mx_reader w with
      | RLoop => Done (with_read (mx_read_error w) (mx_read_closed w)
                   (if mx_write_error w then REnded else RReading) w)
      | _ => Fail disabled
      end
  | EArrive r =>
      match mx_reader w with
      | RReading => Done (with_read (mx_read_error w) (mx_read_closed w) (RGot r) w)
      | _ => Fail disabled
      end
  | EHandle =>
      match mx_reader w with
      | RGot r => Done (handle r w)
      | _ => Fail disabled
      end
  end.

Definition run (es : list Event) (w : World) : outcome Disabled World :=
  foldM (fun w e => step e w) es w.

Inductive reachable : World -> Prop :=
| reachable_new : reachable new
| reachable_step w e w' : reachable w -> step e w = Done w' -> reachable w'.
End Multiplex.
Arguments World M : clear implicits.
Arguments Event M : clear implicits.
Arguments Reply M : clear implicits.
Arguments Call M : clear implicits.
Arguments Pc M : clear implicits.
Arguments Chan M : clear implicits.
