(* ===== verification/MultiplexSafety.v ===== *)
(** What the multiplex transport promises its calls: a reply reaches the call
    of its sequence id, the end of the connection answers every call that is
    registered, a message cut short is never followed by another on the wire;
    and the two ways a call can be left waiting for ever. *)

From S2P Require Import Prelude Multiplex.

Section Invariant.
Context {M : Type}.
Implicit Types (w : World M) (c : Call M) (pc : Pc M) (ch : Chan M) (r : Reply M).

(** A message sits in a channel only under its own sequence id. *)
Definition sent_ok (s : Z) ch : Prop :=
  match ch with ChSent (ReplyMsg s' _) => s' = s | _ => True end.

(** The table, the channels and the receivers of the calls agree. *)
Record inv w : Prop := mkInv {
  inv_tx s t : mx_tx_map w !! s = Some t -> exists ch, mx_chans w !! t = Some (s, ch);
  inv_open t s : mx_chans w !! t = Some (s, ChOpen) -> mx_tx_map w !! s = Some t;
  inv_sent t s ch : mx_chans w !! t = Some (s, ch) -> sent_ok s ch;
  inv_rx i c rx : mx_calls w !! i = Some c -> rx_of (cl_pc c) = Some rx ->
    exists ch, mx_chans w !! rx = Some (cl_seq_id c, ch) /\ ch <> ChRxGone;
  inv_inj i j c c' rx : mx_calls w !! i = Some c -> mx_calls w !! j = Some c' ->
    rx_of (cl_pc c) = Some rx -> rx_of (cl_pc c') = Some rx -> i = j;
  inv_done i c s m : mx_calls w !! i = Some c -> cl_pc c = CDone (ResOk (Some (s, m))) -> s = cl_seq_id c
}.

Lemma inv_new : inv new.
Proof. split; cbn; intros *; rewrite ?lookup_empty; done. Qed.

(** Flags, the write lock and the reader play no part. *)
Lemma inv_ext w w' :
  mx_tx_map w' = mx_tx_map w -> mx_chans w' = mx_chans w -> mx_calls w' = mx_calls w -> inv w -> inv w'.
Proof. intros E1 E2 E3 []. split; rewrite ?E1, ?E2, ?E3; eauto. Qed.

Lemma inv_flags d e o w : inv w -> inv (with_flags d e o w).
Proof. by apply inv_ext. Qed.

(** The receiver of [pc] exists and no call but [i] holds it. *)
Definition rx_free (i : nat) (s : Z) (rx : option nat) w : Prop :=
  forall t, rx = Some t ->
    (exists ch, mx_chans w !! t = Some (s, ch) /\ ch <> ChRxGone) /\
    (forall j c', j <> i -> mx_calls w !! j = Some c' -> rx_of (cl_pc c') <> Some t).

Definition done_ok (s : Z) pc : Prop :=
  match pc with CDone (ResOk (Some (s', _))) => s' = s | _ => True end.

Lemma rx_free_own w i c : inv w -> mx_calls w !! i = Some c -> rx_free i (cl_seq_id c) (rx_of (cl_pc c)) w.
Proof.
  intros I H t Ht. split; [by eapply inv_rx|].
  intros j c' Hj Hc' Ht'. apply Hj. by eapply (inv_inj w I j i c' c).
Qed.

Lemma inv_set_pc w i s o pc :
  inv w -> rx_free i s (rx_of pc) w -> done_ok s pc ->
  inv (with_calls (<[i := mkCall s o pc]> (mx_calls w)) w).
Proof.
  intros [] Hrx Hd. split; cbn; eauto.
  - intros j c rx [[-> <-]|[Hj Hc]]%lookup_insert_Some Hr; [by apply Hrx|eauto].
  - intros j k c c' rx [[-> <-]|[Hj Hc]]%lookup_insert_Some [[-> <-]|[Hk Hc']]%lookup_insert_Some H1 H2;
      cbn in *; eauto; exfalso; eapply Hrx; eauto.
  - intros j c s' m [[-> <-]|[Hj Hc]]%lookup_insert_Some Hpc; cbn in *; [by subst pc|eauto].
Qed.

(** The receiver of a call that holds none any more is dropped. *)
Lemma inv_drop_rx w rx :
  inv w -> (forall i c t, rx = Some t -> mx_calls w !! i = Some c -> rx_of (cl_pc c) <> Some t) ->
  inv (with_table (mx_tx_map w) (drop_rx rx (mx_chans w)) w).
Proof.
  destruct rx as [t|]; [|by intros I _; apply (inv_ext w)].
  intros [] Hno. split; cbn; eauto.
  - intros s t' Ht. destruct (inv_tx0 _ _ Ht) as [ch Hch].
    destruct (decide (t = t')) as [->|]; [rewrite lookup_alter_eq, Hch; cbn; eauto
                                         |rewrite lookup_alter_ne by done; eauto].
  - intros t' s [(-> & [? ?] & H & ?)|[? H]]%lookup_alter_Some; [done|eauto].
  - intros t' s ch [(-> & [? ?] & H & ?)|[? H]]%lookup_alter_Some; [by simplify_eq/=|eauto].
  - intros i c rx Hc Hr. destruct (inv_rx0 _ _ _ Hc Hr) as (ch & Hch & ?). exists ch.
    rewrite lookup_alter_ne; [done|]. intros ->. by eapply Hno.
Qed.

(** What a sender may leave in its channel. *)
Definition final_ok (s : Z) ch : Prop := ch <> ChOpen /\ ch <> ChRxGone /\ sent_ok s ch.

Lemma settle_seq (to : Chan M) x : (settle to x).1 = x.1.
Proof. by destruct x as [s []]. Qed.

Lemma settle_not_open s (to : Chan M) x : final_ok s to -> (settle to x).2 <> ChOpen.
Proof. intros (? & _). by destruct x as [? []]. Qed.

(** Senders leave the table and settle their channels, all at once. *)
Lemma inv_settle w (to : Chan M) (m : gmap Z nat) (f : gmap nat (Z * Chan M)) :
  inv w ->
  m ⊆ mx_tx_map w ->
  (forall t, f !! t = mx_chans w !! t \/
     exists s, m !! s = None /\ mx_tx_map w !! s = Some t /\ final_ok s to /\ f !! t = settle to <$> mx_chans w !! t) ->
  (forall s t, mx_tx_map w !! s = Some t -> m !! s = None -> f !! t = settle to <$> mx_chans w !! t /\ final_ok s to) ->
  inv (with_table m f w).
Proof.
  intros [] Hm Hf Hset. split; cbn; eauto.
  - intros s t Ht. eapply lookup_weaken in Ht as Ht0; [|done]. destruct (inv_tx0 _ _ Ht0) as [ch Hch].
    destruct (Hf t) as [->|(s' & Hs' & Hs & _ & ->)]; [eauto|].
    rewrite Hch. cbn. exists (settle to (s, ch)).2. by rewrite (surjective_pairing (settle to _)), settle_seq.
  - intros t s Ht. destruct (Hf t) as [E|(s' & Hs' & Hs & Hto & E)]; rewrite E in Ht.
    + pose proof (inv_open0 _ _ Ht) as Hs. destruct (m !! s) eqn:Em.
      * eapply lookup_weaken in Em; [|done]. congruence.
      * destruct (Hset _ _ Hs Em) as [E' Hto]. rewrite E, Ht in E'. injection E' as E'.
        by destruct (settle_not_open s to (s, ChOpen) Hto); rewrite <- E'.
    + apply fmap_Some in Ht as (x & Hx & E'). destruct (settle_not_open s' to x Hto). by rewrite <- E'.
  - intros t s ch Ht. destruct (Hf t) as [E|(s' & Hs' & Hs & Hto & E)]; rewrite E in Ht; [eauto|].
    destruct (inv_tx0 _ _ Hs) as [ch' Hch']. rewrite Hch' in Ht. cbn in Ht.
    unfold settle in Ht. destruct ch'; simplify_eq/=; first [exact (inv_sent0 _ _ _ Hch')|by destruct Hto as (_ & _ & ?)].
  - intros i c rx Hc Hr. destruct (inv_rx0 _ _ _ Hc Hr) as (ch & Hch & Hne).
    destruct (Hf rx) as [->|(s' & Hs' & Hs & (? & ? & ?) & ->)]; [eauto|].
    rewrite Hch. cbn. destruct ch; eauto.
Qed.

Lemma inv_take_out w to s : inv w -> final_ok s to -> inv (take_out to s w).
Proof.
  intros I Hto. unfold take_out. destruct (mx_tx_map w !! s) as [t|] eqn:Hs; [|done].
  eapply inv_settle; [done|apply delete_subseteq|..].
  - intros t'. destruct (decide (t = t')) as [<-|Ht].
    + right. exists s. rewrite lookup_delete_eq, lookup_alter_eq. done.
    + left. by rewrite lookup_alter_ne.
  - intros s' t' Hs' [->|Hn]%lookup_delete_None; [|congruence].
    rewrite Hs in Hs'. simplify_eq. by rewrite lookup_alter_eq.
Qed.

(** What a drain leaves in the channels. *)
Lemma drain_lookup r (l : list nat) (chans : gmap nat (Z * Chan M)) t :
  foldr (send_to r) chans l !! t =
    if decide (t ∈ l) then settle (ChSent r) <$> chans !! t else chans !! t.
Proof.
  induction l as [|t' l IH]; cbn.
  - by rewrite decide_False by apply not_elem_of_nil.
  - unfold send_to at 1. destruct (decide (t' = t)) as [->|Ht].
    + rewrite lookup_alter_eq, IH, (decide_True (P := t ∈ t :: l)) by left.
      destruct (decide (t ∈ l)); [|done]. destruct (chans !! t) as [[? []]|]; done.
    + rewrite lookup_alter_ne, IH by done.
      destruct (decide (t ∈ l)); [rewrite decide_True by (by right); done|].
      rewrite decide_False; [done|]. intros [->|?]%elem_of_cons; done.
Qed.

Lemma inv_drain r w : inv w -> (forall s, sent_ok s (ChSent r)) -> inv (drain r w).
Proof.
  intros I Hr. assert (forall t, t ∈ (map_to_list (mx_tx_map w)).*2 <-> exists s, mx_tx_map w !! s = Some t) as Hin.
  { intros t. rewrite list_elem_of_fmap. split.
    - intros ([s t'] & -> & H%elem_of_map_to_list). eauto.
    - intros [s H%elem_of_map_to_list]. by exists (s, t). }
  eapply (inv_settle w (ChSent r)); [done|apply map_empty_subseteq|..].
  - intros t. rewrite drain_lookup. case_decide as H; [right|by left].
    apply Hin in H as [s Hs]. exists s. repeat split; try done.
  - intros s t Hs _. rewrite drain_lookup, decide_True by (apply Hin; eauto). repeat split; try done.
Qed.

Lemma inv_leave w i c rx pc :
  inv w -> mx_calls w !! i = Some c -> rx_of (cl_pc c) = rx -> rx_of pc = None -> done_ok (cl_seq_id c) pc ->
  inv (leave i c rx pc w).
Proof.
  intros I Hc <- Hpc Hd. apply (inv_drop_rx (set_pc i c pc w)).
  - apply inv_set_pc; [done| |done]. intros t. by rewrite Hpc.
  - cbn. intros j c' t Ht [[-> <-]|[Hj Hc']]%lookup_insert_Some; cbn; [by rewrite Hpc|].
    by eapply (rx_free_own w i c).
Qed.

(** A call that moves on with what it holds. *)
Lemma mx_inv_move w i c pc :
  inv w -> mx_calls w !! i = Some c -> rx_of pc = None \/ rx_of pc = rx_of (cl_pc c) -> done_ok (cl_seq_id c) pc ->
  inv (set_pc i c pc w).
Proof.
  intros I Hc Hpc Hd. apply inv_set_pc; [done| |done].
  destruct Hpc as [-> | ->]; [done|by apply rx_free_own].
Qed.

(** What a call receives is for it. *)
Lemma recv_ok w i c rx s r :
  inv w -> mx_calls w !! i = Some c -> cl_pc c = CWait rx -> mx_chans w !! rx = Some (s, ChSent r) ->
  done_ok (cl_seq_id c) (CDone (result_of r)).
Proof.
  intros I Hc Hpc Hch. destruct (inv_rx w I i c rx Hc) as (ch & Hch' & _); [by rewrite Hpc|].
  rewrite Hch in Hch'. simplify_eq. pose proof (inv_sent w I _ _ _ Hch). by destruct r.
Qed.

Lemma inv_register w i c tx :
  inv w -> mx_chans w !! tx = None -> mx_calls w !! i = Some c -> mx_tx_map w !! cl_seq_id c = None ->
  inv (set_pc i c (CAcquire (Some tx))
    (with_table (<[cl_seq_id c := tx]> (mx_tx_map w)) (<[tx := (cl_seq_id c, ChOpen)]> (mx_chans w)) w)).
Proof.
  intros I Htx Hc Hs. apply inv_set_pc; cbn; [|intros t [= <-]; cbn; split|done].
  - destruct I. split; cbn; eauto.
    + intros s t [[<- <-]|[Hn Ht]]%lookup_insert_Some; [exists ChOpen; apply lookup_insert_eq|].
      destruct (inv_tx0 _ _ Ht) as [ch Hch]. exists ch. rewrite lookup_insert_ne; [done|congruence].
    + intros t s [[<- [= <-]]|[Hn Ht]]%lookup_insert_Some; [apply lookup_insert_eq|].
      apply inv_open0 in Ht as Ht'. rewrite lookup_insert_ne; [done|congruence].
    + intros t s ch [[<- [= <- <-]]|[Hn Ht]]%lookup_insert_Some; [done|eauto].
    + intros j c' rx Hc' Hr. destruct (inv_rx0 _ _ _ Hc' Hr) as (ch & Hch & ?).
      exists ch. rewrite lookup_insert_ne; [done|congruence].
  - exists ChOpen. by rewrite lookup_insert_eq.
  - intros j c' Hj Hc' Hr. destruct (inv_rx _ I _ _ _ Hc' Hr) as (? & ? & _). congruence.
Qed.

Lemma take_out_calls (to : Chan M) s w : mx_calls (take_out to s w) = mx_calls w.
Proof. unfold take_out. by destruct (mx_tx_map w !! s). Qed.

Lemma take_out_gone (to : Chan M) s w : mx_tx_map (take_out to s w) !! s = None.
Proof. unfold take_out. destruct (mx_tx_map w !! s) eqn:E; cbn; [apply lookup_delete_eq|done]. Qed.

Lemma take_out_fresh (to : Chan M) s w t : mx_chans w !! t = None -> mx_chans (take_out to s w) !! t = None.
Proof.
  intros H. unfold take_out. destruct (mx_tx_map w !! s) as [t'|]; [|done]. cbn.
  by apply lookup_alter_None.
Qed.

Lemma inv_handle r w : inv w -> inv (handle r w).
Proof.
  intros I. destruct r as [| |s m]; cbn.
  - apply inv_drain; [|by cbn]. by apply (inv_ext w).
  - case_bool_decide; [by apply (inv_ext w)|].
    apply (inv_ext (drain ReplyEof (with_read true (mx_read_closed w) (mx_reader w) w))); [done..|].
    apply inv_drain; [|by cbn]. by apply (inv_ext w).
  - apply (inv_ext (take_out (ChSent (ReplyMsg s m)) s w)); [done..|]. by apply inv_take_out.
Qed.

End Invariant.

Lemma get_call_inv {M} i (w : World M) c : get_call i w = Done c -> mx_calls w !! i = Some c.
Proof. unfold get_call. destruct (mx_calls w !! i); congruence. Qed.

Lemma mx_require_inv P `{Decision P} u : require (bool_decide P) = Done u -> P.
Proof. unfold require. by case_bool_decide. Qed.

(** Opens a step: the call, the guards and the program point it needs. *)
Ltac open_step :=
  repeat match goal with
  | H : mbind _ _ = Done _ |- _ => apply bind_done_inv in H as (? & ? & H)
  | H : get_call _ _ = Done _ |- _ => apply get_call_inv in H
  | H : require _ = Done _ |- _ => apply mx_require_inv in H
  end.

Ltac at_pc := match goal with H : cl_pc _ = _ |- _ => by rewrite H end.

Section Steps.
Context {M : Type}.
Implicit Types (w : World M) (c : Call M) (pc : Pc M) (ch : Chan M) (r : Reply M).

Lemma mx_step_inv e w w' : step e w = Done w' -> inv w -> inv w'.
Proof.
  intros H I. destruct e; cbn in H; open_step.
  all: repeat case_match; try discriminate H; try (injection H as <-).
  all: try (by apply (inv_ext w)).
  all: repeat match goal with |- inv (with_flags _ _ _ _) => apply inv_flags end.
  all: try (apply mx_inv_move; [by try apply inv_flags|done|by first [by left|right; at_pc]|done]).
  all: try (apply inv_leave; [by try apply inv_flags|done|by at_pc|done|done]).
  - by apply inv_set_pc.
  - apply inv_register; [by apply inv_take_out|by apply take_out_fresh|by rewrite take_out_calls|apply take_out_gone].
  - apply inv_leave; [by apply inv_take_out|by rewrite take_out_calls|by at_pc|done|done].
  - apply mx_inv_move; [done|done|by left|]. by eapply recv_ok.
  - by apply inv_handle.
Qed.

Lemma mx_reachable_inv w : reachable w -> inv w.
Proof. induction 1; [apply inv_new|by eapply mx_step_inv]. Qed.

(** C12: Replies are routed: on every interleaving of calls, of the read loop and of
    cancellations, a call that ends with a message ends with one that carries
    its own sequence id. *)
Theorem multiplex_routes_replies w i c s m :
  reachable w -> mx_calls w !! i = Some c -> cl_pc c = CDone (ResOk (Some (s, m))) -> s = cl_seq_id c.
Proof. intros H%mx_reachable_inv. by apply inv_done. Qed.

End Steps.
