(* ===== verification/MultiplexLiveness.v ===== *)
(** Which calls of the multiplex transport make progress: the end of the
    connection answers every registered call, a write that was cut short keeps
    every later call off the wire, and two interleavings leave a call waiting
    for ever. *)

From S2P Require Import Prelude Multiplex MultiplexSafety.

Section Liveness.
Context {M : Type}.
Implicit Types (w : World M) (c : Call M) (pc : Pc M) (ch : Chan M) (r : Reply M) (e : Event M).

(** A property kept by every step is kept by every run. *)
Lemma run_keeps (P : World M -> Prop) (ok : Event M -> Prop) es w w' :
  (forall e w w', ok e -> step e w = Done w' -> P w -> P w') ->
  Forall ok es -> run es w = Done w' -> P w -> P w'.
Proof.
  intros Hstep Hok. revert w. induction Hok as [|e es He _ IH]; cbn; intros w H Hw.
  - by injection H as ->.
  - apply bind_done_inv in H as (w1 & H1 & H). eauto.
Qed.

Lemma run_reachable es w w' : run es w = Done w' -> reachable w -> reachable w'.
Proof.
  intros H. eapply (run_keeps reachable (fun _ => True)); [|by apply Forall_true|done].
  intros e w0 w1 _ Hs Hw. by eapply reachable_step.
Qed.

Lemma run_new_reachable es w : run es new = Done w -> reachable w.
Proof. intros H. eapply run_reachable; [done|apply reachable_new]. Qed.

Lemma handle_clears r w :
  r = ReplyErr \/ r = ReplyEof -> mx_tx_map (handle r w) = ∅.
Proof. intros [-> | ->]; cbn; [done|]. by case_bool_decide. Qed.

(** C25: When the read loop ends on an error or at the end of the connection, no
    registered call is forgotten: each call that waits can take its answer. *)
Theorem reader_end_answers_all w r w' i c rx :
  reachable w -> mx_reader w = RGot r -> r = ReplyErr \/ r = ReplyEof ->
  step EHandle w = Done w' -> mx_calls w' !! i = Some c -> cl_pc c = CWait rx ->
  exists res, step (ERecv i) w' = Done (set_pc i c (CDone res) w').
Proof.
  intros Hw Hr Hend Hs Hc Hpc.
  assert (inv w') as I by (eapply mx_step_inv; [done|by apply mx_reachable_inv]).
  cbn in Hs. rewrite Hr in Hs. injection Hs as Hw'.
  destruct (inv_rx w' I i c rx Hc) as (ch & Hch & Hgone); [by rewrite Hpc|].
  cbn. unfold get_call. rewrite Hc. cbn. rewrite Hpc, Hch. destruct ch; eauto; [|done].
  apply (inv_open w' I) in Hch. rewrite <- Hw', handle_clears in Hch; done.
Qed.

(** Who is writing. *)
Definition writing c : Prop := match cl_pc c with CWriting _ => True | _ => False end.

(** A step as the write half sees it: it stays as it is, a call takes it, or its
    holder gives it up. *)
Inductive lock_step w w' : Prop :=
| lock_same :
    mx_writer w' = mx_writer w -> mx_dirty w' = mx_dirty w ->
    (forall i c, mx_calls w' !! i = Some c -> writing c -> mx_calls w !! i = Some c) -> lock_step w w'
| lock_take i c :
    mx_writer w = None -> mx_dirty w = false -> mx_writer w' = Some i -> mx_dirty w' = true ->
    mx_calls w' = <[i := c]> (mx_calls w) -> lock_step w w'
| lock_give i c c' :
    mx_calls w !! i = Some c -> writing c -> mx_writer w' = None ->
    mx_calls w' = <[i := c']> (mx_calls w) -> ~ writing c' -> lock_step w w'.

Lemma lock_same_insert w w' i s o pc :
  mx_writer w' = mx_writer w -> mx_dirty w' = mx_dirty w ->
  mx_calls w' = <[i := mkCall s o pc]> (mx_calls w) -> ~ writing (mkCall s o pc) -> lock_step w w'.
Proof.
  intros H1 H2 H3 Hn. apply lock_same; [done..|].
  intros j c. rewrite H3. by intros [[_ <-]|[_ ?]]%lookup_insert_Some.
Qed.

Lemma lock_same_calls w w' :
  mx_writer w' = mx_writer w -> mx_dirty w' = mx_dirty w -> mx_calls w' = mx_calls w -> lock_step w w'.
Proof. intros H1 H2 H3. apply lock_same; [done..|]. by rewrite H3. Qed.

Lemma take_out_lock (to : Chan M) s w :
  mx_writer (take_out to s w) = mx_writer w /\ mx_dirty (take_out to s w) = mx_dirty w.
Proof. unfold take_out. by destruct (mx_tx_map w !! s). Qed.

Lemma handle_lock r w : lock_step w (handle r w).
Proof.
  destruct r as [| |s m]; apply lock_same_calls; cbn; try done; try (by case_bool_decide).
  - apply take_out_lock.
  - apply take_out_lock.
  - apply take_out_calls.
Qed.

Lemma step_lock e w w' : step e w = Done w' -> lock_step w w'.
Proof.
  intros H. destruct e; cbn in H; open_step.
  all: repeat case_match; try discriminate H; try (injection H as <-).
  all: try (by eapply lock_same_insert; [reflexivity..|intros []]).
  all: try (by apply lock_same_calls).
  all: try (by eapply lock_take).
  all: try (by eapply lock_give; [done|unfold writing; at_pc|reflexivity|reflexivity|intros []]).
  all: try apply handle_lock.
  all: destruct (take_out_lock ChTxGone (cl_seq_id x) w) as [E1 E2].
  - eapply lock_same_insert; [exact E1|exact E2|cbn; by rewrite take_out_calls|intros []].
  - eapply lock_same_insert; [by cbn|by cbn|reflexivity|intros []].
  - eapply lock_same_insert; [exact E1|exact E2|cbn; by rewrite take_out_calls|intros []].
Qed.

(** The write half has at most one user, and the connection is dirty meanwhile. *)
Definition lock_ok w : Prop :=
  forall i c, mx_calls w !! i = Some c -> writing c -> mx_writer w = Some i /\ mx_dirty w = true.

Lemma lock_step_ok w w' : lock_step w w' -> lock_ok w -> lock_ok w'.
Proof.
  intros [H1 H2 H3|i c H1 H2 H3 H4 H5|i c c' H1 H2 H3 H4 H5] L j d.
  - rewrite H1, H2. eauto.
  - rewrite H5, H3. intros [[<- <-]|[Hj Hd]]%lookup_insert_Some Hw; [done|].
    destruct (L j d Hd Hw). congruence.
  - rewrite H4. intros [[<- <-]|[Hj Hd]]%lookup_insert_Some Hw; [done|].
    destruct (L j d Hd Hw), (L i c H1 H2). congruence.
Qed.

Lemma reachable_lock w : reachable w -> lock_ok w.
Proof.
  induction 1 as [|w e w' _ IH Hs]; [intros i c; cbn; by rewrite lookup_empty|].
  eapply lock_step_ok; [by eapply step_lock|done].
Qed.

(** A message was cut short: the connection is dirty and no call has the write half. *)
Record poisoned w : Prop := mkPoisoned {
  po_dirty : mx_dirty w = true;
  po_free : mx_writer w = None;
  po_idle i c : mx_calls w !! i = Some c -> ~ writing c
}.

Lemma poisoned_stays w w' : lock_step w w' -> poisoned w -> poisoned w'.
Proof.
  intros [H1 H2 H3|i c H1 H2 H3 H4 H5|i c c' H1 H2 H3 H4 H5] [Hd Hf Hi].
  - split; [congruence..|]. intros i c Hc Hw. exact (Hi i c (H3 i c Hc Hw) Hw).
  - congruence.
  - by destruct (Hi i c).
Qed.

Lemma cancel_poisons w w' i c :
  lock_ok w -> mx_calls w !! i = Some c -> writing c -> step (ECancel i) w = Done w' -> poisoned w'.
Proof.
  intros L Hc Hw Hs. destruct (L i c Hc Hw) as [Hi Hd]. cbn in Hs. open_step.
  unfold writing in Hw. rewrite Hc in H. injection H as <-. destruct (cl_pc c); try done.
  injection Hs as <-. split; cbn; [done..|].
  intros j d [[<- <-]|[Hj Hj']]%lookup_insert_Some Hw'; [done|]. destruct (L j d Hj' Hw'). congruence.
Qed.

(** A call dropped in the middle of its write poisons the connection for good: in
    every continuation no call writes again, so a message cut short is never
    followed by another one, and a call that gets the write half is told the
    connection is dirty and marks it not reusable. *)
Theorem cut_message_is_last w i c w1 es w2 :
  reachable w -> mx_calls w !! i = Some c -> writing c -> step (ECancel i) w = Done w1 -> run es w1 = Done w2 ->
  (forall j d, mx_calls w2 !! j = Some d -> ~ writing d) /\
  (forall j d rx, mx_calls w2 !! j = Some d -> cl_pc d = CAcquire rx ->
     exists w3, step (EAcquire j) w2 = Done w3 /\ mx_write_error w3 = true /\
       mx_calls w3 !! j = Some (mkCall (cl_seq_id d) (cl_oneway d) (CDone (ResErr ConnectionDirty)))).
Proof.
  intros Hr Hc Hw Hs Hrun.
  assert (poisoned w2) as [Hd Hf Hi].
  { eapply (run_keeps poisoned (fun _ => True)); [|by apply Forall_true|done|].
    - intros e w3 w4 _ H. by apply poisoned_stays, step_lock with e.
    - by eapply cancel_poisons; [apply reachable_lock|..]. }
  split; [done|]. intros j d rx Hj Hpc. cbn. unfold get_call. rewrite Hj. cbn.
  rewrite bool_decide_eq_true_2 by done. cbn. rewrite Hpc, Hd. eexists. split; [done|].
  split; [done|]. cbn. apply lookup_insert_eq.
Qed.

(** The state of call [i] no step of the others can change: it waits, its
    channel is open and the read loop is over. *)
Definition waits_on (i rx : nat) (s : Z) w : Prop :=
  mx_reader w = REnded /\ mx_chans w !! rx = Some (s, ChOpen) /\
  (exists c, mx_calls w !! i = Some c /\ cl_pc c = CWait rx) /\
  (forall j c, mx_calls w !! j = Some c -> j <> i -> cl_seq_id c <> s).

(** Events that neither drop call [i] nor start another call under its id. *)
Definition leaves_alone (i : nat) (s : Z) e : Prop :=
  match e with ECancel j => j <> i | EStart _ s' _ => s' <> s | _ => True end.

Lemma waits_on_calls i rx s w j c pc :
  waits_on i rx s w -> mx_calls w !! j = Some c -> j <> i ->
  waits_on i rx s (set_pc j c pc w).
Proof.
  intros (Hr & Hch & (d & Hd & Hpc) & Hs) Hj Hji. repeat split; cbn; try done.
  - exists d. by rewrite lookup_insert_ne.
  - intros k c' [[<- <-]|[Hk Hc']]%lookup_insert_Some Hki; cbn; eauto.
Qed.

Lemma waits_on_take_out i rx s w to s' :
  inv w -> waits_on i rx s w -> s' <> s -> waits_on i rx s (take_out to s' w).
Proof.
  intros I (Hr & Hch & Hc & Hs) Hn. unfold take_out. destruct (mx_tx_map w !! s') as [t|] eqn:Ht; [|done].
  destruct (inv_tx w I _ _ Ht) as [ch Hch']. repeat split; cbn; try done.
  rewrite lookup_alter_ne; congruence.
Qed.

Lemma waits_on_leave i rx s w j c t pc :
  inv w -> waits_on i rx s w -> mx_calls w !! j = Some c -> rx_of (cl_pc c) = t -> j <> i ->
  waits_on i rx s (leave j c t pc w).
Proof.
  intros I W Hj Ht Hji. destruct (waits_on_calls i rx s w j c pc W Hj Hji) as (H1 & H2 & H3 & H4).
  destruct W as (_ & _ & (d & Hd & Hpc) & _).
  repeat split; try done. cbn. destruct t as [t|]; [|done].
  cbn. rewrite lookup_alter_ne; [done|]. intros ->.
  apply Hji. eapply (inv_inj w I j i c d rx); try done. by rewrite Hpc.
Qed.

Lemma waits_on_flags i rx s w d we o : waits_on i rx s w -> waits_on i rx s (with_flags d we o w).
Proof. done. Qed.

Lemma waits_on_step i rx s e w w' :
  inv w -> leaves_alone i s e -> step e w = Done w' -> waits_on i rx s w -> waits_on i rx s w'.
Proof.
  intros I Hok H W. pose proof W as (Hr & Hch & (d & Hd & Hpc) & Hs). destruct e; cbn in H, Hok; open_step.
  all: try (rewrite Hr in H; discriminate H).
  all: repeat case_match; try discriminate H; try (injection H as <-).
  all: try (assert (i0 <> i) as Hne by (intros ->; assert (x = d) by congruence; subst; congruence)).
  all: repeat match goal with |- waits_on _ _ _ (with_flags _ _ _ _) => apply waits_on_flags end.
  all: try (by apply waits_on_calls; [try apply waits_on_flags|..]).
  all: try (by apply waits_on_leave; [try apply inv_flags|try apply waits_on_flags|done|at_pc|done]).
  - repeat split; cbn; try done.
    + exists d. rewrite lookup_insert_ne; [done|congruence].
    + intros k c' [[<- <-]|[Hk Hc']]%lookup_insert_Some Hki; cbn; eauto.
  - assert (cl_seq_id x <> s) as Hx by eauto.
    apply (waits_on_take_out _ _ _ _ ChTxGone _ I W) in Hx as (K1 & K2 & K3 & K4).
    apply waits_on_calls; [|by cbn; rewrite take_out_calls|done]. repeat split; try done.
    cbn. rewrite lookup_insert_ne; [done|congruence].
  - apply waits_on_leave; [by apply inv_take_out|apply waits_on_take_out; eauto|by rewrite take_out_calls|at_pc|done].
Qed.

(** Call [i] waits and whatever else happens, short of dropping it or reusing
    its sequence id, it goes on waiting. *)
Definition orphaned (i : nat) w : Prop :=
  exists c rx, mx_calls w !! i = Some c /\ cl_pc c = CWait rx /\
  forall es w', Forall (leaves_alone i (cl_seq_id c)) es -> run es w = Done w' ->
    exists c', mx_calls w' !! i = Some c' /\ cl_pc c' = CWait rx.

Lemma waits_on_orphaned i rx w c es0 :
  run es0 new = Done w -> mx_reader w = REnded -> mx_calls w !! i = Some c -> cl_pc c = CWait rx ->
  mx_chans w !! rx = Some (cl_seq_id c, ChOpen) ->
  map_Forall (fun j d => j = i \/ cl_seq_id d <> cl_seq_id c) (mx_calls w) -> orphaned i w.
Proof.
  intros Hw%run_new_reachable Hr Hc Hpc0 Hch Hall.
  assert (waits_on i rx (cl_seq_id c) w) as W.
  { repeat split; eauto. intros j d Hj Hji. by destruct (Hall j d Hj). } pose proof W as (_ & _ & (c' & Hc' & Hpc) & _). exists c, rx.
  rewrite Hc in Hc'. injection Hc' as <-. repeat split; [done..|]. intros es w' Hes Hrun.
  assert (reachable w' /\ waits_on i rx (cl_seq_id c) w') as (_ & _ & _ & H & _); [|done].
  eapply (run_keeps (fun w => reachable w /\ waits_on i rx (cl_seq_id c) w)); [|done..].
  intros e w1 w2 He Hs [Hre Hwait]. split; [by eapply reachable_step|].
  eapply waits_on_step; try done. by apply mx_reachable_inv.
Qed.

(** The end of the connection is seen between a call's check and its registration. *)
Definition late_registration : list (Event M) :=
  [EStart 0 7 false; ECheck 0; ECheck 0; ERead; EArrive ReplyEof; EHandle; ERegister 0 0; EAcquire 0; EWrote 0 true].

(** The read loop leaves because another call's write failed. *)
Definition write_error_break : list (Event M) :=
  [EStart 0 7 false; ECheck 0; ECheck 0; ERegister 0 0; EAcquire 0; EWrote 0 true;
   EStart 1 8 false; ECheck 1; ECheck 1; ERegister 1 1; EAcquire 1; EWrote 1 false; EFail 1; ERemove 1; ERead].

(** Two interleavings leave a call waiting for ever, whatever the peer and the
    other calls do next: the connection ends after the call passed its checks
    and before it registered, so the drain misses it; and the read loop, once
    another call's write has failed, leaves without answering the calls that
    are registered. *)
Theorem multiplex_orphans :
  (exists w, run late_registration new = Done w /\ orphaned 0 w) /\
  (exists w, run write_error_break new = Done w /\ orphaned 0 w).
Proof.
  split; eexists; (split; [vm_compute; reflexivity|]).
  - eapply (waits_on_orphaned 0 0 _ _ late_registration); [by vm_compute|done..|].
    eapply bool_decide_unpack. vm_compute. exact I.
  - eapply (waits_on_orphaned 0 0 _ _ write_error_break); [by vm_compute|done..|].
    eapply bool_decide_unpack. vm_compute. exact I.
Qed.

End Liveness.

(** * Concrete runs *)

Section Runs.

(** Two calls whose replies come back in the other order. *)
Definition two_calls : list (Event Z) :=
  [EStart 0 7 false; ECheck 0; ECheck 0; ERegister 0 0; EAcquire 0; EWrote 0 true;
   EStart 1 8 false; ECheck 1; ECheck 1; ERegister 1 1; EAcquire 1; EWrote 1 true;
   ERead; EArrive (ReplyMsg 8 80); EHandle; ERead; EArrive (ReplyMsg 7 70); EHandle; ERecv 0; ERecv 1].

Lemma multiplex_routes_replies_witness :
  exists w c, run two_calls new = Done w /\ mx_calls w !! 1%nat = Some c /\
    cl_pc c = CDone (ResOk (Some (8, 80))) /\ 8 = cl_seq_id c.
Proof.
  eexists _, _. split; [vm_compute; reflexivity|]. split; [vm_compute; reflexivity|]. split; [reflexivity|].
  eapply (multiplex_routes_replies _ 1%nat);
    [eapply (run_new_reachable two_calls); vm_compute; reflexivity
    |vm_compute; reflexivity|reflexivity].
Defined.

(** One call waits when the read loop meets the end of the connection. *)
Definition one_waits : list (Event Z) :=
  [EStart 0 7 false; ECheck 0; ECheck 0; ERegister 0 0; EAcquire 0; EWrote 0 true; ERead; EArrive ReplyEof].

Lemma reader_end_answers_all_witness :
  exists w w', run one_waits new = Done w /\ step EHandle w = Done w' /\
    exists c res, step (ERecv 0) w' = Done (set_pc 0 c (CDone res) w').
Proof.
  eexists _, _. split; [vm_compute; reflexivity|]. split; [vm_compute; reflexivity|].
  eexists. eapply (reader_end_answers_all _ ReplyEof);
    [eapply (run_new_reachable one_waits); vm_compute; reflexivity
    |reflexivity|by right|vm_compute; reflexivity..].
Defined.

(** A call is dropped while it writes; another one comes. *)
Definition cut_write : list (Event Z) := [EStart 0 7 false; ECheck 0; ECheck 0; ERegister 0 0; EAcquire 0].
Definition next_call : list (Event Z) := [EStart 1 8 false; ECheck 1; ECheck 1; ERegister 1 1].

Lemma cut_message_is_last_witness :
  exists w w1 w2, run cut_write new = Done w /\ step (ECancel 0) w = Done w1 /\ run next_call w1 = Done w2 /\
    exists w3, step (EAcquire 1) w2 = Done w3 /\ mx_write_error w3 = true.
Proof.
  eexists _, _, _. split; [vm_compute; reflexivity|]. split; [vm_compute; reflexivity|].
  split; [vm_compute; reflexivity|].
  edestruct (cut_message_is_last (M := Z)) with (i := 0%nat) (es := next_call) as [_ H];
    [eapply (run_new_reachable cut_write); vm_compute; reflexivity
    |vm_compute; reflexivity|vm_compute; exact I|vm_compute; reflexivity|vm_compute; reflexivity|].
  edestruct (H 1%nat) as (w3 & H1 & H2 & _); [vm_compute; reflexivity|reflexivity|]. by exists w3.
Defined.
End Runs.
