(* ===== verification/ThriftServer.v ===== *)
(** The ping-pong side of a Thrift connection: the server's loop
    (volo-thrift/src/transport/pingpong/server.rs), the client's transport
    (pingpong/thrift_transport.rs) and call (pingpong/client.rs), and the
    conversions between errors they use (volo-thrift/src/error.rs).

    Encoder, decoder and handler are parameters, as they are type parameters of
    the code. What the loop does outwards is kept as a log. *)

From S2P Require Import Prelude Net Context BufReader TTHeader Codec.

(** * Errors *)

(** [pilota::thrift::ApplicationException]: kind and message. *)
Abbreviation AppExn := (Z * bytes)%type.

Definition INTERNAL_ERROR : Z := 6.
Definition PROTOCOL_ERROR : Z := 7.
Definition BAD_SEQUENCE_ID : Z := 4.

Inductive ServerError : Type := SApplication (e : AppExn) | SBiz (e : BizError).

Section Errors.
(** The text of a business error with its map in some order, and of a transport
    or protocol exception. *)
Context (biz_text : BizError -> bytes) (exn_text : ThriftException -> bytes).

Definition biz_exception (e : BizError) : AppExn := (INTERNAL_ERROR, biz_text e).

Definition server_error_to_application_exception (e : ServerError) : AppExn :=
  match e with SApplication e => e | SBiz e => biz_exception e end.

Definition thrift_exception_to_application_exception (e : ThriftException) : AppExn :=
  match e with
  | ApplicationException kind msg => (kind, msg)
  | TransportException _ => (INTERNAL_ERROR, exn_text e)
  | ProtocolException _ _ => (PROTOCOL_ERROR, exn_text e)
  end.
End Errors.

(** * The server *)

Section Serve.
Context {Dec Enc Svc Req Resp Info : Type}.

(** What a decoder yields. *)
Inductive Decoded : Type :=
| DMsg (m : ThriftMessage Req AppExn)
| DEof
| DErr (e : ThriftException).

(** The parameters of [serve]; [sp_clear] empties the metainfo. *)
Record ServeParams : Type := mkServeParams {
  sp_decode : Dec -> ServerContext -> Info -> Dec * ServerContext * Info * Decoded;
  sp_encode : Enc -> ServerContext -> Info -> ThriftMessage Resp AppExn -> Enc * ServerContext * Info * option ThriftException;
  sp_call : Svc -> ServerContext -> Info -> Req -> Svc * ServerContext * Info * (Resp + ServerError);
  sp_clear : Info -> Info;
  sp_biz_text : BizError -> bytes;
  sp_exn_text : ThriftException -> bytes;
  sp_peer_addr : option Address;
  sp_capacity : nat
}.

Context (sp : ServeParams).

(** What can be seen of the loop: a handler was called, a message was written
    or failed to be, the statistics were traced. *)
Inductive Logged : Type :=
| LCall (cx : ServerContext) (m : ThriftMessage Req AppExn)
| LSent (m : ThriftMessage Resp AppExn)
| LSendFailed (m : ThriftMessage Resp AppExn)
| LTraced (cx : ServerContext).

Record Server : Type := mkServer {
  sv_dec : Dec; sv_enc : Enc; sv_svc : Svc; sv_info : Info;
  sv_cache : list ServerContext; sv_log : list Logged }.

(** What the surroundings do in a turn: the shutdown notification may come before
    a message is complete; the exit mark is what is read after the handler. *)
Record Turn : Type := mkTurn { tn_notified : bool; tn_exit : bool; tn_start : Z; tn_end : Z }.

(** [SERVER_CONTEXT_CACHE]'s [pop().unwrap_or_default()], with the peer's address. *)
Definition take_context (s : Server) : ServerContext * list ServerContext :=
  let '(cx, cache) :=
    match sv_cache s with
    | [] => (ServerContext.default, [])
    | cx :: cache => (cx, cache)
    end in
  (match sp_peer_addr sp with
   | Some a => RpcCx.rpc_info_mut (RpcInfo.caller_mut (Endpoint.set_address a)) cx
   | None => cx
   end, cache).

(** The context is put back, reset, while there is room. *)
Definition put_context (cx : ServerContext) (cache : list ServerContext) : list ServerContext :=
  if (length cache <? sp_capacity sp)%nat
  then RpcCx.reset (cx_inner ServerContext.default) cx :: cache
  else cache.

Definition set_msg_type (t : TMessageType) (cx : ServerContext) : ServerContext :=
  RpcCx.inner_mut (fun i => mkServerCxInner (s_seq_id i) (s_req_msg_type i) (Some t) (s_conn_reset i)
                              (s_idl_service_name i) (s_stats i) (s_common_stats i)) cx.

Definition record_process_start_at (t : Z) (cx : ServerContext) : ServerContext :=
  RpcCx.inner_mut (fun i => mkServerCxInner (s_seq_id i) (s_req_msg_type i) (s_msg_type i) (s_conn_reset i)
                              (s_idl_service_name i) (mkPhaseStats (Some t) (phase_end_at (s_stats i)))
                              (s_common_stats i)) cx.
Definition record_process_end_at (t : Z) (cx : ServerContext) : ServerContext :=
  RpcCx.inner_mut (fun i => mkServerCxInner (s_seq_id i) (s_req_msg_type i) (s_msg_type i) (s_conn_reset i)
                              (s_idl_service_name i) (mkPhaseStats (phase_start_at (s_stats i)) (Some t))
                              (s_common_stats i)) cx.

Definition set_conn_reset (b : bool) (cx : ServerContext) : ServerContext :=
  RpcCx.inner_mut (fun i => mkServerCxInner (s_seq_id i) (s_req_msg_type i) (s_msg_type i) b
                              (s_idl_service_name i) (s_stats i) (s_common_stats i)) cx.

(** A message is written: the context after it and whether it failed. *)
Definition send (m : ThriftMessage Resp AppExn) (cx : ServerContext) (s : Server) : Server * ServerContext * bool :=
  let '(enc, cx, info, r) := sp_encode sp (sv_enc s) cx (sv_info s) m in
  (mkServer (sv_dec s) enc (sv_svc s) info (sv_cache s)
     (sv_log s ++ [match r with Some _ => LSendFailed m | None => LSent m end]), cx,
   match r with Some _ => true | None => false end).

Definition log (l : Logged) (s : Server) : Server :=
  mkServer (sv_dec s) (sv_enc s) (sv_svc s) (sv_info s) (sv_cache s) (sv_log s ++ [l]).

(** The end of a turn that went well. *)
Definition recycle (cx : ServerContext) (s : Server) : Server :=
  let s := log (LTraced cx) s in
  mkServer (sv_dec s) (sv_enc s) (sv_svc s) (sp_clear sp (sv_info s)) (put_context cx (sv_cache s)) (sv_log s).

(** A request: [true] when the loop goes on. *)
Definition handle_request (t : Turn) (cx : ServerContext) (m : ThriftMessage Req AppExn) (req : Req) (s : Server) :
    outcome unit (Server * bool) :=
  let cx := record_process_start_at (tn_start t) cx in
  let '(svc, cx', info, r) := sp_call sp (sv_svc s) cx (sv_info s) req in
  let s := mkServer (sv_dec s) (sv_enc s) svc info (sv_cache s) (sv_log s ++ [LCall cx m]) in
  let cx := record_process_end_at (tn_end t) cx' in
  let cx := if tn_exit t then set_conn_reset true cx else cx in
  match s_req_msg_type (cx_inner cx) with
  | None => Panic
  | Some OneWay => if s_conn_reset (cx_inner cx) then Done (s, false) else Done (recycle cx s, true)
  | Some _ =>
      let cx := set_msg_type (match r with inl _ => Reply | inr _ => Exception end) cx in
      let resp := match r with
                  | inl resp => inl resp
                  | inr e => inr (server_error_to_application_exception (sp_biz_text sp) e)
                  end in
      let '(s, cx, failed) := send (mk_server_resp cx resp) cx s in
      if failed : bool then Done (log (LTraced cx) s, false)
      else if s_conn_reset (cx_inner cx) then Done (s, false)
      else Done (recycle cx s, true)
  end.

(** A message that could not be decoded: the peer is told, unless the transport
    failed, and the connection is given up. *)
Definition handle_error (cx : ServerContext) (e : ThriftException) (s : Server) : Server :=
  let cx := set_conn_reset true (set_msg_type Exception cx) in
  let '(s, cx) :=
    match e with
    | TransportException _ => (s, cx)
    | _ =>
        let m := mk_server_resp cx (inr (thrift_exception_to_application_exception (sp_exn_text sp) e)) in
        let '(s, cx, _) := send m cx s in (s, cx)
    end in
  log (LTraced cx) s.

(** One turn of the loop: [true] when there is another. *)
Definition serve_turn (t : Turn) (s : Server) : outcome unit (Server * bool) :=
  let '(cx, cache) := take_context s in
  if tn_notified t then Done (mkServer (sv_dec s) (sv_enc s) (sv_svc s) (sv_info s) cache (sv_log s), false)
  else
    let '(dec, cx, info, d) := sp_decode sp (sv_dec s) cx (sv_info s) in
    let s := mkServer dec (sv_enc s) (sv_svc s) info cache (sv_log s) in
    match d with
    | DMsg m => match tm_data m with inl req => handle_request t cx m req s | inr _ => Panic end
    | DEof => Done (s, false)
    | DErr e => Done (handle_error cx e s, false)
    end.

(** [serve], as far as the given turns go; [true]: it would take another one. *)
Fixpoint serve (turns : list Turn) (s : Server) : outcome unit (Server * bool) :=
  match turns with
  | [] => Done (s, true)
  | t :: turns =>
      '(s, more) ← serve_turn t s;
      if more : bool then serve turns s else Done (s, false)
  end.
End Serve.
Arguments ServeParams Dec Enc Svc Req Resp Info : clear implicits.
Arguments Server Dec Enc Svc Req Resp Info : clear implicits.
Arguments Logged Req Resp : clear implicits.
Arguments Decoded Req : clear implicits.

(** * The client *)

Inductive ClientError : Type :=
| CApplication (e : AppExn)
| CTransport (msg : bytes)
| CProtocol (kind : ProtocolExceptionKind) (msg : bytes)
| CBiz (e : BizError).

(** [From<ThriftException> for ClientError]. *)
Definition client_error_from (e : ThriftException) : ClientError :=
  match e with
  | ApplicationException kind msg => CApplication (kind, msg)
  | TransportException msg => CTransport msg
  | ProtocolException kind msg => CProtocol kind msg
  end.

(** Whether a retry layer may try again. *)
Definition retryable (e : ClientError) : bool :=
  match e with CTransport _ => true | _ => false end.

Section Call.
Context {Dec Enc Req Resp : Type}.

(** The encoder and the decoder of a connection, [pilota]'s [append_msg] and the
    texts put into errors. *)
Record CallParams : Type := mkCallParams {
  cp_encode : Enc -> ClientContext -> ThriftMessage Req AppExn -> Enc * ClientContext * option ThriftException;
  cp_decode : Dec -> ClientContext -> Dec * ClientContext * (option (ThriftMessage Resp AppExn) + ThriftException);
  cp_append_msg : ThriftException -> bytes -> ThriftException;
  cp_cx_text : ClientContext -> bytes;
  cp_rpc_text : RpcInfo -> bytes;
  cp_seq_id_text : ClientContext -> bytes;
  cp_no_address_text : RpcInfo -> bytes;
  cp_eof_text : RpcInfo -> bytes
}.

Context (cp : CallParams).

Record ThriftTransport : Type := mkTransport { tp_write_half : Enc; tp_read_half : Dec }.

(** [WriteHalf::send]. *)
Definition write_half_send (enc : Enc) (cx : ClientContext) (m : ThriftMessage Req AppExn) :
    Enc * ClientContext * option ClientError :=
  let '(enc, cx, r) := cp_encode cp enc cx m in
  (enc, cx, match r with
            | Some e => Some (client_error_from (cp_append_msg cp e (cp_rpc_text cp (cx_rpc_info cx))))
            | None => None
            end).

(** [ReadHalf::try_next]. *)
Definition try_next (dec : Dec) (cx : ClientContext) :
    Dec * ClientContext * outcome ClientError (option (ThriftMessage Resp AppExn)) :=
  let '(dec, cx, r) := cp_decode cp dec cx in
  (dec, cx,
   match r with
   | inr e => Fail (client_error_from (cp_append_msg cp e (cp_cx_text cp cx)))
   | inl (Some m) =>
       if negb (mm_seq_id (tm_meta m) =? c_seq_id (cx_inner cx))
       then Fail (CApplication (BAD_SEQUENCE_ID, cp_seq_id_text cp cx))
       else Done (Some m)
   | inl None => Done None
   end).

(** [ThriftTransport::send]. *)
Definition transport_send (tp : ThriftTransport) (cx : ClientContext) (m : ThriftMessage Req AppExn) (oneway : bool) :
    ThriftTransport * ClientContext * outcome ClientError (option (ThriftMessage Resp AppExn)) :=
  let '(enc, cx, r) := write_half_send (tp_write_half tp) cx m in
  match r with
  | Some e => (mkTransport enc (tp_read_half tp), cx, Fail e)
  | None =>
      if oneway then (mkTransport enc (tp_read_half tp), cx, Done None)
      else
        let '(dec, cx, r) := try_next (tp_read_half tp) cx in
        (mkTransport enc dec, cx, r)
  end.

Definition record_make_transport_start_at (t : Z) (cx : ClientContext) : ClientContext :=
  RpcCx.inner_mut (fun i => mkClientCxInner (c_seq_id i) (c_message_type i) (c_should_reuse i) (c_idl_service_name i)
                              (mkPhaseStats (Some t) (phase_end_at (c_stats i))) (c_common_stats i)) cx.
Definition record_make_transport_end_at (t : Z) (cx : ClientContext) : ClientContext :=
  RpcCx.inner_mut (fun i => mkClientCxInner (c_seq_id i) (c_message_type i) (c_should_reuse i) (c_idl_service_name i)
                              (mkPhaseStats (phase_start_at (c_stats i)) (Some t)) (c_common_stats i)) cx.

(** [Client::call], at given times: the connection is what [make_transport]
    answers for the callee's address. Besides the result and the context: the
    connection that goes back to the pool, if it does. *)
Definition client_call (make_transport : Address -> ThriftTransport + bytes) (start stop : Z)
    (cx : ClientContext) (req : ThriftMessage Req AppExn) :
    outcome ClientError (option (ThriftMessage Resp AppExn)) * ClientContext * option ThriftTransport :=
  match ep_address (ri_callee (cx_rpc_info cx)) with
  | None => (Fail (CTransport (cp_no_address_text cp (cx_rpc_info cx))), cx, None)
  | Some target =>
      let oneway := bool_decide (c_message_type (cx_inner cx) = OneWay) in
      let cx := record_make_transport_start_at start cx in
      match make_transport target with
      | inr e => (Fail (CTransport e), cx, None)
      | inl transport =>
          let cx := record_make_transport_end_at stop cx in
          let '(transport, cx, resp) := transport_send transport cx req oneway in
          let eof := match resp with Done None => negb oneway | _ => false end in
          if eof then (Fail (CTransport (cp_eof_text cp (cx_rpc_info cx))), cx, None)
          else (resp, cx,
                match resp with
                | Done _ => if c_should_reuse (cx_inner cx) then Some transport else None
                | _ => None
                end)
      end
  end.
End Call.
Arguments CallParams Dec Enc Req Resp : clear implicits.
Arguments ThriftTransport Dec Enc : clear implicits.
