(* ===== verification/CatchPanic.v ===== *)
(** The layer that catches panics (volo/src/catch_panic/mod.rs) and the handlers
    that come with it (volo-thrift/src/server/panic_handler.rs,
    volo-http/src/server/panic_handler.rs).

    A service returns or panics. The panic hook notes where a panic happened in a
    thread-local cell, which is part of the state; [resume_unwind] unwinds
    without the hook. *)

From S2P Require Import Prelude Net Context BufReader TTHeader Codec ThriftServer.

Section CatchPanic.
Context {W Cx Req Resp Err Payload : Type}.

Record Location : Type := mkLocation { lc_file : bytes; lc_line : Z; lc_col : Z }.
Record PanicInfo : Type := mkPanicInfo { pi_message : bytes; pi_location : option Location; pi_backtrace : bytes }.

(** [Display]. *)
Definition location_text (l : Location) : bytes := lc_file l ++ str ":" ++ dec_of_Z (lc_line l) ++ str ":" ++ dec_of_Z (lc_col l).
Definition panic_info_text (newline : bytes) (i : PanicInfo) : bytes :=
  str "panicked at "
  ++ match pi_location i with Some l => location_text l ++ str ":" | None => [] end
  ++ newline ++ str "message: " ++ pi_message i ++ newline ++ str " backtrace: " ++ newline ++ pi_backtrace i.

Inductive Ended : Type := Returned (r : Resp + Err) | Panicked (p : Payload).

(** A service, in a state with the cell [PANIC_INFO] of its thread. *)
Definition PService : Type := option PanicInfo * W -> Cx -> Req -> option PanicInfo * W * Cx * Ended.

(** The hook [init_panic_hook] installs, and then the panic. *)
Definition panic_with_hook (i : PanicInfo) (p : Payload) (s : option PanicInfo * W) (cx : Cx) : option PanicInfo * W * Cx * Ended :=
  (Some i, s.2, cx, Panicked p).

(** The payload and the note of the [expect] when the cell is empty. *)
Context (missing : Payload) (missing_info : PanicInfo).

Definition catch_panic (handle : Cx -> Payload -> PanicInfo -> Cx * (Resp + Err)) (inner : PService) : PService := fun s cx req =>
  let '(s, cx, r) := inner s cx req in
  match r with
  | Returned r => (s, cx, Returned r)
  | Panicked payload =>
      match s.1 with
      | None => panic_with_hook missing_info missing s cx
      | Some info =>
          let '(cx, r) := handle cx payload info in
          ((None, s.2), cx, Returned r)
      end
  end.

(** A panic of a service goes through the hook, which then notes this panic. *)
Definition hooked (noted : Payload -> PanicInfo) (inner : PService) : Prop :=
  forall s cx req s' cx' p, inner s cx req = (s', cx', Panicked p) -> s'.1 = Some (noted p).

(** A service behind the layer does not panic: what the service returns is
    returned; when it panics, the handler is called, with the context as the
    service left it, its payload and the note of this very panic, its answer
    is the answer, and the cell is empty again. Only a panic that bypasses
    the hook gets through, as another panic. *)
Theorem panics_are_caught handle inner s cx req s' cx' r :
  inner s cx req = (s', cx', r) ->
  match r with
  | Returned r => catch_panic handle inner s cx req = (s', cx', Returned r)
  | Panicked p =>
      (forall noted, hooked noted inner ->
         catch_panic handle inner s cx req =
         (None, s'.2, (handle cx' p (noted p)).1, Returned (handle cx' p (noted p)).2)) /\
      (s'.1 = None -> (catch_panic handle inner s cx req).2 = Panicked missing)
  end.
Proof.
  intros Hi. unfold catch_panic. rewrite Hi. destruct r as [r|p]; [done|]. split.
  - intros noted Hn. rewrite (Hn _ _ _ _ _ _ Hi). by destruct (handle cx' p (noted p)).
  - by intros ->.
Qed.

(** A caught panic below leaves its note: a later panic without a hook is
    reported with it. *)
Lemma stale_note handle inner s cx req s' cx' p info :
  inner s cx req = (s', cx', Panicked p) -> s.1 = Some info -> s'.1 = s.1 ->
  (catch_panic handle inner s cx req).2 = Returned (handle cx' p info).2.
Proof. intros Hi Hs He. unfold catch_panic. rewrite Hi, He, Hs. by destruct (handle cx' p info). Qed.
End CatchPanic.

(** * Handlers *)

(** The payload of a panic, as far as it can be told: a [String], a [&str], or
    the debug text of something else. *)
Inductive PanicPayload : Type := PString (s : bytes) | PStr (s : bytes) | POther (debug : bytes).

Definition payload_msg (p : PanicPayload) : bytes := match p with PString s | PStr s | POther s => s end.

(** [log_and_return_exception]. *)
Definition log_and_return_exception {Resp} (newline : bytes) (cx : ServerContext) (p : PanicPayload) (i : PanicInfo) :
    ServerContext * (Resp + ServerError) :=
  (cx, inr (SApplication (INTERNAL_ERROR,
    str "panicked in biz logic: " ++ payload_msg p ++ str ", panic_info: " ++ panic_info_text newline i))).

(** [always_internal_error] and [FixedPayload::handle] of the HTTP server, for
    the response a status or a payload becomes. *)
Definition always_internal_error {Cx Resp Err} (status_response : Z -> Resp) (cx : Cx) (_ : PanicPayload) (_ : PanicInfo) :
    Cx * (Resp + Err) := (cx, inl (status_response 500)).
Definition fixed_payload {Cx Resp Err} (payload : Resp) (cx : Cx) (_ : PanicPayload) (_ : PanicInfo) : Cx * (Resp + Err) :=
  (cx, inl payload).

Module PanicExample.
Definition info : PanicInfo := mkPanicInfo (str "oops") (Some (mkLocation (str "a.rs") 3 7)) [].
Definition oops : PService (W := nat) (Cx := ServerContext) (Req := Z) (Resp := Z) (Err := ServerError) (Payload := PanicPayload) :=
  fun s cx req => if req =? 0 then panic_with_hook info (PStr (str "oops")) s cx else (s, cx, Returned (inl req)).

Lemma panics_are_caught_witness :
  catch_panic (PStr []) info (log_and_return_exception []) oops (None, 0%nat) ServerContext.default 0 =
  (None, 0%nat, ServerContext.default, Returned (log_and_return_exception (Resp := Z) [] ServerContext.default (PStr (str "oops")) info).2).
Proof.
  refine (proj1 (panics_are_caught (PStr []) info (log_and_return_exception []) oops (None, 0%nat) ServerContext.default 0
    (Some info, 0%nat) ServerContext.default (Panicked (PStr (str "oops"))) eq_refl) (fun _ => info) _).
  intros s cx req s' cx' p. unfold oops. destruct (req =? 0); [|done]. by intros [= <- <- <-].
Defined.
End PanicExample.
