(* ===== verification/ThriftServerSpec.v ===== *)
(** What a ping-pong connection promises: one answer per request, under its
    sequence id and in order; contexts recycled through the cache are as new;
    nothing is read after the exit mark was seen; and a client returns a
    connection to the pool only after a complete exchange. *)

From S2P Require Import Prelude Net Context BufReader TTHeader Codec ThriftServer.

Section Spec.
Context {Dec Enc Svc Req Resp Info : Type} (sp : ServeParams Dec Enc Svc Req Resp Info).

Definition role_of (cx : ServerContext) : Role := ri_role (cx_rpc_info cx).

(** What the loop relies on: nobody changes the role of a context; the decoder
    notes the sequence id and the type of the message it yields; handlers and
    encoders leave these and, for encoders, the reset flag alone. *)
Class ServeLaws : Prop := {
  decode_role dec cx info : role_of (sp_decode sp dec cx info).1.1.2 = role_of cx;
  decode_notes dec cx info m :
    (sp_decode sp dec cx info).2 = DMsg m ->
    s_seq_id (cx_inner (sp_decode sp dec cx info).1.1.2) = Some (mm_seq_id (tm_meta m)) /\
    s_req_msg_type (cx_inner (sp_decode sp dec cx info).1.1.2) = Some (mm_msg_type (tm_meta m));
  call_role svc cx info req : role_of (sp_call sp svc cx info req).1.1.2 = role_of cx;
  call_keeps svc cx info req :
    s_seq_id (cx_inner (sp_call sp svc cx info req).1.1.2) = s_seq_id (cx_inner cx) /\
    s_req_msg_type (cx_inner (sp_call sp svc cx info req).1.1.2) = s_req_msg_type (cx_inner cx);
  encode_role enc cx info m : role_of (sp_encode sp enc cx info m).1.1.2 = role_of cx;
  encode_reset enc cx info m :
    s_conn_reset (cx_inner (sp_encode sp enc cx info m).1.1.2) = s_conn_reset (cx_inner cx)
}.
Context {laws : ServeLaws}.

(** ** Recycled contexts *)

Definition all_new (cache : list ServerContext) : Prop := Forall (fun cx => cx = ServerContext.default) cache.

(** Two servers that differ in their caches only, and both caches hold contexts as new. *)
Record alike (a b : Server Dec Enc Svc Req Resp Info) : Prop := mkAlike {
  al_dec : sv_dec a = sv_dec b; al_enc : sv_enc a = sv_enc b; al_svc : sv_svc a = sv_svc b;
  al_info : sv_info a = sv_info b; al_log : sv_log a = sv_log b;
  al_left : all_new (sv_cache a); al_right : all_new (sv_cache b) }.

Definition alike_result (a b : outcome unit (Server Dec Enc Svc Req Resp Info * bool)) : Prop :=
  match a, b with
  | Done (s, m), Done (s', m') => alike s s' /\ m = m'
  | Panic, Panic => True
  | _, _ => False
  end.

Lemma reset_new cx : role_of cx = Context.Server -> RpcCx.reset (cx_inner ServerContext.default) cx = ServerContext.default.
Proof. destruct cx as [[role ? ? ? ?] ? ?]. cbn. by intros ->. Qed.

Lemma put_context_new cx cache : role_of cx = Context.Server -> all_new cache -> all_new (put_context sp cx cache).
Proof. intros Hr Hc. unfold put_context. destruct (_ <? _)%nat; [|done]. constructor; [by apply reset_new|done]. Qed.

Lemma take_context_new s : all_new (sv_cache s) ->
  (take_context sp s).1 = (match sp_peer_addr sp with
     | Some a => RpcCx.rpc_info_mut (RpcInfo.caller_mut (Endpoint.set_address a)) ServerContext.default
     | None => ServerContext.default
     end) /\ all_new (take_context sp s).2 /\ role_of (take_context sp s).1 = Context.Server.
Proof.
  intros Hc. unfold take_context. destruct (sv_cache s) as [|cx cache]; [by destruct (sp_peer_addr sp)|].
  apply Forall_cons in Hc as [-> Hc]. by destruct (sp_peer_addr sp).
Qed.

Lemma alike_log l a b : alike a b -> alike (log l a) (log l b).
Proof. intros []. split; cbn; congruence. Qed.

Lemma alike_recycle cx a b : role_of cx = Context.Server -> alike a b -> alike (recycle sp cx a) (recycle sp cx b).
Proof. intros Hr []. split; cbn; try congruence; by apply put_context_new. Qed.

Lemma alike_send m cx a b :
  alike a b -> alike (send sp m cx a).1.1 (send sp m cx b).1.1 /\
  (send sp m cx a).1.2 = (send sp m cx b).1.2 /\ (send sp m cx a).2 = (send sp m cx b).2 /\
  role_of (send sp m cx a).1.2 = role_of cx /\ s_conn_reset (cx_inner (send sp m cx a).1.2) = s_conn_reset (cx_inner cx).
Proof.
  intros [H1 H2 H3 H4 H5 H6 H7]. unfold send. rewrite <- H2, <- H4.
  pose proof (encode_role (sv_enc a) cx (sv_info a) m) as Hr. pose proof (encode_reset (sv_enc a) cx (sv_info a) m) as Hc.
  destruct (sp_encode sp (sv_enc a) cx (sv_info a) m) as [[[enc cx'] info] r]. cbn in *.
  split_and!; try done. split; cbn; congruence.
Qed.

Lemma alike_request t cx m req a b :
  role_of cx = Context.Server -> alike a b -> alike_result (handle_request sp t cx m req a) (handle_request sp t cx m req b).
Proof.
  intros Hr Hab. pose proof Hab as [H1 H2 H3 H4 H5 H6 H7]. unfold handle_request. rewrite <- H3, <- H4.
  pose proof (call_role (sv_svc a) (record_process_start_at (tn_start t) cx) (sv_info a) req) as Hcr.
  destruct (sp_call sp (sv_svc a) _ (sv_info a) req) as [[[svc cx1] info] r]. cbn in Hcr.
  set (cx2 := if tn_exit t then _ else _).
  assert (role_of cx2 = Context.Server) as Hr2 by (unfold cx2; destruct (tn_exit t); exact (eq_trans Hcr Hr)).
  destruct (s_req_msg_type (cx_inner cx2)) as [[]|]; [..|done].
  4: { destruct (s_conn_reset (cx_inner cx2)); cbn; (split; [|done]); [|apply alike_recycle; [done|]]; split; cbn; congruence. }
  all: match goal with |- alike_result (let '(_, _) := send sp ?m ?cx ?x in _) (let '(_, _) := send sp _ _ ?y in _) =>
         destruct (alike_send m cx x y) as (G1 & G2 & G3 & G4 & G5); [split; cbn; congruence|];
         destruct (send sp m cx x) as [[a' cxa] fa], (send sp m cx y) as [[b' cxb] fb] end.
  all: cbn in G1, G2, G3, G4, G5; subst cxb fb; destruct fa; [by split; [apply alike_log|]|].
  all: destruct (s_conn_reset (cx_inner cxa)); (split; [|done]); [done|]; apply alike_recycle; [|done].
  all: by rewrite G4.
Qed.

Lemma alike_error cx e a b : alike a b -> alike (handle_error sp cx e a) (handle_error sp cx e b).
Proof.
  intros Hab. unfold handle_error. set (cx1 := set_conn_reset true _).
  destruct e as [k m|m|k m]; [| by apply alike_log|].
  all: match goal with H : alike ?a ?b |- context [send sp ?m ?c ?a] => destruct (alike_send m c a b H) as (G1 & G2 & _);
         destruct (send sp m c a) as [[a' cxa] fa], (send sp m c b) as [[b' cxb] fb] end.
  all: cbn in G1, G2; subst; by apply alike_log.
Qed.

Lemma alike_turn t a b : alike a b -> alike_result (serve_turn sp t a) (serve_turn sp t b).
Proof.
  intros Hab. pose proof Hab as [H1 H2 H3 H4 H5 H6 H7]. unfold serve_turn.
  destruct (take_context_new a H6) as (Ta & Ca & Ra), (take_context_new b H7) as (Tb & Cb & _).
  destruct (take_context sp a) as [cxa cachea], (take_context sp b) as [cxb cacheb]. cbn in Ta, Tb, Ca, Cb, Ra. rewrite <- Ta in Tb. subst cxb.
  destruct (tn_notified t); [by split; [split|]|]. rewrite <- H1, <- H4.
  pose proof (decode_role (sv_dec a) cxa (sv_info a)) as Hr.
  destruct (sp_decode sp (sv_dec a) cxa (sv_info a)) as [[[dec cx] info] d]. cbn in Hr.
  set (a' := mkServer dec _ _ _ cachea _). set (b' := mkServer dec _ _ _ cacheb _).
  assert (alike a' b') as Hab' by (by split).
  destruct d as [m| |e].
  - destruct (tm_data m); [|done]. apply alike_request; [congruence|done].
  - by split.
  - split; [by apply alike_error|done].
Qed.

(** The context cache cannot be noticed: with any contexts in it that were put there by
    the loop (all as new), a connection reads, calls its handler, answers and
    ends exactly as with an empty cache, and leaves only contexts as new. No
    request sees anything of an earlier one through its context. *)
Theorem context_cache_invisible turns a b :
  alike a b -> alike_result (serve sp turns a) (serve sp turns b).
Proof.
  revert a b. induction turns as [|t turns IH]; intros a b Hab; [by split|]. cbn.
  pose proof (alike_turn t a b Hab) as Ht.
  destruct (serve_turn sp t a) as [[a' ma]| | |], (serve_turn sp t b) as [[b' mb]| | |]; try done.
  destruct Ht as [Hab' ->]. cbn. destruct mb; [by apply IH|by split].
Qed.

(** ** One answer per request *)

(** [r] answers [m]. *)
Definition answers (m : ThriftMessage Req AppExn) (r : ThriftMessage Resp AppExn) : Prop :=
  mm_seq_id (tm_meta r) = mm_seq_id (tm_meta m) /\
  mm_msg_type (tm_meta r) = match tm_data r with inl _ => Reply | inr _ => Exception end.

(** What may be seen of a connection, and whether it goes on. *)
Inductive talk : list (Logged Req Resp) -> bool -> Prop :=
| talk_start : talk [] true
| talk_reply l cx m r cx' :
    talk l true -> mm_msg_type (tm_meta m) <> OneWay -> answers m r -> s_conn_reset (cx_inner cx') = false ->
    talk (l ++ [LCall cx m; LSent r; LTraced cx']) true
| talk_oneway l cx m cx' :
    talk l true -> mm_msg_type (tm_meta m) = OneWay -> s_conn_reset (cx_inner cx') = false ->
    talk (l ++ [LCall cx m; LTraced cx']) true
| talk_last_reply l cx m r : talk l true -> mm_msg_type (tm_meta m) <> OneWay -> answers m r ->
    talk (l ++ [LCall cx m; LSent r]) false
| talk_last_oneway l cx m : talk l true -> mm_msg_type (tm_meta m) = OneWay -> talk (l ++ [LCall cx m]) false
| talk_unsent l cx m r cx' : talk l true -> answers m r -> talk (l ++ [LCall cx m; LSendFailed r; LTraced cx']) false
| talk_refused l r cx : talk l true -> talk (l ++ [LSent r; LTraced cx]) false
| talk_refused_unsent l r cx : talk l true -> talk (l ++ [LSendFailed r; LTraced cx]) false
| talk_broken l cx : talk l true -> talk (l ++ [LTraced cx]) false
| talk_over l : talk l true -> talk l false.

Lemma request_talk t cx m req s s' more :
  talk (sv_log s) true -> s_seq_id (cx_inner cx) = Some (mm_seq_id (tm_meta m)) ->
  s_req_msg_type (cx_inner cx) = Some (mm_msg_type (tm_meta m)) ->
  handle_request sp t cx m req s = Done (s', more) -> talk (sv_log s') more /\ (more = true -> tn_exit t = false).
Proof.
  intros Ht Hs Hq. unfold handle_request.
  destruct (call_keeps (sv_svc s) (record_process_start_at (tn_start t) cx) (sv_info s) req) as [K1 K2].
  set (cx0 := record_process_start_at (tn_start t) cx) in *.
  destruct (sp_call sp (sv_svc s) cx0 (sv_info s) req) as [[[svc cx1] info] r]. cbn [fst snd] in K1, K2.
  set (cx2 := if tn_exit t then _ else _).
  assert (s_seq_id (cx_inner cx2) = Some (mm_seq_id (tm_meta m)) /\ s_req_msg_type (cx_inner cx2) = Some (mm_msg_type (tm_meta m)) /\
    (tn_exit t = true -> s_conn_reset (cx_inner cx2) = true)) as (S2 & Q2 & X2).
  { unfold cx2. destruct (tn_exit t); cbn; (split; [exact (eq_trans K1 Hs)|]); (split; [exact (eq_trans K2 Hq)|done]). }
  rewrite Q2. destruct (decide (mm_msg_type (tm_meta m) = OneWay)) as [Ho|Ho].
  - rewrite Ho. destruct (s_conn_reset (cx_inner cx2)) eqn:Hc; intros [= <- <-]; cbn.
    + split; [by apply talk_last_oneway|done].
    + rewrite <- app_assoc. split; [by apply talk_oneway|]. intros _. destruct (tn_exit t); [|done]. by discriminate X2.
  - set (resp := match r with inl x => inl x | inr e => inr _ end).
    set (cx3 := set_msg_type _ cx2). set (s1 := mkServer _ _ svc info _ _).
    intros H. assert ((let '(s, cx, failed) := send sp (mk_server_resp cx3 resp) cx3 s1 in
       if failed : bool then Done (log (LTraced cx) s, false)
       else if s_conn_reset (cx_inner cx) then Done (s, false) else Done (recycle sp cx s, true)) =
       @Done unit _ (s', more)) as H'.
    { destruct (mm_msg_type (tm_meta m)); try done. }
    clear H. unfold send in H'.
    pose proof (encode_reset (sv_enc s1) cx3 (sv_info s1) (mk_server_resp cx3 resp)) as Hr.
    destruct (sp_encode sp (sv_enc s1) cx3 (sv_info s1) (mk_server_resp cx3 resp)) as [[[enc cx4] info4] failed].
    cbn [fst snd] in Hr.
    assert (answers m (mk_server_resp cx3 resp)) as Ha.
    { split; [|by destruct resp]. cbn. unfold cx3, set_msg_type. cbn. by rewrite S2. }
    destruct failed as [e|]; cbn in H'.
    + injection H' as <- <-. cbn. rewrite <- !app_assoc. split; [by apply (talk_unsent _ _ m)|done].
    + destruct (s_conn_reset (cx_inner cx4)) eqn:Hc; injection H' as <- <-; cbn; rewrite <- !app_assoc.
      * split; [by apply talk_last_reply|done].
      * split; [by apply (talk_reply _ _ m)|]. intros _. destruct (tn_exit t); [|done].
        cbn in Hr. rewrite Hr in Hc. unfold cx3 in Hc. cbn in Hc. specialize (X2 eq_refl). congruence.
Qed.

Lemma turn_talk t s s' more :
  talk (sv_log s) true -> serve_turn sp t s = Done (s', more) -> talk (sv_log s') more /\ (more = true -> tn_exit t = false).
Proof.
  intros Ht. unfold serve_turn. destruct (take_context sp s) as [cx cache].
  destruct (tn_notified t); [intros [= <- <-]; split; [by apply talk_over|done]|].
  pose proof (decode_notes (sv_dec s) cx (sv_info s)) as Hn.
  destruct (sp_decode sp (sv_dec s) cx (sv_info s)) as [[[dec cx1] info] d]. cbn [fst snd] in Hn.
  destruct d as [m| |e].
  - destruct (Hn m eq_refl) as [H1 H2]. destruct (tm_data m) as [req|x]; [|done]. by apply request_talk.
  - intros [= <- <-]. split; [by apply talk_over|done].
  - intros [= <- <-]. split; [|done]. unfold handle_error, send. destruct e as [k x|x|k x]; cbn.
    2: { by apply talk_broken. }
    all: destruct (sp_encode sp _ _ _ _) as [[[enc cx4] info4] [e'|]]; cbn; rewrite <- app_assoc;
      [by apply talk_refused_unsent|by apply talk_refused].
Qed.

(** A request of type [Exception] is the only thing the loop does not survive. *)
Lemma turn_total t s :
  (exists s' more, serve_turn sp t s = Done (s', more)) \/
  (serve_turn sp t s = Panic /\ exists dec cx info m x, (sp_decode sp dec cx info).2 = DMsg m /\ tm_data m = inr x).
Proof.
  unfold serve_turn. destruct (take_context sp s) as [cx cache]. destruct (tn_notified t); [by left; eexists _, _|].
  pose proof (decode_notes (sv_dec s) cx (sv_info s)) as Hn.
  destruct (sp_decode sp (sv_dec s) cx (sv_info s)) as [[[dec cx1] info] d] eqn:Hd. cbn [fst snd] in Hn.
  destruct d as [m| |e]; [|by left; eexists _, _|by left; eexists _, _].
  destruct (Hn m eq_refl) as [_ H2]. destruct (tm_data m) as [req|x] eqn:Hm.
  - left. unfold handle_request. set (cx0 := record_process_start_at (tn_start t) cx1).
    pose proof (call_keeps (sv_svc s) cx0 info req) as [_ K2]. cbn [sv_svc sv_info].
    destruct (sp_call sp (sv_svc s) cx0 info req) as [[[svc cx2] info2] r]. cbn [fst snd] in K2.
    set (cx3 := if tn_exit t then _ else _).
    assert (s_req_msg_type (cx_inner cx3) = Some (mm_msg_type (tm_meta m))) as ->
      by (unfold cx3; destruct (tn_exit t); exact (eq_trans K2 H2)).
    destruct (mm_msg_type (tm_meta m)); try (destruct (s_conn_reset (cx_inner cx3)); by eexists _, _).
    all: destruct (send sp _ _ _) as [[s2 cx4] []]; [by eexists _, _|].
    all: destruct (s_conn_reset (cx_inner cx4)); by eexists _, _.
  - right. split; [done|]. exists (sv_dec s), cx, (sv_info s), m, x. by rewrite Hd.
Qed.

(** C13: A connection is a conversation: each request that is not one-way is answered by
    exactly one message, right after its handler ran and before the next
    request is read, with its sequence id and as a reply or an exception; a
    one-way request is not answered; no request is read in a turn after one
    in which the exit mark was seen; and the loop panics only when a peer
    sends a message of type [Exception] as a request. *)
Theorem serve_answers_in_order turns s :
  sv_log s = [] ->
  match serve sp turns s with
  | Done (s', more) => talk (sv_log s') more /\ (more = true -> Forall (fun t => tn_exit t = false) turns)
  | Panic => exists dec cx info m x, (sp_decode sp dec cx info).2 = DMsg m /\ tm_data m = inr x
  | _ => False
  end.
Proof.
  intros Hl. assert (talk (sv_log s) true) as Ht by (rewrite Hl; constructor). clear Hl. revert s Ht.
  induction turns as [|t turns IH]; cbn; intros s Ht; [done|].
  destruct (turn_total t s) as [(s1 & m1 & H1)|[-> Hp]]; [|done]. rewrite H1. cbn.
  apply turn_talk in H1 as [Ht1 He1]; [|done]. destruct m1; [|done].
  specialize (IH s1 Ht1). destruct (serve sp turns s1) as [[s' more]| | |]; try done.
  destruct IH as [H2 H3]. split; [done|]. intros Hm. constructor; auto.
Qed.

(** A request of type [Exception] panics the loop. *)
Lemma exception_request_panics t s m x :
  tn_notified t = false ->
  (sp_decode sp (sv_dec s) (take_context sp s).1 (sv_info s)).2 = DMsg m -> tm_data m = inr x ->
  serve_turn sp t s = Panic.
Proof.
  intros Hn Hd Hm. unfold serve_turn. destruct (take_context sp s) as [cx cache]. rewrite Hn. cbn [fst] in Hd.
  destruct (sp_decode sp (sv_dec s) cx (sv_info s)) as [[[dec cx1] info] d]. cbn in Hd. subst d. by rewrite Hm.
Qed.

End Spec.

(** * The client's side *)

(** C26: A connection goes back to the pool only after a complete exchange: the call was
    written and, unless it is one-way, a message with the call's own sequence
    id was read; no failure, no early end and no reply to another call
    returns it. *)
Theorem only_complete_exchanges_reuse {Dec Enc Req Resp} (cp : CallParams Dec Enc Req Resp) mk start stop cx req r cx' tp' :
  client_call cp mk start stop cx req = (r, cx', Some tp') ->
  exists target tp cx1,
    ep_address (ri_callee (cx_rpc_info cx)) = Some target /\ mk target = inl tp /\
    cp_encode cp (tp_write_half tp) (record_make_transport_end_at stop (record_make_transport_start_at start cx)) req =
      (tp_write_half tp', cx1, None) /\
    c_should_reuse (cx_inner cx') = true /\
    if bool_decide (c_message_type (cx_inner cx) = OneWay)
    then r = Done None /\ cx' = cx1 /\ tp_read_half tp' = tp_read_half tp
    else exists m, r = Done (Some m) /\ cp_decode cp (tp_read_half tp) cx1 = (tp_read_half tp', cx', inl (Some m)) /\
           mm_seq_id (tm_meta m) = c_seq_id (cx_inner cx').
Proof.
  unfold client_call. destruct (ep_address _) as [target|] eqn:Ha; [|done]. destruct (mk target) as [tp|e] eqn:Ht; [|done].
  unfold transport_send, write_half_send. set (cx0 := record_make_transport_end_at _ _).
  destruct (cp_encode cp (tp_write_half tp) cx0 req) as [[enc cx1] [e|]] eqn:He; [done|]. intros H. exists target, tp, cx1.
  destruct (bool_decide (c_message_type (cx_inner cx) = OneWay)).
  - cbn in H. destruct (c_should_reuse (cx_inner cx1)) eqn:Hr; [|done]. by injection H as <- <- <-.
  - unfold try_next in H. destruct (cp_decode cp (tp_read_half tp) cx1) as [[dec cx2] [[m|]|e]] eqn:Hd; [|done..].
    cbn in H. destruct (mm_seq_id (tm_meta m) =? c_seq_id (cx_inner cx2)) eqn:Hs; cbn in H; [|done].
    destruct (c_should_reuse (cx_inner cx2)) eqn:Hr; [|done]. apply Z.eqb_eq in Hs.
    injection H as <- <- <-. split_and!; try done. by exists m.
Qed.
