(* ===== verification/ThriftServerExample.v ===== *)
(** A ping-pong connection run on concrete messages: a decoder that reads from a
    list, an encoder that collects what it is given, and a handler that
    counts its calls and refuses the number 0. *)

From S2P Require Import Prelude Net Context BufReader TTHeader Codec ThriftServer ThriftServerSpec.

Module ServeExample.
Abbreviation Wire := (list (Decoded Z)).
Abbreviation Out := (list (ThriftMessage Z AppExn)).

Definition note (m : ThriftMessage Z AppExn) : ServerContext -> ServerContext :=
  handle_decoded_msg_ident (mkIdent (mm_method (tm_meta m)) (mm_msg_type (tm_meta m)) (mm_seq_id (tm_meta m))).

Definition params : ServeParams Wire Out nat Z Z nat :=
  mkServeParams
    (fun dec cx info =>
       match dec with
       | [] => ([], cx, info, DEof)
       | DMsg m :: dec => (dec, note m cx, S info, DMsg m)
       | d :: dec => (dec, cx, info, d)
       end)
    (fun enc cx info m => (enc ++ [m], cx, info, None))
    (fun svc cx info req => (S svc, cx, info, if req =? 0 then inr (SBiz (mkBizError 1 (str "0") None)) else inl (req + 1)))
    (fun _ => O) be_status_message (fun _ => (str "?")) (Some (Unix Unnamed)) 2.

#[export] Instance params_laws : ServeLaws params.
Proof.
  split; intros; cbn in *; try done.
  - by destruct dec as [|[]].
  - destruct dec as [|[]]; cbn in *; try done. by simplify_eq.
Qed.

Definition request (t : TMessageType) (seq v : Z) : Decoded Z := DMsg (mkMessage (inl v) (mkMeta t (str "p") seq)).

Definition wire : Wire :=
  [request Call 7 41; request OneWay 8 1; request Call 9 0; DErr (ProtocolException BadVersion (str "v"))].

Definition start (cache : list ServerContext) : Server Wire Out nat Z Z nat := mkServer wire [] 0%nat 0%nat cache [].
Definition turn : Turn := mkTurn false false 1 2.

(** The answers: a reply, an exception, and the refusal of what could not be read. *)
Example served :
  (x ← serve params (replicate 5 turn) (start []);
   Done (map (fun m => (mm_msg_type (tm_meta m), mm_seq_id (tm_meta m), tm_data m)) (sv_enc x.1), sv_svc x.1, x.2)) =
  Done ([(Reply, 7, inl 42); (Exception, 9, inr (6, (str "0"))); (Exception, 0, inr (7, (str "?")))], 3%nat, false).
Proof. vm_compute. reflexivity. Qed.

(** The hypotheses of [context_cache_invisible] hold of an empty cache and one of three. *)
Lemma context_cache_invisible_witness :
  alike (start []) (start (replicate 3 ServerContext.default)) /\
  alike_result (serve params (replicate 5 turn) (start []))
    (serve params (replicate 5 turn) (start (replicate 3 ServerContext.default))).
Proof.
  assert (alike (start []) (start (replicate 3 ServerContext.default))) as H by (split; try done; repeat constructor).
  split; [exact H|]. exact (context_cache_invisible params _ _ _ H).
Defined.

(** The hypothesis of [serve_answers_in_order] holds of a new connection. *)
Lemma serve_answers_in_order_witness :
  sv_log (start []) = [] /\
  match serve params (replicate 5 turn) (start []) with
  | Done (s', more) => talk (sv_log s') more /\ (more = true -> Forall (fun t => tn_exit t = false) (replicate 5 turn))
  | Panic => exists dec cx info m x, (sp_decode params dec cx info).2 = DMsg m /\ tm_data m = inr x
  | _ => False
  end.
Proof. split; [reflexivity|]. apply (serve_answers_in_order params (replicate 5 turn) (start [])). reflexivity. Defined.

(** A call and its reply on a client's connection. *)
Definition reply (seq : Z) : ThriftMessage Z AppExn := mkMessage (inl 42) (mkMeta Reply (str "p") seq).

Definition cparams : CallParams (list (ThriftMessage Z AppExn)) Out Z Z :=
  mkCallParams
    (fun enc cx m => (enc ++ [m], cx, None))
    (fun dec cx => match dec with [] => ([], cx, inl None) | m :: dec => (dec, cx, inl (Some m)) end)
    (fun e _ => e) (fun _ => []) (fun _ => []) (fun _ => (str "s")) (fun _ => (str "a")) (fun _ => (str "e")).

Definition ccx (seq : Z) : ClientContext :=
  ClientContext.new seq (RpcInfo.callee_mut (Endpoint.set_address (Unix Unnamed)) (RpcInfo.with_role Context.Client)) Call.

Definition mk (replies : list (ThriftMessage Z AppExn)) (_ : Address) : ThriftTransport (list (ThriftMessage Z AppExn)) Out + bytes :=
  inl (mkTransport [] replies).

Definition call_of (replies : list (ThriftMessage Z AppExn)) :=
  client_call cparams (mk replies) 1 2 (ccx 7) (mk_client_msg (ccx 7) 41).

(** A reply to another call, and an early end, are errors and the connection is dropped. *)
Example called :
  (map (fun rs => ((call_of rs).1.1, bool_decide (is_Some (call_of rs).2 ))) [[reply 7]; [reply 6; reply 7]; []] =
  [(Done (Some (reply 7)), true); (Fail (CApplication (4, (str "s"))), false); (Fail (CTransport (str "e")), false)]).
Proof. vm_compute. reflexivity. Qed.

(** The hypothesis of [only_complete_exchanges_reuse] holds of a call that is answered. *)
Lemma only_complete_exchanges_reuse_witness :
  exists target tp cx1,
    ep_address (ri_callee (cx_rpc_info (ccx 7))) = Some target /\ mk [reply 7] target = inl tp /\
    cp_encode cparams (tp_write_half tp) (record_make_transport_end_at 2 (record_make_transport_start_at 1 (ccx 7))) (mk_client_msg (ccx 7) 41) =
      ([mk_client_msg (ccx 7) 41], cx1, None) /\
    c_should_reuse (cx_inner (call_of [reply 7]).1.2) = true /\
    if bool_decide (c_message_type (cx_inner (ccx 7)) = OneWay)
    then (call_of [reply 7]).1.1 = Done None /\ (call_of [reply 7]).1.2 = cx1 /\ [] = tp_read_half tp
    else exists m, (call_of [reply 7]).1.1 = Done (Some m) /\
           cp_decode cparams (tp_read_half tp) cx1 = ([], (call_of [reply 7]).1.2, inl (Some m)) /\
           mm_seq_id (tm_meta m) = c_seq_id (cx_inner (call_of [reply 7]).1.2).
Proof.
  apply (only_complete_exchanges_reuse cparams (mk [reply 7]) 1 2 (ccx 7) (mk_client_msg (ccx 7) 41) _ _
           (mkTransport [mk_client_msg (ccx 7) 41] [])).
  reflexivity.
Defined.
End ServeExample.
