(* ===== verification/ThriftRouter.v ===== *)
(** Several Thrift services on one server (volo-thrift/src/server/router.rs): the
    router's tables and its choice by the IDL service name of the request's
    TTHeader, against a specification by the order of registration, and the way
    of that name from a client's context to the choice. *)

From stdpp Require Import fin_maps.
From S2P Require Import Prelude Net Context BufReader TTHeader TTHeaderRoundTrip TTHeaderExample Codec ThriftServer.

Definition UNKNOWN_METHOD : Z := 1.

Section Router.
(** A boxed service and its call; the text that says which service was not found. *)
Context {Svc : Type} (svc_call : Svc -> ServerContext -> bytes -> ServerContext * (bytes + ServerError)).
Context (not_found_text : option bytes -> bytes).

Record Router : Type := mkRouter {
  services : gmap bytes Svc;
  default_service : option Svc }.

Definition new : Router := mkRouter ∅ None.

(** [name] is the [NAME] of the service's type. *)
Definition with_default_service (name : bytes) (service : Svc) (r : Router) : Router :=
  let r := mkRouter (services r) (Some service) in
  mkRouter (<[name := service]> (services r)) (default_service r).

Definition add_service (name : bytes) (service : Svc) (r : Router) : Router :=
  mkRouter (<[name := service]> (services r)) (default_service r).

Definition service_count (r : Router) : nat := size (services r).

Definition has_default_service (r : Router) : bool := bool_decide (is_Some (default_service r)).

(** The service a name is routed to. *)
Definition select_service (r : Router) (service_name : option bytes) : option Svc :=
  match service_name with
  | Some name => match services r !! name with Some s => Some s | None => default_service r end
  | None => default_service r
  end.

Definition call (r : Router) (cx : ServerContext) (payload : bytes) : ServerContext * (bytes + ServerError) :=
  let service_name := idl_service_name cx in
  match select_service r service_name with
  | Some svc => svc_call svc cx payload
  | None => (cx, inr (SApplication (UNKNOWN_METHOD, not_found_text service_name)))
  end.

(** ** What the router promises, by the services registered *)

Inductive Registration : Type :=
| RDefault (name : bytes) (service : Svc)
| RService (name : bytes) (service : Svc).

Definition register (r : Router) (g : Registration) : Router :=
  match g with
  | RDefault name s => with_default_service name s r
  | RService name s => add_service name s r
  end.

Definition build (gs : list Registration) : Router := fold_left register gs new.

Definition reg_name (g : Registration) : bytes := match g with RDefault n _ | RService n _ => n end.
Definition reg_service (g : Registration) : Svc := match g with RDefault _ s | RService _ s => s end.

(** The last registration under a name, and the last default. *)
Definition last_named (gs : list Registration) (name : bytes) : option Svc :=
  reg_service <$> last (base.filter (fun g => reg_name g = name) gs).
Definition last_default (gs : list Registration) : option Svc :=
  last (gs ≫= fun g => match g with RDefault _ s => [s] | RService _ _ => [] end).

Lemma router_build_snoc gs g : build (gs ++ [g]) = register (build gs) g.
Proof. apply fold_left_app. Qed.

Lemma build_services gs name : services (build gs) !! name = last_named gs name.
Proof.
  unfold last_named. induction gs as [|g gs IH] using rev_ind; [apply lookup_empty|].
  rewrite router_build_snoc, filter_app, filter_cons, filter_nil.
  assert (services (register (build gs) g) = <[reg_name g := reg_service g]> (services (build gs))) as -> by (by destruct g).
  destruct (decide (reg_name g = name)) as [<-|Hn].
  - by rewrite lookup_insert_eq, last_snoc.
  - by rewrite lookup_insert_ne, app_nil_r.
Qed.

Lemma build_default gs : default_service (build gs) = last_default gs.
Proof.
  unfold last_default. induction gs as [|g gs IH] using rev_ind; [done|].
  rewrite router_build_snoc, bind_app. cbn. destruct g; cbn; by rewrite ?last_snoc, ?app_nil_r.
Qed.

Definition routed (gs : list Registration) (isn : option bytes) : option Svc :=
  match isn ≫= last_named gs with Some s => Some s | None => last_default gs end.

Lemma select_build gs isn : select_service (build gs) isn = routed gs isn.
Proof. unfold routed, select_service. destruct isn as [name|]; cbn; by rewrite ?build_services, ?build_default. Qed.

(** A router does what its registrations say: a request that names a service goes
    to the one registered last under that name; a request that names none, or
    one that was never registered, to the default service set last; and is
    refused with an unknown-method exception where there is none, which
    leaves the context as it was. *)
Theorem router_routes_by_registration gs cx payload :
  call (build gs) cx payload =
  match routed gs (idl_service_name cx) with
  | Some s => svc_call s cx payload
  | None => (cx, inr (SApplication (UNKNOWN_METHOD, not_found_text (idl_service_name cx))))
  end.
Proof. unfold call. by rewrite select_build. Qed.

(** Registering never forgets: the names served are those registered. *)
Lemma build_names gs : dom (services (build gs)) = list_to_set (reg_name <$> gs).
Proof.
  induction gs as [|g gs IH] using rev_ind; [apply dom_empty_L|].
  rewrite router_build_snoc, fmap_app, list_to_set_app_L, <- IH. destruct g; cbn; rewrite dom_insert_L; set_solver.
Qed.

Lemma service_count_names gs : service_count (build gs) = size (list_to_set (reg_name <$> gs) : gset bytes).
Proof. unfold service_count. by rewrite <- size_dom, build_names. Qed.

(** ** The name on the wire *)

Context `{BuildProfile} `{TTHeaderEnv} `{AddrText} `{!MetainfoLaws}.

Lemma server_view_isn (ccx : ClientContext) (scx : ServerContext) :
  idl_service_name scx = None -> idl_service_name (server_view ccx scx) = idl_service_name ccx.
Proof.
  intros Hn. unfold server_view. destruct (idl_service_name ccx) as [isn|]; destruct (cfg_rpc_timeout _); cbn; done.
Qed.

(** A call reaches the service its client's context names: whatever metainfo goes
    with it, a server that decodes the header the client encoded routes the
    request by the IDL service name in the client's context and nothing else.
    An entry under [isn] in the metainfo has no say. *)
Theorem client_names_its_service gs mi (ccx : ClientContext) size out smi (scx : ServerContext) payload :
  0 <= size < 2 ^ 63 ->
  ri_role (cx_rpc_info ccx) = Context.Client -> ri_role (cx_rpc_info scx) = Context.Server ->
  idl_service_name scx = None -> call_fits mi ccx -> encode mi ccx [] size = Done out ->
  exists cx' smi', decode scx smi (drop 4 out ++ payload) = Done (cx', smi', payload) /\
    call (build gs) cx' payload =
    match routed gs (idl_service_name ccx) with
    | Some s => svc_call s cx' payload
    | None => (cx', inr (SApplication (UNKNOWN_METHOD, not_found_text (idl_service_name ccx))))
    end.
Proof.
  intros Hs Hc Hr Hn Hf He. destruct (decode_encoded_call mi ccx size out smi scx payload Hs Hc Hr Hf He) as (fs & _ & Hd).
  eexists _, _. split; [exact Hd|]. unfold call. by rewrite select_build, server_view_isn.
Qed.
End Router.
Arguments Router Svc : clear implicits.
Arguments Registration Svc : clear implicits.

(** The call of the TTHeader example names [ItemService]. *)
Module RouterExample.
Import TTHeaderExample.
#[local] Existing Instances example_env example_text example_laws example_profile.

(** Services are numbers that answer with their number. *)
Definition answer (s : Z) (cx : ServerContext) (_ : bytes) : ServerContext * (bytes + ServerError) := (cx, inl (str "s" ++ put_u8 s)).
Definition regs : list (Registration Z) :=
  [RDefault (str "Hello") 1; RService (str "ItemService") 2; RService (str "ItemService") 3].

Example routes : (routed regs (Some (str "ItemService")), routed regs (Some (str "Echo")), routed regs None,
    routed (drop 1 regs) None, service_count (build regs), has_default_service (build regs)) =
  (Some 3, Some 1, Some 1, None, 2%nat, true).
Proof. vm_compute. reflexivity. Qed.

Lemma client_names_its_service_witness :
  exists cx' smi', decode ServerContext.default no_metainfo
      (drop 4 (bytes_of (encode call_metainfo call_cx [] 3)) ++ [x01]) = Done (cx', smi', [x01]) /\
    call answer (fun _ => []) (build regs) cx' [x01] = answer 3 cx' [x01].
Proof.
  apply (client_names_its_service answer (fun _ => []) regs call_metainfo call_cx 3);
    [lia|done|done|done| |apply call_encodes].
  split; [vm_decide|vm_compute; done|vm_decide|vm_decide|].
  intros t [= <-]. vm_compute. split; congruence.
Defined.
End RouterExample.
