(* ===== verification/MultiplexServer.v ===== *)
(** The multiplex side of a Thrift server
    (volo-thrift/src/transport/multiplex/server.rs): a read loop that spawns a
    task for each request, the tasks, and a writer task that receives their
    answers through a channel and writes them.

    A state is the two loops, the tasks and the two channels; an event is one of
    them moving on to its next await point. Encoder, decoder and handler are the
    parameters the ping-pong loop has too. A handler runs while others do: what
    its clone of the service sees is given with the event that completes it. *)

From S2P Require Import Prelude Net Context BufReader TTHeader Codec ThriftServer.

Section MultiplexServer.
Context {Dec Enc Svc Req Resp Info : Type} (sp : ServeParams Dec Enc Svc Req Resp Info).
(** [MetaInfo::default()]. *)
Context (info_default : Info).

Definition CHANNEL_SIZE : nat := 1024.

(** What goes through the channel of answers; the request is kept to say what
    the message answers. *)
Record Job : Type := mkJob {
  jb_req : ThriftMessage Req AppExn;
  jb_info : Info; jb_cx : ServerContext; jb_msg : ThriftMessage Resp AppExn }.

(** A task: its handler runs, or it waits for room in the channel. *)
Inductive Task : Type :=
| TCall (m : ThriftMessage Req AppExn) (req : Req) (cx : ServerContext) (info : Info)
| TSend (j : Job).

(** The read loop: running, returned, or panicked. *)
Inductive ReadLoop : Type := RRunning | RReturned | RPanicked.

(** The writer: at its select, writing an answer, writing the error the read
    loop gave it, or returned. *)
Inductive Writer : Type :=
| WSelect
| WAnswer (j : Job)
| WError (cx : ServerContext) (m : ThriftMessage Resp AppExn)
| WReturned.

Inductive MLogged : Type :=
| MRead (m : ThriftMessage Req AppExn)
| MSent (m : ThriftMessage Req AppExn) (r : ThriftMessage Resp AppExn)
| MSendFailed (m : ThriftMessage Req AppExn) (r : ThriftMessage Resp AppExn)
| MRefused (r : ThriftMessage Resp AppExn) (sent : bool)
| MTraced (cx : ServerContext)
| MTaskPanicked (m : ThriftMessage Req AppExn).

Record MServer : Type := mkMServer {
  ms_dec : Dec; ms_enc : Enc;
  ms_info : Info; ms_writer_info : Info;
  ms_reader : ReadLoop;
  ms_tasks : list Task;
  ms_send : list Job;
  ms_error : list (ServerContext * ThriftMessage Resp AppExn);
  ms_writer : Writer;
  ms_log : list MLogged }.

Definition mx_start (dec : Dec) (enc : Enc) : MServer :=
  mkMServer dec enc info_default info_default RRunning [] [] [] WSelect [].

Definition set_reader (r : ReadLoop) (s : MServer) : MServer :=
  mkMServer (ms_dec s) (ms_enc s) (ms_info s) (ms_writer_info s) r (ms_tasks s) (ms_send s) (ms_error s)
    (ms_writer s) (ms_log s).
Definition set_tasks (ts : list Task) (s : MServer) : MServer :=
  mkMServer (ms_dec s) (ms_enc s) (ms_info s) (ms_writer_info s) (ms_reader s) ts (ms_send s) (ms_error s)
    (ms_writer s) (ms_log s).
Definition set_channels (q : list Job) (e : list (ServerContext * ThriftMessage Resp AppExn)) (s : MServer) : MServer :=
  mkMServer (ms_dec s) (ms_enc s) (ms_info s) (ms_writer_info s) (ms_reader s) (ms_tasks s) q e
    (ms_writer s) (ms_log s).
Definition set_writer (w : Writer) (s : MServer) : MServer :=
  mkMServer (ms_dec s) (ms_enc s) (ms_info s) (ms_writer_info s) (ms_reader s) (ms_tasks s) (ms_send s) (ms_error s)
    w (ms_log s).
Definition mlog (l : list MLogged) (s : MServer) : MServer :=
  mkMServer (ms_dec s) (ms_enc s) (ms_info s) (ms_writer_info s) (ms_reader s) (ms_tasks s) (ms_send s) (ms_error s)
    (ms_writer s) (ms_log s ++ l).
(** The writer returns and drops its receivers, with what is in the channels. *)
Definition writer_return (s : MServer) : MServer := set_writer WReturned (set_channels [] [] s).

(** A new context, with the peer's address. *)
Definition new_context : ServerContext :=
  match sp_peer_addr sp with
  | Some a => RpcCx.rpc_info_mut (RpcInfo.caller_mut (Endpoint.set_address a)) ServerContext.default
  | None => ServerContext.default
  end.

Inductive MEvent : Type :=
| EvNotified
| EvDecoded
| EvHandled (k : nat) (svc : Svc) (start stop : Z) (exit : bool)
| EvEnqueue (k : nat)
| EvReceive
| EvReceiveError
| EvWritten.

(** ** The read loop *)

Definition after_decode (dec : Dec) (info : Info) (s : MServer) : MServer :=
  mkMServer dec (ms_enc s) info (ms_writer_info s) (ms_reader s) (ms_tasks s) (ms_send s) (ms_error s)
    (ms_writer s) (ms_log s).

(** A message that could not be decoded: unless the transport failed, the writer
    is told; [send] fails when the writer is gone. *)
Definition decode_failed (cx : ServerContext) (e : ThriftException) (s : MServer) : MServer :=
  let cx := set_msg_type Exception cx in
  let s :=
    match e with
    | TransportException _ => s
    | _ =>
        let msg := mk_server_resp cx (inr (thrift_exception_to_application_exception (sp_exn_text sp) e)) in
        match ms_writer s with
        | WReturned => s
        | _ => set_channels (ms_send s) (ms_error s ++ [(cx, msg)]) s
        end
    end in
  set_reader RReturned s.

(** The decoder's result; a request becomes a task that takes the metainfo. *)
Definition decoded (s : MServer) : MServer :=
  let '(dec, cx, info, d) := sp_decode sp (ms_dec s) new_context (ms_info s) in
  let s := after_decode dec info s in
  match d with
  | DMsg m =>
      match tm_data m with
      | inl req => after_decode dec info_default (set_tasks (ms_tasks s ++ [TCall m req cx info]) (mlog [MRead m] s))
      | inr _ => set_reader RPanicked s
      end
  | DEof => set_reader RReturned s
  | DErr e => decode_failed cx e s
  end.

(** ** A task *)

(** The end of the handler: the task ends with a one-way request, or has an
    answer to send; [None]: the type of the request is missing. *)
Definition handled (m : ThriftMessage Req AppExn) (req : Req) (cx : ServerContext) (info : Info)
    (svc : Svc) (start stop : Z) (exit : bool) : option (option Job) :=
  let cx := record_process_start_at start cx in
  let '(_, cx, info, r) := sp_call sp svc cx info req in
  let cx := record_process_end_at stop cx in
  let cx := if exit then set_conn_reset true cx else cx in
  match s_req_msg_type (cx_inner cx) with
  | None => None
  | Some OneWay => Some None
  | Some _ =>
      let cx := set_msg_type (match r with inl _ => Reply | inr _ => Exception end) cx in
      let resp := match r with
                  | inl resp => inl resp
                  | inr e => inr (server_error_to_application_exception (sp_biz_text sp) e)
                  end in
      Some (Some (mkJob m info cx (mk_server_resp cx resp)))
  end.

Definition task_handled (k : nat) (svc : Svc) (start stop : Z) (exit : bool) (s : MServer) : option MServer :=
  match ms_tasks s !! k with
  | Some (TCall m req cx info) =>
      Some (match handled m req cx info svc start stop exit with
            | None => mlog [MTaskPanicked m] (set_tasks (delete k (ms_tasks s)) s)
            | Some None => set_tasks (delete k (ms_tasks s)) s
            | Some (Some j) => set_tasks (<[k := TSend j]> (ms_tasks s)) s
            end)
  | _ => None
  end.

(** [send_tx.send(..)]: waits for room; an error, which is ignored, when the
    receiver is gone. *)
Definition task_enqueue (k : nat) (s : MServer) : option MServer :=
  match ms_tasks s !! k with
  | Some (TSend j) =>
      let s' := set_tasks (delete k (ms_tasks s)) s in
      match ms_writer s with
      | WReturned => Some s'
      | _ => if (length (ms_send s) <? CHANNEL_SIZE)%nat
             then Some (set_channels (ms_send s ++ [j]) (ms_error s) s') else None
      end
  | _ => None
  end.

(** ** The writer *)

(** The senders that are left: the read loop's own and one in each task. *)
Definition send_closed (s : MServer) : bool :=
  match ms_reader s, ms_tasks s with RRunning, _ => false | _, [] => true | _, _ => false end.
Definition error_closed (s : MServer) : bool :=
  match ms_reader s with RRunning => false | _ => true end.

(** The branch on [send_rx.recv()]. *)
Definition receive (s : MServer) : option MServer :=
  match ms_writer s, ms_send s with
  | WSelect, j :: q => Some (set_writer (WAnswer j) (set_channels q (ms_error s) s))
  | WSelect, [] => if send_closed s then Some (writer_return s) else None
  | _, _ => None
  end.

(** The branch on [error_send_rx.recv()]. *)
Definition receive_error (s : MServer) : option MServer :=
  match ms_writer s, ms_error s with
  | WSelect, (cx, m) :: q => Some (set_writer (WError (set_conn_reset true cx) m) (set_channels (ms_send s) q s))
  | WSelect, [] => if error_closed s then Some (writer_return s) else None
  | _, _ => None
  end.

Definition after_encode (enc : Enc) (winfo : Info) (s : MServer) : MServer :=
  mkMServer (ms_dec s) enc (ms_info s) winfo (ms_reader s) (ms_tasks s) (ms_send s) (ms_error s)
    (ms_writer s) (ms_log s).

(** The encoder is done: an answer is written under the metainfo it came with,
    an error under the writer's own. *)
Definition written (s : MServer) : option MServer :=
  match ms_writer s with
  | WAnswer j =>
      let '(enc, cx, _, r) := sp_encode sp (ms_enc s) (jb_cx j) (jb_info j) (jb_msg j) in
      let s := after_encode enc (ms_writer_info s) s in
      Some (match r with
            | Some _ => writer_return (mlog [MSendFailed (jb_req j) (jb_msg j); MTraced cx] s)
            | None =>
                let s := mlog [MSent (jb_req j) (jb_msg j); MTraced cx] s in
                if s_conn_reset (cx_inner cx) then writer_return s else set_writer WSelect s
            end)
  | WError cx m =>
      let '(enc, cx, info, r) := sp_encode sp (ms_enc s) cx (ms_writer_info s) m in
      let s := after_encode enc info s in
      Some (writer_return (mlog [MRefused m (match r with Some _ => false | None => true end); MTraced cx] s))
  | _ => None
  end.

(** An event, where it can happen. *)
Definition mx_step (e : MEvent) (s : MServer) : option MServer :=
  match e with
  | EvNotified => match ms_reader s with RRunning => Some (set_reader RReturned s) | _ => None end
  | EvDecoded => match ms_reader s with RRunning => Some (decoded s) | _ => None end
  | EvHandled k svc start stop exit => task_handled k svc start stop exit s
  | EvEnqueue k => task_enqueue k s
  | EvReceive => receive s
  | EvReceiveError => receive_error s
  | EvWritten => written s
  end.

Fixpoint mx_run (es : list MEvent) (s : MServer) : option MServer :=
  match es with
  | [] => Some s
  | e :: es => s ← mx_step e s; mx_run es s
  end.
End MultiplexServer.
Arguments Job Req Resp Info : clear implicits.
Arguments Task Req Resp Info : clear implicits.
Arguments MServer Dec Enc Req Resp Info : clear implicits.
Arguments MEvent Svc : clear implicits.
Arguments MLogged Req Resp : clear implicits.
Arguments Writer Req Resp Info : clear implicits.
