(* ===== verification/MultiplexServerSpec.v ===== *)
(** What a multiplexed connection promises: every two-way request that was read
    is answered once, under its own sequence id, or still in progress, as long
    as the writer runs; the tasks and the writer finish without the read loop;
    and what is lost when the writer returns. *)

From S2P Require Import Prelude Net Context TTHeader BufReader Codec ThriftServer ThriftServerSpec ThriftServerExample MultiplexServer.

Section Spec.
Context {Dec Enc Svc Req Resp Info : Type} (sp : ServeParams Dec Enc Svc Req Resp Info).
Context {laws : ServeLaws sp} (info_default : Info).
Abbreviation State := (MServer Dec Enc Req Resp Info).
Abbreviation run := (mx_run sp info_default).
Abbreviation step := (mx_step sp info_default).

Definition two_way (m : ThriftMessage Req AppExn) : list (ThriftMessage Req AppExn) :=
  match mm_msg_type (tm_meta m) with OneWay => [] | _ => [m] end.

(** The two-way requests read, the answers written, the requests whose answer
    could not be written. *)
Definition requests (l : list (MLogged Req Resp)) : list (ThriftMessage Req AppExn) :=
  l ≫= fun x => match x with MRead m => two_way m | _ => [] end.
Definition answered (l : list (MLogged Req Resp)) : list (ThriftMessage Req AppExn * ThriftMessage Resp AppExn) :=
  l ≫= fun x => match x with MSent m r => [(m, r)] | _ => [] end.
Definition unsent (l : list (MLogged Req Resp)) : list (ThriftMessage Req AppExn) :=
  l ≫= fun x => match x with MSendFailed m _ => [m] | _ => [] end.

(** The requests in progress: in the tasks, in the channel, at the writer. *)
Definition task_request (t : Task Req Resp Info) : list (ThriftMessage Req AppExn) :=
  match t with TCall m _ _ _ => two_way m | TSend j => [jb_req j] end.
Definition writer_request (w : Writer Req Resp Info) : list (ThriftMessage Req AppExn) :=
  match w with WAnswer j => [jb_req j] | _ => [] end.
Definition in_progress (s : State) : list (ThriftMessage Req AppExn) :=
  writer_request (ms_writer s) ++ (jb_req <$> ms_send s) ++ (ms_tasks s ≫= task_request).

(** ** The invariant *)

Definition job_ok (j : Job Req Resp Info) : Prop := answers (jb_req j) (jb_msg j).

Definition task_ok (t : Task Req Resp Info) : Prop :=
  match t with
  | TCall m _ cx _ =>
      s_seq_id (cx_inner cx) = Some (mm_seq_id (tm_meta m)) /\
      s_req_msg_type (cx_inner cx) = Some (mm_msg_type (tm_meta m))
  | TSend j => job_ok j
  end.

Definition writer_ok (w : Writer Req Resp Info) : Prop :=
  match w with WAnswer j => job_ok j | _ => True end.

Lemma writer_cases (w : Writer Req Resp Info) : w = WReturned \/ w <> WReturned.
Proof. destruct w; auto. Qed.

Record mx_inv (s : State) : Prop := {
  inv_tasks : Forall task_ok (ms_tasks s);
  inv_send : Forall job_ok (ms_send s);
  inv_writer : writer_ok (ms_writer s);
  inv_answered : Forall (fun p => answers p.1 p.2) (answered (ms_log s));
  inv_panics : forall m, MTaskPanicked m ∉ ms_log s;
  inv_error : ms_reader s = RRunning -> ms_error s = [];
  inv_returned : ms_writer s = WReturned -> ms_send s = [];
  inv_lost : (answered (ms_log s)).*1 ++ unsent (ms_log s) ++ in_progress s ⊆+ requests (ms_log s);
  inv_alive : ms_writer s <> WReturned ->
    requests (ms_log s) ≡ₚ (answered (ms_log s)).*1 ++ in_progress s
}.

Lemma inv_start dec enc : mx_inv (mx_start info_default dec enc).
Proof. split; cbn; try done; try constructor. intros m. apply not_elem_of_nil. Qed.

(** The log grows by what has no bearing on requests and answers. *)
Lemma requests_app l k : requests (l ++ k) = requests l ++ requests k.
Proof. apply bind_app. Qed.
Lemma answered_app l k : answered (l ++ k) = answered l ++ answered k.
Proof. apply bind_app. Qed.
Lemma unsent_app l k : unsent (l ++ k) = unsent l ++ unsent k.
Proof. apply bind_app. Qed.
Ltac mxlog := rewrite ?requests_app, ?answered_app, ?unsent_app.

Lemma tasks_delete k (t : Task Req Resp Info) ts :
  ts !! k = Some t -> ts ≫= task_request ≡ₚ task_request t ++ (delete k ts ≫= task_request).
Proof. intros H. by rewrite (delete_Permutation _ _ _ H) at 1. Qed.

Lemma tasks_insert k (t u : Task Req Resp Info) ts :
  ts !! k = Some t -> task_request u = task_request t -> <[k := u]> ts ≫= task_request = ts ≫= task_request.
Proof.
  intros H Hu. rewrite <- (take_drop_middle ts k t H) at 2. rewrite (insert_take_drop ts k u) by (by apply lookup_lt_Some in H).
  rewrite !bind_app. cbn. by rewrite Hu.
Qed.

(** A handler that ran leaves an answer of its request, or nothing after a one-way one. *)
Lemma handled_ok m req cx info svc start stop exit :
  task_ok (TCall m req cx info) ->
  match handled sp m req cx info svc start stop exit with
  | None => False
  | Some None => two_way m = []
  | Some (Some j) => jb_req j = m /\ job_ok j /\ two_way m = [m]
  end.
Proof.
  intros [Hs Hq]. unfold handled, two_way.
  destruct (call_keeps sp svc (record_process_start_at start cx) info req) as [K1 K2].
  destruct (sp_call sp svc (record_process_start_at start cx) info req) as [[[svc' cx1] info1] r]. cbn [fst snd] in K1, K2.
  set (cx2 := if exit then _ else _).
  assert (s_seq_id (cx_inner cx2) = Some (mm_seq_id (tm_meta m))) as S2
    by (unfold cx2; destruct exit; exact (eq_trans K1 Hs)).
  assert (s_req_msg_type (cx_inner cx2) = Some (mm_msg_type (tm_meta m))) as ->
    by (unfold cx2; destruct exit; exact (eq_trans K2 Hq)).
  destruct (mm_msg_type (tm_meta m)); [| | |done].
  all: destruct r; (split; [done|]); (split; [|done]); (split; [|done]); cbn; by rewrite S2.
Qed.

(** ** Every event preserves it *)

(** What the read loop does leaves the writer's side alone. *)
Lemma inv_reader s s' :
  mx_inv s -> ms_tasks s' = ms_tasks s -> ms_send s' = ms_send s -> ms_writer s' = ms_writer s -> ms_log s' = ms_log s ->
  (ms_reader s' = RRunning -> ms_error s' = []) -> mx_inv s'.
Proof. intros [I1 I2 I3 I4 I5 I6 I0 I7 I8] H1 H2 H3 H4 H5. split; unfold in_progress; rewrite ?H1, ?H2, ?H3, ?H4; auto. Qed.

Lemma inv_spawn s s' m req cx info :
  mx_inv s -> task_ok (TCall m req cx info) -> ms_tasks s' = ms_tasks s ++ [TCall m req cx info] -> ms_send s' = ms_send s ->
  ms_writer s' = ms_writer s -> ms_log s' = ms_log s ++ [MRead m] -> ms_reader s' = ms_reader s -> ms_error s' = ms_error s ->
  mx_inv s'.
Proof.
  intros [I1 I2 I3 I4 I5 I6 I0 I7 I8] Ht H1 H2 H3 H4 H5 H6.
  assert (in_progress s' = in_progress s ++ two_way m) as Hp.
  { unfold in_progress. rewrite H1, H2, H3, bind_app. cbn. by rewrite app_nil_r, <- !app_assoc. }
  split; rewrite ?Hp, ?H1, ?H2, ?H3, ?H4, ?H5, ?H6; mxlog; cbn; rewrite ?app_nil_r; auto.
  - apply Forall_app. auto.
  - intros m'. rewrite elem_of_app, list_elem_of_singleton. intros [?|?]; [by eapply I5|done].
  - rewrite !(app_assoc _ _ (two_way m)). by apply submseteq_skips_r.
  - intros Ha. rewrite (app_assoc _ _ (two_way m)). by rewrite <- (I8 Ha).
Qed.

Lemma inv_decoded s : mx_inv s -> ms_reader s = RRunning -> mx_inv (decoded sp info_default s).
Proof.
  intros I Hr. unfold decoded. pose proof (decode_notes sp (ms_dec s) (new_context sp) (ms_info s)) as Hn.
  destruct (sp_decode sp (ms_dec s) (new_context sp) (ms_info s)) as [[[dec cx] info] d]. cbn [fst snd] in Hn.
  destruct d as [m| |e].
  - destruct (tm_data m) as [req|x]; [|by apply (inv_reader s)].
    eapply (inv_spawn s _ m req cx info); try done. by apply Hn.
  - by apply (inv_reader s).
  - unfold decode_failed. destruct e; cbn; try (by apply (inv_reader s)).
    all: destruct (ms_writer s) eqn:?; by apply (inv_reader s).
Qed.

Lemma inv_handled k svc start stop exit s s' :
  mx_inv s -> task_handled sp k svc start stop exit s = Some s' -> mx_inv s'.
Proof.
  intros I. unfold task_handled. destruct (ms_tasks s !! k) as [[m req cx info|j]|] eqn:Hk; [|done..]. intros [= <-].
  pose proof I as [I1 I2 I3 I4 I5 I6 I0 I7 I8].
  pose proof (Forall_lookup_1 _ _ _ _ I1 Hk) as Ht. pose proof (handled_ok m req cx info svc start stop exit Ht) as Hh.
  destruct (handled sp m req cx info svc start stop exit) as [[j|]|]; [|clear Ht|done].
  - destruct Hh as (Hj & Hok & H2).
    assert (in_progress (set_tasks (<[k:=TSend j]> (ms_tasks s)) s) = in_progress s) as Hp.
    { unfold in_progress. cbn. rewrite (tasks_insert k (TCall m req cx info)); [done..|]. cbn. by rewrite H2, Hj. }
    split; rewrite ?Hp; cbn; try done. by apply Forall_insert.
  - assert (in_progress (set_tasks (delete k (ms_tasks s)) s) ≡ₚ in_progress s) as Hp.
    { unfold in_progress. cbn. rewrite (tasks_delete k _ _ Hk). cbn. by rewrite Hh. }
    split; rewrite ?Hp; cbn; try done. by apply Forall_delete.
Qed.

Lemma inv_enqueue k s s' : mx_inv s -> task_enqueue k s = Some s' -> mx_inv s'.
Proof.
  intros [I1 I2 I3 I4 I5 I6 I0 I7 I8]. unfold task_enqueue. destruct (ms_tasks s !! k) as [[m req cx info|j]|] eqn:Hk; [done| |done].
  pose proof (Forall_lookup_1 _ _ _ _ I1 Hk) as Ht.
  destruct (writer_cases (ms_writer s)) as [Hw|Hw].
  - rewrite Hw. intros [= <-].
    assert (in_progress (set_tasks (delete k (ms_tasks s)) s) ⊆+ in_progress s) as Hp.
    { unfold in_progress. cbn. rewrite (tasks_delete k _ _ Hk). apply submseteq_skips_l, submseteq_skips_l.
      by apply submseteq_inserts_l. }
    split; cbn; try done; [by apply Forall_delete|]. etrans; [|exact I7]. by apply submseteq_skips_l, submseteq_skips_l.
  - intros H. assert (Some (set_channels (ms_send s ++ [j]) (ms_error s) (set_tasks (delete k (ms_tasks s)) s)) = Some s') as H'.
    { destruct (ms_writer s); try done; by destruct (_ <? _)%nat. }
    clear H. injection H' as <-. set (s' := set_channels _ _ _).
    assert (in_progress s' ≡ₚ in_progress s) as Hp.
    { unfold in_progress. cbn. rewrite (tasks_delete k _ _ Hk), fmap_app. cbn. by rewrite <- !app_assoc. }
    split; rewrite ?Hp; cbn; try done; [by apply Forall_delete|]. by apply Forall_app_2; [|constructor].
Qed.

(** The writer returns: what it held and what was in the channel is lost. *)
Lemma inv_return s :
  mx_inv s -> mx_inv (writer_return s).
Proof.
  intros [I1 I2 I3 I4 I5 I6 I0 I7 I8]. split; cbn; try done. etrans; [|exact I7].
  apply submseteq_skips_l, submseteq_skips_l. unfold in_progress. cbn. by apply submseteq_inserts_l, submseteq_inserts_l.
Qed.

Lemma inv_receive s s' : mx_inv s -> receive s = Some s' -> mx_inv s'.
Proof.
  intros I. unfold receive. destruct (ms_writer s) eqn:Hw; try done. destruct (ms_send s) as [|j q] eqn:Hq.
  - destruct (send_closed s); [|done]. intros [= <-]. by apply inv_return.
  - intros [= <-]. destruct I as [I1 I2 I3 I4 I5 I6 I0 I7 I8]. rewrite Hq in I2. apply Forall_cons in I2 as [J Q].
    set (s' := set_writer _ _). assert (in_progress s' = in_progress s) as Hp by (unfold in_progress; cbn; by rewrite Hw, Hq).
    split; rewrite ?Hp; cbn; try done. intros _. apply I8. by rewrite Hw.
Qed.

Lemma inv_receive_error s s' : mx_inv s -> receive_error s = Some s' -> mx_inv s'.
Proof.
  intros I. unfold receive_error. destruct (ms_writer s) eqn:Hw; try done. destruct (ms_error s) as [|[cx m] q] eqn:Hq.
  - destruct (error_closed s); [|done]. intros [= <-]. by apply inv_return.
  - intros [= <-]. destruct I as [I1 I2 I3 I4 I5 I6 I0 I7 I8].
    set (s' := set_writer _ _). assert (in_progress s' = in_progress s) as Hp by (unfold in_progress; cbn; by rewrite Hw).
    split; rewrite ?Hp; cbn; try done.
    + intros Hr. specialize (I6 Hr). congruence.
    + intros _. apply I8. by rewrite Hw.
Qed.

Lemma inv_written s s' : mx_inv s -> written sp s = Some s' -> mx_inv s'.
Proof.
  intros I. unfold written. destruct (ms_writer s) as [|j|cx m|] eqn:Hw; try done.
  - destruct (sp_encode sp (ms_enc s) (jb_cx j) (jb_info j) (jb_msg j)) as [[[enc cx] info] [e|]]; intros [= <-].
    all: destruct I as [I1 I2 I3 I4 I5 I6 I0 I7 I8]; rewrite Hw in I3; unfold in_progress in I7, I8; rewrite Hw in I7, I8; cbn in I7, I8.
    + split; cbn; mxlog; cbn; rewrite ?app_nil_r; try done.
      * intros m. rewrite elem_of_app, !elem_of_cons, elem_of_nil. intros [?|[?|[?|?]]]; try done. by eapply I5.
      * etrans; [|exact I7]. apply submseteq_skips_l. rewrite <- app_assoc. apply submseteq_skips_l. cbn.
        apply submseteq_skip. unfold in_progress. cbn. by apply submseteq_inserts_l.
    + set (s1 := mlog _ _). assert (mx_inv (set_writer WSelect s1)) as I'.
      { split; cbn; mxlog; cbn; rewrite ?app_nil_r; try done.
        - apply Forall_app_2; [done|]. by constructor.
        - intros m. rewrite elem_of_app, !elem_of_cons, elem_of_nil. intros [?|[?|[?|?]]]; try done. by eapply I5.
        - unfold in_progress. cbn. rewrite fmap_app, <- app_assoc. cbn. etrans; [|exact I7]. apply submseteq_skips_l.
          by rewrite Permutation_middle.
        - intros _. unfold in_progress. cbn. rewrite fmap_app, <- app_assoc. apply I8. done. }
      destruct (s_conn_reset (cx_inner cx)); [|done]. exact (inv_return _ I').
  - destruct (sp_encode sp (ms_enc s) cx (ms_writer_info s) m) as [[[enc cx'] info] e]; intros [= <-].
    destruct I as [I1 I2 I3 I4 I5 I6 I0 I7 I8]. unfold in_progress in I7. rewrite Hw in I7. cbn in I7.
    split; cbn; mxlog; cbn; rewrite ?app_nil_r; try done.
    + intros m'. rewrite elem_of_app, !elem_of_cons, elem_of_nil. intros [?|[?|[?|?]]]; try done. by eapply I5.
    + etrans; [|exact I7]. apply submseteq_skips_l, submseteq_skips_l. unfold in_progress. cbn. by apply submseteq_inserts_l.
Qed.

Lemma inv_step e s s' : mx_inv s -> step e s = Some s' -> mx_inv s'.
Proof.
  intros I. destruct e; cbn.
  - destruct (ms_reader s) eqn:Hr; [|done..]. intros [= <-]. by apply (inv_reader s).
  - destruct (ms_reader s) eqn:Hr; [|done..]. intros [= <-]. by apply inv_decoded.
  - by apply inv_handled.
  - by apply inv_enqueue.
  - by apply inv_receive.
  - by apply inv_receive_error.
  - by apply inv_written.
Qed.

Lemma inv_run es s s' : mx_inv s -> run es s = Some s' -> mx_inv s'.
Proof.
  revert s. induction es as [|e es IH]; cbn; intros s I; [by intros [= <-]|].
  destruct (step e s) as [s1|] eqn:He; [|done]. cbn. apply IH. by apply (inv_step e s).
Qed.

Definition reachable (s : State) : Prop := exists dec enc es, run es (mx_start info_default dec enc) = Some s.

Lemma inv_reachable s : reachable s -> mx_inv s.
Proof. intros (dec & enc & es & H). eapply inv_run; [apply inv_start|exact H]. Qed.

(** C14: On a multiplexed connection, however its tasks, its read loop and its writer
    interleave: every message written for a request carries that request's
    sequence id and says whether it is a reply or an exception; no two-way
    request is answered twice and no one-way request at all; no task
    panics; and as long as the writer runs, the two-way requests read are
    exactly the ones answered and the ones in progress. *)
Theorem multiplex_answers_each_request s :
  reachable s ->
  Forall (fun p => answers p.1 p.2) (answered (ms_log s)) /\
  (answered (ms_log s)).*1 ++ unsent (ms_log s) ++ in_progress s ⊆+ requests (ms_log s) /\
  (forall m, MTaskPanicked m ∉ ms_log s) /\
  (ms_writer s <> WReturned -> requests (ms_log s) ≡ₚ (answered (ms_log s)).*1 ++ in_progress s).
Proof. intros H%inv_reachable. destruct H; auto. Qed.

(** ** The tasks and the writer finish *)

Definition local (e : MEvent Svc) : bool :=
  match e with EvNotified | EvDecoded | EvReceiveError => false | _ => true end.

Definition task_work (t : Task Req Resp Info) : nat := match t with TCall _ _ _ _ => 4 | TSend _ => 3 end.
Definition writer_work (w : Writer Req Resp Info) : nat :=
  match w with WReturned => 0 | WSelect => 1 | _ => 2 end.
(** How much is left to do. *)
Definition work (s : State) : nat := sum_list_with task_work (ms_tasks s) + 2 * length (ms_send s) + writer_work (ms_writer s).

Lemma local_step e s s' : local e = true -> step e s = Some s' -> (work s' < work s)%nat /\ requests (ms_log s') = requests (ms_log s).
Proof.
  destruct e as [| |k svc start stop exit|k| | |]; try done; intros _; cbn.
  - unfold task_handled, work. destruct (ms_tasks s !! k) as [[m req cx info|j]|] eqn:Hk; [|done..]. intros [= <-].
    destruct (handled _ _ _ _ _ _ _ _ _) as [[j|]|]; cbn.
    + pose proof (sum_list_with_insert task_work k _ (TSend j) _ Hk) as H. cbn in H. split; [lia|done].
    + rewrite (sum_list_with_delete _ _ _ _ Hk). cbn. split; [lia|done].
    + rewrite (sum_list_with_delete _ _ _ _ Hk), requests_app. cbn. rewrite app_nil_r. split; [lia|done].
  - unfold task_enqueue, work. destruct (ms_tasks s !! k) as [[m req cx info|j]|] eqn:Hk; [done| |done].
    destruct (ms_writer s) eqn:Hw; try (destruct (length (ms_send s) <? CHANNEL_SIZE)%nat; [|done]).
    all: intros E; injection E as <-; cbn; rewrite (sum_list_with_delete _ _ _ _ Hk), ?length_app, ?Hw; cbn; (split; [lia|done]).
  - unfold receive, work. destruct (ms_writer s) eqn:Hw; try done. destruct (ms_send s) as [|j q] eqn:Hq.
    + destruct (send_closed s); [|done]. intros [= <-]. cbn. split; [lia|done].
    + intros [= <-]. cbn. split; [lia|done].
  - unfold written, work. destruct (ms_writer s) as [|j|cx m|] eqn:Hw; try done.
    + destruct (sp_encode _ _ _ _ _) as [[[enc cx] info] [e|]]; intros [= <-]; [|destruct (s_conn_reset _)]; cbn;
        rewrite requests_app; cbn; rewrite app_nil_r; (split; [lia|done]).
    + destruct (sp_encode _ _ _ _ _) as [[[enc cx'] info] e]; intros [= <-]; cbn.
      rewrite requests_app. cbn. rewrite app_nil_r. split; [lia|done].
Qed.

(** Something can move while something is left. *)
Lemma local_enabled s (svc : Svc) :
  in_progress s <> [] \/ (exists t, t ∈ ms_tasks s) -> mx_inv s -> exists e s', local e = true /\ step e s = Some s'.
Proof.
  intros Hp I. destruct (ms_writer s) as [|j|cx m|] eqn:Hw.
  - destruct (ms_send s) as [|j q] eqn:Hq; [|exists EvReceive; eexists; split; [done|]; cbn; unfold receive; by rewrite Hw, Hq].
    assert (exists t ts, ms_tasks s = t :: ts) as (t & ts & Ht).
    { destruct Hp as [Hp|[t Ht]]; [|destruct (ms_tasks s); [by apply elem_of_nil in Ht|by eexists _, _]].
      destruct (ms_tasks s) eqn:Ht; [|by eexists _, _]. destruct Hp. unfold in_progress. by rewrite Hw, Hq, Ht. }
    destruct t as [m req cx info|j].
    + exists (EvHandled 0 svc 0 0 false). eexists. split; [done|]. cbn. unfold task_handled. by rewrite Ht.
    + exists (EvEnqueue 0). eexists. split; [done|]. cbn. unfold task_enqueue. rewrite Ht, Hw, Hq. done.
  - assert (is_Some (written sp s)) as [s' Hs]; [|by exists EvWritten, s'].
    unfold written. rewrite Hw. destruct (sp_encode _ _ _ _ _) as [[[? ?] ?] ?]. by eexists.
  - assert (is_Some (written sp s)) as [s' Hs]; [|by exists EvWritten, s'].
    unfold written. rewrite Hw. destruct (sp_encode _ _ _ _ _) as [[[? ?] ?] ?]. by eexists.
  - assert (exists t ts, ms_tasks s = t :: ts) as (t & ts & Ht).
    { destruct Hp as [Hp|[t Ht]]; [|destruct (ms_tasks s); [by apply elem_of_nil in Ht|by eexists _, _]].
      destruct (ms_tasks s) eqn:Ht; [|by eexists _, _]. destruct Hp. unfold in_progress. rewrite Hw, Ht. cbn.
      by rewrite (inv_returned s I Hw). }
    destruct t as [m req cx info|j].
    + exists (EvHandled 0 svc 0 0 false). eexists. split; [done|]. cbn. unfold task_handled. by rewrite Ht.
    + exists (EvEnqueue 0). eexists. split; [done|]. cbn. unfold task_enqueue. by rewrite Ht, Hw.
Qed.

Lemma local_run es s s' :
  forallb local es = true -> run es s = Some s' ->
  (length es + work s' <= work s)%nat /\ requests (ms_log s') = requests (ms_log s).
Proof.
  revert s. induction es as [|e es IH]; cbn; intros s Hl; [intros [= <-]; split; [lia|done]|].
  apply andb_prop in Hl as [He Hl]. destruct (step e s) as [s1|] eqn:H1; [|done]. cbn. intros H.
  apply local_step in H1 as [? H1]; [|done]. apply IH in H as [? H]; [|done]. split; [lia|congruence].
Qed.

Lemma local_drain (svc : Svc) s :
  mx_inv s -> exists es s', forallb local es = true /\ run es s = Some s' /\ ms_tasks s' = [] /\ in_progress s' = [].
Proof.
  remember (work s) as n eqn:Hn. revert s Hn. induction (lt_wf n) as [n _ IH]. intros s -> I.
  assert (ms_tasks s = [] /\ in_progress s = [] \/ (in_progress s <> [] \/ exists t, t ∈ ms_tasks s)) as [[H1 H2]|Hp].
  { destruct (ms_tasks s) as [|t ts]; [|right; right; exists t; left].
    destruct (in_progress s); [by left|right; by left]. }
  - by exists [], s.
  - destruct (local_enabled s svc Hp I) as (e & s1 & He & H1).
    destruct (local_step e s s1 He H1) as [Hlt _].
    destruct (IH (work s1) Hlt s1 eq_refl (inv_step e s s1 I H1)) as (es & s' & Hes & Hr & H2).
    exists (e :: es), s'. cbn. by rewrite He, Hes, H1.
Qed.

(** C40: What was read gets finished without the read loop: however the tasks and the
    writer interleave, they make at most four steps for each task, two for
    each answer in the channel and two more; some way of doing so leaves no
    task and nothing in progress, and then every two-way request read has
    been answered unless the writer had to return. *)
Theorem multiplex_work_is_finished (svc : Svc) s :
  reachable s ->
  (forall es s', forallb local es = true -> run es s = Some s' ->
     (length es <= 4 * length (ms_tasks s) + 2 * length (ms_send s) + 2)%nat) /\
  exists es s', forallb local es = true /\ run es s = Some s' /\ ms_tasks s' = [] /\ in_progress s' = [] /\
    (ms_writer s' <> WReturned -> requests (ms_log s) ≡ₚ (answered (ms_log s')).*1).
Proof.
  intros I%inv_reachable. split.
  - intros es s' Hl H. apply local_run in H as [H _]; [|done].
    assert (sum_list_with task_work (ms_tasks s) <= 4 * length (ms_tasks s))%nat.
    { induction (ms_tasks s) as [|[] ts IH]; cbn in *; lia. }
    assert (writer_work (ms_writer s) <= 2)%nat by (destruct (ms_writer s); cbn; lia). unfold work in *. lia.
  - destruct (local_drain svc s I) as (es & s' & Hl & Hr & Ht & Hp). exists es, s'. split_and!; try done.
    intros Hw. destruct (local_run es s s' Hl Hr) as [_ <-].
    rewrite (inv_alive s' (inv_run es s s' I Hr) Hw), Hp. by rewrite app_nil_r.
Qed.

(** ** What is lost *)

Lemma returned_step e s s' :
  ms_writer s = WReturned -> step e s = Some s' -> ms_writer s' = WReturned /\ answered (ms_log s') = answered (ms_log s).
Proof.
  intros Hw. destruct e as [| |k svc start stop exit|k| | |]; cbn.
  - destruct (ms_reader s); [|done..]. by intros [= <-].
  - destruct (ms_reader s); [|done..]. intros [= <-]. unfold decoded.
    destruct (sp_decode _ _ _ _) as [[[dec cx] info] [m| |e]]; [destruct (tm_data m)|..]; cbn; try done.
    + rewrite answered_app. cbn. by rewrite app_nil_r.
    + unfold decode_failed. destruct e; cbn; rewrite ?Hw; by rewrite ?Hw.
  - unfold task_handled. destruct (ms_tasks s !! k) as [[m req cx info|j]|]; [|done..]. intros [= <-].
    destruct (handled _ _ _ _ _ _ _ _ _) as [[j|]|]; cbn; rewrite ?answered_app; cbn; by rewrite ?app_nil_r.
  - unfold task_enqueue. destruct (ms_tasks s !! k) as [[m req cx info|j]|]; [done| |done]. rewrite Hw. by intros [= <-].
  - unfold receive. by rewrite Hw.
  - unfold receive_error. by rewrite Hw.
  - unfold written. by rewrite Hw.
Qed.

Lemma returned_run es s s' :
  ms_writer s = WReturned -> run es s = Some s' -> answered (ms_log s') = answered (ms_log s).
Proof.
  revert s. induction es as [|e es IH]; cbn; intros s Hw; [by intros [= <-]|].
  destruct (step e s) as [s1|] eqn:H1; [|done]. cbn. intros H. apply returned_step in H1 as [? <-]; [|done]. by apply IH.
Qed.

(** A shutdown may lose answers on a multiplexed connection: when the read loop is
    notified, it drops its end of the channel for errors, which the writer may
    take for its own end, though tasks still hold the channel for answers.
    From any state with the writer at its select, these two steps leave the
    tasks running, and none of the requests in progress is ever answered. *)
Theorem multiplex_shutdown_drops_answers s :
  reachable s -> ms_reader s = RRunning -> ms_writer s = WSelect ->
  exists s', run [EvNotified; EvReceiveError] s = Some s' /\ ms_tasks s' = ms_tasks s /\
    forall es s'', run es s' = Some s'' ->
      requests (ms_log s) ≡ₚ (answered (ms_log s'')).*1 ++ in_progress s.
Proof.
  intros I%inv_reachable Hr Hw. exists (writer_return (set_reader RReturned s)). split.
  { cbn. rewrite Hr. cbn. unfold receive_error. cbn. by rewrite Hw, (inv_error s I Hr). }
  split; [done|]. intros es s'' H. apply returned_run in H; [|done]. cbn in H. rewrite H. apply (inv_alive s I). by rewrite Hw.
Qed.
End Spec.

(** * Concrete runs

    A multiplexed connection run on concrete messages, with the parameters of
    the ping-pong example: two calls and a one-way request, answered in the
    order their handlers end, and a shutdown that loses an answer. *)

Module MultiplexServeExample.
Import ServeExample.

Definition start0 : MServer Wire Out Z Z nat := mx_start 0%nat wire [].

(** Three requests are read; the third handler ends first. *)
Definition reads : list (MEvent nat) := [EvDecoded; EvDecoded; EvDecoded].
Definition answers3 : list (MEvent nat) :=
  [EvHandled 2 0%nat 1 2 false; EvHandled 0 1%nat 1 2 false; EvEnqueue 2; EvReceive; EvEnqueue 0;
   EvWritten; EvHandled 0 2%nat 1 2 false; EvReceive; EvWritten].

Definition state_after (es : list (MEvent nat)) : MServer Wire Out Z Z nat :=
  default start0 (mx_run params 0%nat es start0).

Lemma state_after_reachable es : is_Some (mx_run params 0%nat es start0) -> reachable params 0%nat (state_after es).
Proof. intros [s Hs]. exists wire, [], es. unfold state_after. unfold start0 in *. by rewrite Hs. Qed.

Example multiplexed :
  map (fun p => (mm_seq_id (tm_meta p.1), tm_data p.2)) (answered (ms_log (state_after (reads ++ answers3)))) =
    [(9, inr (6, str "0")); (7, inl 42)] /\
  map (fun m => mm_seq_id (tm_meta m)) (requests (ms_log (state_after (reads ++ answers3)))) = [7; 9] /\
  ms_tasks (state_after (reads ++ answers3)) = [].
Proof. vm_compute. auto. Qed.

(** An undecodable message is refused by the writer, which returns. *)
Example refused :
  (ms_log (state_after (reads ++ answers3 ++ [EvDecoded; EvReceiveError; EvWritten])) !! 7%nat) =
    Some (MRefused (mkMessage (inr (7, str "?")) (mkMeta Exception [] 0)) true) /\
  ms_writer (state_after (reads ++ answers3 ++ [EvDecoded; EvReceiveError; EvWritten])) = WReturned.
Proof. vm_compute. auto. Qed.

Lemma multiplex_answers_each_request_witness :
  Forall (fun p => answers p.1 p.2) (answered (ms_log (state_after (reads ++ answers3)))) /\
  requests (ms_log (state_after (reads ++ answers3))) ≡ₚ
    (answered (ms_log (state_after (reads ++ answers3)))).*1 ++ in_progress (state_after (reads ++ answers3)).
Proof.
  destruct (multiplex_answers_each_request params 0%nat (state_after (reads ++ answers3))) as (H1 & _ & _ & H4).
  - apply state_after_reachable. vm_compute. by eexists.
  - split; [exact H1|]. apply H4. by vm_compute.
Defined.

(** All that was read can be answered. *)
Lemma multiplex_work_is_finished_witness :
  exists es s', forallb local es = true /\ mx_run params 0%nat es (state_after reads) = Some s' /\ ms_tasks s' = [] /\
    in_progress s' = [] /\
    (ms_writer s' <> WReturned -> requests (ms_log (state_after reads)) ≡ₚ (answered (ms_log s')).*1).
Proof.
  apply (multiplex_work_is_finished params 0%nat 0%nat (state_after reads)).
  apply state_after_reachable. vm_compute. by eexists.
Defined.

(** Two requests are read and never answered. *)
Lemma multiplex_shutdown_drops_answers_witness :
  length (in_progress (state_after reads)) = 2%nat /\
  exists s', mx_run params 0%nat [EvNotified; EvReceiveError] (state_after reads) = Some s' /\
    ms_tasks s' = ms_tasks (state_after reads) /\
    forall es s'', mx_run params 0%nat es s' = Some s'' ->
      requests (ms_log (state_after reads)) ≡ₚ (answered (ms_log s'')).*1 ++ in_progress (state_after reads).
Proof.
  split; [reflexivity|]. apply (multiplex_shutdown_drops_answers params 0%nat (state_after reads)).
  - apply state_after_reachable. vm_compute. by eexists.
  - reflexivity.
  - reflexivity.
Defined.
End MultiplexServeExample.
