(* ===== verification/ThriftRun.v ===== *)
(** The life of a Thrift server (volo-thrift/src/server/mod.rs): its shutdown
    hooks, the accept loop, the connections' tasks and [run]'s shutdown, each
    at one of its await points or between two atomic operations.

    Time is the seconds [run] has slept. The theorems: the counter counts the
    connections being served; the shutdown is over within 30 seconds of sleep,
    sooner when no connection is left; hooks run in the order they were
    registered; at most one connection is accepted after the flag is set. *)

From S2P Require Import Prelude.

Section Run.
Context {Hook AcceptErr : Type}.

(** The accept loop: at its check of the flag, in [accept], or ended. *)
Inductive AcceptLoop : Type := ACheck | AAccept | AEnded (r : option AcceptErr).

(** A connection's task: spawned, serving (and whether it holds a [Notified]
    that [notify_waiters] reaches), or ended. *)
Inductive Conn : Type := CSpawned | CServing (told : bool) | CEnded.

(** [run] itself. *)
Inductive Main : Type :=
| MSelect
| MHooks (left : list Hook)
| MSample
| MSleep2
| MNotify
| MWait (left : nat)
| MSleep1 (left : nat)
| MReturned (r : option AcceptErr).

Record Running : Type := mkRunning {
  rn_multiplex : bool;
  rn_hooks : list Hook;
  rn_accept : AcceptLoop;
  rn_conns : list Conn;
  rn_conn_cnt : nat;
  rn_exit_flag : bool; rn_exit_mark : bool; rn_notified : bool;
  rn_main : Main;
  rn_called : list Hook;
  rn_slept : nat;
  rn_late : nat }.

(** [register_shutdown_hook]. *)
Definition register_shutdown_hook (h : Hook) (hooks : list Hook) : list Hook := hooks ++ [h].

Definition run_start (multiplex : bool) (hooks : list Hook) : Running :=
  mkRunning multiplex hooks ACheck [] 0 false false false MSelect [] 0 0.

Definition set_accept (a : AcceptLoop) (s : Running) : Running :=
  mkRunning (rn_multiplex s) (rn_hooks s) a (rn_conns s) (rn_conn_cnt s) (rn_exit_flag s) (rn_exit_mark s)
    (rn_notified s) (rn_main s) (rn_called s) (rn_slept s) (rn_late s).
Definition set_conns (cs : list Conn) (cnt : nat) (s : Running) : Running :=
  mkRunning (rn_multiplex s) (rn_hooks s) (rn_accept s) cs cnt (rn_exit_flag s) (rn_exit_mark s)
    (rn_notified s) (rn_main s) (rn_called s) (rn_slept s) (rn_late s).
Definition set_main (m : Main) (s : Running) : Running :=
  mkRunning (rn_multiplex s) (rn_hooks s) (rn_accept s) (rn_conns s) (rn_conn_cnt s) (rn_exit_flag s) (rn_exit_mark s)
    (rn_notified s) m (rn_called s) (rn_slept s) (rn_late s).
Definition sleep (n : nat) (s : Running) : Running :=
  mkRunning (rn_multiplex s) (rn_hooks s) (rn_accept s) (rn_conns s) (rn_conn_cnt s) (rn_exit_flag s) (rn_exit_mark s)
    (rn_notified s) (rn_main s) (rn_called s) (n + rn_slept s) (rn_late s).

Inductive REvent : Type :=
| EvAcceptLoop
| EvAccepted (shmipc : bool)
| EvNoMore
| EvAcceptFailed (e : AcceptErr)
| EvConnStart (i : nat)
| EvConnEnd (i : nat)
| EvSignal
| EvMain.

(** A turn of the accept loop begins: it ends once the flag is set. *)
Definition accept_check (s : Running) : option Running :=
  match rn_accept s with
  | ACheck => Some (set_accept (if rn_exit_flag s then AEnded None else AAccept) s)
  | _ => None
  end.

(** A connection is accepted and its task spawned; a multiplexed server closes
    one of shared memory. Connections accepted with the flag set are counted
    in [rn_late]. *)
Definition accepted (shmipc : bool) (s : Running) : option Running :=
  match rn_accept s with
  | AAccept =>
      let cs := if rn_multiplex s && shmipc then rn_conns s else rn_conns s ++ [CSpawned] in
      Some (mkRunning (rn_multiplex s) (rn_hooks s) ACheck cs (rn_conn_cnt s) (rn_exit_flag s) (rn_exit_mark s)
              (rn_notified s) (rn_main s) (rn_called s) (rn_slept s)
              (if rn_exit_flag s then S (rn_late s) else rn_late s))
  | _ => None
  end.

Definition accept_ends (r : option AcceptErr) (s : Running) : option Running :=
  match rn_accept s with AAccept => Some (set_accept (AEnded r) s) | _ => None end.

(** [handle_conn] and [handle_conn_multiplex]: the task is first run, and ends
    (also by a panic: the counter is a [defer!]). *)
Definition conn_start (i : nat) (s : Running) : option Running :=
  match rn_conns s !! i with
  | Some CSpawned => Some (set_conns (<[i := CServing (negb (rn_notified s))]> (rn_conns s)) (S (rn_conn_cnt s)) s)
  | _ => None
  end.
Definition conn_end (i : nat) (s : Running) : option Running :=
  match rn_conns s !! i with
  | Some (CServing _) => Some (set_conns (<[i := CEnded]> (rn_conns s)) (pred (rn_conn_cnt s)) s)
  | _ => None
  end.

(** [run]'s select: a signal. *)
Definition signal (s : Running) : option Running :=
  match rn_main s with MSelect => Some (set_main (MHooks (rn_hooks s)) s) | _ => None end.

(** [run]'s next step. *)
Definition main_step (s : Running) : option Running :=
  match rn_main s with
  | MSelect =>
      match rn_accept s with
      | AEnded None => Some (set_main (MHooks (rn_hooks s)) s)
      | AEnded (Some e) => Some (set_main (MReturned (Some e)) s)
      | _ => None
      end
  | MHooks (h :: hs) =>
      Some (mkRunning (rn_multiplex s) (rn_hooks s) (rn_accept s) (rn_conns s) (rn_conn_cnt s) (rn_exit_flag s)
              (rn_exit_mark s) (rn_notified s) (MHooks hs) (rn_called s ++ [h]) (rn_slept s) (rn_late s))
  | MHooks [] =>
      Some (mkRunning (rn_multiplex s) (rn_hooks s) (rn_accept s) (rn_conns s) (rn_conn_cnt s) true true
              (rn_notified s) MSample (rn_called s) (rn_slept s) (rn_late s))
  | MSample => Some (set_main (if bool_decide (rn_conn_cnt s = 0%nat) then MNotify else MSleep2) s)
  | MSleep2 => Some (set_main MNotify (sleep 2 s))
  | MNotify =>
      Some (mkRunning (rn_multiplex s) (rn_hooks s) (rn_accept s) (rn_conns s) (rn_conn_cnt s) (rn_exit_flag s)
              (rn_exit_mark s) true (MWait 28) (rn_called s) (rn_slept s) (rn_late s))
  | MWait 0 => Some (set_main (MReturned None) s)
  | MWait (S n) => Some (set_main (if bool_decide (rn_conn_cnt s = 0%nat) then MReturned None else MSleep1 n) s)
  | MSleep1 n => Some (set_main (MWait n) (sleep 1 s))
  | MReturned _ => None
  end.

Definition run_step (e : REvent) (s : Running) : option Running :=
  match e with
  | EvAcceptLoop => accept_check s
  | EvAccepted shmipc => accepted shmipc s
  | EvNoMore => accept_ends None s
  | EvAcceptFailed e => accept_ends (Some e) s
  | EvConnStart i => conn_start i s
  | EvConnEnd i => conn_end i s
  | EvSignal => signal s
  | EvMain => main_step s
  end.

Fixpoint run_all (es : list REvent) (s : Running) : option Running :=
  match es with
  | [] => Some s
  | e :: es => s ← run_step e s; run_all es s
  end.

(** ** The invariant *)

Definition serves (c : Conn) : nat := match c with CServing _ => 1 | _ => 0 end.
(** The connections being served. *)
Definition serving (s : Running) : nat := sum_list_with serves (rn_conns s).

Definition accept_inv (s : Running) : Prop :=
  if rn_exit_flag s then (rn_late s <= 1)%nat /\ (rn_late s = 1%nat -> rn_accept s <> AAccept) else rn_late s = 0%nat.

(** Where [run] is, what it has called and how long it has slept. *)
Definition main_inv (s : Running) : Prop :=
  match rn_main s with
  | MSelect => rn_called s = [] /\ rn_slept s = 0%nat /\ rn_exit_flag s = false
  | MHooks l => rn_called s ++ l = rn_hooks s /\ rn_slept s = 0%nat /\ rn_exit_flag s = false
  | MSample | MSleep2 => rn_called s = rn_hooks s /\ rn_slept s = 0%nat /\ rn_exit_flag s = true
  | MNotify => rn_called s = rn_hooks s /\ (rn_slept s = 0%nat \/ rn_slept s = 2%nat) /\ rn_exit_flag s = true
  | MWait n => rn_called s = rn_hooks s /\ (rn_slept s + n = 28 \/ rn_slept s + n = 30)%nat /\ rn_exit_flag s = true
  | MSleep1 n => rn_called s = rn_hooks s /\ (rn_slept s + n = 27 \/ rn_slept s + n = 29)%nat /\ rn_exit_flag s = true
  | MReturned None => rn_called s = rn_hooks s /\ (rn_slept s <= 30)%nat /\ rn_exit_flag s = true
  | MReturned (Some _) => rn_called s = [] /\ rn_slept s = 0%nat /\ rn_exit_flag s = false
  end.

Record run_inv (s : Running) : Prop := {
  ri_count : rn_conn_cnt s = serving s;
  ri_accept : accept_inv s;
  ri_main : main_inv s
}.

Lemma run_inv_start multiplex hooks : run_inv (run_start multiplex hooks).
Proof. by split. Qed.

Ltac keeps := unfold serving, accept_inv, main_inv, set_main, set_accept, set_conns, sleep; cbn.

(** [run]'s own steps. *)
Lemma main_step_inv s s' : run_inv s -> main_step s = Some s' -> run_inv s'.
Proof.
  intros [I1 I2 I3]. revert I1 I2 I3. destruct s as [mx hooks acc conns cnt fl mk nt main called slept late]; keeps.
  unfold main_step. cbn. intros I1 I2 I3. destruct main as [|[|h l]| | | |[|n]|n|r]; try done.
  1: destruct acc as [| |[e|]]; try done.
  all: intros [= <-]; destruct I3 as (H1 & H2 & H3); try (destruct (bool_decide (cnt = 0%nat))).
  all: split; keeps; try done; rewrite ?H3 in *; try done; rewrite <- ?app_assoc; try done; try (split; [done|]); try lia.
  all: subst; rewrite ?app_nil_r; done.
Qed.

Lemma run_step_inv e s s' : run_inv s -> run_step e s = Some s' -> run_inv s'.
Proof.
  intros I. destruct e; cbn; [| | | | | | |by apply main_step_inv].
  all: destruct I as [I1 I2 I3]; unfold accept_check, accepted, accept_ends, conn_start, conn_end, signal.
  - destruct (rn_accept s) eqn:Ha; [|done..]. intros [= <-]. split; keeps; try done. unfold accept_inv in I2.
    destruct (rn_exit_flag s); [|done]. split; [lia|done].
  - destruct (rn_accept s) eqn:Ha; [done| |done]. intros [= <-]. split; keeps; try done.
    + rewrite I1. unfold serving. destruct (_ && _); [done|]. rewrite sum_list_with_app. cbn. lia.
    + unfold accept_inv in I2. destruct (rn_exit_flag s); [|done]. split; [|done]. rewrite Ha in I2. destruct I2 as [I2 I4].
      destruct (decide (rn_late s = 1%nat)) as [E|E]; [by destruct (I4 E)|lia].
  - destruct (rn_accept s) eqn:Ha; [done| |done]. intros [= <-]. split; keeps; try done. unfold accept_inv in I2.
    destruct (rn_exit_flag s); [|done]. split; [lia|done].
  - destruct (rn_accept s) eqn:Ha; [done| |done]. intros [= <-]. split; keeps; try done. unfold accept_inv in I2.
    destruct (rn_exit_flag s); [|done]. split; [lia|done].
  - destruct (rn_conns s !! i) as [[]|] eqn:Hi; [|done..]. intros [= <-]. split; keeps; try done.
    pose proof (sum_list_with_insert serves i _ (CServing (negb (rn_notified s))) _ Hi) as H. cbn in H. rewrite I1. unfold serving. lia.
  - destruct (rn_conns s !! i) as [[]|] eqn:Hi; [done| |done|done]. intros [= <-]. split; keeps; try done.
    pose proof (sum_list_with_insert serves i _ CEnded _ Hi) as H. cbn in H. rewrite I1. unfold serving. lia.
  - destruct (rn_main s) eqn:Hm; [|done..]. intros [= <-]. unfold main_inv in I3. rewrite Hm in I3. destruct I3 as (H1 & H2 & H3).
    split; keeps; try done. by rewrite H1, H2.
Qed.

Definition run_reachable (s : Running) : Prop := exists multiplex hooks es, run_all es (run_start multiplex hooks) = Some s.

Lemma run_all_inv es s s' : run_inv s -> run_all es s = Some s' -> run_inv s'.
Proof.
  revert s. induction es as [|e es IH]; cbn; intros s I; [by intros [= <-]|].
  destruct (run_step e s) as [s1|] eqn:He; [|done]. cbn. apply IH. by apply (run_step_inv e s).
Qed.

Lemma run_reachable_inv s : run_reachable s -> run_inv s.
Proof. intros (mx & hooks & es & H). eapply run_all_inv; [apply run_inv_start|exact H]. Qed.

(** How many steps of [run] are left, at most, once it is past its select. *)
Definition main_left (m : Main) : nat :=
  match m with
  | MSelect | MReturned _ => 0
  | MHooks l => length l + 61
  | MSample => 60
  | MSleep2 => 59
  | MNotify => 58
  | MWait n => 2 * n + 1
  | MSleep1 n => 2 * n + 2
  end.

Lemma main_step_left s s' : main_step s = Some s' -> rn_main s <> MSelect -> (main_left (rn_main s') < main_left (rn_main s))%nat.
Proof.
  unfold main_step. intros H Hm. destruct (rn_main s) as [|[|h l]| | | |[|n]|n|r]; try done; injection H as <-; cbn; try lia.
  all: destruct (bool_decide _); cbn; lia.
Qed.

Lemma main_step_past s s' : main_step s = Some s' -> rn_main s <> MSelect -> rn_main s' <> MSelect.
Proof.
  unfold main_step. intros H Hm. destruct (rn_main s) as [|[|? ?]| | | |[|?]|?|?]; simplify_eq; cbn; try done; by destruct (bool_decide _).
Qed.

(** The others do not hold it back. *)
Lemma other_step_main e s s' : run_step e s = Some s' -> e <> EvMain -> rn_main s <> MSelect -> rn_main s' = rn_main s.
Proof.
  intros H He Hm. destruct e; cbn in H; try done.
  all: unfold accept_check, accepted, accept_ends, conn_start, conn_end, signal in H.
  1-4: destruct (rn_accept s); simplify_eq; done.
  - destruct (rn_conns s !! i) as [[]|]; by simplify_eq.
  - destruct (rn_conns s !! i) as [[]|]; by simplify_eq.
  - by destruct (rn_main s).
Qed.

Definition is_main (e : REvent) : nat := match e with EvMain => 1 | _ => 0 end.

Lemma main_steps_bounded es s s' :
  rn_main s <> MSelect -> run_all es s = Some s' -> (sum_list_with is_main es + main_left (rn_main s') <= main_left (rn_main s))%nat.
Proof.
  revert s. induction es as [|e es IH]; cbn; intros s Hm; [intros [= <-]; lia|].
  destruct (run_step e s) as [s1|] eqn:H1; [|done]. cbn. intros H.
  assert (rn_main s1 <> MSelect /\ (is_main e + main_left (rn_main s1) <= main_left (rn_main s))%nat) as [Hm1 Hl].
  { destruct e; try (rewrite (other_step_main _ _ _ H1) by done; cbn; split; [done|lia]).
    pose proof (main_step_left s s1 H1 Hm). cbn. split; [by apply (main_step_past s)|lia]. }
  specialize (IH s1 Hm1 H). lia.
Qed.

Lemma main_step_enabled s : rn_main s <> MSelect -> (forall r, rn_main s <> MReturned r) -> is_Some (main_step s).
Proof. intros H1 H2. unfold main_step. destruct (rn_main s) as [|[|? ?]| | | |[|?]|?|r]; try done; try (by destruct (H2 r)); by eexists. Qed.

(** What the invariant says of a shutdown. *)
Lemma run_inv_slept s : run_inv s -> (rn_slept s <= 30)%nat.
Proof. intros [_ _ I]. unfold main_inv in I. destruct (rn_main s) as [| | | | | | |[e|]]; lia. Qed.

Lemma run_inv_left s : run_inv s -> (main_left (rn_main s) <= length (rn_hooks s) + 61)%nat.
Proof.
  intros [_ _ I]. unfold main_inv in I. destruct (rn_main s) as [|l| | | |n|n|r]; cbn; try lia. destruct I as [<- _]. rewrite length_app. lia.
Qed.

Lemma run_inv_returns s s' : run_inv s -> rn_main s <> MSelect -> main_step s = Some s' -> rn_main s' = MReturned None ->
  rn_called s = rn_hooks s /\ (serving s = 0%nat \/ (28 <= rn_slept s)%nat).
Proof.
  intros [I1 _ I3] Hm. unfold main_inv in I3. unfold main_step.
  destruct (rn_main s) as [|[|h l]| | | |[|n]|n|r]; try done; intros [= <-]; cbn; try done.
  - by case_bool_decide.
  - intros _. split; [apply I3|right; lia].
  - case_bool_decide as Hc; [|done]. intros _. split; [apply I3|left; congruence].
Qed.

(** C16: A shutdown is bounded. Once a signal came, [run] is never stuck and takes at
    most 61 steps more than it has hooks left, whatever its connections do,
    and it sleeps for at most 30 seconds in all; it returns before its 28
    turns of waiting are over only when no connection is being served, and
    it has called every hook that was registered, each once. *)
Theorem run_shutdown_is_bounded s :
  run_reachable s -> rn_main s <> MSelect ->
  (rn_slept s <= 30)%nat /\
  ((forall r, rn_main s <> MReturned r) -> is_Some (main_step s)) /\
  (forall es s', run_all es s = Some s' -> (sum_list_with is_main es <= length (rn_hooks s) + 61)%nat) /\
  (forall s', main_step s = Some s' -> rn_main s' = MReturned None ->
     rn_called s ≡ₚ rn_hooks s /\ (serving s = 0%nat \/ (28 <= rn_slept s)%nat)).
Proof.
  intros I%run_reachable_inv Hm. split_and!; [by apply run_inv_slept|by apply main_step_enabled| |].
  2: { intros s' H1 H2. by destruct (run_inv_returns s s' I Hm H1 H2) as [-> ?]. }
  intros es s' H. apply main_steps_bounded in H; [|done]. pose proof (run_inv_left s I). lia.
Qed.

(** The counter the shutdown looks at is the number of connections being served, and
    a connection accepted after the flag was set is the only one: the accept
    loop looks at the flag between two connections. *)
Theorem run_accepts_at_most_one_late s :
  run_reachable s ->
  rn_conn_cnt s = serving s /\ (rn_late s <= 1)%nat /\ (rn_exit_flag s = false -> rn_late s = 0%nat).
Proof.
  intros [I1 I2 I3]%run_reachable_inv. unfold accept_inv in I2. destruct (rn_exit_flag s); split_and!; try done; try lia.
Qed.
End Run.
Arguments Running Hook AcceptErr : clear implicits.
Arguments REvent AcceptErr : clear implicits.
Arguments Main Hook AcceptErr : clear implicits.
Arguments AcceptLoop AcceptErr : clear implicits.

Module RunExample.
Definition hooks : list nat := [1; 2]%nat.
Definition ev : list (REvent unit) :=
  [EvAcceptLoop; EvAccepted false; EvConnStart 0; EvAcceptLoop; EvSignal; EvMain; EvMain; EvMain; EvAccepted false;
   EvMain; EvMain; EvMain; EvConnEnd 0].
Definition after (es : list (REvent unit)) : Running nat unit :=
  default (run_start false hooks) (run_all es (run_start false hooks)).

Lemma after_reachable es : is_Some (run_all es (run_start false hooks)) -> run_reachable (after es).
Proof. intros [s Hs]. exists false, hooks, es. unfold after. by rewrite Hs. Qed.

(** A connection in [accept] when the flag is set is accepted, and [run] returns
    before its task is first run. *)
Example late_connection :
  rn_late (after (ev ++ [EvMain])) = 1%nat /\ rn_main (after (ev ++ [EvMain])) = MReturned None /\
  rn_conns (after (ev ++ [EvMain])) = [CEnded; CSpawned] /\ rn_slept (after (ev ++ [EvMain])) = 2%nat /\
  rn_called (after (ev ++ [EvMain])) = hooks.
Proof. vm_compute. auto. Qed.

Lemma run_shutdown_is_bounded_witness :
  (rn_slept (after ev) <= 30)%nat /\ rn_called (after ev) ≡ₚ rn_hooks (after ev).
Proof.
  destruct (run_shutdown_is_bounded (after ev)) as (H1 & _ & _ & H4).
  - apply after_reachable. vm_compute. by eexists.
  - by vm_compute.
  - assert (main_step (after ev) = Some (after (ev ++ [EvMain]))) as E1 by (vm_compute; reflexivity).
    assert (rn_main (after (ev ++ [EvMain])) = MReturned None) as E2 by (vm_compute; reflexivity).
    split; [exact H1|]. exact (proj1 (H4 _ E1 E2)).
Defined.

Lemma run_accepts_at_most_one_late_witness :
  rn_conn_cnt (after ev) = serving (after ev) /\ (rn_late (after ev) <= 1)%nat /\
  (rn_exit_flag (after ev) = false -> rn_late (after ev) = 0%nat).
Proof. apply (run_accepts_at_most_one_late (after ev)). apply after_reachable. vm_compute. by eexists. Defined.
End RunExample.
