(* ===== verification/ThriftClient.v ===== *)
(** A Thrift client above its transport: the builder and the services it stacks
    (volo-thrift/src/client/mod.rs, client/layer/timeout.rs), call options
    (client/callopt.rs, [CallOpt::apply] in context.rs, volo/src/client.rs), the
    methods volo-build generates (thrift_backend.rs), and on the server the layer
    that records business errors (server/layer/biz_error.rs).

    A service is a function of the state of its surroundings, which holds the
    metainfo of the task, if there is one. *)

From S2P Require Import Prelude Net Context BufReader TTHeader Codec ThriftServer.

(** * Layers *)

Section Services.
Context {W Info : Type}.

Definition Service (Cx Req Resp Err : Type) : Type :=
  option Info * W -> Cx -> Req -> option Info * W * Cx * (Resp + Err).

Definition Layer (Cx Req Resp Err : Type) : Type := Service Cx Req Resp Err -> Service Cx Req Resp Err.

(** [motore::layer]'s [Identity] and [Stack::new(inner, outer)]. *)
Definition Identity {Cx Req Resp Err} : Layer Cx Req Resp Err := fun s => s.
Definition Stack {Cx Req Resp Err} (inner outer : Layer Cx Req Resp Err) : Layer Cx Req Resp Err :=
  fun s => outer (inner s).

(** * Call options *)

Record CallOpt : Type := mkCallOpt {
  co_callee_faststr_tags : gmap N bytes;
  co_callee_tags : gmap N bytes;
  co_address : option Address;
  co_config : Config;
  co_caller_faststr_tags : gmap N bytes;
  co_caller_tags : gmap N bytes }.

Definition CallOpt_new : CallOpt := mkCallOpt ∅ ∅ None Config.new ∅ ∅.

(** [extend] of both tag maps of an endpoint, each when the option has tags. *)
Definition extend_tags (faststr tags : gmap N bytes) (e : Endpoint) : Endpoint :=
  let e := if bool_decide (faststr = ∅) then e
           else mkEndpoint (ep_service_name e) (ep_address e) (faststr ∪ ep_faststr_tags e) (ep_tags e) in
  if bool_decide (tags = ∅) then e
  else mkEndpoint (ep_service_name e) (ep_address e) (ep_faststr_tags e) (tags ∪ ep_tags e).

Definition apply (o : CallOpt) (cx : ClientContext) : ClientContext :=
  let cx := RpcCx.rpc_info_mut (RpcInfo.caller_mut (extend_tags (co_caller_faststr_tags o) (co_caller_tags o))) cx in
  let cx := RpcCx.rpc_info_mut (RpcInfo.callee_mut (extend_tags (co_callee_faststr_tags o) (co_callee_tags o))) cx in
  let cx := match co_address o with
            | Some addr => RpcCx.rpc_info_mut (RpcInfo.callee_mut (Endpoint.set_address addr)) cx
            | None => cx
            end in
  RpcCx.rpc_info_mut (RpcInfo.config_mut (fun c => Config.merge c (co_config o))) cx.

(** [WithOptService::call]. *)
Definition with_opt_call {Req Resp Err} (opt : CallOpt) (inner : Service ClientContext Req Resp Err) :
    Service ClientContext Req Resp Err := fun w cx req => inner w (apply opt cx) req.

(** * The services of a client *)

Section Client.
Context {Req Resp Pool : Type} (info_default : Info).
Abbreviation Svc := (Service ClientContext Req (option Resp) ClientError).

(** The transport's timeouts. *)
Record MakeTransport : Type := mkMakeTransport {
  mt_connect_timeout : option Duration; mt_read_timeout : option Duration; mt_write_timeout : option Duration }.

(** The client of a transport, multiplexed or not; [tokio::time::timeout], which
    answers [None] when the time is up; the text of the error then. *)
Context (transport_client : bool -> MakeTransport -> option Pool ->
           Service ClientContext (ThriftMessage Req AppExn) (option (ThriftMessage Resp AppExn)) ClientError).
Context (timeout : Duration -> Svc -> option Info * W -> ClientContext -> Req ->
           option Info * W * ClientContext * option (option Resp + ClientError)).
Context (timeout_text : RpcInfo -> Duration -> bytes).

(** [MessageService::call]. *)
Definition message_service (inner : Service ClientContext (ThriftMessage Req AppExn) (option (ThriftMessage Resp AppExn)) ClientError)
    (read_biz_error : bool) : Svc := fun w cx req =>
  let msg := mk_client_msg cx req in
  let '(w, cx, resp) := inner w cx msg in
  (w, cx,
   match (if read_biz_error then biz_error (c_common_stats (cx_inner cx)) else None) with
   | Some biz_err => inr (CBiz biz_err)
   | None =>
       match resp with
       | inl (Some m) => match tm_data m with inl data => inl (Some data) | inr e => inr (CApplication e) end
       | inl None => inl None
       | inr e => inr e
       end
   end).

(** [Timeout::call]. *)
Definition timeout_layer (inner : Svc) : Svc := fun w cx req =>
  match cfg_rpc_timeout (ri_config (cx_rpc_info cx)) with
  | Some duration =>
      let '(w, cx, r) := timeout duration inner w cx req in
      (w, cx, match r with
              | Some r => r
              | None => inr (CApplication (INTERNAL_ERROR, timeout_text (cx_rpc_info cx) duration))
              end)
  | None => inner w cx req
  end.

Record ClientBuilder : Type := mkClientBuilder {
  cb_config : Config;
  cb_pool : option Pool;
  cb_callee_name : bytes;
  cb_caller_name : bytes;
  cb_address : option Address;
  cb_inner_layer : Layer ClientContext Req (option Resp) ClientError;
  cb_outer_layer : Layer ClientContext Req (option Resp) ClientError;
  cb_make_transport : MakeTransport;
  cb_mk_lb : Layer ClientContext Req (option Resp) ClientError;
  cb_disable_timeout_layer : bool;
  cb_enable_biz_error : bool;
  cb_multiplex : bool }.

(** [ClientBuilder::new], with the layer of the default load balancer. *)
Definition builder_new (lb : Layer ClientContext Req (option Resp) ClientError) (service_name : bytes) : ClientBuilder :=
  mkClientBuilder Config.new None service_name [] None Identity Identity (mkMakeTransport None None None) lb
    false true false.

Definition with_config (f : Config -> Config) (b : ClientBuilder) : ClientBuilder :=
  mkClientBuilder (f (cb_config b)) (cb_pool b) (cb_callee_name b) (cb_caller_name b) (cb_address b) (cb_inner_layer b)
    (cb_outer_layer b) (cb_make_transport b) (cb_mk_lb b) (cb_disable_timeout_layer b) (cb_enable_biz_error b) (cb_multiplex b).
Definition rpc_timeout (t : option Duration) : ClientBuilder -> ClientBuilder := with_config (Config.set_rpc_timeout t).
Definition connect_timeout (t : option Duration) : ClientBuilder -> ClientBuilder := with_config (Config.set_connect_timeout t).
Definition read_write_timeout (t : option Duration) : ClientBuilder -> ClientBuilder :=
  with_config (Config.set_read_write_timeout t).
Definition pool_config (c : Pool) (b : ClientBuilder) : ClientBuilder :=
  mkClientBuilder (cb_config b) (Some c) (cb_callee_name b) (cb_caller_name b) (cb_address b) (cb_inner_layer b)
    (cb_outer_layer b) (cb_make_transport b) (cb_mk_lb b) (cb_disable_timeout_layer b) (cb_enable_biz_error b) (cb_multiplex b).
Definition caller_name (n : bytes) (b : ClientBuilder) : ClientBuilder :=
  mkClientBuilder (cb_config b) (cb_pool b) (cb_callee_name b) n (cb_address b) (cb_inner_layer b)
    (cb_outer_layer b) (cb_make_transport b) (cb_mk_lb b) (cb_disable_timeout_layer b) (cb_enable_biz_error b) (cb_multiplex b).
Definition disable_timeout_layer (b : ClientBuilder) : ClientBuilder :=
  mkClientBuilder (cb_config b) (cb_pool b) (cb_callee_name b) (cb_caller_name b) (cb_address b) (cb_inner_layer b)
    (cb_outer_layer b) (cb_make_transport b) (cb_mk_lb b) true (cb_enable_biz_error b) (cb_multiplex b).
Definition enable_biz_error (e : bool) (b : ClientBuilder) : ClientBuilder :=
  mkClientBuilder (cb_config b) (cb_pool b) (cb_callee_name b) (cb_caller_name b) (cb_address b) (cb_inner_layer b)
    (cb_outer_layer b) (cb_make_transport b) (cb_mk_lb b) (cb_disable_timeout_layer b) e (cb_multiplex b).
Definition mk_load_balance (lb : Layer ClientContext Req (option Resp) ClientError) (b : ClientBuilder) : ClientBuilder :=
  mkClientBuilder (cb_config b) (cb_pool b) (cb_callee_name b) (cb_caller_name b) (cb_address b) (cb_inner_layer b)
    (cb_outer_layer b) (cb_make_transport b) lb (cb_disable_timeout_layer b) (cb_enable_biz_error b) (cb_multiplex b).
Definition address (a : Address) (b : ClientBuilder) : ClientBuilder :=
  mkClientBuilder (cb_config b) (cb_pool b) (cb_callee_name b) (cb_caller_name b) (Some a) (cb_inner_layer b)
    (cb_outer_layer b) (cb_make_transport b) (cb_mk_lb b) (cb_disable_timeout_layer b) (cb_enable_biz_error b) (cb_multiplex b).
Definition multiplex (m : bool) (b : ClientBuilder) : ClientBuilder :=
  mkClientBuilder (cb_config b) (cb_pool b) (cb_callee_name b) (cb_caller_name b) (cb_address b) (cb_inner_layer b)
    (cb_outer_layer b) (cb_make_transport b) (cb_mk_lb b) (cb_disable_timeout_layer b) (cb_enable_biz_error b) m.

Definition with_layers (il ol : Layer ClientContext Req (option Resp) ClientError) (b : ClientBuilder) : ClientBuilder :=
  mkClientBuilder (cb_config b) (cb_pool b) (cb_callee_name b) (cb_caller_name b) (cb_address b) il
    ol (cb_make_transport b) (cb_mk_lb b) (cb_disable_timeout_layer b) (cb_enable_biz_error b) (cb_multiplex b).
Definition layer_inner l b := with_layers (Stack l (cb_inner_layer b)) (cb_outer_layer b) b.
Definition layer_inner_front l b := with_layers (Stack (cb_inner_layer b) l) (cb_outer_layer b) b.
Definition layer_outer l b := with_layers (cb_inner_layer b) (Stack l (cb_outer_layer b)) b.
Definition layer_outer_front l b := with_layers (cb_inner_layer b) (Stack (cb_outer_layer b) l) b.

Record ClientInner : Type := mkClientInner {
  ci_callee_name : bytes; ci_caller_name : bytes; ci_config : Config; ci_address : option Address }.

(** The transport's service, with the timeouts of the configuration. *)
Definition build_msg_svc (b : ClientBuilder) : Svc :=
  let mt := cb_make_transport b in
  let mt := match cfg_connect_timeout (cb_config b) with
            | Some t => mkMakeTransport (Some t) (mt_read_timeout mt) (mt_write_timeout mt) | None => mt end in
  let mt := match cfg_read_write_timeout (cb_config b) with
            | Some t => mkMakeTransport (mt_connect_timeout mt) (Some t) (mt_write_timeout mt) | None => mt end in
  let mt := match cfg_read_write_timeout (cb_config b) with
            | Some t => mkMakeTransport (mt_connect_timeout mt) (mt_read_timeout mt) (Some t) | None => mt end in
  message_service (transport_client (cb_multiplex b) mt (cb_pool b)) (cb_enable_biz_error b).

(** [ClientBuilder::build]: the shared data of the client, whose sequence ids
    start at 0, and its transport. *)
Definition build (b : ClientBuilder) : ClientInner * Svc :=
  let msg_svc := build_msg_svc b in
  let transport :=
    if negb (cb_disable_timeout_layer b)
    then cb_outer_layer b (timeout_layer (cb_mk_lb b (cb_inner_layer b msg_svc)))
    else cb_outer_layer b (cb_mk_lb b (cb_inner_layer b msg_svc)) in
  (mkClientInner (cb_callee_name b) (cb_caller_name b) (cb_config b) (cb_address b), transport).

(** The call of a client: a task without metainfo gets one for the call. *)
Definition call (transport : Svc) : Svc := fun w cx req =>
  match w.1 with
  | Some _ => transport w cx req
  | None =>
      let '(w, cx, r) := transport (Some info_default, w.2) cx req in
      ((None, w.2), cx, r)
  end.

(** * Contexts *)

Definition make_rpc_info (ci : ClientInner) (method : bytes) : RpcInfo :=
  let caller := Endpoint.new (ci_caller_name ci) in
  let callee := Endpoint.new (ci_callee_name ci) in
  let callee := match ci_address ci with Some target => Endpoint.set_address target callee | None => callee end in
  RpcInfo.new Client method caller callee (ci_config ci).

Definition set_config (c : Config) : RpcInfo -> RpcInfo := RpcInfo.config_mut (fun _ => c).

(** [fetch_add(1)] on the [AtomicI32] of sequence ids wraps around. *)
Definition next_seq_id (seq : Z) : Z := swrap 32 (seq + 1).

(** [Client::make_cx]: the context, the cache and the next sequence id. *)
Definition make_cx (ci : ClientInner) (method : bytes) (oneway : bool) (cache : list ClientContext) (seq : Z) :
    ClientContext * list ClientContext * Z :=
  let mt := if oneway then OneWay else Call in
  match cache with
  | cx :: cache =>
      let cx := ClientContext.reset seq mt cx in
      let cx := RpcCx.rpc_info_mut (RpcInfo.caller_mut (Endpoint.set_service_name (ci_caller_name ci))) cx in
      let cx := RpcCx.rpc_info_mut (RpcInfo.callee_mut (Endpoint.set_service_name (ci_callee_name ci))) cx in
      let cx := match ci_address ci with
                | Some target => RpcCx.rpc_info_mut (RpcInfo.callee_mut (Endpoint.set_address target)) cx
                | None => cx
                end in
      let cx := RpcCx.rpc_info_mut (set_config (ci_config ci)) cx in
      let cx := RpcCx.rpc_info_mut (RpcInfo.set_method method) cx in
      (cx, cache, next_seq_id seq)
  | [] => (ClientContext.new seq (make_rpc_info ci method) mt, [], next_seq_id seq)
  end.

(** A generated method: an answer that is none of the method's is [unreachable!];
    the context goes back to the cache, which has room for [capacity], when the
    call succeeded. [convert] is the generated match on the answer. *)
Definition generated_method {R : Type} (ci : ClientInner) (transport : Svc) (capacity : nat) (method : bytes) (oneway : bool)
    (isn : bytes) (convert : option Resp -> option R) (req : Req) (w : option Info * W) (cache : list ClientContext) (seq : Z) :
    option Info * W * list ClientContext * Z * outcome ClientError R :=
  let '(cx, cache, seq) := make_cx ci method oneway cache seq in
  let cx := set_idl_service_name isn cx in
  let '(w, cx, r) := call transport w cx req in
  match r with
  | inr e => (w, cache, seq, Fail e)
  | inl resp =>
      match convert resp with
      | None => (w, cache, seq, Panic)
      | Some v => (w, if (length cache <? capacity)%nat then cx :: cache else cache, seq, Done v)
      end
  end.
End Client.

(** * The server's layer *)

(** [BizErrorService::call]. *)
Definition biz_error_layer {Req Resp} (inner : Service ServerContext Req Resp ServerError) :
    Service ServerContext Req Resp ServerError := fun w cx req =>
  let '(w, cx, ret) := inner w cx req in
  (w,
   match ret with
   | inr (SBiz err) => stats_mut (CommonStats.set_biz_error err) cx
   | _ => cx
   end, ret).
End Services.
