(* ===== verification/ThriftClientSpec.v ===== *)
(** What a Thrift client promises above its transport: recycled contexts are as
    new, sequence ids do not repeat within 2^32 calls, layers come in the order
    the builder documents, and a business error of the server's handler is the
    client's. *)

From S2P Require Import Prelude Net Context BufReader TTHeader TTHeaderRoundTrip TTHeaderExample Codec ThriftServer ThriftClient.

Section Spec.
Context {W Info Req Resp Pool : Type} (info_default : Info).
Abbreviation Svc := (Service (W := W) (Info := Info) ClientContext Req (option Resp) ClientError).

(** ** Sequence ids *)

Lemma next_seq_id_iter n seq :
  - 2 ^ 31 <= seq < 2 ^ 31 -> Nat.iter n next_seq_id seq = swrap 32 (seq + Z.of_nat n).
Proof.
  intros Hs. induction n as [|n IH].
  - cbn. rewrite swrap_small; lia.
  - cbn [Nat.iter nat_rect]. change (nat_rect _ seq _ n) with (Nat.iter n next_seq_id seq). rewrite IH.
    unfold next_seq_id, swrap. rewrite Nat2Z.inj_succ. change (32 - 1) with 31.
    replace ((seq + Z.of_nat n + 2 ^ 31) mod 2 ^ 32 - 2 ^ 31 + 1 + 2 ^ 31)
      with ((seq + Z.of_nat n + 2 ^ 31) mod 2 ^ 32 + 1) by lia.
    rewrite Zplus_mod_idemp_l. f_equal. f_equal. lia.
Qed.

(** Two of 2^32 consecutive calls never share a sequence id. *)
Lemma seq_ids_distinct i j seq :
  - 2 ^ 31 <= seq < 2 ^ 31 -> Z.of_nat i < Z.of_nat j < Z.of_nat i + 2 ^ 32 ->
  Nat.iter i next_seq_id seq <> Nat.iter j next_seq_id seq.
Proof.
  intros Hs Hij. rewrite !next_seq_id_iter by done. unfold swrap. change (32 - 1) with 31. intros E.
  set (a := seq + Z.of_nat i + 2 ^ 31) in *. set (b := seq + Z.of_nat j + 2 ^ 31) in *.
  assert (a mod 2 ^ 32 = b mod 2 ^ 32) as Em by lia.
  assert ((b - a) mod 2 ^ 32 = 0) as Hz by (rewrite Zminus_mod, Em, Z.sub_diag; done).
  rewrite Z.mod_small in Hz; unfold a, b in *; lia.
Qed.

(** ** Recycled contexts *)

Definition client_role (cx : ClientContext) : Prop := ri_role (cx_rpc_info cx) = Client.

Lemma make_cx_new ci method oneway cache seq :
  Forall client_role cache ->
  make_cx ci method oneway cache seq =
  (ClientContext.new seq (make_rpc_info ci method) (if oneway then OneWay else Call), tail cache, next_seq_id seq).
Proof.
  intros Hc. destruct cache as [|cx cache]; [done|]. apply Forall_cons in Hc as [Hr _]. cbn. f_equal. f_equal.
  destruct cx as [[role ? ? ? ?] ? ?]. unfold client_role in Hr. cbn in Hr. subst role.
  unfold make_rpc_info. by destruct (ci_address ci).
Qed.

(** A call of a generated method. *)
Record GenCall (R : Type) : Type := mkGenCall {
  gc_method : bytes; gc_oneway : bool; gc_isn : bytes; gc_convert : option Resp -> option R; gc_req : Req }.
Arguments mkGenCall {R}.

(** Generated methods called one after the other. *)
Fixpoint call_all {R} (ci : ClientInner) (transport : Svc) (capacity : nat) (cs : list (GenCall R))
    (w : option Info * W) (cache : list ClientContext) (seq : Z) :
    option Info * W * list ClientContext * list (outcome ClientError R) :=
  match cs with
  | [] => (w, cache, [])
  | c :: cs =>
      let '(w, cache, seq, r) :=
        generated_method info_default ci transport capacity (gc_method _ c) (gc_oneway _ c) (gc_isn _ c) (gc_convert _ c)
          (gc_req _ c) w cache seq in
      let '(w, cache, rs) := call_all ci transport capacity cs w cache seq in
      (w, cache, r :: rs)
  end.

Definition keeps_role (transport : Svc) : Prop :=
  forall w cx req, client_role cx -> client_role (transport w cx req).1.2.

Lemma call_keeps_role transport : keeps_role transport -> keeps_role (call info_default transport).
Proof.
  intros Hk w cx req Hc. unfold call. destruct w as [[info|] w]; cbn; [by apply Hk|].
  specialize (Hk (Some info_default, w) cx req Hc). destruct (transport _ _ _) as [[w' cx'] r]. exact Hk.
Qed.

Lemma generated_alike {R} ci transport capacity method oneway isn (convert : option Resp -> option R) req w seq cache1 cache2 :
  keeps_role transport -> Forall client_role cache1 -> Forall client_role cache2 ->
  exists w' seq' r c1 c2, Forall client_role c1 /\ Forall client_role c2 /\
    generated_method info_default ci transport capacity method oneway isn convert req w cache1 seq = (w', c1, seq', r) /\
    generated_method info_default ci transport capacity method oneway isn convert req w cache2 seq = (w', c2, seq', r).
Proof.
  intros Hk H1 H2. unfold generated_method. rewrite !make_cx_new by done.
  set (cx := set_idl_service_name isn _). assert (client_role cx) as Hc by done.
  pose proof (call_keeps_role transport Hk w cx req Hc) as Hc'.
  destruct (call info_default transport w cx req) as [[w' cx'] [resp|e]]; cbn in Hc'.
  - assert (forall c, Forall client_role c -> Forall client_role (if (length (tail c) <? capacity)%nat then cx' :: tail c else tail c)).
    { intros c Hf. assert (Forall client_role (tail c)) by (destruct c; [done|by apply Forall_cons in Hf as [_ ?]]).
      destruct (_ <? _)%nat; [by constructor|done]. }
    destruct (convert resp); eexists _, _, _, _, _; (split; [|split; [|split; reflexivity]]); auto.
    all: destruct cache1, cache2; cbn; try done; try (by apply Forall_cons in H1 as [_ ?]); by apply Forall_cons in H2 as [_ ?].
  - eexists _, _, _, _, _; (split; [|split; [|split; reflexivity]]).
    all: destruct cache1, cache2; cbn; try done; try (by apply Forall_cons in H1 as [_ ?]); by apply Forall_cons in H2 as [_ ?].
Qed.

(** C18: A client's cache of contexts cannot be seen: whatever client contexts earlier
    calls left in it, of this client or another, and whatever room it has, a
    sequence of generated methods does to its surroundings and answers
    exactly what it does with an empty cache; and what it leaves in the
    cache are client contexts again. *)
Theorem client_context_cache_invisible {R} ci transport capacity (cs : list (GenCall R)) w cache seq :
  keeps_role transport -> Forall client_role cache ->
  exists w' rs c1 c2,
    call_all ci transport capacity cs w cache seq = (w', c1, rs) /\
    call_all ci transport capacity cs w [] seq = (w', c2, rs) /\ Forall client_role c1.
Proof.
  intros Hk Hc. assert (forall l, Forall client_role l -> exists w' rs c1 c2,
    call_all ci transport capacity cs w cache seq = (w', c1, rs) /\
    call_all ci transport capacity cs w l seq = (w', c2, rs) /\ Forall client_role c1) as H; [|by apply H].
  revert w cache seq Hc. induction cs as [|c cs IH]; intros w cache seq Hc l Hl; [by eexists _, _, _, _|]. cbn.
  destruct (generated_alike ci transport capacity (gc_method _ c) (gc_oneway _ c) (gc_isn _ c) (gc_convert _ c) (gc_req _ c)
    w seq cache l Hk Hc Hl) as (w1 & seq1 & r & c1 & c2 & Hc1 & Hc2 & -> & ->).
  destruct (IH w1 c1 seq1 Hc1 c2 Hc2) as (w2 & rs & d1 & d2 & -> & -> & Hd). by eexists _, _, _, _.
Qed.

(** ** The order of layers *)

Context (transport_client : bool -> MakeTransport -> option Pool ->
           Service (W := W) (Info := Info) ClientContext (ThriftMessage Req AppExn) (option (ThriftMessage Resp AppExn)) ClientError).
Context (timeout : Duration -> Svc -> option Info * W -> ClientContext -> Req ->
           option Info * W * ClientContext * option (option Resp + ClientError)).
Context (timeout_text : RpcInfo -> Duration -> bytes).
Abbreviation Builder := (ClientBuilder (W := W) (Info := Info) (Req := Req) (Resp := Resp) (Pool := Pool)).
Abbreviation SvcLayer := (Layer (W := W) (Info := Info) ClientContext Req (option Resp) ClientError).

(** The ways to add a layer. *)
Inductive AddLayer : Type :=
| Inner (l : SvcLayer) | InnerFront (l : SvcLayer) | Outer (l : SvcLayer) | OuterFront (l : SvcLayer).

Definition add_layer (b : Builder) (a : AddLayer) : Builder :=
  match a with
  | Inner l => layer_inner l b | InnerFront l => layer_inner_front l b
  | Outer l => layer_outer l b | OuterFront l => layer_outer_front l b
  end.

(** The outer and the inner layers a request passes, from the outside in. *)
Definition order_step (o : list SvcLayer * list SvcLayer) (a : AddLayer) : list SvcLayer * list SvcLayer :=
  match a with
  | Inner l => (o.1, o.2 ++ [l]) | InnerFront l => (o.1, l :: o.2)
  | Outer l => (o.1 ++ [l], o.2) | OuterFront l => (l :: o.1, o.2)
  end.

Definition around (ls : list SvcLayer) (s : Svc) : Svc := foldr (fun l s => l s) s ls.

Lemma add_layer_order adds (b : Builder) o :
  (forall s, cb_outer_layer b s = around o.1 s) -> (forall s, cb_inner_layer b s = around o.2 s) ->
  let b' := fold_left add_layer adds b in let o' := fold_left order_step adds o in
  (forall s, cb_outer_layer b' s = around o'.1 s) /\ (forall s, cb_inner_layer b' s = around o'.2 s) /\
  b' = with_layers (cb_inner_layer b') (cb_outer_layer b') b.
Proof.
  revert b o. induction adds as [|a adds IH]; intros b o Ho Hi; [by destruct b|]. cbn.
  destruct (IH (add_layer b a) (order_step o a)) as (H1 & H2 & H3).
  - intros s. destruct a; cbn; unfold Stack, around in *; rewrite ?foldr_app, ?Ho; done.
  - intros s. destruct a; cbn; unfold Stack, around in *; rewrite ?foldr_app, ?Hi; done.
  - split; [done|split; [done|]]. etransitivity; [exact H3|]. by destruct a.
Qed.

(** Layers come in the order the builder documents: a request passes the outer
    layers, then the timeout (unless it was disabled), the load balancer and
    the inner layers on its way to the transport, those added in front before
    and the others after those added earlier; and adding layers changes
    nothing else of the client. *)
Theorem client_layer_order adds (b : Builder) :
  let o := fold_left order_step adds ([cb_outer_layer b], [cb_inner_layer b]) in
  let t := if cb_disable_timeout_layer b then Identity else timeout_layer timeout timeout_text in
  build transport_client timeout timeout_text (fold_left add_layer adds b) =
  ((build transport_client timeout timeout_text b).1,
   around (o.1 ++ [t; cb_mk_lb b] ++ o.2) (build_msg_svc transport_client b)).
Proof.
  intros o t. destruct (add_layer_order adds b ([cb_outer_layer b], [cb_inner_layer b])) as (H1 & H2 & H3); [done..|].
  fold o in H1, H2. rewrite H3. unfold build, around, t. rewrite !foldr_app. cbn [with_layers cb_outer_layer cb_inner_layer].
  f_equal. rewrite !H1, !H2. unfold around. by destruct b as [? ? ? ? ? ? ? ? ? [] ? ?].
Qed.

(** A client built without further ado has no timeout: its calls are never cut off. *)
Lemma default_client_has_no_timeout lb name method oneway cache seq w req :
  Forall client_role cache ->
  let b := builder_new lb name in
  let cx := (make_cx (build transport_client timeout timeout_text b).1 method oneway cache seq).1.1 in
  (build transport_client timeout timeout_text b).2 w cx req = lb (build_msg_svc transport_client b) w cx req.
Proof. intros Hc b cx. unfold cx. by rewrite make_cx_new. Qed.
End Spec.
Arguments mkGenCall {Req Resp R}.

(** ** Business errors *)

Section Biz.
Context {W Info Req Resp WS ReqS RespS : Type}.
Context `{BuildProfile} `{TTHeaderEnv} `{AddrText} `{!MetainfoLaws}.

(** C15: A business error of a handler is the client's. When the server's handler ends
    with a business error whose code is not 0, the layer records it and the
    reply's header carries it: a client whose transport reads that header
    gets exactly that error, with its code, message and extra map, as the
    result of its call, whatever the reply's body says; with code 0, or with
    the reading of business errors disabled, it gets what the body says. *)
Theorem biz_error_reaches_client (handler : Service (W := WS) (Info := Info) ServerContext ReqS RespS ServerError)
    ws scx reqs e mi scx' size out cmi (ccx : ClientContext) payload :
  (handler ws scx reqs).2 = inr (SBiz e) ->
  stats scx' = stats (biz_error_layer handler ws scx reqs).1.2 ->
  ri_role (cx_rpc_info scx') = Context.Server -> ri_role (cx_rpc_info ccx) = Context.Client ->
  biz_error (stats ccx) = None ->
  0 <= size < 2 ^ 63 -> reply_fits mi scx' -> encode mi scx' [] size = Done out ->
  (biz_error_layer handler ws scx reqs).2 = inr (SBiz e) /\
  exists ccx' cmi', decode ccx cmi (drop 4 out ++ payload) = Done (ccx', cmi', payload) /\
  forall (inner : Service (W := W) (Info := Info) ClientContext (ThriftMessage Req AppExn) (option (ThriftMessage Resp AppExn)) ClientError)
    w cx req w' m,
  inner w cx (mk_client_msg cx req) = (w', ccx', inl (Some m)) ->
  message_service inner true w cx req =
    (w', ccx', if bool_decide (be_status_code e = 0) then match tm_data m with inl d => inl (Some d) | inr x => inr (CApplication x) end
               else inr (CBiz e)) /\
  message_service inner false w cx req =
    (w', ccx', match tm_data m with inl d => inl (Some d) | inr x => inr (CApplication x) end).
Proof.
  intros Hh Hst Hs Hc Hn Hsz Hf He. split.
  { unfold biz_error_layer. destruct (handler ws scx reqs) as [[w' cx'] r]. exact Hh. }
  assert (biz_error (stats scx') = Some e) as Hb.
  { rewrite Hst. unfold biz_error_layer. destruct (handler ws scx reqs) as [[w' cx'] r]. cbn in Hh. subst r.
    cbn. by destruct (s_common_stats _). }
  destruct (decode_encoded_reply mi scx' size out cmi ccx payload Hsz Hs Hc Hf He) as (bs & ccx1 & _ & Hr & Hd).
  rewrite Hb in Hd. eexists _, _. split; [exact Hd|].
  assert (biz_error (stats ccx1) = None) as Hn1.
  { destruct (encode_conn_reset scx'); [|by injection Hr as <-].
    destruct (conn_reset_true ThriftException (RpcCx.extensions_mut (Extensions.insert_protocol_id
      (default Binary (ext_protocol_id (cx_extensions scx')))) ccx)) as (y & Hy & _ & _ & Hys).
    rewrite Hr in Hy. injection Hy as ->. by rewrite Hys. }
  intros inner w cx req w' m Hi. unfold message_service. rewrite Hi. cbn [reply_biz_error].
  case_bool_decide as Hz; split; try done.
  - cbn in Hn1. by rewrite Hn1.
  - cbn. by destruct (c_common_stats (cx_inner ccx1)).
Qed.
End Biz.

(** A client whose transport counts its calls and doubles numbers. *)
Module ClientExample.
Import TTHeaderExample.
#[local] Existing Instances example_env example_text example_laws example_profile.

Definition transport : Service (W := nat) (Info := unit) ClientContext Z (option Z) ClientError :=
  fun w cx req => (w.1, S w.2, stats_mut (CommonStats.set_read_size req) cx, inl (Some (2 * req))).

Definition ci : ClientInner := mkClientInner (str "callee") (str "caller") (mkConfig (Some 5) None None) (Some (Unix Unnamed)).

Definition get (n : Z) : GenCall (Req := Z) (Resp := Z) Z := mkGenCall (str "Get") false (str "S") id n.

(** Contexts left by a call of another client, with tags and an error. *)
Definition used : ClientContext := stats_mut (CommonStats.set_biz_error biz) call_cx.

Lemma client_context_cache_invisible_witness :
  exists w' rs c1 c2,
    call_all tt ci transport 2 [get 1; get 2; get 3] (None, 0%nat) [used; call_cx] 7 = (w', c1, rs) /\
    call_all tt ci transport 2 [get 1; get 2; get 3] (None, 0%nat) [] 7 = (w', c2, rs) /\ Forall client_role c1.
Proof.
  apply (client_context_cache_invisible tt ci transport 2 [get 1; get 2; get 3] (None, 0%nat) [used; call_cx] 7).
  - intros w cx req Hc. exact Hc.
  - repeat constructor.
Defined.

Example called_three :
  (call_all tt ci transport 2 [get 1; get 2; get 3] (None, 0%nat) [used; call_cx] 7).2 = [Done 2; Done 4; Done 6] /\
  map (fun cx => c_seq_id (cx_inner cx)) (call_all tt ci transport 2 [get 1; get 2; get 3] (None, 0%nat) [used; call_cx] 7).1.2 =
    [9; 7].
Proof. vm_compute. auto. Qed.

(** A handler that fails with the business error of the TTHeader example. *)
Definition handler : Service (W := nat) (Info := unit) ServerContext Z Z ServerError :=
  fun w cx req => (w, cx, inr (SBiz biz)).

Lemma biz_error_reaches_client_witness :
  exists ccx' cmi', decode call_cx no_metainfo (drop 4 (bytes_of (encode reply_metainfo (reply_cx true) [] 3)) ++ [x01]) =
      Done (ccx', cmi', [x01]) /\
    forall m, (message_service (Req := Z) (Resp := Z) (W := nat) (Info := unit) (fun w cx req => (w, ccx', inl (Some m))) true (None, 0%nat) call_cx 1).2 =
      inr (CBiz biz).
Proof.
  destruct (biz_error_reaches_client (W := nat) (Req := Z) (Resp := Z) handler (None, 0%nat) ServerContext.default 1 biz reply_metainfo
    (reply_cx true) 3 (bytes_of (encode reply_metainfo (reply_cx true) [] 3)) no_metainfo call_cx [x01])
    as (_ & ccx' & cmi' & Hd & H).
  - done.
  - done.
  - done.
  - done.
  - done.
  - lia.
  - split; [vm_decide|vm_compute; done|vm_decide| |].
    + intros e [= <-]. vm_compute. split; congruence.
    + intros e x [= <-] [= <-]. split; [done|by left].
  - apply reply_encodes.
  - exists ccx', cmi'. split; [exact Hd|]. intros m.
    destruct (H (fun w cx req => (w, ccx', inl (Some m))) (None, 0%nat) call_cx 1 (None, 0%nat) m eq_refl) as [E _].
    by rewrite E.
Defined.
End ClientExample.
