(* ===== verification/HotRestart.v ===== *)
(** Hot restart (volo/src/hotrestart/mod.rs): a new process gets the listeners of
    the old one through a Unix datagram socket and then has it terminated.

    The messages and their coding; [initialize] against the answers of the
    operating system; and the handover as steps of the old process's loop and
    the new one's calls, with the two directions of the socket as queues; every
    receive may also find nothing or fail. A file descriptor stands for the
    listener it refers to; the signal a process sends itself is taken to
    arrive. *)

From S2P Require Import Prelude.

(** * Messages *)

Inductive HotRestartState : Type := Uninitalized | ParentInitialized | ChildInitialized.

#[export] Instance HotRestartState_eq_dec : EqDecision HotRestartState.
Proof. solve_decision. Defined.

Inductive HotRestartMsgType : Type := MPassFdRequest | MPassFdResponse | MTerminateParentRequest.

Definition msg_type_as_u8 (t : HotRestartMsgType) : Z :=
  match t with MPassFdRequest => 1 | MPassFdResponse => 2 | MTerminateParentRequest => 3 end.

(** [TryFrom<u8>]. *)
Definition msg_type_try_from (v : Z) : option HotRestartMsgType :=
  if v =? 1 then Some MPassFdRequest
  else if v =? 2 then Some MPassFdResponse
  else if v =? 3 then Some MTerminateParentRequest
  else None.

Inductive HotRestartMessage : Type :=
| TerminateParentRequest
| PassFdRequest (addr : bytes)
| PassFdResponse (fd : Z).

(** An [io::Error], as far as the code looks at it. *)
Inductive IoError : Type := InvalidData | WouldBlock | OsError.

(** A datagram: its bytes and the descriptors of its [SCM_RIGHTS] message. *)
Record Datagram : Type := mkDatagram { dg_data : bytes; dg_fds : list Z }.

Section Messages.
(** The byte order of the machine. *)
Context (big_endian : bool).

Definition to_ne_bytes (n : Z) : bytes := if big_endian then put_u32 n else rev (put_u32 n).
Definition from_ne_bytes (bs : bytes) : Z := be_decode (if big_endian then bs else rev bs).

(** [send_msg] up to the system call. *)
Definition send_msg (msg_type : HotRestartMsgType) (body : HotRestartMessage) : outcome IoError Datagram :=
  let sbuf := put_u8 (msg_type_as_u8 msg_type) in
  match msg_type, body with
  | MPassFdRequest, PassFdRequest addr => Done (mkDatagram (sbuf ++ to_ne_bytes (wrap 32 (Zlen addr)) ++ addr) [])
  | MPassFdResponse, PassFdResponse fd => Done (mkDatagram sbuf [fd])
  | MTerminateParentRequest, _ => Done (mkDatagram sbuf [])
  | _, _ => Fail InvalidData
  end.

Definition BUF_LEN : nat := 1024.

(** [recv_msg] from the system call: the buffer holds 1024 bytes; indexing and
    slicing what was received panics out of its range. *)
Definition recv_msg (dg : Datagram) : outcome IoError HotRestartMessage :=
  let msg := take BUF_LEN (dg_data dg) in
  match msg with
  | [] => Panic
  | b :: rest =>
      match msg_type_try_from (Z_of_byte b) with
      | Some MPassFdRequest =>
          if bool_decide (4 <= Zlen rest) then
            let length := from_ne_bytes (take 4 rest) in
            let body := drop 4 rest in
            if bool_decide (length <= Zlen body) then Done (PassFdRequest (take (Z.to_nat length) body)) else Panic
          else Panic
      | Some MPassFdResponse =>
          match last (dg_fds dg) with Some fd => Done (PassFdResponse fd) | None => Fail InvalidData end
      | Some MTerminateParentRequest => Done TerminateParentRequest
      | None => Fail InvalidData
      end
  end.

(** The type a message is sent with. *)
Definition type_of (m : HotRestartMessage) : HotRestartMsgType :=
  match m with
  | TerminateParentRequest => MTerminateParentRequest
  | PassFdRequest _ => MPassFdRequest
  | PassFdResponse _ => MPassFdResponse
  end.

Definition datagram (m : HotRestartMessage) : Datagram :=
  match m with
  | TerminateParentRequest => mkDatagram (put_u8 3) []
  | PassFdRequest addr => mkDatagram (put_u8 1 ++ to_ne_bytes (wrap 32 (Zlen addr)) ++ addr) []
  | PassFdResponse fd => mkDatagram (put_u8 2) [fd]
  end.

Lemma send_msg_datagram m : send_msg (type_of m) m = Done (datagram m).
Proof. by destruct m. Qed.

Lemma length_to_ne_bytes n : length (to_ne_bytes n) = 4%nat.
Proof. unfold to_ne_bytes. by destruct big_endian. Qed.

Lemma from_to_ne_bytes n : 0 <= n < 2 ^ 32 -> from_ne_bytes (to_ne_bytes n) = n.
Proof.
  intros Hn. unfold from_ne_bytes, to_ne_bytes, put_u32.
  destruct big_endian; rewrite ?rev_involutive, be_decode_encode; apply Z.mod_small; done.
Qed.

(** How much fits into the buffer. *)
Definition fits_buffer (m : HotRestartMessage) : Prop :=
  match m with PassFdRequest addr => Zlen addr <= 1019 | _ => True end.

(** A request whose address is too long is cut, and reading it panics. *)
Lemma recv_long_panics addr : 1019 < Zlen addr < 2 ^ 32 -> recv_msg (datagram (PassFdRequest addr)) = Panic.
Proof.
  intros Hl. unfold recv_msg, datagram. cbn [dg_data]. rewrite wrap_small by (pose proof (Zlen_nonneg addr); lia).
  change (put_u8 1 ++ ?x) with (x01 :: x). cbn [BUF_LEN take]. cbv beta iota.
  change (msg_type_try_from (Z_of_byte x01)) with (Some MPassFdRequest). cbv beta iota.
  rewrite (take_app_ge (to_ne_bytes _)) by (rewrite length_to_ne_bytes; lia). rewrite length_to_ne_bytes.
  rewrite bool_decide_eq_true_2 by (unfold Zlen; rewrite length_app, length_to_ne_bytes; lia).
  rewrite (take_app_length' (to_ne_bytes _) _ 4) by (by rewrite length_to_ne_bytes).
  rewrite (drop_app_length' (to_ne_bytes _) _ 4) by (by rewrite length_to_ne_bytes).
  rewrite from_to_ne_bytes by (pose proof (Zlen_nonneg addr); lia).
  rewrite bool_decide_eq_false_2; [done|]. unfold Zlen in *. rewrite length_take. lia.
Qed.

Lemma recv_sent m : fits_buffer m -> recv_msg (datagram m) = Done m.
Proof.
  destruct m as [|addr|fd]; [done| |done]. cbn [fits_buffer]. intros Hl. pose proof (Zlen_nonneg addr) as H0.
  unfold recv_msg, datagram. cbn [dg_data]. rewrite wrap_small by lia.
  change (put_u8 1 ++ ?x) with (x01 :: x). cbn [BUF_LEN take]. cbv beta iota.
  change (msg_type_try_from (Z_of_byte x01)) with (Some MPassFdRequest). cbv beta iota.
  rewrite (take_ge (to_ne_bytes _ ++ addr)) by (rewrite length_app, length_to_ne_bytes; unfold Zlen in Hl; lia).
  rewrite bool_decide_eq_true_2 by (unfold Zlen; rewrite length_app, length_to_ne_bytes; lia).
  rewrite (take_app_length' (to_ne_bytes _) _ 4) by (by rewrite length_to_ne_bytes).
  rewrite (drop_app_length' (to_ne_bytes _) _ 4) by (by rewrite length_to_ne_bytes).
  rewrite from_to_ne_bytes by lia. rewrite bool_decide_eq_true_2 by lia.
  unfold Zlen. by rewrite Nat2Z.id, firstn_all.
Qed.

(** Messages of the hot restart survive the socket on machines of either byte
    order: what [send_msg] sends with its type, [recv_msg] reads back, up to
    the 1019 bytes of address that fit into its buffer; a longer address
    (below 2^32 bytes) makes the receiver panic, and a body of another type
    is refused by the sender. *)
Theorem hot_restart_message_roundtrip m t :
  (fits_buffer m -> exists dg, send_msg (type_of m) m = Done dg /\ recv_msg dg = Done m) /\
  (forall addr, m = PassFdRequest addr -> 1019 < Zlen addr < 2 ^ 32 ->
     exists dg, send_msg (type_of m) m = Done dg /\ recv_msg dg = Panic) /\
  (t <> type_of m -> t <> MTerminateParentRequest -> send_msg t m = Fail InvalidData).
Proof.
  split_and!.
  - intros Hf. exists (datagram m). split; [apply send_msg_datagram|by apply recv_sent].
  - intros addr -> Hl. eexists. split; [apply send_msg_datagram|by apply recv_long_panics].
  - intros H1 H2. by destruct t, m.
Qed.
End Messages.

(** * Initialisation *)

(** What the operating system answers to [initialize]. *)
Record InitOs : Type := mkInitOs {
  os_dir_exists : bool; os_create_dir : bool;
  os_child_exists : bool; os_child_removed : bool; os_child_bound : bool; os_child_connected : bool;
  os_parent_exists : bool; os_parent_removed : bool; os_parent_bound : bool }.

(** [HotRestart]: [hr_sock] when it holds the child's socket, [hr_loop] when it
    spawned [parent_handle], [hr_paths] when the paths are set. *)
Record HotRestart : Type := mkHotRestart {
  hr_state : HotRestartState;
  hr_listener_fds : gmap bytes Z;
  hr_dup_listener_num : Z;
  hr_listener_num : Z;
  hr_paths : bool;
  hr_sock : bool;
  hr_loop : bool }.

Definition hr_new : HotRestart := mkHotRestart Uninitalized ∅ 0 0 false false false.

Definition register_listener_fd (addr : bytes) (fd : Z) (h : HotRestart) : HotRestart :=
  mkHotRestart (hr_state h) (<[addr := fd]> (hr_listener_fds h)) (hr_dup_listener_num h) (hr_listener_num h)
    (hr_paths h) (hr_sock h) (hr_loop h).

(** The state that is left goes with the result: an early return keeps what
    was set before it. *)
Definition initialize (os : InitOs) (server_listener_num : Z) (h : HotRestart) : HotRestart * outcome IoError unit :=
  if negb (bool_decide (hr_state h = Uninitalized)) then (h, Done tt)
  else if negb (os_dir_exists os) && negb (os_create_dir os) then (h, Fail OsError)
  else
    let h := mkHotRestart (hr_state h) (hr_listener_fds h) (hr_dup_listener_num h) server_listener_num
               (hr_paths h) (hr_sock h) (hr_loop h) in
    if hr_paths h then (h, Panic)
    else
      let h := mkHotRestart (hr_state h) (hr_listener_fds h) (hr_dup_listener_num h) (hr_listener_num h)
                 true (hr_sock h) (hr_loop h) in
      if os_child_exists os && negb (os_child_removed os) then (h, Panic)
      else if os_child_bound os && os_child_connected os then
        (mkHotRestart ChildInitialized (hr_listener_fds h) (hr_dup_listener_num h) (hr_listener_num h)
           (hr_paths h) true (hr_loop h), Done tt)
      else
        let h := mkHotRestart ParentInitialized (hr_listener_fds h) (hr_dup_listener_num h) (hr_listener_num h)
                   (hr_paths h) (hr_sock h) (hr_loop h) in
        if os_parent_exists os && negb (os_parent_removed os) then (h, Panic)
        else if negb (os_parent_bound os) then (h, Fail OsError)
        else (mkHotRestart ParentInitialized (hr_listener_fds h) (hr_dup_listener_num h) (hr_listener_num h)
                (hr_paths h) (hr_sock h) true, Done tt).

(** A process that says it is the child has the child's socket, one that said so
    never spawned the loop. *)
Definition hr_ok (h : HotRestart) : Prop :=
  (hr_state h = ChildInitialized -> hr_sock h = true /\ hr_loop h = false) /\
  (hr_loop h = true -> hr_state h = ParentInitialized).

Lemma initialize_ok os n h : hr_ok h -> hr_ok (initialize os n h).1.
Proof.
  intros [H1 H2]. unfold initialize. case_bool_decide as Hs; [cbn|by split]. repeat case_match; split; cbn in *; try done; intros;
    try congruence; try (specialize (H2 ltac:(done)); congruence).
  all: split; [done|]; destruct (hr_loop h); [|done]; specialize (H2 eq_refl); congruence.
Qed.

(** Whether a process becomes the child is whether its socket reaches a parent's. *)
Lemma initialize_role os n h :
  hr_state h = Uninitalized -> (initialize os n h).2 = Done tt ->
  hr_state (initialize os n h).1 =
    if os_child_bound os && os_child_connected os then ChildInitialized else ParentInitialized.
Proof.
  intros Hs. unfold initialize. rewrite bool_decide_eq_true_2 by done. cbn. repeat case_match; done.
Qed.

Lemma initialize_again os n h : hr_state h <> Uninitalized -> initialize os n h = (h, Done tt).
Proof. intros Hs. unfold initialize. by rewrite bool_decide_eq_false_2. Qed.

Lemma initialize_failed os n h :
  hr_state h = Uninitalized -> os_dir_exists os = true -> (initialize os n h).2 = Fail OsError ->
  hr_state (initialize os n h).1 = ParentInitialized /\ hr_loop (initialize os n h).1 = hr_loop h.
Proof. intros Hs Hd. unfold initialize. rewrite bool_decide_eq_true_2, Hd by done. cbn. by repeat case_match. Qed.

(** A parent whose socket cannot be bound reports it once; asked again it answers
    that all is well, though nothing serves its children. *)
Lemma failed_parent_reports_once os os' n n' h :
  hr_state h = Uninitalized -> (initialize os n h).2 = Fail OsError -> os_dir_exists os = true ->
  (initialize os' n' (initialize os n h).1) = ((initialize os n h).1, Done tt) /\
  hr_loop (initialize os n h).1 = hr_loop h.
Proof.
  intros Hs Hf Hd. destruct (initialize_failed os n h Hs Hd Hf) as [H1 H2]. split; [|done].
  apply initialize_again. by rewrite H1.
Qed.

(** * The handover *)

Section Handover.
Context (big_endian : bool).
Abbreviation recv := (recv_msg big_endian).
Abbreviation dgram := (datagram big_endian).

(** The old process's loop. *)
Inductive ParentLoop : Type := PRunning | PTerminated | PFailed | PPanicked.

(** How a call of [dup_parent_listener_sock] ended. *)
Inductive DupResult : Type := DupNone | DupFd (fd : Z) | DupErr | DupPanic.

(** The two processes: [hw_waiting] is the call that holds the state's lock and
    waits for an answer. Kept to speak about runs: the listeners ever registered
    with the old process, what the new one received, how its calls ended, the
    addresses of the requests it sent, and how many of these it stopped waiting
    for without a descriptor. *)
Record World : Type := mkWorld {
  hw_parent : HotRestart;
  hw_loop : ParentLoop;
  hw_child : HotRestart;
  hw_waiting : option bytes;
  hw_to_parent : list Datagram;
  hw_to_child : list Datagram;
  hw_rebinding : bool;
  hw_registered : list (bytes * Z);
  hw_received : list (bytes * Z);
  hw_results : list (bytes * DupResult);
  hw_calls : list bytes;
  hw_given_up : Z }.

Definition hw_start (parent child : HotRestart) : World :=
  mkWorld parent PRunning child None [] [] false (map_to_list (hr_listener_fds parent)) [] [] [] 0.

Definition set_parent (p : HotRestart) (l : ParentLoop) (tp tc : list Datagram) (reg : list (bytes * Z)) (w : World) : World :=
  mkWorld p l (hw_child w) (hw_waiting w) tp tc (hw_rebinding w) reg (hw_received w) (hw_results w) (hw_calls w) (hw_given_up w).

(** What [readable] and [recv_msg] find: a datagram; a datagram whose descriptor
    did not arrive, as when the receiver may open no more; nothing, since the
    readiness tokio remembers is that of an earlier datagram; or an error of the
    socket, which leaves the queue as it is. *)
Inductive Receive : Type := RDatagram | RTruncated | RWouldBlock | RFailed.

Definition receive (r : Receive) (queue : list Datagram) : option (outcome IoError HotRestartMessage * list Datagram) :=
  match r, queue with
  | RDatagram, dg :: queue => Some (recv dg, queue)
  | RTruncated, dg :: queue => Some (recv (mkDatagram (dg_data dg) []), queue)
  | RWouldBlock, [] => Some (Fail WouldBlock, [])
  | RFailed, _ => Some (Fail OsError, queue)
  | _, _ => None
  end.

(** One turn of [parent_handle]; [ok]: whether the system call it makes succeeds.
    An address nobody registered is not answered. *)
Definition parent_turn (r : Receive) (ok : bool) (w : World) : option World :=
  match hw_loop w with
  | PRunning =>
      '(msg, tp) ← receive r (hw_to_parent w);
      Some (match msg with
            | Done (PassFdRequest addr) =>
                match hr_listener_fds (hw_parent w) !! addr with
                | Some fd =>
                    if ok then set_parent (hw_parent w) PRunning tp (hw_to_child w ++ [dgram (PassFdResponse fd)]) (hw_registered w) w
                    else set_parent (hw_parent w) PFailed tp (hw_to_child w) (hw_registered w) w
                | None => set_parent (hw_parent w) PRunning tp (hw_to_child w) (hw_registered w) w
                end
            | Done TerminateParentRequest =>
                set_parent (hw_parent w) (if ok then PTerminated else PFailed) tp (hw_to_child w) (hw_registered w) w
            | Done (PassFdResponse _) => set_parent (hw_parent w) PRunning tp (hw_to_child w) (hw_registered w) w
            | Fail WouldBlock => set_parent (hw_parent w) PRunning tp (hw_to_child w) (hw_registered w) w
            | Fail _ => set_parent (hw_parent w) PFailed tp (hw_to_child w) (hw_registered w) w
            | _ => set_parent (hw_parent w) PPanicked tp (hw_to_child w) (hw_registered w) w
            end)
  | _ => None
  end.

(** The call in progress changes the new process and the queues. *)
Definition set_child (c : HotRestart) (wait : option bytes) (tp tc : list Datagram) (reb : bool) (w : World) : World :=
  mkWorld (hw_parent w) (hw_loop w) c wait tp tc reb (hw_registered w) (hw_received w) (hw_results w) (hw_calls w) (hw_given_up w).

(** A call ends; it sent a request; it got a descriptor; it goes without one. *)
Definition ended (addr : bytes) (r : DupResult) (w : World) : World :=
  mkWorld (hw_parent w) (hw_loop w) (hw_child w) None (hw_to_parent w) (hw_to_child w) (hw_rebinding w) (hw_registered w)
    (hw_received w) (hw_results w ++ [(addr, r)]) (hw_calls w) (hw_given_up w).
Definition asked (addr : bytes) (w : World) : World :=
  mkWorld (hw_parent w) (hw_loop w) (hw_child w) (hw_waiting w) (hw_to_parent w) (hw_to_child w) (hw_rebinding w) (hw_registered w)
    (hw_received w) (hw_results w) (hw_calls w ++ [addr]) (hw_given_up w).
Definition got (addr : bytes) (fd : Z) (w : World) : World :=
  mkWorld (hw_parent w) (hw_loop w) (hw_child w) (hw_waiting w) (hw_to_parent w) (hw_to_child w) (hw_rebinding w) (hw_registered w)
    (hw_received w ++ [(addr, fd)]) (hw_results w) (hw_calls w) (hw_given_up w).
Definition gave_up (w : World) : World :=
  mkWorld (hw_parent w) (hw_loop w) (hw_child w) None (hw_to_parent w) (hw_to_child w) (hw_rebinding w) (hw_registered w)
    (hw_received w) (hw_results w) (hw_calls w) (hw_given_up w + 1).

(** [dup_parent_listener_sock] up to the wait; [ok]: whether the request is sent. *)
Definition dup_request (addr : bytes) (ok : bool) (w : World) : option World :=
  match hw_waiting w with
  | Some _ => None
  | None =>
      let c := hw_child w in
      Some (if negb (bool_decide (hr_state c = ChildInitialized)) then ended addr DupNone w
            else if ok
            then asked addr (set_child c (Some addr) (hw_to_parent w ++ [dgram (PassFdRequest addr)]) (hw_to_child w) (hw_rebinding w) w)
            else ended addr DupErr w)
  end.

(** The end of a call that got a descriptor: the counter, and with the last one
    the request to terminate and the change of sides; [sent], [shut] and
    [removed]: whether its system calls succeed (removing the socket's file is
    unwrapped). *)
Definition dup_received (addr : bytes) (fd : Z) (sent shut removed : bool) (tc : list Datagram) (w : World) : World :=
  let c := hw_child w in
  let n := swrap 32 (hr_dup_listener_num c + 1) in
  let c := mkHotRestart (hr_state c) (hr_listener_fds c) n (hr_listener_num c) (hr_paths c) (hr_sock c) (hr_loop c) in
  let w := got addr fd w in
  if bool_decide (n = hr_listener_num c) then
    if sent then
      let tp := hw_to_parent w ++ [dgram TerminateParentRequest] in
      let c := mkHotRestart ParentInitialized (hr_listener_fds c) n (hr_listener_num c) (hr_paths c) (hr_sock c) (hr_loop c) in
      if shut then
        let c := mkHotRestart ParentInitialized (hr_listener_fds c) n (hr_listener_num c) (hr_paths c) false (hr_loop c) in
        if removed then ended addr (DupFd fd) (set_child c None tp tc true w)
        else ended addr DupPanic (set_child c None tp tc (hw_rebinding w) w)
      else ended addr DupErr (set_child c None tp tc (hw_rebinding w) w)
    else ended addr DupErr (set_child c None (hw_to_parent w) tc (hw_rebinding w) w)
  else ended addr (DupFd fd) (set_child c None (hw_to_parent w) tc (hw_rebinding w) w).

(** The rest of the call, when [readable] returns: an error of the receive is the
    call's, and its answer may still be on its way. *)
Definition dup_answer (r : Receive) (sent shut removed : bool) (w : World) : option World :=
  match hw_waiting w with
  | Some addr =>
      '(msg, tc) ← receive r (hw_to_child w);
      let fail res := ended addr res (gave_up (set_child (hw_child w) None (hw_to_parent w) tc (hw_rebinding w) w)) in
      Some (match msg with
            | Done (PassFdResponse fd) => dup_received addr fd sent shut removed tc w
            | Done _ => fail DupErr
            | Fail _ => fail DupErr
            | _ => fail DupPanic
            end)
  | None => None
  end.

(** The caller drops the call while it waits. *)
Definition dup_cancelled (w : World) : option World :=
  match hw_waiting w with
  | Some _ => Some (gave_up w)
  | None => None
  end.

Inductive HEvent : Type :=
| HRegister (addr : bytes) (fd : Z)
| HParent (r : Receive) (ok : bool)
| HDup (addr : bytes) (ok : bool)
| HAnswer (r : Receive) (sent shut removed : bool)
| HCancel.

Definition hw_step (e : HEvent) (w : World) : option World :=
  match e with
  | HRegister addr fd =>
      Some (set_parent (register_listener_fd addr fd (hw_parent w)) (hw_loop w) (hw_to_parent w) (hw_to_child w)
              (hw_registered w ++ [(addr, fd)]) w)
  | HParent r ok => parent_turn r ok w
  | HDup addr ok => dup_request addr ok w
  | HAnswer r sent shut removed => dup_answer r sent shut removed w
  | HCancel => dup_cancelled w
  end.

Fixpoint hw_run (es : list HEvent) (w : World) : option World :=
  match es with
  | [] => Some w
  | e :: es => w ← hw_step e w; hw_run es w
  end.
End Handover.
