(* ===== verification/HotRestartSpec.v ===== *)
(** What the handover of a hot restart promises: the listeners that are handed over
    are those the new process asked for, the old process is terminated only
    when the new one has as many as it expects, and a handover completes when
    every call waits for its answer. What it does not: a call that receives too
    early, or is dropped, leaves its answer to the next, and an address the old
    process does not know blocks the new one. *)

From S2P Require Import Prelude HotRestart.

Section Spec.
Context (big_endian : bool).
Abbreviation step := (hw_step big_endian).
Abbreviation run := (hw_run big_endian).
Abbreviation dgram := (datagram big_endian).

(** Addresses whose length fits the 32 bits of a request. *)
Definition short (e : HEvent) : Prop := match e with HDup addr _ => Zlen addr < 2 ^ 32 | _ => True end.

Definition request_of (addrs : list bytes) (dg : Datagram) : Prop :=
  exists a, dg = dgram (PassFdRequest a) /\ a ∈ addrs /\ Zlen a < 2 ^ 32.
Definition answer_of (addrs : list bytes) (reg : list (bytes * Z)) (dg : Datagram) : Prop :=
  exists a fd, dg = dgram (PassFdResponse fd) /\ a ∈ addrs /\ (a, fd) ∈ reg.

Definition waits (w : World) : Z := match hw_waiting w with Some _ => 1 | None => 0 end.

(** The new process has all it expects and took its place. *)
Definition replaced (w : World) : Prop :=
  hr_state (hw_child w) = ParentInitialized /\ hr_dup_listener_num (hw_child w) = hr_listener_num (hw_child w).

(** What is on its way belongs to the call that waits. *)
Definition pending_ok (w : World) : Prop :=
  match hw_waiting w with
  | Some addr =>
      (hw_to_parent w = [dgram (PassFdRequest addr)] /\ hw_to_child w = []) \/
      (hw_to_parent w = [] /\ exists fd, hw_to_child w = [dgram (PassFdResponse fd)] /\ (addr, fd) ∈ hw_registered w) \/
      (hw_to_parent w = [] /\ hw_to_child w = [])
  | None => hw_to_child w = [] /\ (hw_to_parent w = [] \/ hw_to_parent w = [dgram TerminateParentRequest])
  end.

(** While no call went without its descriptor, each got its own. *)
Definition aligned (w : World) : Prop :=
  (forall p, p ∈ hw_received w -> p ∈ hw_registered w) /\
  (hw_received w).*1 ++ option_list (hw_waiting w) = hw_calls w /\ pending_ok w.

Record hw_inv (w : World) : Prop := mkHwInv {
  hi_registered : forall a fd, hr_listener_fds (hw_parent w) !! a = Some fd -> (a, fd) ∈ hw_registered w;
  hi_to_parent : forall dg, dg ∈ hw_to_parent w -> request_of (hw_calls w) dg \/ (dg = dgram TerminateParentRequest /\ replaced w);
  hi_to_child : forall dg, dg ∈ hw_to_child w -> answer_of (hw_calls w) (hw_registered w) dg;
  hi_received : forall p, p ∈ hw_received w -> exists a, a ∈ hw_calls w /\ (a, p.2) ∈ hw_registered w;
  hi_results : forall a fd, (a, DupFd fd) ∈ hw_results w -> (a, fd) ∈ hw_received w;
  hi_count : hr_dup_listener_num (hw_child w) = swrap 32 (Zlen (hw_received w));
  hi_calls : Zlen (hw_calls w) = Zlen (hw_received w) + hw_given_up w + waits w;
  hi_given_up : 0 <= hw_given_up w;
  hi_waiting : forall a, hw_waiting w = Some a -> hr_state (hw_child w) = ChildInitialized /\ Zlen a < 2 ^ 32;
  hi_terminated : hw_loop w = PTerminated -> replaced w;
  hi_aligned : hw_given_up w = 0 -> aligned w
}.

Lemma hw_inv_start parent child :
  hr_dup_listener_num child = 0 -> hw_inv (hw_start parent child).
Proof.
  intros Hd. split; cbn; try done; try (intros * H; by apply elem_of_nil in H).
  - intros a fd H. by apply elem_of_map_to_list.
  - intros _. split_and!; [intros p H; by apply elem_of_nil in H|done|]. split; [done|by left].
Qed.

Lemma swrap_succ z : swrap 32 (swrap 32 z + 1) = swrap 32 (z + 1).
Proof.
  unfold swrap. change (32 - 1) with 31.
  replace ((z + 2 ^ 31) mod 2 ^ 32 - 2 ^ 31 + 1 + 2 ^ 31) with ((z + 2 ^ 31) mod 2 ^ 32 + 1) by lia.
  rewrite Zplus_mod_idemp_l. f_equal. f_equal. lia.
Qed.

Lemma cons_single {A} (x y : A) l : x :: l = [y] -> x = y /\ l = [].
Proof. by intros [= -> ->]. Qed.

(** What is read of a request, whatever its length. *)
Lemma recv_request addr :
  Zlen addr < 2 ^ 32 -> recv_msg big_endian (dgram (PassFdRequest addr)) = Done (PassFdRequest addr) \/
    recv_msg big_endian (dgram (PassFdRequest addr)) = Panic.
Proof.
  intros Hl. destruct (decide (Zlen addr <= 1019)); [left; by apply recv_sent|right; apply recv_long_panics; lia].
Qed.

Lemma request_inj a b : dgram (PassFdRequest a) = dgram (PassFdRequest b) -> a = b.
Proof.
  intros [= E]. apply app_inj_1 in E as [_ E]; [done|]. by rewrite !length_to_ne_bytes.
Qed.

Lemma request_of_mono (l l' : list bytes) dg : l ⊆ l' -> request_of l dg -> request_of l' dg.
Proof. intros Hl (a & -> & Ha & Hs). exists a. auto. Qed.

Lemma answer_of_mono (l l' : list bytes) (r r' : list (bytes * Z)) dg : l ⊆ l' -> r ⊆ r' -> answer_of l r dg -> answer_of l' r' dg.
Proof. intros Hl Hr (a & fd & -> & Ha & Hs). exists a, fd. auto. Qed.

Lemma received_mono (l l' : list bytes) (r r' : list (bytes * Z)) (p : bytes * Z) :
  l ⊆ l' -> r ⊆ r' -> (exists a : bytes, a ∈ l /\ (a, p.2) ∈ r) -> exists a, a ∈ l' /\ (a, p.2) ∈ r'.
Proof. intros Hl Hr (a & Ha & Hs). exists a. auto. Qed.

Lemma sub_app {A} (l k : list A) : l ⊆ l ++ k.
Proof. intros x Hx. apply elem_of_app. by left. Qed.

(** What a receive finds is what was sent, or nothing to act on. *)
Lemma receive_inv r q m q' :
  receive big_endian r q = Some (m, q') ->
  (exists dg, q = dg :: q' /\ (m = recv_msg big_endian dg \/ m = recv_msg big_endian (mkDatagram (dg_data dg) []))) \/
  (q' = q /\ (m = Fail WouldBlock \/ m = Fail OsError)).
Proof. destruct r, q; cbn; intros [= <- <-]; eauto 6. Qed.

Lemma recv_request_data addr :
  Zlen addr < 2 ^ 32 ->
  recv_msg big_endian (mkDatagram (dg_data (dgram (PassFdRequest addr))) []) = Done (PassFdRequest addr) \/
  recv_msg big_endian (mkDatagram (dg_data (dgram (PassFdRequest addr))) []) = Panic.
Proof. apply recv_request. Qed.

Lemma handover_inv_register addr fd w : hw_inv w -> forall w', step (HRegister addr fd) w = Some w' -> hw_inv w'.
Proof.
  intros [I1 I2 I3 I4 I5 I6 I7 I8 I9 I10 I11] w' [= <-]. pose proof (sub_app (hw_registered w) [(addr, fd)]) as Hsub.
  split; cbn; try done.
  - intros a fd'. rewrite elem_of_app, list_elem_of_singleton. destruct (decide (a = addr)) as [->|Hn].
    + rewrite lookup_insert_eq. intros [= <-]. by right.
    + rewrite lookup_insert_ne by done. intros H. left. by apply I1.
  - intros dg Hdg. eapply answer_of_mono; [done|exact Hsub|by apply I3].
  - intros p Hp. eapply received_mono; [done|exact Hsub|by apply I4].
  - intros Hg. destruct (I11 Hg) as (A1 & A2 & A3). split_and!; [intros p Hp; by apply Hsub, A1|done|].
    unfold pending_ok in *. cbn. destruct (hw_waiting w) as [a|]; [|done].
    destruct A3 as [H|[(H & x & Hx & Hr)|H]]; [by left| |by right; right].
    right. left. split; [done|]. exists x. split; [done|]. by apply Hsub.
Qed.

(** The old process takes a message and may answer it, and may end. *)
Lemma inv_parent_took l tc w :
  hw_inv w -> forall dg tp, hw_to_parent w = dg :: tp ->
  (forall x, x ∈ tc -> x ∈ hw_to_child w \/ answer_of (hw_calls w) (hw_registered w) x) ->
  (l = PTerminated -> replaced w) ->
  (hw_given_up w = 0 -> hw_waiting w = None -> tc = []) ->
  (hw_given_up w = 0 -> forall a, hw_waiting w = Some a -> tc = [] \/ exists fd, tc = [dgram (PassFdResponse fd)] /\ (a, fd) ∈ hw_registered w) ->
  hw_inv (set_parent (hw_parent w) l tp tc (hw_registered w) w).
Proof.
  intros [I1 I2 I3 I4 I5 I6 I7 I8 I9 I10 I11] dg tp Htp Htc Hl Hn Hs. split; cbn; try done.
  - intros x Hx. apply I2. rewrite Htp. by right.
  - intros x Hx. destruct (Htc x Hx); auto.
  - intros Hg. destruct (I11 Hg) as (A1 & A2 & A3). split_and!; [done..|]. unfold pending_ok in *. cbn. rewrite Htp in A3.
    destruct (hw_waiting w) as [a|] eqn:Hw.
    + destruct A3 as [[[-> ->]%cons_single _]|[[? _]|[? _]]]; [|done..].
      destruct (Hs Hg a eq_refl) as [->|(fd & -> & Hr)]; [by right; right|right; left; eauto].
    + destruct A3 as [_ [?|[-> ->]%cons_single]]; [done|]. split; [by apply Hn|by left].
Qed.

(** It meets an error of its socket, or nothing. *)
Lemma inv_parent_missed l w :
  hw_inv w -> l <> PTerminated -> hw_inv (set_parent (hw_parent w) l (hw_to_parent w) (hw_to_child w) (hw_registered w) w).
Proof. intros [I1 I2 I3 I4 I5 I6 I7 I8 I9 I10 I11] Hl. by split. Qed.

Lemma inv_parent_turn r ok w w' : hw_inv w -> parent_turn big_endian r ok w = Some w' -> hw_inv w'.
Proof.
  intros Hw. unfold parent_turn. destruct (hw_loop w) eqn:Hloop; try done.
  destruct (receive big_endian r (hw_to_parent w)) as [[m tp]|] eqn:Hr; [|done]. cbn [mbind option_bind].
  destruct (receive_inv r _ _ _ Hr) as [(dg & Hq & Hm)|[-> [-> | ->]]].
  2, 3: intros [= <-]; by apply inv_parent_missed.
  assert (forall l, (l = PTerminated -> replaced w) -> hw_inv (set_parent (hw_parent w) l tp (hw_to_child w) (hw_registered w) w)) as Hsame.
  { intros l Hl. apply (inv_parent_took l (hw_to_child w) w Hw dg tp Hq); auto.
    - intros Hg Hn. destruct (hi_aligned w Hw Hg) as (_ & _ & A). unfold pending_ok in A. rewrite Hn in A. by destruct A.
    - intros Hg a Ha. destruct (hi_aligned w Hw Hg) as (_ & _ & A). unfold pending_ok in A. rewrite Ha, Hq in A.
      destruct A as [[_ ->]|[[? _]|[? _]]]; [by left|done..]. }
  destruct (hi_to_parent w Hw dg) as [(a & -> & Ha & Hs)|[-> Hrep]]; [rewrite Hq; left| |].
  - assert (m = Done (PassFdRequest a) \/ m = Panic) as [-> | ->].
    { destruct Hm as [-> | ->]; [by apply recv_request|by apply recv_request_data]. }
    2: { intros [= <-]. by apply Hsame. }
    destruct (hr_listener_fds (hw_parent w) !! a) as [fd|] eqn:Hfd; [destruct ok|]; intros [= <-]; try (by apply Hsame).
    pose proof (hi_registered w Hw a fd Hfd) as Hreg.
    apply (inv_parent_took PRunning _ w Hw _ tp Hq); try done.
    + intros x. rewrite elem_of_app, list_elem_of_singleton. intros [?| ->]; [by left|right]. by exists a, fd.
    + intros Hg Hn. destruct (hi_aligned w Hw Hg) as (_ & _ & A). unfold pending_ok in A. rewrite Hn, Hq in A.
      by destruct A as [_ [?|[? _]%cons_single]].
    + intros Hg b Hb. destruct (hi_aligned w Hw Hg) as (_ & A2 & A). unfold pending_ok in A. rewrite Hb, Hq in A.
      destruct A as [[[->%request_inj _]%cons_single ->]|[[? _]|[? _]]]; [|done..].
      right. by exists fd.
  - assert (m = Done TerminateParentRequest) as -> by (by destruct Hm as [-> | ->]).
    intros [= <-]. destruct ok; by apply Hsame.
Qed.

Lemma inv_request addr ok w w' : Zlen addr < 2 ^ 32 -> hw_inv w -> dup_request big_endian addr ok w = Some w' -> hw_inv w'.
Proof.
  intros Ha [I1 I2 I3 I4 I5 I6 I7 I8 I9 I10 I11]. unfold dup_request. destruct (hw_waiting w) as [a|] eqn:Hw; [done|].
  assert (forall r, (forall fd, r <> DupFd fd) -> hw_inv (ended addr r w)) as Hend.
  { intros r Hr. split; cbn; try done; try (by rewrite I7; unfold waits; cbn; rewrite Hw).
    - intros a fd. rewrite elem_of_app, list_elem_of_singleton. intros [?|[= -> ?]]; [by apply I5|by destruct (Hr fd)].
    - intros Hg. destruct (I11 Hg) as (A1 & A2 & A3). unfold aligned, pending_ok in *. cbn. by rewrite Hw in *. }
  case_bool_decide as Hs; cbn [negb]; [destruct ok|]; intros [= <-]; try (by apply Hend).
  pose proof (sub_app (hw_calls w) [addr]) as Hsub. split; cbn; try done.
  - intros dg. rewrite elem_of_app, list_elem_of_singleton. intros [H| ->].
    + destruct (I2 dg H) as [Hq|[_ [? _]]]; [left; by eapply request_of_mono|congruence].
    + left. exists addr. split_and!; [done| |done]. apply elem_of_app. right. by apply list_elem_of_singleton.
  - intros dg Hdg. eapply answer_of_mono; [exact Hsub|done|by apply I3].
  - intros p Hp. eapply received_mono; [exact Hsub|done|by apply I4].
  - rewrite Zlen_app, I7. unfold waits. rewrite Hw. change (Zlen [addr]) with 1. cbn. lia.
  - by intros a [= <-].
  - intros Hg. destruct (I11 Hg) as (A1 & A2 & A3). unfold aligned, pending_ok in *. cbn. rewrite Hw in *. cbn in A2.
    rewrite app_nil_r in A2. split_and!; [done|by rewrite A2|]. destruct A3 as [-> [-> | Ht]]; [by left|].
    destruct (I2 (dgram TerminateParentRequest)) as [(a & E & _)|[_ [? _]]]; [rewrite Ht; left|done|congruence].
Qed.

(** A waiting call ends without a descriptor. *)
Lemma inv_gave_up addr r tc w :
  hw_inv w -> is_Some (hw_waiting w) -> (forall fd, r <> DupFd fd) -> tc ⊆ hw_to_child w ->
  hw_inv (ended addr r (gave_up (set_child (hw_child w) None (hw_to_parent w) tc (hw_rebinding w) w))).
Proof.
  intros [I1 I2 I3 I4 I5 I6 I7 I8 I9 I10 I11] [a Hw] Hr Htc. split; cbn; try done.
  - intros dg Hdg. by apply I3, Htc.
  - intros b fd. rewrite elem_of_app, list_elem_of_singleton. intros [?|[= -> ?]]; [by apply I5|by destruct (Hr fd)].
  - rewrite I7. unfold waits. cbn. rewrite Hw. lia.
  - lia.
  - intros Hg. lia.
Qed.

(** A waiting call ends with one: the counter and what goes with the last. *)
Lemma inv_got addr fd n sent st sk tp reb res tc w :
  hw_inv w -> hw_waiting w = Some addr -> (exists dg, hw_to_child w = dg :: tc /\ dg = dgram (PassFdResponse fd)) ->
  n = swrap 32 (hr_dup_listener_num (hw_child w) + 1) ->
  let c := hw_child w in
  let c := mkHotRestart st (hr_listener_fds c) n (hr_listener_num c) (hr_paths c) sk (hr_loop c) in
  (st = ChildInitialized \/ st = ParentInitialized /\ n = hr_listener_num (hw_child w)) ->
  tp = hw_to_parent w ++ (if sent : bool then [dgram TerminateParentRequest] else []) ->
  (sent = true -> st = ParentInitialized) -> (res = DupFd fd \/ forall x, res <> DupFd x) ->
  hw_inv (ended addr res (set_child c None tp tc reb (got addr fd w))).
Proof.
  intros [I1 I2 I3 I4 I5 I6 I7 I8 I9 I10 I11] Hw (dg & Hq & ->) Hn c c' Hst Htp Hsent Hres.
  destruct (I9 addr Hw) as [Hc _].
  assert (answer_of (hw_calls w) (hw_registered w) (dgram (PassFdResponse fd))) as (a & x & [= <-] & Ha & Hax) by (apply I3; rewrite Hq; left).
  split; cbn; try done.
  - intros dg. rewrite Htp, elem_of_app. intros [H|H].
    + destruct (I2 dg H) as [?|[_ [? _]]]; [by left|congruence].
    + destruct sent; [|by apply elem_of_nil in H]. apply list_elem_of_singleton in H as ->. right. split; [done|].
      destruct Hst as [->|[-> Hnum]]; [by specialize (Hsent eq_refl)|by split].
  - intros dg Hdg. apply I3. rewrite Hq. by right.
  - intros p. rewrite elem_of_app, list_elem_of_singleton. intros [?| ->]; [by apply I4|by exists a].
  - intros b y. rewrite !elem_of_app, !list_elem_of_singleton. intros [?|[= -> E]]; [left; by apply I5|].
    destruct Hres as [->|Hres]; [right; congruence|by destruct (Hres y)].
  - rewrite Hn, I6, swrap_succ. by rewrite Zlen_app.
  - rewrite I7, Zlen_app. unfold waits. rewrite Hw. change (Zlen [(addr, fd)]) with 1. cbn. lia.
  - intros Ht. destruct (I10 Ht). congruence.
  - intros Hg. destruct (I11 Hg) as (A1 & A2 & A3). unfold pending_ok in A3. rewrite Hw, Hq in A3. rewrite Hw in A2.
    destruct A3 as [[_ ?]|[(Hp & y & [[= ->] ->]%cons_single & Hreg)|[_ ?]]]; [done| |done].
    split_and!.
    + intros p. cbn. rewrite elem_of_app, list_elem_of_singleton. intros [?| ->]; [by apply A1|done].
    + cbn. by rewrite fmap_app, app_nil_r, <- A2.
    + unfold pending_ok. cbn. split; [done|]. rewrite Htp, Hp. destruct sent; [by right|by left].
Qed.

Lemma inv_answer r sent shut removed w w' : hw_inv w -> dup_answer big_endian r sent shut removed w = Some w' -> hw_inv w'.
Proof.
  intros Hi. unfold dup_answer. destruct (hw_waiting w) as [addr|] eqn:Hw; [|done].
  destruct (receive big_endian r (hw_to_child w)) as [[m tc]|] eqn:Hr; [|done]. cbn [mbind option_bind].
  destruct (receive_inv r _ _ _ Hr) as [(dg & Hq & Hm)|[-> [-> | ->]]].
  2, 3: intros [= <-]; by apply inv_gave_up.
  destruct (hi_to_child w Hi dg) as (a & fd & -> & _); [rewrite Hq; left|].
  assert (m = Done (PassFdResponse fd) \/ m = Fail InvalidData) as [-> | ->] by (destruct Hm as [-> | ->]; auto); intros [= <-].
  2: { apply inv_gave_up; [done..|]. rewrite Hq. intros x Hx. by right. }
  unfold dup_received. case_bool_decide as Hn; [destruct sent; [destruct shut; [destruct removed|]|]|].
  all: destruct (hi_waiting w Hi addr Hw) as [Hst _].
  - by apply (inv_got addr fd _ true ParentInitialized false _ true _ tc w); eauto.
  - by apply (inv_got addr fd _ true ParentInitialized false _ (hw_rebinding w) _ tc w); eauto.
  - by apply (inv_got addr fd _ true ParentInitialized (hr_sock (hw_child w)) _ (hw_rebinding w) _ tc w); eauto.
  - apply (inv_got addr fd _ false (hr_state (hw_child w)) (hr_sock (hw_child w)) _ (hw_rebinding w) _ tc w); eauto; by rewrite ?app_nil_r.
  - apply (inv_got addr fd _ false (hr_state (hw_child w)) (hr_sock (hw_child w)) _ (hw_rebinding w) _ tc w); eauto; by rewrite ?app_nil_r.
Qed.

Lemma inv_cancelled w w' : hw_inv w -> dup_cancelled w = Some w' -> hw_inv w'.
Proof.
  intros [I1 I2 I3 I4 I5 I6 I7 I8 I9 I10 I11]. unfold dup_cancelled. destruct (hw_waiting w) as [a|] eqn:Hw; [|done].
  intros [= <-]. split; cbn; try done; [|lia|intros; lia]. rewrite I7. unfold waits. rewrite Hw. cbn. lia.
Qed.

Lemma hw_inv_step e w w' : short e -> hw_inv w -> step e w = Some w' -> hw_inv w'.
Proof.
  intros He I H. destruct e; [by apply (handover_inv_register addr fd w)|by apply (inv_parent_turn r ok w)
    |by apply (inv_request addr ok w)|by apply (inv_answer r sent shut removed w)|by apply (inv_cancelled w)].
Qed.

Lemma hw_inv_run es w w' : Forall short es -> hw_inv w -> run es w = Some w' -> hw_inv w'.
Proof.
  intros Hs. revert w. induction Hs as [|e es He Hs IH]; cbn; intros w I; [by intros [= <-]|].
  destruct (step e w) as [w1|] eqn:H1; [|done]. cbn. apply IH. by apply (hw_inv_step e w).
Qed.

Lemma swrap_range_32 z : swrap 32 z < 2 ^ 31.
Proof. unfold swrap. change (32 - 1) with 31. pose proof (Z.mod_pos_bound (z + 2 ^ 31) (2 ^ 32) ltac:(lia)). lia. Qed.

(** A new process that is complete after no more requests than it expects has an
    answer to each. *)
Lemma complete_aligned w :
  hw_inv w -> replaced w -> Zlen (hw_calls w) <= hr_listener_num (hw_child w) ->
  hw_given_up w = 0 /\ hw_waiting w = None /\ (hw_received w).*1 = hw_calls w.
Proof.
  intros I [Hs Hn] Hc. rewrite (hi_count w I) in Hn. pose proof (swrap_range_32 (Zlen (hw_received w))) as Hr.
  pose proof (hi_calls w I) as Hcalls. pose proof (hi_given_up w I) as Hg. pose proof (Zlen_nonneg (hw_received w)) as H0.
  assert (0 <= waits w) as Hw by (unfold waits; destruct (hw_waiting w); lia).
  rewrite swrap_small in Hn by lia. assert (hw_given_up w = 0) as Hg0 by lia. split; [done|].
  destruct (hi_aligned w I Hg0) as (_ & <- & _). unfold waits in *. destruct (hw_waiting w); [lia|]. cbn. by rewrite app_nil_r.
Qed.

(** C19: A hot restart hands over what was asked for, and in time. Between any old and
    new process, whatever system calls fail, receives come too early and calls
    are dropped, and however their steps interleave: a listener a call gets was
    registered by the old process under an address the new one asked for, and
    under the very address of the call as long as no call stopped waiting
    without its answer; and when the old process has been terminated, the new
    one has received exactly as many listeners as it expects (counted in 32
    bits) and has taken its place, and if it asked for no more than it
    expects, then no call went without, and they were received in the order of
    the requests, each registered under the address asked for. *)
Theorem handover_is_safe parent child es w :
  hr_dup_listener_num child = 0 -> Forall short es -> run es (hw_start parent child) = Some w ->
  (forall addr fd, (addr, DupFd fd) ∈ hw_results w ->
     (exists a, a ∈ hw_calls w /\ (a, fd) ∈ hw_registered w) /\ (hw_given_up w = 0 -> (addr, fd) ∈ hw_registered w)) /\
  (hw_loop w = PTerminated ->
     hr_state (hw_child w) = ParentInitialized /\ swrap 32 (Zlen (hw_received w)) = hr_listener_num (hw_child w) /\
     (Zlen (hw_calls w) <= hr_listener_num (hw_child w) ->
        hw_given_up w = 0 /\ (hw_received w).*1 = hw_calls w /\ forall p, p ∈ hw_received w -> p ∈ hw_registered w)).
Proof.
  intros Hd Hs H. pose proof (hw_inv_run es _ w Hs (hw_inv_start parent child Hd) H) as I. split.
  - intros addr fd Hr%(hi_results w I). split; [exact (hi_received w I _ Hr)|]. intros Hg. by apply (hi_aligned w I Hg).
  - intros Ht. pose proof (hi_terminated w I Ht) as [H1 H2]. rewrite <- (hi_count w I). split_and!; [done..|].
    intros Hc. destruct (complete_aligned w I (conj H1 H2) Hc) as (Hg & _ & Hcalls). split_and!; [done..|]. apply (hi_aligned w I Hg).
Qed.

(** ** A handover completes *)

Definition handover (addrs : list bytes) : list HEvent :=
  (addrs ≫= fun a => [HDup a true; HParent RDatagram true; HAnswer RDatagram true true true]) ++ [HParent RDatagram true].

Lemma run_app es es' w : run (es ++ es') w = (w1 ← run es w; run es' w1).
Proof. revert w. induction es as [|e es IH]; cbn; intros w; [done|]. destruct (step e w); cbn; [apply IH|done]. Qed.

(** The events of a handover whose system calls succeed: the new process asks for
    addresses the old one has; either may find its socket empty. *)
Definition untroubled (parent : HotRestart) (e : HEvent) : Prop :=
  match e with
  | HRegister _ _ | HParent RDatagram true | HParent RWouldBlock _ => True
  | HDup a true => Zlen a <= 1019 /\ is_Some (hr_listener_fds parent !! a)
  | HAnswer RDatagram true true true | HAnswer RWouldBlock _ _ _ => True
  | _ => False
  end.

Lemma untroubled_short parent e : untroubled parent e -> short e.
Proof. destruct e as [| |a []| |]; cbn; try done. intros [? _]. lia. Qed.

(** The steps that finish something: a message of the old process, a wait of the new. *)
Definition work (e : HEvent) : Z := match e with HParent RDatagram _ | HAnswer _ _ _ _ => 1 | _ => 0 end.

(** The new process still asks: what it asked for is on its way, received or
    given up. *)
Record asking (parent : HotRestart) (w : World) : Prop := mkAsking {
  ak_state : hr_state (hw_child w) = ChildInitialized;
  ak_loop : hw_loop w = PRunning;
  ak_received : Zlen (hw_received w) < hr_listener_num (hw_child w);
  ak_requests : Forall (fun dg => exists a, dg = dgram (PassFdRequest a) /\ Zlen a <= 1019 /\ is_Some (hr_listener_fds parent !! a)) (hw_to_parent w);
  ak_answers : Forall (fun dg => exists fd, dg = dgram (PassFdResponse fd)) (hw_to_child w);
  ak_calls : Zlen (hw_calls w) = Zlen (hw_to_parent w) + Zlen (hw_to_child w) + Zlen (hw_received w)
}.

(** It has them all, and the old process is told. *)
Record complete (w : World) : Prop := mkComplete {
  cp_replaced : replaced w;
  cp_rebinding : hw_rebinding w = true;
  cp_waiting : hw_waiting w = None;
  cp_told : (hw_loop w = PRunning /\ hw_to_parent w = [dgram TerminateParentRequest]) \/ (hw_loop w = PTerminated /\ hw_to_parent w = [])
}.

Record live (parent : HotRestart) (w : World) : Prop := mkLive {
  lv_inv : hw_inv w;
  lv_known : forall a, is_Some (hr_listener_fds parent !! a) -> is_Some (hr_listener_fds (hw_parent w) !! a);
  lv_results : forall p, p ∈ hw_received w -> (p.1, DupFd p.2) ∈ hw_results w;
  lv_phase : asking parent w \/ complete w
}.

Lemma live_start parent child :
  hr_state child = ChildInitialized -> hr_dup_listener_num child = 0 -> 0 < hr_listener_num child -> live parent (hw_start parent child).
Proof.
  intros Hs Hd Hn. split; [by apply hw_inv_start|done|intros p H; by apply elem_of_nil in H|]. left. by split.
Qed.

Section Live.
Context (parent : HotRestart).
Implicit Types w : World.

Lemma live_register addr fd w w' : live parent w -> step (HRegister addr fd) w = Some w' -> live parent w'.
Proof.
  intros [I K R P] H. pose proof (handover_inv_register addr fd w I w' H) as I'. injection H as <-. split; [done| |done|].
  - intros a Ha. cbn. destruct (decide (a = addr)) as [->|Hne]; [rewrite lookup_insert_eq; by eexists|].
    rewrite lookup_insert_ne by done. by apply K.
  - destruct P as [[]|[]]; [left|right]; by split.
Qed.

Lemma live_parent r ok w w' : untroubled parent (HParent r ok) -> live parent w -> step (HParent r ok) w = Some w' -> live parent w'.
Proof.
  intros He [I K R P] H. pose proof (inv_parent_turn r ok w w' I H) as I'. cbn [hw_step] in H. unfold parent_turn in H.
  destruct (hw_loop w) eqn:Hl; try done. destruct r; try done.
  2: { destruct (hw_to_parent w) eqn:Hq; [|done]. injection H as <-. split; [done..|].
    destruct P as [[A1 A2 A3 A4 A5 A6]|[C1 C2 C3 C4]]; [left|right]; split; cbn; try done; [by rewrite A6, Hq|].
    destruct C4 as [[_ C4]|[C4 _]]; congruence. }
  destruct ok; [|done]. destruct (hw_to_parent w) as [|dg tp] eqn:Hq; [done|]. cbn [receive mbind option_bind] in H.
  destruct P as [[A1 A2 A3 A4 A5 A6]|[C1 C2 C3 C4]].
  - rewrite Hq in A4, A6. apply Forall_cons in A4 as [(a & -> & Ha & Hk) A4]. rewrite recv_sent in H by done.
    destruct (K a Hk) as [fd Hfd]. rewrite Hfd in H. injection H as <-. split; [done..|]. left. split; cbn; try done.
    + apply Forall_app. split; [done|]. apply Forall_singleton. by exists fd.
    + rewrite A6, Zlen_app, !Zlen_cons, Zlen_nil. lia.
  - destruct C4 as [[_ C4]|[? _]]; [|congruence]. rewrite Hq in C4. apply cons_single in C4 as [-> ->].
    injection H as <-. split; [done..|]. right. split; cbn; auto.
Qed.

Lemma live_dup a w w' : untroubled parent (HDup a true) -> live parent w -> step (HDup a true) w = Some w' -> live parent w'.
Proof.
  intros He [I K R P] H. assert (Zlen a < 2 ^ 32) as Hs by (destruct He; lia). pose proof (inv_request a true w w' Hs I H) as I'.
  cbn [hw_step] in H. unfold dup_request in H. destruct (hw_waiting w) eqn:Hw; [done|].
  destruct P as [[A1 A2 A3 A4 A5 A6]|[[C0 C1] C2 C3 C4]].
  - rewrite bool_decide_eq_true_2 in H by done. injection H as <-. split; [done..|]. left. split; cbn; try done.
    + apply Forall_app. split; [done|]. apply Forall_singleton. by exists a.
    + rewrite !Zlen_app, A6. unfold Zlen. cbn [length]. lia.
  - rewrite bool_decide_eq_false_2 in H by congruence. injection H as <-. split; [done..| |].
    + intros p Hp. cbn. apply elem_of_app. left. by apply R.
    + right. by split.
Qed.

Lemma live_answer r s1 s2 s3 w w' :
  untroubled parent (HAnswer r s1 s2 s3) -> Zlen (hw_calls w) <= hr_listener_num (hw_child w) < 2 ^ 31 ->
  live parent w -> step (HAnswer r s1 s2 s3) w = Some w' -> live parent w'.
Proof.
  intros He Hn [I K R P] H. pose proof (inv_answer r s1 s2 s3 w w' I H) as I'. cbn [hw_step] in H. unfold dup_answer in H.
  destruct (hw_waiting w) as [a|] eqn:Hw; [|done]. destruct P as [[A1 A2 A3 A4 A5 A6]|[]]; [|congruence].
  destruct r; try done.
  2: { destruct (hw_to_child w) eqn:Hq; [|done]. injection H as <-. split; [done..| |].
    - intros p Hp. cbn. apply elem_of_app. left. by apply R.
    - left. by split. }
  destruct s1, s2, s3; try done. destruct (hw_to_child w) as [|dg tc] eqn:Hq; [done|]. cbn [receive mbind option_bind] in H.
  apply Forall_cons in A5 as [[fd ->] A5]. rewrite recv_sent in H by done. injection H as <-.
  assert (forall p, p ∈ hw_received w ++ [(a, fd)] -> (p.1, DupFd p.2) ∈ hw_results w ++ [(a, DupFd fd)]) as HR.
  { intros p. rewrite !elem_of_app, !list_elem_of_singleton. intros [?| ->]; [left; by apply R|by right]. }
  assert (swrap 32 (hr_dup_listener_num (hw_child w) + 1) = Zlen (hw_received w) + 1) as Hsw.
  { rewrite (hi_count w I), swrap_succ. apply swrap_small; [lia|]. pose proof (Zlen_nonneg (hw_received w)). change (32 - 1) with 31. lia. }
  rewrite Zlen_cons in A6. pose proof (Zlen_nonneg (hw_to_parent w)) as Hp0. pose proof (Zlen_nonneg tc) as Hc0.
  unfold dup_received in *. rewrite Hsw in *. cbn zeta in *. case_bool_decide as Hlast; cbn [hr_listener_num] in Hlast; (split; [done..|]).
  - right. assert (Zlen (hw_to_parent w) = 0) as Hz by lia. split; try done. left. cbn. split; [done|].
    destruct (hw_to_parent w) as [|x l]; [done|]. rewrite Zlen_cons in Hz. pose proof (Zlen_nonneg l). lia.
  - left. split; cbn; try done; rewrite ?Zlen_app, ?Zlen_cons; unfold Zlen in *; cbn [length]; lia.
Qed.

Lemma live_step e w w' :
  untroubled parent e -> Zlen (hw_calls w) <= hr_listener_num (hw_child w) < 2 ^ 31 ->
  live parent w -> step e w = Some w' -> live parent w'.
Proof.
  intros He Hn L H. destruct e; [by apply (live_register addr fd w)|by apply (live_parent r ok w)| |by apply (live_answer r sent shut removed w)|done].
  destruct ok; [|done]. by apply (live_dup addr w).
Qed.

(** What is left to do: it goes down by every piece of work, and up by two for a call. *)
Definition child_side (c : HotRestart) : Z := if decide (hr_state c = ChildInitialized) then 1 else 0.
Definition left_over w : Z := Zlen (hw_to_parent w) + waits w + child_side (hw_child w).

Lemma child_side_nonneg c : 0 <= child_side c.
Proof. unfold child_side. destruct (decide _); lia. Qed.

Lemma left_over_nonneg w : 0 <= left_over w.
Proof.
  unfold left_over, waits. pose proof (Zlen_nonneg (hw_to_parent w)). pose proof (child_side_nonneg (hw_child w)).
  destruct (hw_waiting w); lia.
Qed.

Lemma work_parent r ok w w' :
  untroubled parent (HParent r ok) -> parent_turn big_endian r ok w = Some w' ->
  exists l tp tc, w' = set_parent (hw_parent w) l tp tc (hw_registered w) w /\ Zlen tp + work (HParent r ok) = Zlen (hw_to_parent w).
Proof.
  intros He. unfold parent_turn. destruct (hw_loop w); try done. destruct r; try done.
  - destruct (hw_to_parent w) as [|dg tp] eqn:Hq; [done|]. cbn [receive mbind option_bind work]. rewrite Zlen_cons.
    intros H. eassert (exists l tc, w' = set_parent (hw_parent w) l tp tc (hw_registered w) w) as (l & tc & ->);
      [|exists l, tp, tc; split; [done|lia]].
    repeat case_match; injection H as <-; eauto.
  - destruct (hw_to_parent w) eqn:Hq; [|done]. cbn. intros [= <-]. by eexists _, [], _.
Qed.

Lemma work_answer r s1 s2 s3 w w' :
  untroubled parent (HAnswer r s1 s2 s3) -> hw_inv w -> dup_answer big_endian r s1 s2 s3 w = Some w' ->
  left_over w' + 1 = left_over w /\ hw_calls w' = hw_calls w.
Proof.
  intros He I. unfold dup_answer. destruct (hw_waiting w) as [a|] eqn:Hw; [|done].
  destruct (hi_waiting w I a Hw) as [Hs _]. unfold left_over, waits. rewrite Hw.
  destruct r; try done.
  2: { destruct (hw_to_child w); [|done]. cbn. intros [= <-]. cbn. split; [lia|done]. }
  destruct s1, s2, s3; try done. destruct (hw_to_child w) as [|dg tc] eqn:Hq; [done|].
  destruct (hi_to_child w I dg) as (b & fd & -> & _); [rewrite Hq; left|].
  cbn [receive mbind option_bind]. rewrite recv_sent by done. intros [= <-]. unfold dup_received.
  case_bool_decide; cbn [ended set_child got hw_to_parent hw_waiting hw_calls hw_child]; (split; [|done]).
  - unfold child_side at 1. cbn [hr_state]. rewrite decide_False by done. unfold child_side. rewrite decide_True by done.
    unfold Zlen. rewrite length_app. cbn [length]. lia.
  - unfold child_side. cbn [hr_state]. rewrite !decide_True by done. lia.
Qed.

Lemma work_step e w w' :
  untroubled parent e -> live parent w -> step e w = Some w' ->
  left_over w' + work e = left_over w + 2 * (Zlen (hw_calls w') - Zlen (hw_calls w)).
Proof.
  intros He [I K R P] H. destruct e as [a fd|r ok|a ok|r s1 s2 s3|]; [| | | |done].
  - injection H as <-. unfold left_over, waits. cbn. lia.
  - destruct (work_parent r ok w w' He H) as (l & tp & tc & -> & Hl). unfold left_over, waits.
    cbn [set_parent hw_to_parent hw_waiting hw_child hw_calls]. lia.
  - destruct ok; [|done]. cbn [hw_step] in H. unfold dup_request in H. destruct (hw_waiting w) eqn:Hw; [done|].
    unfold left_over, waits. rewrite Hw. case_bool_decide as Hs; injection H as <-; cbn; [|rewrite ?Hw; lia].
    unfold Zlen. rewrite !length_app. cbn [length]. lia.
  - destruct (work_answer r s1 s2 s3 w w' He I H) as (Hl & ->). cbn. lia.
Qed.

Definition all_work (es : list HEvent) : Z := foldr (fun e n => work e + n) 0 es.

(** Requests are only added, and the number expected stays. *)
Definition more_calls w w' : Prop :=
  Zlen (hw_calls w) <= Zlen (hw_calls w') /\ hr_listener_num (hw_child w') = hr_listener_num (hw_child w).

Lemma step_calls e w w' : step e w = Some w' -> more_calls w w'.
Proof.
  intros H. unfold more_calls. destruct e as [a fd|r ok|a ok|r s1 s2 s3|]; cbn [hw_step] in H.
  - by injection H as <-.
  - unfold parent_turn in H. destruct (hw_loop w); try done.
    destruct (receive big_endian r (hw_to_parent w)) as [[m tp]|]; [|done]. cbn [mbind option_bind] in H. by repeat case_match; injection H as <-.
  - unfold dup_request in H. repeat case_match; try done; injection H as <-; try done. cbn. rewrite Zlen_app. pose proof (Zlen_nonneg [a]). split; [lia|done].
  - unfold dup_answer in H. destruct (hw_waiting w) as [a|]; [|done].
    destruct (receive big_endian r (hw_to_child w)) as [[m tp]|]; [|done]. cbn [mbind option_bind] in H. unfold dup_received in H.
    by repeat case_match; injection H as <-.
  - unfold dup_cancelled in H. destruct (hw_waiting w); [|done]. by injection H as <-.
Qed.

Lemma run_calls es w w' : run es w = Some w' -> more_calls w w'.
Proof.
  revert w. induction es as [|e es IH]; cbn [hw_run]; intros w H; [injection H as <-; by split|].
  destruct (step e w) as [w1|] eqn:Hst; [|done]. destruct (step_calls e w w1 Hst), (IH w1 H). split; [lia|congruence].
Qed.

Lemma live_run es w w' :
  Forall (untroubled parent) es -> live parent w -> run es w = Some w' ->
  Zlen (hw_calls w') <= hr_listener_num (hw_child w') < 2 ^ 31 ->
  live parent w' /\ left_over w' + all_work es = left_over w + 2 * (Zlen (hw_calls w') - Zlen (hw_calls w)).
Proof.
  intros Hes. revert w. induction Hes as [|e es He Hes IH]; cbn [hw_run]; intros w L H Hn.
  { injection H as <-. cbn. split; [done|lia]. }
  destruct (step e w) as [w1|] eqn:Hst; [|done]. cbn [mbind option_bind] in H.
  destruct (step_calls e w w1 Hst) as [M1 M2], (run_calls es w1 w' H) as [M3 M4].
  destruct (IH w1) as (L' & W'); [apply (live_step e w w1 He); [lia|done..]|done..|].
  pose proof (work_step e w w1 He L Hst) as W. split; [done|]. cbn [all_work foldr]. fold (all_work es). lia.
Qed.

(** No call waits and the old process has nothing to read. *)
Definition settled w : Prop := hw_waiting w = None /\ hw_to_parent w = [].

Lemma live_goes_on w :
  live parent w -> settled w \/
  exists e w', (e = HParent RDatagram true \/ e = HAnswer RDatagram true true true) /\ step e w = Some w'.
Proof.
  intros [I K R P]. destruct (hw_to_parent w) as [|dg tp] eqn:Hq.
  - destruct (hw_waiting w) as [a|] eqn:Hw; [right|left; by split]. destruct P as [A|[]]; [|congruence].
    pose proof (ak_calls parent w A) as Hc. pose proof (hi_calls w I) as Hi. pose proof (hi_given_up w I) as Hg.
    unfold waits in Hi. rewrite Hw in Hi. rewrite Hq in Hc. change (Zlen (@nil Datagram)) with 0 in Hc.
    destruct (hw_to_child w) as [|dg tc] eqn:Ht; [change (Zlen (@nil Datagram)) with 0 in Hc; lia|].
    exists (HAnswer RDatagram true true true). eexists. split; [by right|]. cbn [hw_step]. unfold dup_answer. rewrite Hw, Ht. done.
  - right. exists (HParent RDatagram true). cbn [hw_step]. unfold parent_turn.
    assert (hw_loop w = PRunning) as -> by (destruct P as [[]|[_ _ _ [[? _]|[_ ?]]]]; [done|done|congruence]).
    rewrite Hq. eexists. split; [by left|done].
Qed.

(** When nothing is left to do and every listener was asked for. *)
Lemma live_settled w :
  live parent w -> settled w -> Zlen (hw_calls w) = hr_listener_num (hw_child w) ->
  if decide (hw_given_up w = 0) then complete w /\ hw_loop w = PTerminated /\ (hw_received w).*1 = hw_calls w
  else asking parent w.
Proof.
  intros [I K R P] [Hw Hq] Hn. pose proof (hi_calls w I) as Hc. unfold waits in Hc. rewrite Hw in Hc. destruct (decide _) as [Hg|Hg].
  - destruct P as [A|C]; [pose proof (ak_received parent w A); lia|]. split; [done|].
    destruct (complete_aligned w I (cp_replaced w C)) as (_ & _ & Hr); [lia|]. split; [|done].
    destruct (cp_told w C) as [[_ ?]|[? _]]; congruence.
  - destruct P as [A|C]; [done|]. destruct (complete_aligned w I (cp_replaced w C)) as (? & _); [lia|done].
Qed.
End Live.

(** C20: A handover completes exactly when no receive comes too early. Take any
    interleaving in which the system calls succeed and the new process asks
    for addresses the old one listens on, which fit the buffer, and for no
    more than it expects. Then at most two steps for each request and one more
    do work; until no call waits and the old process has read everything, one
    can be taken; and when that is so and all was asked for, either no call
    found its socket empty, and then each received the listener of its
    address, the old process is terminated, and the new one took its place and
    begins to bind the old one's socket; or a call did, and then the old
    process still runs and the new one still counts as its child. *)
Theorem handover_completes parent child es w :
  hr_state child = ChildInitialized -> hr_dup_listener_num child = 0 -> 0 < hr_listener_num child < 2 ^ 31 ->
  Forall (untroubled parent) es -> run es (hw_start parent child) = Some w -> Zlen (hw_calls w) <= hr_listener_num child ->
  all_work es <= 2 * Zlen (hw_calls w) + 1 /\
  (settled w \/ exists e w', (e = HParent RDatagram true \/ e = HAnswer RDatagram true true true) /\ step e w = Some w') /\
  (settled w -> Zlen (hw_calls w) = hr_listener_num child ->
     if decide (hw_given_up w = 0)
     then hw_loop w = PTerminated /\ hr_state (hw_child w) = ParentInitialized /\ hw_rebinding w = true /\
       (hw_received w).*1 = hw_calls w /\ forall p, p ∈ hw_received w -> p ∈ hw_registered w /\ (p.1, DupFd p.2) ∈ hw_results w
     else hw_loop w = PRunning /\ hr_state (hw_child w) = ChildInitialized).
Proof.
  intros Hs Hd Hn Hes H Hc. destruct (run_calls es _ w H) as [_ M]. cbn in M.
  destruct (live_run parent es (hw_start parent child) w Hes (live_start parent child Hs Hd ltac:(lia)) H) as [L W]; [lia|].
  split_and!.
  - pose proof (left_over_nonneg w). unfold left_over at 2, waits, child_side in W. cbn in W. rewrite decide_True in W by done.
    change (Zlen (@nil Datagram)) with 0 in W. change (Zlen (@nil bytes)) with 0 in W. lia.
  - by apply (live_goes_on parent).
  - intros Hset Hall. pose proof (live_settled parent w L Hset ltac:(lia)) as F. destruct (decide _) as [Hg|_].
    + destruct F as (C & Ht & Hr). split_and!; [done|apply (cp_replaced w C)|apply (cp_rebinding w C)|done|].
      intros p Hp. split; [|by apply (lv_results parent w L)]. by apply (hi_aligned w (lv_inv parent w L) Hg).
    + split; [apply (ak_loop parent w F)|apply (ak_state parent w F)].
Qed.

(** ** What can go wrong *)

(** The call is neither dropped nor given a receive that finds nothing. *)
Definition patient (e : HEvent) : Prop :=
  match e with HCancel | HAnswer RWouldBlock _ _ _ | HAnswer RFailed _ _ _ => False | _ => True end.

(** A call that waits with nothing on its way waits, with the lock held. *)
Lemma stuck_step e w w' addr :
  patient e -> hw_waiting w = Some addr -> hw_to_parent w = [] -> hw_to_child w = [] -> step e w = Some w' ->
  hw_waiting w' = Some addr /\ hw_to_parent w' = [] /\ hw_to_child w' = [] /\ hw_results w' = hw_results w.
Proof.
  intros He H1 H2 H3. destruct e as [a fd|r ok|a ok|r sent shut removed|]; cbn; try done.
  - intros [= <-]. done.
  - unfold parent_turn. rewrite H2. destruct (hw_loop w), r; cbn; try done; by intros [= <-].
  - unfold dup_request. by rewrite H1.
  - unfold dup_answer. rewrite H1, H3. by destruct r.
Qed.

Lemma stuck_run es w w' addr :
  Forall patient es -> hw_waiting w = Some addr -> hw_to_parent w = [] -> hw_to_child w = [] -> run es w = Some w' ->
  hw_waiting w' = Some addr /\ hw_results w' = hw_results w.
Proof.
  intros Hs. revert w. induction Hs as [|e es He Hs IH]; cbn; intros w H1 H2 H3; [by intros [= <-]|].
  destruct (step e w) as [w1|] eqn:Hst; [|done]. cbn. intros H.
  apply (stuck_step e w w1 addr) in Hst as (K1 & K2 & K3 & <-); try done. by apply IH.
Qed.

Lemma unknown_one a w :
  hw_waiting w = None -> hw_to_parent w = [] -> hw_to_child w = [] -> hw_loop w = PRunning ->
  hr_state (hw_child w) = ChildInitialized -> Zlen a <= 1019 -> hr_listener_fds (hw_parent w) !! a = None ->
  exists w', run [HDup a true; HParent RDatagram true] w = Some w' /\ hw_waiting w' = Some a /\ hw_to_parent w' = [] /\ hw_to_child w' = [] /\
    hw_results w' = hw_results w.
Proof.
  intros H1 H2 H3 H4 H5 H6 H7. cbn [hw_run hw_step]. unfold dup_request. rewrite H1, H5, bool_decide_eq_true_2 by done.
  cbn [negb mbind option_bind]. unfold parent_turn. cbn [asked set_child hw_loop hw_to_parent hw_parent]. rewrite H2, H4.
  cbn [app receive mbind option_bind]. rewrite recv_sent by done. rewrite H7. by eexists.
Qed.

(** An address the old process does not know blocks the new one: the old process
    does not answer, the call waits, holding the lock on the state, and
    whatever either process does later (also when the address is registered
    then) neither this call nor any other ends, until the call is dropped or
    a receive finds nothing or fails. *)
Theorem unknown_address_blocks parent child addr es w :
  hr_state child = ChildInitialized -> hr_listener_fds parent !! addr = None -> Zlen addr <= 1019 -> Forall patient es ->
  run ([HDup addr true; HParent RDatagram true] ++ es) (hw_start parent child) = Some w ->
  hw_waiting w = Some addr /\ hw_results w = [].
Proof.
  intros Hs Hn Ha Hes. rewrite run_app.
  destruct (unknown_one addr (hw_start parent child)) as (w1 & -> & H1 & H2 & H3 & H4); [done..|].
  cbn [mbind option_bind]. intros H. apply (stuck_run es w1 w addr) in H as [? H]; try done. by rewrite H, H4.
Qed.
End Spec.

(** ** Concrete handovers *)

Module HandoverExample.
Definition a : bytes := str "127.0.0.1:80".
Definition b : bytes := str "127.0.0.1:81".
Definition old : HotRestart := register_listener_fd b 4 (register_listener_fd a 3 hr_new).
Definition new (n : Z) : HotRestart := (initialize (mkInitOs true true true true true true true true true) n hr_new).1.

Lemma hot_restart_message_roundtrip_witness :
  exists dg, send_msg true MPassFdRequest (PassFdRequest a) = Done dg /\ recv_msg true dg = Done (PassFdRequest a).
Proof. apply (proj1 (hot_restart_message_roundtrip true (PassFdRequest a) MPassFdRequest)). by vm_compute. Defined.

Lemma handover_is_safe_witness :
  exists w, hw_run false (handover [a; b]) (hw_start old (new 2)) = Some w /\
    (hw_received w).*1 = hw_calls w.
Proof.
  destruct (some_test_ok (fun w => hw_loop w = PTerminated /\ hw_calls w = [a; b] /\ hr_listener_num (hw_child w) = 2)
    (hw_run false (handover [a; b]) (hw_start old (new 2)))) as (w & E & Ht & Hc & Hn); [vm_compute; by split_and!|].
  exists w. split; [done|].
  destruct (handover_is_safe false old (new 2) (handover [a; b]) w) as [_ H]; [done| |exact E|].
  - by repeat constructor.
  - apply (H Ht). rewrite Hc, Hn. by vm_compute.
Defined.

Definition early : list HEvent :=
  [HDup a true; HParent RDatagram true; HAnswer RDatagram true true true; HDup b true; HAnswer RWouldBlock true true true; HParent RDatagram true].

(** One handover completes, one with an early receive does not. *)
Lemma handover_completes_witness :
  (exists w, hw_run true (handover [a; b]) (hw_start old (new 2)) = Some w /\ hw_loop w = PTerminated) /\
  (exists w, hw_run true early (hw_start old (new 2)) = Some w /\ hw_loop w = PRunning).
Proof.
  assert (forall es, Forall (untroubled old) es -> forall w, hw_run true es (hw_start old (new 2)) = Some w ->
    hw_calls w = [a; b] /\ hw_waiting w = None /\ hw_to_parent w = [] ->
    if decide (hw_given_up w = 0) then hw_loop w = PTerminated else hw_loop w = PRunning) as Hrun.
  { intros es Hes w E (Hc & Hw & Hp).
    destruct (handover_completes true old (new 2) es w) as (_ & _ & H); [done|done|done|done|exact E|by rewrite Hc|].
    specialize (H (conj Hw Hp) ltac:(by rewrite Hc)). destruct (decide _); apply H. }
  assert (untroubled old (HDup a true) /\ untroubled old (HDup b true)) as [Ha Hb]
    by (split; (split; [by vm_compute|]); [by exists 3|by exists 4]).
  split.
  - destruct (some_test_ok (fun w => (hw_calls w = [a; b] /\ hw_waiting w = None /\ hw_to_parent w = []) /\ hw_given_up w = 0)
      (hw_run true (handover [a; b]) (hw_start old (new 2)))) as (w & E & H & Hg); [vm_compute; by split_and!|].
    exists w. split; [done|]. specialize (Hrun (handover [a; b]) ltac:(by repeat constructor) w E H). by rewrite decide_True in Hrun.
  - destruct (some_test_ok (fun w => (hw_calls w = [a; b] /\ hw_waiting w = None /\ hw_to_parent w = []) /\ hw_given_up w = 1)
      (hw_run true early (hw_start old (new 2)))) as (w & E & H & Hg); [vm_compute; by split_and!|].
    exists w. split; [done|]. specialize (Hrun early ltac:(by repeat constructor) w E H). by rewrite decide_False in Hrun by lia.
Defined.

Lemma unknown_address_blocks_witness :
  exists w, hw_run true ([HDup (str "x") true; HParent RDatagram true] ++ [HRegister (str "x") 5]) (hw_start old (new 2)) = Some w /\
    hw_waiting w = Some (str "x") /\ hw_results w = [].
Proof.
  destruct (some_of_test (hw_run true ([HDup (str "x") true; HParent RDatagram true] ++ [HRegister (str "x") 5]) (hw_start old (new 2)))
    ltac:(vm_compute; reflexivity)) as [w E].
  exists w. split; [done|].
  apply (unknown_address_blocks true old (new 2) (str "x") [HRegister (str "x") 5] w); try done. by repeat constructor.
Defined.

(** A dropped call leaves its answer: the next one gets the wrong listener. *)
Lemma dropped_call_misleads :
  exists w, hw_run true [HDup a true; HCancel; HDup b true; HParent RDatagram true; HParent RDatagram true; HAnswer RDatagram true true true]
      (hw_start old (new 2)) = Some w /\ hw_results w = [(b, DupFd 3)].
Proof. apply (some_test_ok (fun w => hw_results w = _)). vm_compute. reflexivity. Qed.

(** So does a call that receives too early: here the third call is given the second
    one's listener. *)
Lemma early_receive_misleads :
  exists w, hw_run true (early ++ [HDup a true; HAnswer RDatagram true true true]) (hw_start old (new 3)) = Some w /\
    hw_results w = [(a, DupFd 3); (b, DupErr); (a, DupFd 4)].
Proof. apply (some_test_ok (fun w => hw_results w = _)). vm_compute. reflexivity. Qed.

(** Asking twice for one address counts as two listeners. *)
Lemma same_address_counts_twice :
  exists w, hw_run true (handover [a; a]) (hw_start old (new 2)) = Some w /\ hw_loop w = PTerminated /\
    hw_results w = [(a, DupFd 3); (a, DupFd 3)].
Proof. apply (some_test_ok (fun w => hw_loop w = _ /\ hw_results w = _)). vm_compute. by split. Qed.
End HandoverExample.
