(* ===== verification/GrpcStatus.v ===== *)
(** gRPC status codes and statuses (volo-grpc/src/status.rs), and the header
    names of a metadata map they involve (volo-grpc/src/metadata/map.rs).

    [http::HeaderMap], the percent-encoding crate and the base64 engine are
    parameters with their documented laws. The [source] of a status, an error
    kept for display, is left out. *)

From S2P Require Import Prelude Utf8 Headers.

(** * Code *)

Inductive Code : Type :=
| Ok | Cancelled | Unknown | InvalidArgument | DeadlineExceeded | NotFound | AlreadyExists
| PermissionDenied | ResourceExhausted | FailedPrecondition | Aborted | OutOfRange
| Unimplemented | Internal | Unavailable | DataLoss | Unauthenticated.

#[export] Instance code_eq_dec : EqDecision Code.
Proof. solve_decision. Defined.

Module Code.
Definition to_i32 (c : Code) : Z :=
  match c with
  | Ok => 0 | Cancelled => 1 | Unknown => 2 | InvalidArgument => 3 | DeadlineExceeded => 4
  | NotFound => 5 | AlreadyExists => 6 | PermissionDenied => 7 | ResourceExhausted => 8
  | FailedPrecondition => 9 | Aborted => 10 | OutOfRange => 11 | Unimplemented => 12
  | Internal => 13 | Unavailable => 14 | DataLoss => 15 | Unauthenticated => 16
  end.

Definition from_i32 (i : Z) : Code :=
  match i with
  | 0 => Ok | 1 => Cancelled | 2 => Unknown | 3 => InvalidArgument | 4 => DeadlineExceeded
  | 5 => NotFound | 6 => AlreadyExists | 7 => PermissionDenied | 8 => ResourceExhausted
  | 9 => FailedPrecondition | 10 => Aborted | 11 => OutOfRange | 12 => Unimplemented
  | 13 => Internal | 14 => Unavailable | 15 => DataLoss | 16 => Unauthenticated
  | _ => Unknown
  end.

(** A match on the first byte, then on the second. *)
Definition from_bytes (bs : bytes) : Code :=
  match bs with
  | ["0"%byte] => Ok
  | ["1"%byte] => Cancelled
  | ["2"%byte] => Unknown
  | ["3"%byte] => InvalidArgument
  | ["4"%byte] => DeadlineExceeded
  | ["5"%byte] => NotFound
  | ["6"%byte] => AlreadyExists
  | ["7"%byte] => PermissionDenied
  | ["8"%byte] => ResourceExhausted
  | ["9"%byte] => FailedPrecondition
  | ["1"%byte; "0"%byte] => Aborted
  | ["1"%byte; "1"%byte] => OutOfRange
  | ["1"%byte; "2"%byte] => Unimplemented
  | ["1"%byte; "3"%byte] => Internal
  | ["1"%byte; "4"%byte] => Unavailable
  | ["1"%byte; "5"%byte] => DataLoss
  | ["1"%byte; "6"%byte] => Unauthenticated
  | _ => Unknown
  end.

Definition to_header_value (c : Code) : bytes :=
  match c with
  | Ok => str "0" | Cancelled => str "1" | Unknown => str "2" | InvalidArgument => str "3"
  | DeadlineExceeded => str "4" | NotFound => str "5" | AlreadyExists => str "6"
  | PermissionDenied => str "7" | ResourceExhausted => str "8" | FailedPrecondition => str "9"
  | Aborted => str "10" | OutOfRange => str "11" | Unimplemented => str "12"
  | Internal => str "13" | Unavailable => str "14" | DataLoss => str "15"
  | Unauthenticated => str "16"
  end.
End Code.

(** The code in a [grpc-status] header is read back, as decimal number and as
    text. *)
Lemma code_roundtrip c :
  Code.from_bytes (Code.to_header_value c) = c /\ Code.from_i32 (Code.to_i32 c) = c /\
  Code.to_header_value c = dec_of_Z (Code.to_i32 c).
Proof. by destruct c. Qed.

(** * Headers *)

Definition GRPC_STATUS_HEADER_CODE : bytes := str "grpc-status".
Definition GRPC_STATUS_MESSAGE_HEADER : bytes := str "grpc-message".
Definition GRPC_STATUS_DETAILS_HEADER : bytes := str "grpc-status-details-bin".

(** [MetadataMap::GRPC_RESERVED_HEADERS]. *)
Definition GRPC_RESERVED_HEADERS : list bytes :=
  [str "te"; str "user-agent"; str "content-type"; str "grpc-message"; str "grpc-message-type"; str "grpc-status"].

(** [MetadataMap::into_sanitized_headers]. *)
Definition into_sanitized_headers {H} `{HeaderMap H} (h : H) : H :=
  foldl (fun h r => hm_remove r h) h GRPC_RESERVED_HEADERS.

(** * Text *)

(** [ENCODING_SET]: the control bytes and the listed ones. *)
Definition ENCODING_SET (b : byte) : bool :=
  let z := Z_of_byte b in
  (z <? 32) || (z =? 127) ||
  bool_decide (b ∈ [" "%byte; x22; "#"%byte; "<"%byte; ">"%byte; "`"%byte; "?"%byte; "{"%byte; "}"%byte]).

(** [HeaderValue::from_maybe_shared]: bytes from 32 on except 127, and tab. *)
Definition header_byte (b : byte) : bool :=
  let z := Z_of_byte b in (32 <=? z) && negb (z =? 127) || (z =? 9).

Definition header_value (bs : bytes) : option bytes :=
  if forallb header_byte bs then Some bs else None.

(** The value of a hexadecimal digit. *)
Definition hex_value (b : byte) : option Z :=
  let z := Z_of_byte b in
  if (48 <=? z) && (z <=? 57) then Some (z - 48)
  else if (65 <=? z) && (z <=? 70) then Some (z - 55)
  else if (97 <=? z) && (z <=? 102) then Some (z - 87)
  else None.

Definition hex_digit (d : Z) : byte := byte_of_Z (if d <? 10 then 48 + d else 55 + d).

Definition percent : byte := "%"%byte.

(** The percent-encoding crate. *)
Class PercentEncoding : Type := {
  percent_encode : (byte -> bool) -> bytes -> bytes;
  percent_decode : bytes -> bytes
}.

(** Its documented behaviour: a byte of the set and every non-ASCII byte is
    written as a percent sign and two upper-case hexadecimal digits, and every
    such sequence is read back; other bytes stand for themselves. *)
Class PercentEncodingLaws `{PercentEncoding} : Prop := {
  percent_encode_nil set : percent_encode set [] = [];
  percent_encode_cons set b bs : percent_encode set (b :: bs) =
    (if set b || (128 <=? Z_of_byte b)
     then [percent; hex_digit (Z_of_byte b / 16); hex_digit (Z_of_byte b mod 16)] else [b]) ++
    percent_encode set bs;
  percent_decode_nil : percent_decode [] = [];
  percent_decode_hex h l x y bs : hex_value h = Some x -> hex_value l = Some y ->
    percent_decode (percent :: h :: l :: bs) = byte_of_Z (16 * x + y) :: percent_decode bs;
  percent_decode_other b bs :
    b <> percent \/ match bs with h :: l :: _ => hex_value h = None \/ hex_value l = None | _ => True end ->
    percent_decode (b :: bs) = b :: percent_decode bs
}.

(** The base64 engine. *)
Class Base64 : Type := {
  base64_encode : bytes -> bytes;
  base64_decode : bytes -> option bytes
}.

Class Base64Laws `{Base64} : Prop := {
  base64_decode_encode bs : base64_decode (base64_encode bs) = Some bs;
  base64_text bs : forallb header_byte (base64_encode bs) = true
}.

(** * Status *)

Record Status (H : Type) : Type := mkStatus {
  st_code : Code;
  st_message : bytes;
  st_details : bytes;
  st_metadata : H
}.
Arguments mkStatus {H} st_code st_message st_details st_metadata.
Arguments st_code {H} s.
Arguments st_message {H} s.
Arguments st_details {H} s.
Arguments st_metadata {H} s.

Module Status.
Section Status.
Context {H : Type} `{HeaderMap H} `{PercentEncoding} `{Base64}.

Definition new (code : Code) (message : bytes) : Status H := mkStatus code message [] hm_empty.

(** [Retryable]. *)
Definition retryable (s : Status H) : bool :=
  bool_decide (st_code s ∈ [Internal; Unavailable; Cancelled; ResourceExhausted]).

(** [Status::from_header_map]; the text of a decoding error is left out of the
    message. *)
Definition from_header_map {E} (header_map : H) : outcome E (option (Status H)) :=
  match hm_get GRPC_STATUS_HEADER_CODE header_map with
  | None => Done None
  | Some code =>
      let code := Code.from_bytes code in
      let error_message :=
        match hm_get GRPC_STATUS_MESSAGE_HEADER header_map with
        | Some header => let text := percent_decode header in if is_utf8 text then Some text else None
        | None => Some []
        end in
      details ← match hm_get GRPC_STATUS_DETAILS_HEADER header_map with
                | Some h => unwrap (base64_decode h)
                | None => Done []
                end;
      let other_headers := hm_remove GRPC_STATUS_DETAILS_HEADER
        (hm_remove GRPC_STATUS_MESSAGE_HEADER (hm_remove GRPC_STATUS_HEADER_CODE header_map)) in
      match error_message with
      | Some message => Done (Some (mkStatus code message details other_headers))
      | None => Done (Some (mkStatus Unknown (str "Error deserializing status message header")
                              details other_headers))
      end
  end.

(** [invalid_header_value_byte]. *)
Definition invalid_header_value_byte : Status H :=
  new Internal (str "Couldn't serialize non-text grpc status header").

(** [Status::add_header]. *)
Definition add_header (self : Status H) (header_map : H) : outcome (Status H) H :=
  let header_map := hm_extend (into_sanitized_headers (st_metadata self)) header_map in
  let header_map := hm_insert GRPC_STATUS_HEADER_CODE (Code.to_header_value (st_code self)) header_map in
  header_map ←
    (if bool_decide (st_message self = []) then Done header_map
     else
       match header_value (percent_encode ENCODING_SET (st_message self)) with
       | Some v => Done (hm_insert GRPC_STATUS_MESSAGE_HEADER v header_map)
       | None => Fail invalid_header_value_byte
       end);
  if bool_decide (st_details self = []) then Done header_map
  else
    match header_value (base64_encode (st_details self)) with
    | Some v => Done (hm_insert GRPC_STATUS_DETAILS_HEADER v header_map)
    | None => Fail invalid_header_value_byte
    end.

(** [Status::to_header_map]. *)
Definition to_header_map (self : Status H) : outcome (Status H) H := add_header self hm_empty.

(** [Status::to_http]: the headers of the response. *)
Definition to_http (self : Status H) : outcome (Status H) H :=
  match add_header self (hm_insert (str "content-type") (str "application/grpc") hm_empty) with
  | Fail _ => Panic
  | m => m
  end.

(** The code a missing status is mapped to from the HTTP status; [None] for 200. *)
Definition code_of_http (status_code : Z) : option Code :=
  match status_code with
  | 400 => Some Internal
  | 401 => Some Unauthenticated
  | 403 => Some PermissionDenied
  | 404 => Some Unimplemented
  | 429 | 502 | 503 | 504 => Some Unavailable
  | 200 => None
  | _ => Some Unknown
  end.

(** [Status::infer_grpc_status]. *)
Definition infer_grpc_status (trailers : option H) (status_code : Z)
  : outcome (option (Status H)) unit :=
  st ← match trailers with Some trailers => from_header_map trailers | None => Done None end;
  match st with
  | Some status => if bool_decide (st_code status = Ok) then Done tt else Fail (Some status)
  | None =>
      match code_of_http status_code with
      | None => Fail None
      | Some code =>
          Fail (Some (new code (str "grpc-status header missing, mapped from HTTP status code " ++
                                dec_of_Z status_code)))
      end
  end.
End Status.
End Status.

(** * What a peer reads back *)

(** A percent sign followed by two hexadecimal digits. *)
Fixpoint has_escape (bs : bytes) : bool :=
  match bs with
  | [] => false
  | b :: rest =>
      match rest with
      | h :: l :: _ =>
          bool_decide (b = percent) && bool_decide (is_Some (hex_value h)) && bool_decide (is_Some (hex_value l))
      | _ => false
      end || has_escape rest
  end.

Lemma hex_value_digit d : 0 <= d < 16 -> hex_value (hex_digit d) = Some d.
Proof.
  intros Hd. assert (d = 0 \/ d = 1 \/ d = 2 \/ d = 3 \/ d = 4 \/ d = 5 \/ d = 6 \/ d = 7 \/ d = 8 \/ d = 9 \/
    d = 10 \/ d = 11 \/ d = 12 \/ d = 13 \/ d = 14 \/ d = 15) as Hc by lia.
  by repeat destruct Hc as [->|Hc]; [..|subst].
Qed.

Lemma hex_digit_header d : 0 <= d < 16 -> header_byte (hex_digit d) = true.
Proof.
  intros Hd. unfold header_byte, hex_digit. rewrite Z_of_byte_of_Z.
  destruct (d <? 10) eqn:E; apply Z.ltb_lt in E || apply Z.ltb_ge in E; rewrite Z.mod_small by lia; lia.
Qed.

Lemma nibbles b : 0 <= Z_of_byte b / 16 < 16 /\ 0 <= Z_of_byte b mod 16 < 16.
Proof. pose proof (Z_of_byte_range b). split; [|apply Z.mod_pos_bound; lia]. split; [apply Z.div_pos; lia|]. apply Z.div_lt_upper_bound; lia. Qed.

Section Percent.
Context `{PercentEncodingLaws}.

Abbreviation enc := (percent_encode ENCODING_SET).

(** Whether [ENCODING_SET] rewrites the byte. *)
Definition escaped (b : byte) : bool := ENCODING_SET b || (128 <=? Z_of_byte b).

Lemma decode_escaped b bs :
  percent_decode (percent :: hex_digit (Z_of_byte b / 16) :: hex_digit (Z_of_byte b mod 16) :: bs) =
  b :: percent_decode bs.
Proof.
  destruct (nibbles b) as [Hh Hl]. erewrite percent_decode_hex by by apply hex_value_digit.
  by rewrite <- Z.div_mod, byte_of_Z_of_byte by lia.
Qed.

(** An encoded text starts with the byte itself or with a percent sign. *)
Lemma enc_head b bs : exists t, enc (b :: bs) = (if escaped b then percent else b) :: t /\
  (escaped b = false -> t = enc bs).
Proof. rewrite percent_encode_cons. unfold escaped. destruct (_ || _); eexists; by split. Qed.

Lemma percent_decode_encode bs : has_escape bs = false -> percent_decode (enc bs) = bs.
Proof.
  induction bs as [|b bs IH]; cbn [has_escape]; intros Hn.
  { by rewrite percent_encode_nil, percent_decode_nil. }
  apply orb_false_elim in Hn as [Hb Hn]. specialize (IH Hn). rewrite percent_encode_cons.
  destruct (ENCODING_SET b || (128 <=? Z_of_byte b)) eqn:Ee; cbn [app]; [by rewrite decode_escaped, IH|].
  rewrite percent_decode_other; [by rewrite IH|].
  destruct (decide (b = percent)) as [->|Hb']; [right|by left].
  destruct bs as [|h bs]; [by rewrite percent_encode_nil|].
  destruct (enc_head h bs) as (t & -> & Ht). destruct (escaped h) eqn:Eh; [destruct t; auto|].
  rewrite (Ht eq_refl). destruct bs as [|l bs]; [by rewrite percent_encode_nil|].
  destruct (enc_head l bs) as (t' & -> & _). destruct (escaped l); [auto|].
  destruct (hex_value h), (hex_value l); auto; vm_compute in Hb; discriminate.
Qed.

(** A hexadecimal digit is not rewritten. *)
Lemma hex_not_escaped h x : hex_value h = Some x -> escaped h = false.
Proof. by destruct h. Qed.

(** Decoding what was encoded never makes a text longer, and makes it shorter
    when it had something like an escape. *)
Lemma decode_encode_shorter n bs : (length bs <= n)%nat ->
  (length (percent_decode (enc bs)) <= length bs)%nat /\
  (has_escape bs = true -> (length (percent_decode (enc bs)) < length bs)%nat).
Proof.
  revert bs. induction n as [|n IH]; intros [|b bs] Hl; cbn [length] in Hl; try lia.
  1, 2: rewrite percent_encode_nil, percent_decode_nil; by split.
  destruct (IH bs ltac:(lia)) as [I1 I2]. cbn [length].
  assert (percent_decode (enc (b :: bs)) = b :: percent_decode (enc bs) ->
    has_escape (b :: bs) = has_escape bs ->
    (length (percent_decode (enc (b :: bs))) <= S (length bs))%nat /\
    (has_escape (b :: bs) = true -> (length (percent_decode (enc (b :: bs))) < S (length bs))%nat)) as Hstep.
  { intros -> ->. cbn [length]. split; [lia|]. intros Hh. specialize (I2 Hh). lia. }
  destruct (decide (b = percent)) as [->|Hb].
  2: { apply Hstep.
    - rewrite percent_encode_cons. destruct (_ || _); cbn [app]; [apply decode_escaped|].
      apply percent_decode_other. by left.
    - cbn [has_escape]. rewrite (bool_decide_eq_false_2 (b = percent)) by done. by destruct bs as [|? [|? ?]]. }
  rewrite percent_encode_cons in *. change (ENCODING_SET percent || (128 <=? Z_of_byte percent)) with false in *.
  cbn [app] in *.
  destruct bs as [|h bs]; [apply Hstep; [by rewrite percent_encode_nil, percent_decode_other by auto|done]|].
  destruct bs as [|l bs].
  { apply Hstep; [|done]. apply percent_decode_other. right.
    destruct (enc_head h []) as (t & -> & Ht). destruct (escaped h); [destruct t; auto|].
    by rewrite (Ht eq_refl), percent_encode_nil. }
  destruct (hex_value h) as [x|] eqn:Eh; [destruct (hex_value l) as [y|] eqn:El|].
  - pose proof (hex_not_escaped _ _ Eh) as Nh. pose proof (hex_not_escaped _ _ El) as Nl.
    destruct (enc_head h (l :: bs)) as (t & Et & Ht). rewrite Nh in Et. rewrite (Ht Nh) in Et.
    destruct (enc_head l bs) as (t' & Et' & Ht'). rewrite Nl in Et'. rewrite (Ht' Nl) in Et'.
    rewrite Et, Et', (percent_decode_hex h l x y) by done.
    destruct (IH bs) as [I3 _]; [cbn [length] in Hl; lia|]. cbn [length]. split; intros; lia.
  - apply Hstep; [|cbn [has_escape]; rewrite Eh, El; by rewrite andb_false_r].
    apply percent_decode_other. right. destruct (enc_head h (l :: bs)) as (t & -> & Ht).
    destruct (escaped h); [destruct t; auto|]. rewrite (Ht eq_refl).
    destruct (enc_head l bs) as (t' & -> & _). destruct (escaped l); auto.
  - apply Hstep; [|cbn [has_escape]; rewrite Eh; by rewrite andb_false_r].
    apply percent_decode_other. right. destruct (enc_head h (l :: bs)) as (t & -> & _).
    destruct (escaped h), t; auto.
Qed.

Lemma percent_encode_header bs : forallb header_byte (enc bs) = true.
Proof.
  induction bs as [|b bs IH]; [by rewrite percent_encode_nil|]. rewrite percent_encode_cons, forallb_app, IH, andb_true_r.
  destruct (ENCODING_SET b || (128 <=? Z_of_byte b)) eqn:Ee; cbn [forallb].
  - destruct (nibbles b) as [Hh Hl]. by rewrite !hex_digit_header.
  - apply orb_false_elim in Ee as [Es _]. unfold ENCODING_SET in Es. unfold header_byte.
    apply orb_false_elim in Es as [[E1 E2]%orb_false_elim _]. rewrite E2.
    apply Z.ltb_ge in E1. rewrite (proj2 (Z.leb_le 32 _)) by lia. done.
Qed.
End Percent.

Section Headers.
Context {H : Type} `{HeaderMapLaws H} `{PercentEncodingLaws} `{Base64Laws}.

Lemma get_remove_all k l (h : H) :
  hm_get k (foldl (fun h r => hm_remove r h) h l) = if bool_decide (k ∈ l) then None else hm_get k h.
Proof.
  revert h. induction l as [|r l IH]; intros h; [done|]. cbn [foldl]. rewrite IH, get_remove.
  destruct (decide (k = r)) as [->|Hr].
  - rewrite (bool_decide_eq_true_2 (r = r)), (bool_decide_eq_true_2 (r ∈ r :: l)) by (done || left).
    by destruct (bool_decide _).
  - rewrite (bool_decide_eq_false_2 (k = r)) by done. erewrite bool_decide_ext; [done|].
    rewrite elem_of_cons. naive_solver.
Qed.

Lemma get_sanitized k (h : H) :
  hm_get k (into_sanitized_headers h) = if bool_decide (k ∈ GRPC_RESERVED_HEADERS) then None else hm_get k h.
Proof. apply get_remove_all. Qed.

(** The headers of a status. *)
Lemma to_header_map_spec (s : Status H) :
  exists h, Status.to_header_map s = Done h /\ forall k, hm_get k h =
    if bool_decide (k = GRPC_STATUS_DETAILS_HEADER) && negb (bool_decide (st_details s = []))
    then Some (base64_encode (st_details s))
    else if bool_decide (k = GRPC_STATUS_MESSAGE_HEADER) && negb (bool_decide (st_message s = []))
    then Some (percent_encode ENCODING_SET (st_message s))
    else if bool_decide (k = GRPC_STATUS_HEADER_CODE) then Some (Code.to_header_value (st_code s))
    else if bool_decide (k ∈ GRPC_RESERVED_HEADERS) then None else hm_get k (st_metadata s).
Proof.
  unfold Status.to_header_map, Status.add_header, header_value. rewrite percent_encode_header, base64_text.
  destruct (bool_decide (st_message s = [])) eqn:Em; destruct (bool_decide (st_details s = [])) eqn:Ed;
    eexists; (split; [reflexivity|]); intros k;
    rewrite ?get_insert, get_extend, get_sanitized, get_empty;
    repeat case_bool_decide; cbn [andb negb]; try congruence; by destruct (hm_get k (st_metadata s)).
Qed.

Lemma status_headers (s : Status H) h :
  Status.to_header_map s = Done h ->
  hm_get GRPC_STATUS_HEADER_CODE h = Some (Code.to_header_value (st_code s)) /\
  hm_get GRPC_STATUS_MESSAGE_HEADER h = (if bool_decide (st_message s = []) then None
    else Some (percent_encode ENCODING_SET (st_message s))) /\
  hm_get GRPC_STATUS_DETAILS_HEADER h = (if bool_decide (st_details s = [])
    then hm_get GRPC_STATUS_DETAILS_HEADER (st_metadata s) else Some (base64_encode (st_details s))).
Proof.
  intros Hh. destruct (to_header_map_spec s) as (h' & Hh' & Hget). rewrite Hh in Hh'. injection Hh' as <-.
  split_and!; rewrite Hget; [done|by destruct (bool_decide (st_message s = []))|].
  by destruct (bool_decide (st_details s = [])).
Qed.

(** A header map with the three headers of a status is read as that status. *)
Lemma status_read {E} (s : Status H) h :
  is_utf8 (st_message s) = true -> has_escape (st_message s) = false ->
  hm_get GRPC_STATUS_HEADER_CODE h = Some (Code.to_header_value (st_code s)) ->
  hm_get GRPC_STATUS_MESSAGE_HEADER h = (if bool_decide (st_message s = []) then None
    else Some (percent_encode ENCODING_SET (st_message s))) ->
  hm_get GRPC_STATUS_DETAILS_HEADER h = (if bool_decide (st_details s = []) then None else Some (base64_encode (st_details s))) ->
  Status.from_header_map (E := E) h = Done (Some (mkStatus (st_code s) (st_message s) (st_details s)
    (hm_remove GRPC_STATUS_DETAILS_HEADER
      (hm_remove GRPC_STATUS_MESSAGE_HEADER (hm_remove GRPC_STATUS_HEADER_CODE h))))).
Proof.
  intros Hu He G1 G2 G3. unfold Status.from_header_map. rewrite G1, G2, G3, (proj1 (code_roundtrip _)).
  assert (match (if bool_decide (st_details s = []) then None else Some (base64_encode (st_details s))) with
          | Some h => unwrap (E := E) (base64_decode h) | None => Done [] end = Done (st_details s)) as ->.
  { clear G2 G3. case_bool_decide as E1; [by rewrite E1|]. by rewrite base64_decode_encode. }
  cbn [mbind outcome_bind]. destruct (decide (st_message s = [])) as [E2|E2].
  - rewrite bool_decide_eq_true_2 by done. by rewrite E2.
  - rewrite bool_decide_eq_false_2 by done. by rewrite percent_decode_encode, Hu by done.
Qed.

(** [to_http] does not panic, and writes the three headers. *)
Lemma to_http_headers (s : Status H) :
  hm_get GRPC_STATUS_DETAILS_HEADER (st_metadata s) = None ->
  exists h, Status.to_http s = Done h /\
    hm_get GRPC_STATUS_HEADER_CODE h = Some (Code.to_header_value (st_code s)) /\
    hm_get GRPC_STATUS_MESSAGE_HEADER h = (if bool_decide (st_message s = []) then None
      else Some (percent_encode ENCODING_SET (st_message s))) /\
    hm_get GRPC_STATUS_DETAILS_HEADER h = (if bool_decide (st_details s = []) then None else Some (base64_encode (st_details s))).
Proof.
  intros Hd. unfold Status.to_http, Status.add_header, header_value. rewrite percent_encode_header, base64_text.
  destruct (bool_decide (st_message s = [])); destruct (bool_decide (st_details s = [])); cbn [mbind outcome_bind];
    eexists; (split; [reflexivity|]); rewrite ?get_insert, ?get_extend, ?get_sanitized, ?get_insert, ?get_empty, ?Hd;
    split_and!; reflexivity.
Qed.

(** C27: A status survives its headers: what [to_header_map] writes never fails, and
    [from_header_map] reads back the code, the message and the details, and the
    custom metadata except the reserved names, provided that the message has no
    percent sign followed by two hexadecimal digits and the metadata does not
    itself carry status details. *)
Theorem status_header_roundtrip {E} (s : Status H) :
  is_utf8 (st_message s) = true -> has_escape (st_message s) = false ->
  hm_get GRPC_STATUS_DETAILS_HEADER (st_metadata s) = None ->
  exists h s', Status.to_header_map s = Done h /\ Status.from_header_map (E := E) h = Done (Some s') /\
    st_code s' = st_code s /\ st_message s' = st_message s /\ st_details s' = st_details s /\
    forall k, k ∉ GRPC_RESERVED_HEADERS -> hm_get k (st_metadata s') = hm_get k (st_metadata s).
Proof.
  intros Hu He Hd. destruct (to_header_map_spec s) as (h & Hh & Hget).
  destruct (status_headers s h Hh) as (G1 & G2 & G3). rewrite Hd in G3.
  eexists h, (mkStatus (st_code s) (st_message s) (st_details s)
    (hm_remove GRPC_STATUS_DETAILS_HEADER
      (hm_remove GRPC_STATUS_MESSAGE_HEADER (hm_remove GRPC_STATUS_HEADER_CODE h)))). split_and!; try done.
  - by apply status_read.
  - intros k Hk. cbn [st_metadata]. rewrite !get_remove, Hget.
    rewrite (bool_decide_eq_false_2 (k ∈ _)) by done.
    destruct (decide (k = GRPC_STATUS_DETAILS_HEADER)) as [->|N1]; [by rewrite bool_decide_eq_true_2, Hd|].
    destruct (decide (k = GRPC_STATUS_MESSAGE_HEADER)) as [->|N2]; [by destruct Hk; do 3 right; left|].
    destruct (decide (k = GRPC_STATUS_HEADER_CODE)) as [->|N3]; [by destruct Hk; do 5 right; left|].
    by rewrite (bool_decide_eq_false_2 (k = GRPC_STATUS_DETAILS_HEADER)),
      (bool_decide_eq_false_2 (k = GRPC_STATUS_MESSAGE_HEADER)),
      (bool_decide_eq_false_2 (k = GRPC_STATUS_HEADER_CODE)) by done.
Qed.

(** A message that looks escaped is altered: [ENCODING_SET] leaves the percent
    sign alone, so that a message in which one is followed by two hexadecimal
    digits does not reach the peer. *)
Theorem status_percent_message_altered {E} (s s' : Status H) h :
  has_escape (st_message s) = true ->
  Status.to_header_map s = Done h -> Status.from_header_map (E := E) h = Done (Some s') ->
  st_message s' <> st_message s.
Proof.
  intros He Hh Hf. destruct (status_headers s h Hh) as (G1 & G2 & _).
  rewrite bool_decide_eq_false_2 in G2 by by intros E1; rewrite E1 in He.
  unfold Status.from_header_map in Hf. rewrite G1, G2 in Hf.
  apply bind_done_inv in Hf as (details & _ & Hf).
  pose proof (proj2 (decode_encode_shorter _ (st_message s) (le_n _)) He) as Hlt.
  destruct (is_utf8 _); injection Hf as <-; cbn [st_message]; intros Hm.
  - rewrite Hm in Hlt. lia.
  - by rewrite <- Hm in He.
Qed.
End Headers.
