(* ===== verification/GrpcErrors.v ===== *)
(** Errors as statuses (volo-grpc/src/status.rs): the constructors of [Status], the
    status an error of the transport or of a handler becomes, through its chain
    of sources, and the errors of HTTP/2 and of the system as codes. (Statuses
    in headers are in [GrpcStatus].)

    Errors of other crates are their kinds; what they print is a parameter. *)

From S2P Require Import Prelude Headers GrpcStatus.

(** [h2::Reason], as far as it is told apart. *)
Inductive H2Reason : Type :=
| NO_ERROR | PROTOCOL_ERROR | INTERNAL_ERROR | FLOW_CONTROL_ERROR | SETTINGS_TIMEOUT | STREAM_CLOSED | FRAME_SIZE_ERROR
| REFUSED_STREAM | CANCEL | COMPRESSION_ERROR | CONNECT_ERROR | ENHANCE_YOUR_CALM | INADEQUATE_SECURITY | HTTP_1_1_REQUIRED.

(** [std::io::ErrorKind], as far as it is told apart. *)
Inductive IoErrorKind : Type :=
| BrokenPipe | WouldBlock | WriteZero | Interrupted | ConnectionRefused | ConnectionReset | NotConnected | AddrInUse
| AddrNotAvailable | IoAlreadyExists | ConnectionAborted | InvalidData | InvalidInput | IoNotFound | IoPermissionDenied | TimedOut
| UnexpectedEof | OtherKind.

#[export] Instance io_error_kind_eq_dec : EqDecision IoErrorKind.
Proof. solve_decision. Defined.

(** [Status::code_from_h2], of an error with its reason if it has one. *)
Definition code_from_h2 (reason : option H2Reason) : Code :=
  match reason with
  | Some (NO_ERROR | PROTOCOL_ERROR | INTERNAL_ERROR | FLOW_CONTROL_ERROR | SETTINGS_TIMEOUT | COMPRESSION_ERROR | CONNECT_ERROR) => Internal
  | Some REFUSED_STREAM => Unavailable
  | Some CANCEL => Cancelled
  | Some ENHANCE_YOUR_CALM => ResourceExhausted
  | Some INADEQUATE_SECURITY => PermissionDenied
  | _ => Unknown
  end.

Section Errors.
Context {H : Type} {hmap : HeaderMap H}.

(** ** Constructors *)

Definition status_ok : bytes -> Status H := Status.new Ok.
Definition status_cancelled : bytes -> Status H := Status.new Cancelled.
Definition status_unknown : bytes -> Status H := Status.new Unknown.
Definition status_invalid_argument : bytes -> Status H := Status.new InvalidArgument.
Definition status_deadline_exceeded : bytes -> Status H := Status.new DeadlineExceeded.
Definition status_not_found : bytes -> Status H := Status.new NotFound.
Definition status_already_exists : bytes -> Status H := Status.new AlreadyExists.
Definition status_permission_denied : bytes -> Status H := Status.new PermissionDenied.
Definition status_resource_exhausted : bytes -> Status H := Status.new ResourceExhausted.
Definition status_failed_precondition : bytes -> Status H := Status.new FailedPrecondition.
Definition status_aborted : bytes -> Status H := Status.new Aborted.
Definition status_out_of_range : bytes -> Status H := Status.new OutOfRange.
Definition status_unimplemented : bytes -> Status H := Status.new Unimplemented.
Definition status_internal : bytes -> Status H := Status.new Internal.
Definition status_unavailable : bytes -> Status H := Status.new Unavailable.
Definition status_data_loss : bytes -> Status H := Status.new DataLoss.
Definition status_unauthenticated : bytes -> Status H := Status.new Unauthenticated.

Definition with_details_and_metadata (code : Code) (message details : bytes) (metadata : H) : Status H := mkStatus code message details metadata.
Definition with_details (code : Code) (message details : bytes) : Status H := with_details_and_metadata code message details hm_empty.
Definition with_metadata (code : Code) (message : bytes) (metadata : H) : Status H := with_details_and_metadata code message [] metadata.

(** [to_h2_error]. *)
Definition to_h2_error (s : Status H) : H2Reason := match st_code s with Cancelled => CANCEL | _ => INTERNAL_ERROR end.

(** [From<std::io::Error>], with what the error prints. *)
Definition from_io_error (kind : IoErrorKind) (text : bytes) : Status H :=
  Status.new
    match kind with
    | BrokenPipe | WouldBlock | WriteZero | Interrupted => Internal
    | ConnectionRefused | ConnectionReset | NotConnected | AddrInUse | AddrNotAvailable => Unavailable
    | IoAlreadyExists => AlreadyExists
    | ConnectionAborted => Aborted
    | InvalidData => DataLoss
    | InvalidInput => InvalidArgument
    | IoNotFound => NotFound
    | IoPermissionDenied => PermissionDenied
    | TimedOut => DeadlineExceeded
    | UnexpectedEof => OutOfRange
    | OtherKind => Unknown
    end text.

(** ** Boxed errors *)

(** [BoxError] by the types that are looked for: a status, an error of [h2] (which has
    no source), one of [hyper] and whether it is a timeout, any other; with
    the error it reports as its source. *)
Inductive BoxError : Type :=
| BStatus (st : Status H) (source : option BoxError)
| BH2 (reason : option H2Reason)
| BHyper (timeout : bool) (source : option BoxError)
| BOther (text : bytes) (source : option BoxError).

(** [Display] of an error. *)
Context (display : BoxError -> bytes).

Definition h2_message (e : BoxError) : bytes := str "h2 protocol error: " ++ display e.

(** [from_hyper_error]. *)
Definition from_hyper_error (timeout : bool) (source : option BoxError) : option (Status H) :=
  if timeout then Some (status_unavailable (display (BHyper timeout source)))
  else match source with
       | Some (BH2 reason) => Some (Status.new (code_from_h2 reason) (h2_message (BHyper timeout source)))
       | _ => None
       end.

(** [find_status_in_source_chain]. *)
Fixpoint find_status_in_source_chain (err : BoxError) : option (Status H) :=
  match err with
  | BStatus status _ => Some status
  | BH2 _ => None
  | BHyper timeout source =>
      match from_hyper_error timeout source with
      | Some status => Some status
      | None => match source with Some err => find_status_in_source_chain err | None => None end
      end
  | BOther _ source => match source with Some err => find_status_in_source_chain err | None => None end
  end.

(** [try_from_error]: a status and its source, or the error. *)
Definition try_from_error (err : BoxError) : (Status H * option BoxError) + BoxError :=
  match err with
  | BStatus status source => inl (status, source)
  | BH2 reason => inl (Status.new (code_from_h2 reason) (h2_message err), Some err)
  | _ => match find_status_in_source_chain err with Some status => inl (status, None) | None => inr err end
  end.

(** [from_error]. *)
Definition from_error (err : BoxError) : Status H * option BoxError :=
  match try_from_error err with
  | inl r => r
  | inr err => (Status.new Unknown (display err), Some err)
  end.

(** ** The chain of sources *)

Fixpoint chain (err : BoxError) : list BoxError :=
  err :: match err with
         | BStatus _ (Some s) | BHyper _ (Some s) | BOther _ (Some s) => chain s
         | _ => []
         end.

(** What a link of the chain says by itself. *)
Definition link_status (err : BoxError) : option (Status H) :=
  match err with
  | BStatus status _ => Some status
  | BHyper timeout source => from_hyper_error timeout source
  | _ => None
  end.

Lemma find_status_chain err : find_status_in_source_chain err = head (omap link_status (chain err)).
Proof.
  revert err. fix IH 1. intros [st src|r|t src|text src]; cbn -[from_hyper_error]; [done|done| |].
  - destruct (from_hyper_error t src); [done|]. destruct src as [e|]; [apply IH|done].
  - destruct src as [e|]; [apply IH|done].
Qed.

(** An error becomes what the first link of its chain says that is a status, or an
    error of hyper that timed out or was caused by HTTP/2; an error of HTTP/2
    by itself counts only at the head. When no link says anything the code is
    [Unknown], with the error's own text, and the error is kept as the source. *)
Theorem from_error_first_link err :
  (forall reason, err <> BH2 reason) ->
  (from_error err).1 =
    match head (omap link_status (chain err)) with Some status => status | None => Status.new Unknown (display err) end.
Proof.
  intros Hn. rewrite <- find_status_chain. unfold from_error, try_from_error.
  destruct err as [st src|r|t src|text src]; [done|by destruct (Hn r)| |]; by destruct (find_status_in_source_chain _).
Qed.

(** Errors put around a status: other errors, and errors of hyper that are not timeouts. *)
Definition wrap (ws : list (option bytes)) (e : BoxError) : BoxError :=
  foldr (fun w e => match w with Some text => BOther text (Some e) | None => BHyper false (Some e) end) e ws.

Lemma find_wrapped ws st src : find_status_in_source_chain (wrap ws (BStatus st src)) = Some st.
Proof.
  induction ws as [|[text|] ws IH]; [done|exact IH|].
  change (wrap (None :: ws) (BStatus st src)) with (BHyper false (Some (wrap ws (BStatus st src)))). cbn [find_status_in_source_chain].
  assert (from_hyper_error false (Some (wrap ws (BStatus st src))) = None) as ->; [|exact IH]. by destruct ws as [|[]].
Qed.

(** C33: A status survives any errors that are put around it on its way up: it comes out with
    its code, message, details and metadata; only what caused it is forgotten. *)
Theorem status_survives_wrapping ws st src :
  from_error (wrap ws (BStatus st src)) = (st, match ws with [] => src | _ => None end).
Proof.
  unfold from_error, try_from_error. pose proof (find_wrapped ws st src) as Hf.
  destruct ws as [|[text|] ws]; cbn [wrap foldr] in *; [done|by rewrite Hf..].
Qed.

(** An error of HTTP/2 below another error that is not hyper's is not seen. *)
Lemma nested_h2_is_unknown reason text : st_code (from_error (BOther text (Some (BH2 reason)))).1 = Unknown.
Proof. done. Qed.

(** A code through an HTTP/2 error: a cancelled call stays cancelled, all else is [Internal]. *)
Lemma h2_keeps_cancelled (s : Status H) :
  code_from_h2 (Some (to_h2_error s)) = if bool_decide (st_code s = Cancelled) then Cancelled else Internal.
Proof. unfold to_h2_error. by destruct (st_code s). Qed.

(** Which errors of the system a call is retried after. *)
Lemma io_errors_retried kind text :
  Status.retryable (from_io_error kind text) =
    bool_decide (kind ∈ [BrokenPipe; WouldBlock; WriteZero; Interrupted; ConnectionRefused; ConnectionReset; NotConnected; AddrInUse;
      AddrNotAvailable]).
Proof. by destruct kind. Qed.
End Errors.

Module GrpcErrorsExample.
Lemma from_error_first_link_witness :
  st_code (from_error (H := Headers) (fun _ => []) (BOther [] (Some (BHyper false (Some (BH2 (Some REFUSED_STREAM))))))).1 = Unavailable.
Proof. rewrite (from_error_first_link (fun _ => []) (BOther [] (Some (BHyper false (Some (BH2 (Some REFUSED_STREAM))))))); [by vm_compute|done]. Defined.
End GrpcErrorsExample.
