(* ===== verification/GrpcTimeout.v ===== *)
(** gRPC deadlines: the [grpc-timeout] header and the layers that write, read
    and enforce it (volo-grpc/src/client/layer/timeout.rs,
    volo-grpc/src/server/layer/timeout.rs, volo-grpc/src/layer/grpc_timeout.rs).
    A [Duration] is a number of nanoseconds. *)

From S2P Require Import Prelude Context Utf8 Headers GrpcStatus.

Definition GRPC_TIMEOUT_HEADER : bytes := str "grpc-timeout".

(** * The text format *)

(** [duration_to_grpc_timeout]. *)
Definition duration_to_grpc_timeout {E} `{BuildProfile} (duration : Duration) : outcome E bytes :=
  let secs := duration / 1000000000 in
  let nanos := duration mod 1000000000 in
  if bool_decide (nanos = 0) then
    if bool_decide (secs mod 3600 = 0) then Done (dec_of_Z (secs / 3600) ++ str "H")
    else if bool_decide (secs mod 60 = 0) then Done (dec_of_Z (secs / 60) ++ str "M")
    else Done (dec_of_Z secs ++ str "S")
  else if bool_decide (secs = 0 /\ nanos mod 1000000 = 0) then Done (dec_of_Z (nanos / 1000000) ++ str "m")
  else if bool_decide (secs = 0 /\ nanos mod 1000 = 0) then Done (dec_of_Z (nanos / 1000) ++ str "u")
  else if bool_decide (secs = 0) then Done (dec_of_Z nanos ++ str "n")
  else
    ns ← checked 64 (secs * 1000000000);
    total_nanos ← checked 64 (ns + nanos);
    Done (dec_of_Z total_nanos ++ str "n").

(** The value and the unit of a header, then the duration; [Fail] gives the
    header back. *)
Definition parse_timeout `{BuildProfile} (val : bytes) : outcome bytes (option Duration) :=
  match to_str val with
  | None | Some [] => Fail val
  | Some s =>
      let timeout_value := take (length val - 1) s in
      let timeout_unit := drop (length val - 1) s in
      match parse_unsigned 64 timeout_value with
      | None => Fail val
      | Some v =>
          if bool_decide (timeout_unit = str "H") then
            s ← checked 64 (v * 3600); Done (Some (from_secs s))
          else if bool_decide (timeout_unit = str "M") then
            s ← checked 64 (v * 60); Done (Some (from_secs s))
          else if bool_decide (timeout_unit = str "S") then Done (Some (from_secs v))
          else if bool_decide (timeout_unit = str "m") then Done (Some (from_millis v))
          else if bool_decide (timeout_unit = str "u") then Done (Some (v * 1000))
          else if bool_decide (timeout_unit = str "n") then Done (Some v)
          else Fail val
      end
  end.

(** [grpc_timeout_to_duration]. *)
Definition grpc_timeout_to_duration `{BuildProfile} {H} `{HeaderMap H} (headers : H)
  : outcome bytes (option Duration) :=
  match hm_get GRPC_TIMEOUT_HEADER headers with
  | Some val => parse_timeout val
  | None => Done None
  end.

(** [try_parse_client_timeout]. *)
Definition try_parse_client_timeout `{BuildProfile} {H} `{HeaderMap H} (headers : H)
  : outcome bytes (option Duration) :=
  match hm_get GRPC_TIMEOUT_HEADER headers with
  | Some val => parse_timeout val
  | None => Done None
  end.

(** [unwrap_or_else(|_| None)]. *)
Definition or_none {E F A} (m : outcome E (option A)) : outcome F (option A) :=
  match m with
  | Done a => Done a
  | Fail _ => Done None
  | Panic => Panic
  | OutOfFuel => OutOfFuel
  end.

(** The shorter of two optional durations. *)
Definition shorter (a b : option Duration) : option Duration :=
  match a, b with
  | None, None => None
  | None, Some t | Some t, None => Some t
  | Some t1, Some t2 => Some (Z.min t1 t2)
  end.

(** * The layers *)

Section Layers.
Context {H : Type} `{HeaderMap H} `{BuildProfile}.

(** The client's [Timeout::call] before the inner call: the request's headers
    and the sleep; the metainfo holds the deadline of the call being served. *)
Definition client_timeout {E} (config_timeout mi_timeout : option Duration) (headers : H)
  : outcome E (H * option Duration) :=
  let timeout_duration := shorter config_timeout mi_timeout in
  match timeout_duration with
  | Some timeout =>
      val ← duration_to_grpc_timeout timeout;
      let headers := match header_value val with
                     | Some v => hm_insert GRPC_TIMEOUT_HEADER v headers
                     | None => headers
                     end in
      Done (headers, timeout_duration)
  | None => Done (headers, None)
  end.

(** The server's [Timeout::call] before the inner call: the metainfo's deadline
    and the sleep. *)
Definition server_timeout {E} (mi_timeout : option Duration) (headers : H)
  : outcome E (option Duration * option Duration) :=
  client_timeout ← or_none (grpc_timeout_to_duration headers);
  Done (match client_timeout with Some t => Some t | None => mi_timeout end, client_timeout).

(** [GrpcTimeout::call] before the inner call: the sleep. *)
Definition grpc_timeout_layer {E} (server_timeout : option Duration) (headers : H)
  : outcome E (option Duration) :=
  client_timeout ← or_none (try_parse_client_timeout headers);
  Done (shorter client_timeout server_timeout).

(** [ResponseFuture::poll] of each layer: [inner] is what the inner call gives
    now, [sleep] whether the sleep, if there is one, has elapsed. *)
Definition response_poll {R} (inner : option (R + Status H)) (sleep : option bool)
  : option (R + Status H) :=
  match inner with
  | Some result => Some result
  | None =>
      match sleep with
      | Some true => Some (inr (Status.new DeadlineExceeded (str "timeout")))
      | _ => None
      end
  end.
End Layers.

(** * The format is read back *)

(** A byte is one of the units. *)
Ltac unit_in := solve [apply (bool_decide_unpack _); vm_compute; exact I].

Section Format.
Context `{BuildProfile}.

Lemma to_str_dec n c :
  forallb (fun b => let z := Z_of_byte b in (32 <=? z) && (z <? 127)) [c] = true ->
  to_str (dec_of_Z n ++ [c]) = Some (dec_of_Z n ++ [c]) /\
  header_value (dec_of_Z n ++ [c]) = Some (dec_of_Z n ++ [c]).
Proof.
  cbn [forallb]. rewrite andb_true_r. intros Hc. pose proof (dec_of_Z_digits n) as Hd.
  assert (forall b, b ∈ dec_of_Z n ++ [c] -> 32 <= Z_of_byte b < 127) as Hb.
  { intros b [Hin| ->%list_elem_of_singleton]%elem_of_app; [|lia].
    rewrite Forall_forall in Hd. destruct (Hd b Hin) as (d & Hr & ->). rewrite Z_of_byte_digit by done. lia. }
  unfold to_str, header_value, header_byte. split.
  - rewrite (proj2 (forallb_forall _ _)); [done|]. intros b Hin%list_elem_of_In. specialize (Hb b Hin). lia.
  - rewrite (proj2 (forallb_forall _ _)); [done|]. intros b Hin%list_elem_of_In. specialize (Hb b Hin). lia.
Qed.

(** What a printed number with a unit means. *)
Lemma parse_timeout_printed n c :
  0 <= n < 2 ^ 64 -> c ∈ ["H"; "M"; "S"; "m"; "u"; "n"]%byte ->
  parse_timeout (dec_of_Z n ++ [c]) =
  match c with
  | "H"%byte => s ← checked 64 (n * 3600); Done (Some (from_secs s))
  | "M"%byte => s ← checked 64 (n * 60); Done (Some (from_secs s))
  | "S"%byte => Done (Some (from_secs n))
  | "m"%byte => Done (Some (from_millis n))
  | "u"%byte => Done (Some (n * 1000))
  | _ => Done (Some n)
  end.
Proof.
  intros Hn Hc. unfold parse_timeout.
  rewrite (proj1 (to_str_dec n c ltac:(by apply Forall_forall with (2 := Hc); repeat constructor))).
  destruct (dec_of_Z n ++ [c]) as [|b l] eqn:El; [by destruct (dec_of_Z n)|]. rewrite <- El.
  rewrite length_app. cbn [length]. rewrite Nat.add_sub, take_app_length, drop_app_length.
  rewrite parse_unsigned_dec by done.
  repeat (apply elem_of_cons in Hc as [->|Hc]; [reflexivity|]). by apply elem_of_nil in Hc.
Qed.

(** The durations that the format can carry: whole seconds, or less than 2^64
    nanoseconds. *)
Definition expressible (d : Duration) : Prop :=
  0 <= d /\ (d mod 1000000000 = 0 /\ d / 1000000000 < 2 ^ 64 \/ d < 2 ^ 64).

(** A number printed with a unit reads as [d]. *)
Lemma printed {E} n c d r :
  0 <= n < 2 ^ 64 -> c ∈ ["H"; "M"; "S"; "m"; "u"; "n"]%byte ->
  parse_timeout (dec_of_Z n ++ [c]) = Done r -> r = Some d ->
  exists val, Done (E := E) (dec_of_Z n ++ [c]) = Done val /\ header_value val = Some val /\
    parse_timeout val = Done (Some d).
Proof.
  intros Hn Hc Hp ->. eexists. split; [done|]. split; [|done].
  apply to_str_dec. by apply Forall_forall with (2 := Hc); repeat constructor.
Qed.

Lemma timeout_roundtrip {E} d :
  expressible d ->
  exists val, duration_to_grpc_timeout (E := E) d = Done val /\ header_value val = Some val /\
    parse_timeout val = Done (Some d).
Proof.
  intros [Hd Hr]. unfold duration_to_grpc_timeout.
  change (str "H") with ["H"%byte]. change (str "M") with ["M"%byte]. change (str "S") with ["S"%byte].
  change (str "m") with ["m"%byte]. change (str "u") with ["u"%byte]. change (str "n") with ["n"%byte].
  pose proof (Z.div_mod d 1000000000 ltac:(lia)) as Ed. pose proof (Z.mod_pos_bound d 1000000000 ltac:(lia)) as Hm.
  set (secs := d / 1000000000) in *. set (nanos := d mod 1000000000) in *.
  assert (0 <= secs) as Hs by (apply Z.div_pos; lia).
  assert (0 <= secs / 3600 /\ 0 <= secs / 60 /\ 0 <= nanos / 1000000 /\ 0 <= nanos / 1000) as (? & ? & ? & ?)
    by (split_and!; apply Z.div_pos; lia).
  pose proof (Z.div_mod secs 3600 ltac:(lia)). pose proof (Z.div_mod secs 60 ltac:(lia)).
  pose proof (Z.div_mod nanos 1000000 ltac:(lia)). pose proof (Z.div_mod nanos 1000 ltac:(lia)).
  repeat case_bool_decide; repeat (rewrite checked_ok by lia; cbn [mbind outcome_bind]);
    (eapply printed; [lia|unit_in| |]);
    try (rewrite parse_timeout_printed by (lia || unit_in);
         rewrite ?checked_ok by lia; reflexivity);
    unfold from_secs, from_millis; f_equal; lia.
Qed.
End Format.

Section Deadlines.
Context {H : Type} `{HeaderMapLaws H} `{BuildProfile}.

(** C28: Deadlines travel: the client sends the shorter of its configured timeout
    and the deadline of the call it is itself serving; the server recovers
    exactly that duration, whatever unit it was printed with, limits its own
    work to it and hands it to its own calls, none of which may then take
    longer. *)
Theorem deadline_propagates {E} config mi t headers server_mi server_conf :
  shorter config mi = Some t -> expressible t ->
  exists headers', client_timeout (E := E) config mi headers = Done (headers', Some t) /\
    server_timeout (E := E) server_mi headers' = Done (Some t, Some t) /\
    grpc_timeout_layer (E := E) server_conf headers' = Done (shorter (Some t) server_conf) /\
    forall config2 (headers2 headers2' : H) sleep,
      client_timeout (E := E) config2 (Some t) headers2 = Done (headers2', sleep) ->
      exists t2, sleep = Some t2 /\ t2 <= t.
Proof.
  intros Hs Hr. destruct (timeout_roundtrip (E := E) t Hr) as (val & Hv & Hh & Hp).
  exists (hm_insert GRPC_TIMEOUT_HEADER val headers). split_and!.
  - unfold client_timeout. rewrite Hs, Hv. cbn [mbind outcome_bind]. by rewrite Hh.
  - unfold server_timeout, grpc_timeout_to_duration. rewrite get_insert, bool_decide_eq_true_2 by done. by rewrite Hp.
  - unfold grpc_timeout_layer, try_parse_client_timeout. rewrite get_insert, bool_decide_eq_true_2 by done. by rewrite Hp.
  - intros config2 headers2 headers2' sleep Hc. unfold client_timeout in Hc.
    destruct config2 as [c|]; cbn [shorter] in Hc; done_inv; eexists; (split; [done|]); lia.
Qed.

(** A peer can overflow the timeout: a header of hours that fits in 64 bits but
    whose seconds do not makes the server panic when it is built with overflow
    checks, and gives it another, shorter deadline otherwise. *)
Theorem timeout_hours_overflow n :
  0 <= n < 2 ^ 64 -> 2 ^ 64 <= n * 3600 ->
  if overflow_checks then parse_timeout (dec_of_Z n ++ str "H") = Panic
  else exists d, parse_timeout (dec_of_Z n ++ str "H") = Done (Some d) /\ d < from_secs (n * 3600).
Proof.
  intros Hn Ho. change (str "H") with ["H"%byte].
  rewrite parse_timeout_printed by (done || unit_in). unfold checked.
  rewrite bool_decide_eq_false_2 by lia. destruct overflow_checks; [done|]. cbn [mbind outcome_bind].
  eexists. split; [done|]. unfold from_secs, wrap.
  pose proof (Z.mod_pos_bound (n * 3600) (2 ^ 64) ltac:(lia)). lia.
Qed.
End Deadlines.
