(* ===== verification/GrpcCodec.v ===== *)
(** gRPC messages on the wire: compression (volo-grpc/src/codec/compression.rs),
    the default message codec (volo-grpc/src/codec/mod.rs), the encoder of a
    stream of messages (volo-grpc/src/codec/encode.rs) and the receiving stream
    (volo-grpc/src/codec/decode.rs).

    The compression libraries and pilota's protobuf messages are parameters.
    All compression features are compiled in. *)

From S2P Require Import Prelude Utf8 Headers GrpcStatus.

(** * Compression *)

Inductive Algo : Type := AGzip | AZlib | AZstd.

#[export] Instance algo_eq_dec : EqDecision Algo.
Proof. solve_decision. Defined.

(** flate2 and zstd; [None] is an I/O error. *)
Class Compressor : Type := {
  zip : Algo -> Z -> bytes -> option bytes;
  unzip : Algo -> bytes -> option bytes;
  zstd_default_level : Z
}.

(** Documented: what was compressed at any level is read back. *)
Class CompressorLaws `{Compressor} : Prop := {
  unzip_zip a level bs z : zip a level bs = Some z -> unzip a z = Some bs
}.

(** A configuration is a compression level. *)
Inductive CompressionEncoding : Type :=
| Identity
| Gzip (config : option Z)
| Zlib (config : option Z)
| Zstd (config : option Z).

Module CompressionEncoding.
(** [PartialEq]: the configuration is not compared. *)
Definition eqb (a b : CompressionEncoding) : bool :=
  match a, b with
  | Gzip _, Gzip _ | Zlib _, Zlib _ | Identity, Identity | Zstd _, Zstd _ => true
  | _, _ => false
  end.

(** [into_header_value], and each item of [compose_encodings]. *)
Definition into_header_value (e : CompressionEncoding) : bytes :=
  match e with
  | Gzip _ => str "gzip"
  | Zlib _ => str "zlib"
  | Zstd _ => str "zstd"
  | Identity => str "identity"
  end.

Definition is_enabled (e : CompressionEncoding) : bool :=
  match e with Identity => false | _ => true end.

(** [[&str]::join(",")]. *)
Fixpoint join (l : list bytes) : bytes :=
  match l with
  | [] => []
  | [s] => s
  | s :: l => s ++ str "," ++ join l
  end.

(** [compose_encodings]. *)
Definition compose_encodings (encodings : list CompressionEncoding) : bytes :=
  join (into_header_value <$> encodings).

(** [into_accept_encoding_header_value]. *)
Definition into_accept_encoding_header_value (self : CompressionEncoding)
    (encodings : list CompressionEncoding) : option bytes :=
  if is_enabled self then Some (compose_encodings encodings) else None.

(** The first encoding of [encodings] with the algorithm named. *)
Definition find_named (name : bytes) (encodings : list CompressionEncoding)
  : option CompressionEncoding :=
  let pick (p : CompressionEncoding -> bool) := snd <$> list_find (fun e => p e = true) encodings in
  if bool_decide (name = str "gzip") then pick (fun e => eqb e (Gzip None))
  else if bool_decide (name = str "zlib") then pick (fun e => eqb e (Zlib None))
  else if bool_decide (name = str "zstd") then pick (fun e => eqb e (Zstd None))
  else None.

(** [Iterator::find_map]. *)
Fixpoint find_map {A B} (f : A -> option B) (l : list A) : option B :=
  match l with [] => None | a :: l => match f a with Some b => Some b | None => find_map f l end end.

Definition visible (val : bytes) : bool :=
  forallb (fun b => let z := Z_of_byte b in (32 <=? z) && (z <? 127) || (z =? 9)) val.

(** [from_accept_encoding_header]; [accept] is the header, if there is one. *)
Definition from_accept_encoding_header (accept : option bytes)
    (config : option (list CompressionEncoding)) : option CompressionEncoding :=
  available ← config;
  value ← accept;
  if visible value then find_map (fun s => find_named (trim s) available) (split_comma value) else None.

Section Encoding.
Context {H : Type} `{HeaderMap H}.

(** [from_encoding_header]; [encoding] is the header, if there is one. *)
Definition from_encoding_header (encoding : option bytes) (config : option (list CompressionEncoding))
  : outcome (Status H) (option CompressionEncoding) :=
  match config, encoding with
  | Some encodings, Some value =>
      if visible value then
        if bool_decide (value = str "gzip") && existsb (eqb (Gzip None)) encodings then Done (Some (Gzip None))
        else if bool_decide (value = str "zlib") && existsb (eqb (Zlib None)) encodings then Done (Some (Zlib None))
        else if bool_decide (value = str "zstd") && existsb (eqb (Zstd None)) encodings then Done (Some (Zstd None))
        else if bool_decide (value = str "identity") then Done None
        else Fail (Status.new Unimplemented
          (str "Content is compressed with `" ++ value ++ str "` which isn't supported"))
      else Fail (Status.new InvalidArgument (str "failed to convert header to a str"))
  | _, _ => Done None
  end.
End Encoding.
End CompressionEncoding.

(** [compress]: what is appended to [dest_buf]. *)
Definition compress `{Compressor} (encoding : CompressionEncoding) (src_buf dest_buf : bytes) : option bytes :=
  match encoding with
  | Gzip (Some level) => z ← zip AGzip level src_buf; Some (dest_buf ++ z)
  | Zlib (Some level) => z ← zip AZlib level src_buf; Some (dest_buf ++ z)
  | Zstd (Some level) =>
      let zstd_level := if bool_decide (level = 0) then zstd_default_level else level in
      z ← zip AZstd zstd_level src_buf; Some (dest_buf ++ z)
  | _ => Some dest_buf
  end.

(** [decompress]. *)
Definition decompress `{Compressor} (encoding : CompressionEncoding) (src_buf dest_buf : bytes) : option bytes :=
  match encoding with
  | Gzip _ => z ← unzip AGzip src_buf; Some (dest_buf ++ z)
  | Zlib _ => z ← unzip AZlib src_buf; Some (dest_buf ++ z)
  | Zstd _ => z ← unzip AZstd src_buf; Some (dest_buf ++ z)
  | Identity => Some dest_buf
  end.

(** * Buffers and messages *)

(** [LinkedBytes]: the closed nodes and the buffer being written. *)
Record LinkedBytes : Type := mkLinked { lb_list : list bytes; lb_bytes : bytes }.

(** What an encoder does to it. *)
Inductive LbOp : Type :=
| LbWrite (bs : bytes)
| LbInsert (node : bytes).

Definition lb_apply (lb : LinkedBytes) (op : LbOp) : LinkedBytes :=
  match op with
  | LbWrite bs => mkLinked (lb_list lb) (lb_bytes lb ++ bs)
  | LbInsert node => mkLinked (lb_list lb ++ [lb_bytes lb; node]) []
  end.

Definition lb_concat (lb : LinkedBytes) : bytes := concat (lb_list lb) ++ lb_bytes lb.

Definition op_bytes (op : LbOp) : bytes := match op with LbWrite bs | LbInsert bs => bs end.

(** pilota's protobuf messages: [None] is an encoding or decoding error. *)
Class PbMessage (T : Type) : Type := {
  pb_encode : T -> option (list LbOp);
  pb_decode : bytes -> option T
}.

(** Documented: a message that was encoded is read back. *)
Class PbMessageLaws (T : Type) `{PbMessage T} : Prop := {
  pb_decode_encode m ops : pb_encode m = Some ops -> pb_decode (concat (op_bytes <$> ops)) = Some m
}.

Definition PREFIX_LEN : nat := 5.

Section Codec.
Context {H : Type} `{HeaderMap H} `{PercentEncoding} `{Base64} `{Compressor} {T : Type} `{PbMessage T}.

(** [DefaultEncoder::encode]. *)
Definition DefaultEncoder_encode (item : T) (dst : LinkedBytes) : outcome (Status H) LinkedBytes :=
  match pb_encode item with
  | Some ops => Done (foldl lb_apply dst ops)
  | None => Fail (Status.new Internal (str "encode error"))
  end.

(** [DefaultDecoder::decode]. *)
Definition DefaultDecoder_decode (src : bytes) : option T + Status H :=
  match pb_decode src with
  | Some m => inl (Some m)
  | None => inr (Status.new Internal (str "decode error"))
  end.

(** The prefix written over the first bytes of the first node. *)
Definition write_prefix (prefix : bytes) (buf : LinkedBytes) : LinkedBytes :=
  match lb_list buf with
  | node :: rest => mkLinked (patch 0 prefix node :: rest) (lb_bytes buf)
  | [] => mkLinked [] (patch 0 prefix (lb_bytes buf))
  end.

(** The buffer of one item in the [loop] of [encode]; the reserved prefix is
    zero until it is written. *)
Definition encode_buf (compression_encoding : option CompressionEncoding) (item : T)
  : outcome (Status H) LinkedBytes :=
  let buf := mkLinked [] (replicate PREFIX_LEN x00) in
  match compression_encoding with
  | Some config =>
      compressed_buf ← map_err (fun _ => Status.new Internal (str "Error encoding"))
        (DefaultEncoder_encode item (mkLinked [] []));
      match compress config (lb_concat compressed_buf) (lb_bytes buf) with
      | Some bs => Done (mkLinked (lb_list buf) bs)
      | None => Fail (Status.new Internal (str "Error compressing"))
      end
  | None =>
      map_err (fun _ => Status.new Internal (str "Error encoding")) (DefaultEncoder_encode item buf)
  end.

(** The body of the [loop] of [encode] for one item: its data frames. *)
Definition encode_item (compression_encoding : option CompressionEncoding) (item : T)
  : outcome (Status H) (list bytes) :=
  buf ← encode_buf compression_encoding item;
  let len := Zlen (lb_concat buf) - Z.of_nat PREFIX_LEN in
  if bool_decide (len <= 2 ^ 32 - 1) then
    let flag := match compression_encoding with Some _ => 1 | None => 0 end in
    let buf := write_prefix (put_u8 flag ++ put_u32 len) buf in
    Done (base.filter (fun bs => bs <> []) (lb_list buf ++ [lb_bytes buf]))
  else Panic.

(** [encode]: the frames and the errors of a stream of items; an item that
    fails to encode ends the stream. *)
Fixpoint encode {E} (source : list (T + Status H)) (compression_encoding : option CompressionEncoding)
  : outcome E (list (bytes + Status H)) :=
  match source with
  | [] => Done []
  | inl item :: source =>
      match encode_item compression_encoding item with
      | Done frames => rest ← encode source compression_encoding; Done ((inl <$> frames) ++ rest)
      | Fail status => Done [inr status]
      | Panic => Panic
      | OutOfFuel => OutOfFuel
      end
  | inr status :: source => rest ← encode source compression_encoding; Done (inr status :: rest)
  end.

(** * The receiving stream *)

Inductive State : Type :=
| SHeader
| SBody (compression_encoding : option CompressionEncoding) (len : Z)
| SError.

Inductive Kind : Type :=
| KRequest
| KResponse (status : Z).

(** What the body yields: data, trailers, or an error as the status it
    converts to. *)
Inductive BodyFrame : Type :=
| FData (data : bytes)
| FTrailers (trailers : H)
| FErr (status : Status H).

Record RecvStream : Type := mkRecvStream {
  rs_body : list BodyFrame;
  rs_trailers : option H;
  rs_buf : bytes;
  rs_state : State;
  rs_kind : Kind;
  rs_compression_encoding : option CompressionEncoding
}.

(** [RecvStream::new]. *)
Definition RecvStream_new (body : list BodyFrame) (kind : Kind)
    (compression_encoding : option CompressionEncoding) : RecvStream :=
  mkRecvStream body None [] SHeader kind compression_encoding.

Definition with_buf (buf : bytes) (s : RecvStream) : RecvStream :=
  mkRecvStream (rs_body s) (rs_trailers s) buf (rs_state s) (rs_kind s) (rs_compression_encoding s).
Definition with_state (st : State) (s : RecvStream) : RecvStream :=
  mkRecvStream (rs_body s) (rs_trailers s) (rs_buf s) st (rs_kind s) (rs_compression_encoding s).
Definition with_body (body : list BodyFrame) (s : RecvStream) : RecvStream :=
  mkRecvStream body (rs_trailers s) (rs_buf s) (rs_state s) (rs_kind s) (rs_compression_encoding s).
Definition with_trailers (t : option H) (s : RecvStream) : RecvStream :=
  mkRecvStream (rs_body s) t (rs_buf s) (rs_state s) (rs_kind s) (rs_compression_encoding s).

(** The first half of [decode_chunk], in the header state with enough bytes:
    the state it moves to. *)
Definition decode_header (self : RecvStream) : (unit + Status H) * RecvStream :=
  let flag := be_decode (take 1 (rs_buf self)) in
  let self := with_buf (drop 1 (rs_buf self)) self in
  let encoding :=
    if bool_decide (flag = 0) then inl None
    else if bool_decide (flag = 1) then
      match rs_compression_encoding self with
      | Some e => inl (Some e)
      | None => inr (Status.new Internal (str
          "protocol error: received message with compressed-flag but no grpc-encoding was specified"))
      end
    else inr (Status.new Internal (str "protocol error: received message with invalid compression flag")) in
  match encoding with
  | inr e => (inr e, self)
  | inl encoding =>
      let len := be_decode (take 4 (rs_buf self)) in
      (inl tt, with_state (SBody encoding len) (with_buf (drop 4 (rs_buf self)) self))
  end.

(** The second half: a whole body is decoded. *)
Definition decode_body (encoding : option CompressionEncoding) (len : Z) (self : RecvStream)
  : (option T + Status H) * RecvStream :=
  if bool_decide (Zlen (rs_buf self) < len) then (inl None, self)
  else
    let buf := take (Z.to_nat len) (rs_buf self) in
    let self := with_buf (drop (Z.to_nat len) (rs_buf self)) self in
    let finish (src : bytes) :=
      match DefaultDecoder_decode src with
      | inl (Some msg) => (inl (Some msg), with_state SHeader self)
      | r => (r, self)
      end in
    match encoding with
    | Some e =>
        match decompress e buf [] with
        | Some out => finish out
        | None => (inr (Status.new Internal (str "Error decompressing")), self)
        end
    | None => finish buf
    end.

(** [decode_chunk]. *)
Definition decode_chunk (self : RecvStream) : (option T + Status H) * RecvStream :=
  match rs_state self with
  | SHeader =>
      if (length (rs_buf self) <? PREFIX_LEN)%nat then (inl None, self)
      else
        match decode_header self with
        | (inr e, self) => (inr e, self)
        | (inl _, self) =>
            match rs_state self with
            | SBody encoding len => decode_body encoding len self
            | _ => (inl None, self)
            end
        end
  | SBody encoding len => decode_body encoding len self
  | SError => (inl None, self)
  end.

(** The end of [poll_next], after the loop. *)
Definition end_of_body {E} (trailer : option H) (self : RecvStream)
  : outcome E (option (T + Status H) * RecvStream) :=
  match rs_kind self with
  | KRequest => Done (None, self)
  | KResponse status =>
      match Status.infer_grpc_status trailer status with
      | Fail (Some e) => Done (Some (inr e), self)
      | Fail None => Done (None, self)
      | Done _ => Done (None, with_trailers trailer self)
      | Panic => Panic
      | OutOfFuel => OutOfFuel
      end
  end.

(** [poll_next]: its loop runs over the frames of the body. *)
Fixpoint poll_body {E} (body : list BodyFrame) (self : RecvStream)
  : outcome E (option (T + Status H) * RecvStream) :=
  match rs_state self with
  | SError => Done (None, with_body body self)
  | _ =>
      match decode_chunk self with
      | (inr e, self) => Done (Some (inr e), with_body body self)
      | (inl (Some item), self) => Done (Some (inl item), with_body body self)
      | (inl None, self) =>
          match body with
          | FData data :: body => poll_body body (with_buf (rs_buf self ++ data) self)
          | FTrailers h :: body => end_of_body (Some h) (with_body body self)
          | FErr status :: body =>
              let self := with_body body self in
              match rs_kind self with
              | KRequest =>
                  if bool_decide (st_code status = Cancelled) then Done (None, self)
                  else Done (Some (inr status), with_state SError self)
              | _ => Done (Some (inr status), with_state SError self)
              end
          | [] =>
              let self := with_body [] self in
              if bool_decide (rs_buf self = []) then end_of_body None self
              else Done (Some (inr (Status.new Internal (str "Unexpected EOF decoding stream."))), self)
          end
      end
  end.

Definition poll_next {E} (self : RecvStream) : outcome E (option (T + Status H) * RecvStream) :=
  poll_body (rs_body self) self.

(** Reading the stream to its end, in at most [fuel] polls. *)
Fixpoint collect {E} (fuel : nat) (self : RecvStream) : outcome E (list (T + Status H) * RecvStream) :=
  match fuel with
  | O => OutOfFuel
  | S fuel =>
      '(o, self) ← poll_next self;
      match o with
      | None => Done ([], self)
      | Some x => '(xs, self) ← collect fuel self; Done (x :: xs, self)
      end
  end.
End Codec.
Arguments BodyFrame H : clear implicits.
Arguments RecvStream H : clear implicits.
