(* ===== verification/GrpcRoundTrip.v ===== *)
(** The gRPC codec end to end (volo-grpc/src/codec): a stream of messages that
    was encoded is received message by message, however the transport cuts it;
    the compression negotiated is one that both ends support. *)

From S2P Require Import Prelude Context Utf8 Headers GrpcStatus GrpcTimeout GrpcCodec.
Import CompressionEncoding.

(** * Buffers *)

Lemma lb_concat_apply lb op : lb_concat (lb_apply lb op) = lb_concat lb ++ op_bytes op.
Proof.
  unfold lb_concat. destruct op; cbn; [by rewrite app_assoc|].
  rewrite app_nil_r, concat_app. cbn. by rewrite app_nil_r, app_assoc.
Qed.

Lemma lb_concat_foldl lb ops : lb_concat (foldl lb_apply lb ops) = lb_concat lb ++ concat (op_bytes <$> ops).
Proof.
  revert lb. induction ops as [|op ops IH]; intros lb; cbn; [by rewrite app_nil_r|].
  by rewrite IH, lb_concat_apply, <- app_assoc.
Qed.

(** The first node of a buffer. *)
Definition first_node (lb : LinkedBytes) : bytes :=
  match lb_list lb with node :: _ => node | [] => lb_bytes lb end.

Lemma first_node_foldl lb ops : exists t, first_node (foldl lb_apply lb ops) = first_node lb ++ t.
Proof.
  revert lb. induction ops as [|op ops IH]; intros lb; cbn; [exists []; by rewrite app_nil_r|].
  destruct (IH (lb_apply lb op)) as [t ->].
  destruct lb as [[|n l] bs], op; unfold first_node; cbn; rewrite <- ?app_assoc; eauto.
Qed.

Lemma write_prefix_concat z p lb t :
  first_node lb = z ++ t -> length p = length z ->
  lb_concat (write_prefix p lb) = p ++ drop (length z) (lb_concat lb).
Proof.
  unfold first_node, write_prefix, lb_concat. destruct lb as [[|n l] bs]; cbn; intros -> Hl;
    pose proof (patch_app 0 [] z p t eq_refl (eq_sym Hl)) as Hp; cbn [app] in Hp; rewrite Hp.
  - by rewrite drop_app_length.
  - rewrite <- !app_assoc. by rewrite drop_app_length.
Qed.

Lemma concat_nonempty (l : list bytes) : concat (base.filter (fun bs => bs <> []) l) = concat l.
Proof.
  induction l as [|b l IH]; [done|]. rewrite filter_cons. case_decide as Hb; cbn; [by rewrite IH|].
  assert (b = []) as -> by (by destruct (decide (b = []))). done.
Qed.

(** * One message *)

Section Message.
Context {H : Type} `{HeaderMap H} `{PercentEncoding} `{Base64} `{CompressorLaws} {T : Type} `{PbMessageLaws T}.

Definition flag_of (ce : option CompressionEncoding) : Z := match ce with Some _ => 1 | None => 0 end.

(** The bytes of a message on the wire. *)
Definition frame (ce : option CompressionEncoding) (payload : bytes) : bytes :=
  put_u8 (flag_of ce) ++ put_u32 (Zlen payload) ++ payload.

(** An encoding that really compresses: not [Identity], and configured. *)
Definition configured (e : CompressionEncoding) : bool :=
  match e with Gzip (Some _) | Zlib (Some _) | Zstd (Some _) => true | _ => false end.

(** What a receiver with the encoding [ce] makes of a payload. *)
Definition payload_of (ce : option CompressionEncoding) (payload : bytes) (m : T) : Prop :=
  match ce with
  | None => pb_decode payload = Some m
  | Some e => exists out, decompress e payload [] = Some out /\ pb_decode out = Some m
  end.

(** Sender and receiver agree on the algorithm. *)
Definition agree (ce recv : option CompressionEncoding) : Prop :=
  match ce, recv with
  | None, _ => True
  | Some e, Some r => eqb e r = true /\ configured e = true
  | Some _, None => False
  end.

Lemma compress_decompress e r src dest out :
  eqb e r = true -> configured e = true -> compress e src dest = Some out ->
  exists z, out = dest ++ z /\ decompress r z [] = Some src.
Proof.
  intros He Hc Hz. destruct e as [|[l|]|[l|]|[l|]], r; try done; cbn in Hz;
    destruct (zip _ _ src) as [z|] eqn:Ez; try done; injection Hz as <-; exists z;
    (split; [done|]); cbn; by rewrite (unzip_zip _ _ _ _ Ez).
Qed.

(** The prefix put over the reserved bytes of a buffer. *)
Lemma prefixed_frames ce buf payload t :
  first_node buf = replicate PREFIX_LEN x00 ++ t -> lb_concat buf = replicate PREFIX_LEN x00 ++ payload ->
  Zlen (lb_concat buf) - Z.of_nat PREFIX_LEN = Zlen payload /\
  forall buf', buf' = write_prefix (put_u8 (flag_of ce) ++ put_u32 (Zlen payload)) buf ->
    concat (base.filter (fun bs => bs <> []) (lb_list buf' ++ [lb_bytes buf'])) = frame ce payload.
Proof.
  intros Hf Hc. split.
  - rewrite Hc, Zlen_app. unfold Zlen at 1. rewrite length_replicate. lia.
  - intros buf' ->. rewrite concat_nonempty, concat_app. cbn [concat]. rewrite app_nil_r.
    change (concat (lb_list ?b) ++ lb_bytes ?b) with (lb_concat b).
    rewrite (write_prefix_concat _ _ _ _ Hf), Hc by done.
    rewrite drop_app_length. unfold frame. by rewrite <- app_assoc.
Qed.

Lemma encode_buf_spec ce recv (m : T) buf :
  agree ce recv -> encode_buf (H := H) ce m = Done buf ->
  exists payload t, first_node buf = replicate PREFIX_LEN x00 ++ t /\
    lb_concat buf = replicate PREFIX_LEN x00 ++ payload /\
    payload_of (if ce is Some _ then recv else None) payload m.
Proof.
  unfold encode_buf, DefaultEncoder_encode. intros Ha Hb.
  destruct (pb_encode m) as [ops|] eqn:Eo; [|by destruct ce].
  pose proof (pb_decode_encode m ops Eo) as Hm. destruct ce as [e|].
  - destruct recv as [r|]; [|done]. destruct Ha as [He Hc]. cbn [map_err mbind outcome_bind] in Hb.
    rewrite lb_concat_foldl in Hb. cbn in Hb. destruct (compress e _ _) as [bs|] eqn:Ez; [|done].
    injection Hb as <-. destruct (compress_decompress _ _ _ _ _ He Hc Ez) as (z & -> & Hz).
    exists z, z. split_and!; [done|done|]. cbn. eauto.
  - cbn in Hb. injection Hb as <-.
    destruct (first_node_foldl (mkLinked [] (replicate PREFIX_LEN x00)) ops) as [t Ht].
    eexists _, t. split_and!; [exact Ht|by rewrite lb_concat_foldl|done].
Qed.

(** The frames of a message concatenate to its prefix and payload. *)
Lemma encode_item_frames ce recv (m : T) frames :
  agree ce recv -> encode_item (H := H) ce m = Done frames ->
  exists payload, concat frames = frame ce payload /\ Zlen payload < 2 ^ 32 /\
    payload_of (if ce is Some _ then recv else None) payload m.
Proof.
  intros Ha Hi. unfold encode_item in Hi. apply bind_done_inv in Hi as (buf & Hb & Hi).
  destruct (encode_buf_spec ce recv m buf Ha Hb) as (payload & t & Hf & Hc & Hp).
  destruct (prefixed_frames ce buf payload t Hf Hc) as [Hl Hfr]. rewrite Hl in Hi.
  case_bool_decide as Hlen; [|done]. injection Hi as <-. exists payload.
  split_and!; [by apply Hfr|lia|done].
Qed.

(** * Receiving *)

Abbreviation via ce recv := (if ce is Some _ then recv else None).

Lemma decode_body_whole enc payload m rest (self : RecvStream H) :
  rs_buf self = payload ++ rest -> payload_of enc payload m ->
  decode_body enc (Zlen payload) self = (inl (Some m), with_state SHeader (with_buf rest self)).
Proof.
  intros Hb Hp. unfold decode_body, DefaultDecoder_decode. rewrite Hb.
  rewrite bool_decide_eq_false_2 by (rewrite Zlen_app; pose proof (Zlen_nonneg rest); lia).
  unfold Zlen. rewrite Nat2Z.id, take_app_length, drop_app_length. destruct enc as [e|]; cbn in Hp.
  - destruct Hp as (out & -> & ->). done.
  - by rewrite Hp.
Qed.

Lemma decode_header_frame ce recv (payload rest : bytes) (self : RecvStream H) :
  agree ce recv -> Zlen payload < 2 ^ 32 -> rs_compression_encoding self = recv ->
  rs_buf self = put_u8 (flag_of ce) ++ put_u32 (Zlen payload) ++ rest ->
  decode_header self = (inl tt, with_state (SBody (via ce recv) (Zlen payload)) (with_buf rest self)).
Proof.
  intros Ha Hl Hr Hb. unfold decode_header. rewrite Hb.
  assert (be_decode (take 1 (put_u8 (flag_of ce) ++ put_u32 (Zlen payload) ++ rest)) = flag_of ce) as ->.
  { rewrite take_app_le by done. by destruct ce. }
  change (drop 1 (put_u8 (flag_of ce) ++ put_u32 (Zlen payload) ++ rest)) with (put_u32 (Zlen payload) ++ rest).
  cbn [with_buf rs_buf rs_compression_encoding].
  assert (be_decode (take 4 (put_u32 (Zlen payload) ++ rest)) = Zlen payload) as ->.
  { rewrite take_app_le by done. change (take 4 (put_u32 (Zlen payload))) with (be_encode 4 (Zlen payload)).
    rewrite be_decode_encode, Z.mod_small; [done|]. split; [apply Zlen_nonneg|exact Hl]. }
  change (drop 4 (put_u32 (Zlen payload) ++ rest)) with rest.
  rewrite Hr. by destruct ce, recv.
Qed.

(** The stream is at, or inside, the message [payload], and [more] is to come. *)
Definition pending (ce recv : option CompressionEncoding) (payload tail more : bytes)
    (self : RecvStream H) : Prop :=
  rs_compression_encoding self = recv /\
  (rs_state self = SHeader /\ rs_buf self ++ more = frame ce payload ++ tail \/
   rs_state self = SBody (via ce recv) (Zlen payload) /\ rs_buf self ++ more = payload ++ tail).

(** The fields a chunk leaves alone. *)
Definition same_stream (s s' : RecvStream H) : Prop :=
  rs_body s' = rs_body s /\ rs_trailers s' = rs_trailers s /\ rs_kind s' = rs_kind s /\
  rs_compression_encoding s' = rs_compression_encoding s.

(** What is buffered is either short of the payload or has it whole. *)
Lemma split_payload (buf more payload tail : bytes) :
  buf ++ more = payload ++ tail ->
  (Zlen buf < Zlen payload /\ more <> []) \/ exists rest, buf = payload ++ rest /\ rest ++ more = tail.
Proof.
  intros E. destruct (decide (length buf < length payload)%nat) as [Hl|Hl].
  - left. split; [unfold Zlen; lia|]. intros ->. rewrite app_nil_r in E. subst buf.
    rewrite length_app in Hl. lia.
  - right. exists (drop (length payload) buf).
    assert (take (length payload) buf = payload) as Ht.
    { rewrite <- (take_app_le buf more) by lia. rewrite E. by rewrite take_app_length. }
    rewrite <- Ht at 1. split; [by rewrite take_drop|].
    rewrite <- (drop_app_le buf more) by lia. rewrite E. by rewrite drop_app_length.
Qed.

(** The body state: wait, or give the message. *)
Lemma body_progress enc payload tail more m (self : RecvStream H) :
  payload_of enc payload m -> rs_buf self ++ more = payload ++ tail ->
  (decode_body (T := T) enc (Zlen payload) self = (inl None, self) /\ more <> []) \/
  exists rest, decode_body enc (Zlen payload) self = (inl (Some m), with_state SHeader (with_buf rest self)) /\
    rest ++ more = tail.
Proof.
  intros Hp Hb. destruct (split_payload _ _ _ _ Hb) as [[Hl Hm]|(rest & Hr & Ht)].
  - left. split; [|done]. unfold decode_body. by rewrite bool_decide_eq_true_2.
  - right. exists rest. split; [|done]. by apply decode_body_whole.
Qed.

Lemma chunk_progress ce recv payload tail more m (self : RecvStream H) :
  agree ce recv -> Zlen payload < 2 ^ 32 -> payload_of (via ce recv) payload m ->
  pending ce recv payload tail more self ->
  exists self', same_stream self self' /\
    ((decode_chunk (T := T) self = (inl None, self') /\ more <> [] /\ pending ce recv payload tail more self') \/
     (decode_chunk self = (inl (Some m), self') /\ rs_state self' = SHeader /\ rs_buf self' ++ more = tail)).
Proof.
  intros Ha Hl Hp (Hr & [[Hs Hb]|[Hs Hb]]); unfold decode_chunk; rewrite Hs.
  - destruct (Nat.ltb_spec (length (rs_buf self)) PREFIX_LEN) as [Hlt|Hge].
    { exists self. split; [done|]. left. split_and!; [done| |split; [done|by left]].
      intros ->. rewrite app_nil_r in Hb. rewrite Hb in Hlt. unfold frame, PREFIX_LEN in Hlt.
      rewrite !length_app in Hlt. cbn in Hlt. lia. }
    destruct (split_payload (rs_buf self) more (put_u8 (flag_of ce) ++ put_u32 (Zlen payload)) (payload ++ tail))
      as [[Hlt _]|(rest & Eb & Et)].
    { rewrite Hb. unfold frame. by rewrite <- !app_assoc. }
    { exfalso. unfold Zlen, PREFIX_LEN in *. cbn in Hlt. lia. }
    rewrite <- app_assoc in Eb. rewrite (decode_header_frame ce recv payload rest self Ha Hl Hr Eb).
    cbn [with_state rs_state].
    destruct (body_progress (via ce recv) payload tail more m
      (with_state (SBody (via ce recv) (Zlen payload)) (with_buf rest self)) Hp Et) as [[-> Hm]|(rest' & -> & Ht)].
    + eexists. split; [|left; split_and!; [reflexivity|done|]]; [done|]. split; [done|]. by right.
    + eexists. split; [|right; split_and!; [reflexivity|done|done]]. done.
  - destruct (body_progress (via ce recv) payload tail more m self Hp Hb) as [[-> Hm]|(rest' & -> & Ht)].
    + exists self. split; [done|]. left. split_and!; [done|done|]. split; [done|]. by right.
    + eexists. split; [|right; split_and!; [reflexivity|done|done]]. done.
Qed.

(** Reading on until the message is whole. *)
Lemma poll_body_message {E} ce recv payload tail m chunks last (self : RecvStream H) :
  agree ce recv -> Zlen payload < 2 ^ 32 -> payload_of (via ce recv) payload m ->
  pending ce recv payload tail (concat chunks) self ->
  exists chunks' self', poll_body (E := E) ((FData <$> chunks) ++ last) self = Done (Some (inl m), self') /\
    rs_body self' = (FData <$> chunks') ++ last /\ rs_state self' = SHeader /\
    rs_buf self' ++ concat chunks' = tail /\ rs_kind self' = rs_kind self /\
    rs_compression_encoding self' = recv.
Proof.
  intros Ha Hl Hp. revert self. induction chunks as [|c chunks IH]; intros self Hpend;
    destruct (chunk_progress _ _ _ _ _ _ _ Ha Hl Hp Hpend) as (self' & (Hb & _ & Hk & Hc) & Hd);
    assert (rs_state self <> SError) as Hne by (destruct Hpend as (_ & [[-> _]|[-> _]]); done).
  - destruct Hd as [(_ & Hm & _)|(Hd & Hs & Ht)]; [done|]. exists [], (with_body last self').
    destruct last; cbn; destruct (rs_state self); try done; rewrite Hd;
      (split_and!; try done; by rewrite Hc; destruct Hpend).
  - destruct Hd as [(Hd & Hm & Hpend')|(Hd & Hs & Ht)].
    + destruct (IH (with_buf (rs_buf self' ++ c) self')) as (chunks' & s2 & Hpoll & ? & ? & ? & Hk2 & ?).
      { destruct Hpend' as (Hr & Hor). split; [done|]. cbn [with_buf rs_state rs_buf]. by rewrite <- app_assoc. }
      exists chunks', s2. split_and!; try done; [|by rewrite Hk2, <- Hk].
      cbn [fmap list_fmap app poll_body]. destruct (rs_state self); try done; by rewrite Hd.
    + exists (c :: chunks), (with_body ((FData <$> (c :: chunks)) ++ last) self'). split_and!; try done.
      * cbn [fmap list_fmap app poll_body]. destruct (rs_state self); try done; by rewrite Hd.
      * cbn. rewrite Hc. by destruct Hpend.
Qed.

(** The ways a stream ends well: a request at the end of its body, a response
    with trailers that carry an OK status, or without any under HTTP 200. *)
Definition ends_well (kind : Kind) (last : list (BodyFrame H)) : Prop :=
  match kind, last with
  | KRequest, [] | KRequest, [FTrailers _] => True
  | KResponse status, [FTrailers h] => Status.infer_grpc_status (Some h) status = Done tt
  | KResponse status, [] => status = 200
  | _, _ => False
  end.

Lemma poll_body_end {E} chunks last (self : RecvStream H) :
  rs_state self = SHeader -> rs_buf self ++ concat chunks = [] -> ends_well (rs_kind self) last ->
  exists self', poll_body (E := E) (T := T) ((FData <$> chunks) ++ last) self = Done (None, self').
Proof.
  revert self. induction chunks as [|c chunks IH]; intros self Hs Hb Hk;
    apply app_eq_nil in Hb as [Hbuf Hmore].
  - destruct self as [body trailers buf state kind enc]. cbn in *. subst buf state.
    destruct last as [|[d|h|st] [|]]; destruct kind; cbn in Hk; try done; cbn; unfold end_of_body; cbn; try subst; eauto.
    rewrite Hk. eauto.
  - cbn [fmap list_fmap app poll_body]. rewrite Hs. unfold decode_chunk. rewrite Hs, Hbuf. cbn [length Nat.ltb PREFIX_LEN].
    apply IH; cbn [with_buf rs_state rs_buf rs_kind]; [done| |done]. cbn in Hmore.
    apply app_eq_nil in Hmore as [-> ->]. by rewrite Hbuf.
Qed.

Definition wire_ok (ce recv : option CompressionEncoding) (payload : bytes) (m : T) : Prop :=
  Zlen payload < 2 ^ 32 /\ payload_of (via ce recv) payload m.

Lemma encode_frames {E} ce recv msgs frames :
  agree ce recv -> encode (H := H) (E := E) (inl <$> msgs) ce = Done (inl <$> frames) ->
  exists payloads, concat frames = concat (frame ce <$> payloads) /\ Forall2 (wire_ok ce recv) payloads msgs.
Proof.
  intros Ha. revert frames. induction msgs as [|m msgs IH]; intros frames; cbn.
  - intros [= Hf]. exists []. split; [|done]. by destruct frames.
  - destruct (encode_item ce m) as [fs|st| |] eqn:Ei; [|by intros [= Hf]; destruct frames|done|done].
    intros Hb. apply bind_done_inv in Hb as (rest & He & Hr). injection Hr as Hr.
    symmetry in Hr. apply fmap_app_inv in Hr as (f1 & f2 & E1 & E2 & ->).
    apply (inj (fmap inl)) in E1. subst. destruct (IH f2 He) as (ps & Hps & Hall).
    destruct (encode_item_frames ce recv m f1 Ha Ei) as (p & Hp & Hlen & Hpay).
    exists (p :: ps). split; [by rewrite concat_app, Hp, Hps|]. constructor; [done|done].
Qed.

Lemma collect_messages {E} ce recv payloads msgs chunks last (self : RecvStream H) :
  agree ce recv -> Forall2 (wire_ok ce recv) payloads msgs -> ends_well (rs_kind self) last ->
  rs_body self = (FData <$> chunks) ++ last -> rs_state self = SHeader ->
  rs_compression_encoding self = recv -> rs_buf self ++ concat chunks = concat (frame ce <$> payloads) ->
  exists self', collect (E := E) (S (length msgs)) self = Done (inl <$> msgs, self').
Proof.
  intros Ha Hall. revert chunks self. induction Hall as [|p m ps msgs [Hlen Hpay] Hall IH];
    intros chunks self Hk Hbody Hs Hr Hb.
  - destruct (poll_body_end (E := E) chunks last self Hs Hb Hk) as [self' Hp].
    exists self'. cbn [collect length]. unfold poll_next. rewrite Hbody, Hp. done.
  - destruct (poll_body_message (E := E) ce recv p (concat (frame ce <$> ps)) m chunks last self Ha Hlen Hpay)
      as (chunks' & s1 & Hp & Hb1 & Hs1 & Ht1 & Hk1 & Hr1).
    { split; [done|]. by left. }
    destruct (IH chunks' s1) as (self' & Hc); [by rewrite Hk1|done..|].
    exists self'. cbn [length]. remember (S (length msgs)) as n. cbn [collect]. unfold poll_next.
    rewrite Hbody, Hp. cbn [mbind outcome_bind]. by rewrite Hc.
Qed.

Lemma stream_received {E} ce recv msgs frames chunks last kind :
  agree ce recv -> encode (H := H) (E := E) (inl <$> msgs) ce = Done (inl <$> frames) ->
  concat chunks = concat frames -> ends_well kind last ->
  exists self', collect (E := E) (S (length msgs)) (RecvStream_new ((FData <$> chunks) ++ last) kind recv) =
    Done (inl <$> msgs, self').
Proof.
  intros Ha He Hc Hk. destruct (encode_frames ce recv msgs frames Ha He) as (payloads & Hf & Hall).
  eapply (collect_messages ce recv payloads msgs chunks last); try done. cbn. by rewrite Hc, Hf.
Qed.

(** C6: Messages arrive: the messages of a stream, encoded with or without
    compression, are received one by one, in order and unchanged, and then the
    stream ends, whatever pieces the transport delivers the data in and wherever
    it cuts the prefixes and the payloads; a request ends with its body, a
    response with an OK status. *)
Theorem grpc_stream_roundtrip {E} ce recv msgs frames chunks last kind :
  agree ce recv -> encode (H := H) (E := E) (inl <$> msgs) ce = Done (inl <$> frames) ->
  concat chunks = concat frames -> ends_well kind last ->
  exists self', collect (E := E) (S (length msgs)) (RecvStream_new ((FData <$> chunks) ++ last) kind recv) =
    Done (inl <$> msgs, self').
Proof. apply stream_received. Qed.

(** A message cut off after its prefix is not noticed: when a body ends between
    the prefix and the payload of a message, the stream of a request ends as if
    nothing had been sent. *)
Theorem truncated_message_unnoticed {E} len :
  0 < len < 2 ^ 32 ->
  exists self', poll_next (E := E) (T := T) (RecvStream_new (H := H) [FData (put_u8 0 ++ put_u32 len)] KRequest None) =
    Done (None, self') /\ rs_state self' = SBody None len.
Proof.
  intros Hlen. set (payload := replicate (Z.to_nat len) x00).
  assert (Zlen payload = len) as Hp by (unfold Zlen, payload; rewrite length_replicate; lia).
  set (self := with_buf (put_u8 0 ++ put_u32 len) (RecvStream_new (H := H) [FData (put_u8 0 ++ put_u32 len)] KRequest None)).
  assert (decode_chunk (T := T) self = (inl None, with_state (SBody None len) (with_buf [] self))) as Hd.
  { unfold decode_chunk. cbn [self RecvStream_new with_buf rs_state rs_buf].
    change (length (put_u8 0 ++ put_u32 len) <? PREFIX_LEN)%nat with false.
    rewrite (decode_header_frame None None payload [] self); [|done|lia|done|].
    - cbn [rs_state with_state]. rewrite Hp. unfold decode_body. by rewrite bool_decide_eq_true_2 by (change (Zlen (rs_buf _)) with 0; lia).
    - rewrite Hp. cbn [flag_of]. by rewrite app_nil_r. }
  unfold poll_next. cbn [RecvStream_new rs_body poll_body rs_state].
  assert (decode_chunk (T := T) (RecvStream_new (H := H) [FData (put_u8 0 ++ put_u32 len)] KRequest None) =
    (inl None, RecvStream_new [FData (put_u8 0 ++ put_u32 len)] KRequest None)) as -> by done.
  cbn [RecvStream_new rs_buf app]. fold self. cbn [rs_state self RecvStream_new with_buf]. fold self. rewrite Hd.
  cbn. eauto.
Qed.

(** [Identity] loses the message: a client that is configured to send with the
    identity encoding marks every message as compressed and writes no payload,
    and a server that reads the [grpc-encoding: identity] header refuses it. *)
Theorem identity_loses_message {E} (m : T) ops config :
  pb_encode m = Some ops ->
  encode (H := H) (E := E) [inl m] (Some Identity) = Done [inl (put_u8 1 ++ put_u32 0)] /\
  from_encoding_header (H := H) (Some (into_header_value Identity)) (Some config) = Done None /\
  exists st self', poll_next (E := E) (T := T)
      (RecvStream_new (H := H) [FData (put_u8 1 ++ put_u32 0)] KRequest None) = Done (Some (inr st), self') /\
    st_code st = Internal.
Proof.
  intros Hm. split_and!.
  - cbn [encode]. unfold encode_item, encode_buf, DefaultEncoder_encode. rewrite Hm. vm_compute. reflexivity.
  - reflexivity.
  - eexists _, _. split; [vm_compute; reflexivity|done].
Qed.
End Message.

(** * Negotiation *)

Lemma split_comma_piece p s :
  Forall (fun b => b <> ","%byte) p -> split_comma (p ++ ","%byte :: s) = p :: split_comma s.
Proof.
  induction 1 as [|b p Hb Hp IH]; cbn; [done|]. rewrite bool_decide_eq_false_2 by done. by rewrite IH.
Qed.

Lemma split_comma_last p : Forall (fun b => b <> ","%byte) p -> split_comma p = [p].
Proof.
  induction 1 as [|b p Hb Hp IH]; cbn; [done|]. rewrite bool_decide_eq_false_2 by done. by rewrite IH.
Qed.

Lemma split_comma_join l :
  l <> [] -> Forall (Forall (fun b => b <> ","%byte)) l -> split_comma (join l) = l.
Proof.
  intros Hne Hl. induction Hl as [|p l Hp Hl IH]; [done|]. destruct l as [|q l]; [by apply split_comma_last|].
  change (join (p :: q :: l)) with (p ++ ","%byte :: join (q :: l)).
  rewrite split_comma_piece by done. by rewrite IH.
Qed.

Lemma split_composed l : l <> [] -> split_comma (compose_encodings l) = into_header_value <$> l.
Proof.
  intros Hl. apply split_comma_join; [by destruct l|]. apply Forall_fmap, Forall_forall. intros e _.
  by destruct e; repeat constructor.
Qed.

Lemma visible_composed l : visible (compose_encodings l) = true.
Proof.
  unfold visible, compose_encodings. induction l as [|e [|e' l] IH]; [done|by destruct e|].
  cbn [fmap list_fmap] in *. change (join (?p :: ?q :: ?r)) with (p ++ ","%byte :: join (q :: r)).
  rewrite forallb_app. cbn [forallb]. rewrite IH. by destruct e.
Qed.

Lemma find_map_some {A B} (f : A -> option B) l b : find_map f l = Some b -> exists a, a ∈ l /\ f a = Some b.
Proof.
  induction l as [|a l IH]; cbn; [done|]. destruct (f a) eqn:E.
  - intros [= <-]. exists a. split; [left|done].
  - intros H. destruct (IH H) as (a' & Hin & Ha). exists a'. split; [by right|done].
Qed.

(** The encoding found under a name has that name and was available. *)
Lemma find_named_some name cfg e :
  find_named name cfg = Some e -> e ∈ cfg /\ into_header_value e = name /\ is_enabled e = true.
Proof.
  unfold find_named. intros Hf.
  repeat case_bool_decide; [..|done];
    destruct (list_find _ cfg) as [[i x]|] eqn:El; try done; cbn in Hf; injection Hf as ->;
    apply list_find_Some in El as (Hi & Hp & _); (split; [by eapply list_elem_of_lookup_2|]); by destruct e.
Qed.

Lemma enabled_in e cfg x :
  x ∈ cfg -> into_header_value e = into_header_value x ->
  existsb (eqb e) cfg = true.
Proof.
  intros Hin Hx. apply existsb_exists. exists x. split; [by apply list_elem_of_In|]. by destruct e, x.
Qed.

(** Both ends support the compression chosen: what a server picks from the
    [grpc-accept-encoding] header of a client is one of the encodings it may
    send, and the [grpc-encoding] header it then answers with is accepted by
    that client as the same algorithm. *)
Theorem compression_negotiation {H} `{HeaderMap H} first acc header send e :
  first ∈ acc -> into_accept_encoding_header_value first acc = Some header ->
  from_accept_encoding_header (Some header) send = Some e ->
  (exists cfg, send = Some cfg /\ e ∈ cfg) /\
  exists r, from_encoding_header (H := H) (Some (into_header_value e)) (Some acc) = Done (Some r) /\
    eqb e r = true.
Proof.
  intros Hfirst Hh Hs. unfold into_accept_encoding_header_value in Hh.
  destruct (is_enabled first) eqn:Een; [|done]. injection Hh as <-.
  unfold from_accept_encoding_header in Hs. destruct send as [cfg|]; [|done]. cbn in Hs.
  rewrite visible_composed, split_composed in Hs by by intros ->; apply elem_of_nil in Hfirst.
  apply find_map_some in Hs as (name & Hin & Hf).
  apply list_elem_of_fmap in Hin as (x & -> & Hx).
  assert (trim (into_header_value x) = into_header_value x) as Ht by by destruct x. rewrite Ht in Hf.
  apply find_named_some in Hf as (He & Hname & Hen).
  split; [eauto|]. unfold from_encoding_header.
  assert (existsb (eqb e) acc = true) as Hacc by (by eapply enabled_in).
  destruct e as [|c|c|c]; [done|exists (Gzip None)|exists (Zlib None)|exists (Zstd None)]; (split; [|done]).
  - change (existsb (eqb (Gzip None)) acc = true) in Hacc. by rewrite Hacc.
  - change (existsb (eqb (Zlib None)) acc = true) in Hacc. by rewrite Hacc.
  - change (existsb (eqb (Zstd None)) acc = true) in Hacc. by rewrite Hacc.
Qed.

(** * Concrete runs

    Concrete header maps, encodings and messages at which the theorems on the
    gRPC codec apply. *)

Module GrpcExample.

#[local] Instance debug : BuildProfile := true.

(** * Parameters *)

Definition encode_byte (set : byte -> bool) (b : byte) : bytes :=
  if set b || (128 <=? Z_of_byte b)
  then [percent; hex_digit (Z_of_byte b / 16); hex_digit (Z_of_byte b mod 16)] else [b].

Fixpoint decode_percent (bs : bytes) : bytes :=
  match bs with
  | [] => []
  | b :: rest =>
      match rest with
      | h :: l :: rest' =>
          if bool_decide (b = percent) then
            match hex_value h, hex_value l with
            | Some x, Some y => byte_of_Z (16 * x + y) :: decode_percent rest'
            | _, _ => b :: decode_percent rest
            end
          else b :: decode_percent rest
      | _ => b :: decode_percent rest
      end
  end.

#[export] Instance percents : PercentEncoding :=
  {| percent_encode set bs := concat (encode_byte set <$> bs); percent_decode := decode_percent |}.

#[export] Instance percents_laws : PercentEncodingLaws.
Proof.
  split; cbn; try done.
  - intros h l x y bs -> ->. done.
  - intros b [|h [|l bs]] Hb; cbn; [done|done|]. case_bool_decide as Hp; [|done].
    destruct Hb as [Hb|[-> | ->]]; [done|done|by destruct (hex_value h)].
Qed.

(** Hexadecimal text in the place of base64. *)
Fixpoint unhex (bs : bytes) : option bytes :=
  match bs with
  | [] => Some []
  | h :: l :: rest => x ← hex_value h; y ← hex_value l; t ← unhex rest; Some (byte_of_Z (16 * x + y) :: t)
  | _ => None
  end.

#[export] Instance base16 : Base64 :=
  {| base64_encode bs := concat ((fun b => [hex_digit (Z_of_byte b / 16); hex_digit (Z_of_byte b mod 16)]) <$> bs);
     base64_decode := unhex |}.

#[export] Instance base16_laws : Base64Laws.
Proof.
  split; cbn; intros bs; induction bs as [|b bs IH]; cbn; try done; destruct (nibbles b) as [Hh Hl].
  - rewrite !hex_value_digit by done. cbn. rewrite IH. cbn.
    by rewrite <- Z.div_mod, byte_of_Z_of_byte by lia.
  - by rewrite !hex_digit_header, IH by done.
Qed.

(** A compressor that puts the name of the algorithm in front. *)
Definition algo_byte (a : Algo) : byte := match a with AGzip => "g"%byte | AZlib => "z"%byte | AZstd => "s"%byte end.

#[export] Instance tagger : Compressor :=
  {| zip a _ bs := Some (algo_byte a :: bs);
     unzip a bs := match bs with b :: bs => if bool_decide (b = algo_byte a) then Some bs else None | [] => None end;
     zstd_default_level := 3 |}.

#[export] Instance tagger_laws : CompressorLaws.
Proof. split. intros a level bs z [= <-]. cbn. by rewrite bool_decide_eq_true_2. Qed.

(** Messages that are their own encoding, written in two nodes. *)
#[export] Instance raw_message : PbMessage bytes :=
  {| pb_encode m := Some [LbWrite (take 2 m); LbInsert (drop 2 m)]; pb_decode bs := Some bs |}.

#[export] Instance raw_message_laws : PbMessageLaws bytes.
Proof. split. intros m ops [= <-]. cbn. by rewrite app_nil_r, take_drop. Qed.

(** * Witnesses *)

Definition not_found : Status Headers :=
  mkStatus NotFound (str "no such key: {a}") (str "detail") [(str "x-request", str "17")].

Lemma status_header_roundtrip_witness :
  exists h s', Status.to_header_map not_found = Done h /\
    Status.from_header_map (E := Empty_set) h = Done (Some s') /\ st_code s' = NotFound.
Proof.
  assert (is_utf8 (st_message not_found) = true) as Hu by (vm_compute; reflexivity).
  assert (has_escape (st_message not_found) = false) as He by (vm_compute; reflexivity).
  assert (hm_get GRPC_STATUS_DETAILS_HEADER (st_metadata not_found) = None) as Hd by (vm_compute; reflexivity).
  destruct (status_header_roundtrip (E := Empty_set) not_found Hu He Hd) as (h & s' & H1 & H2 & H3 & _).
  exists h, s'. split; [exact H1|]. split; [exact H2|exact H3].
Defined.

Definition percent_off : Status Headers := mkStatus NotFound (str "50%FF") [] [].

Definition outcome_get {E A} (d : A) (m : outcome E A) : A := match m with Done a => a | _ => d end.

Definition percent_headers : Headers := Eval vm_compute in outcome_get [] (Status.to_header_map percent_off).

Definition percent_received : Status Headers :=
  Eval vm_compute in default percent_off
    (outcome_get None (Status.from_header_map (E := Empty_set) percent_headers)).

Lemma status_percent_message_altered_witness :
  st_message percent_received <> st_message percent_off /\ st_code percent_received = Unknown.
Proof.
  assert (has_escape (st_message percent_off) = true) as He by (vm_compute; reflexivity).
  assert (Status.to_header_map percent_off = Done percent_headers) as Ht by (vm_compute; reflexivity).
  assert (Status.from_header_map (E := Empty_set) percent_headers = Done (Some percent_received)) as Hf
    by (vm_compute; reflexivity).
  split; [|reflexivity].
  exact (status_percent_message_altered (E := Empty_set) percent_off percent_received percent_headers He Ht Hf).
Defined.

Lemma deadline_propagates_witness :
  exists h' : Headers, client_timeout (E := Empty_set) (Some (from_millis 1500)) (Some (from_secs 90)) [] =
      Done (h', Some (from_millis 1500)) /\
    server_timeout (E := Empty_set) None h' = Done (Some (from_millis 1500), Some (from_millis 1500)).
Proof.
  destruct (deadline_propagates (H := Headers) (E := Empty_set) (Some (from_millis 1500)) (Some (from_secs 90))
    (from_millis 1500) [] None None) as (h' & H1 & H2 & _); [vm_compute; reflexivity| |].
  - split; [vm_compute; discriminate|]. right. vm_compute. reflexivity.
  - exists h'. split; [exact H1|exact H2].
Defined.

Lemma timeout_hours_overflow_witness : parse_timeout (str "5124095576030432H") = Panic.
Proof.
  change (str "5124095576030432H") with (dec_of_Z 5124095576030432 ++ str "H").
  exact (timeout_hours_overflow 5124095576030432 ltac:(lia) ltac:(lia)).
Defined.

(** Two messages sent with gzip, cut at odd places. *)
Definition sent : list bytes := [str "hello"; str "gRPC"].
Definition gzip6 : option CompressionEncoding := Some (Gzip (Some 6)).

Definition sent_frames : list bytes :=
  Eval vm_compute in omap (fun x => match x with inl f => Some f | inr _ => None end)
    (outcome_get [] (encode (H := Headers) (E := Empty_set) (inl <$> sent) gzip6)).

Definition cut : list bytes :=
  Eval vm_compute in [take 3 (concat sent_frames); take 9 (drop 3 (concat sent_frames)); []; drop 12 (concat sent_frames)].

Definition ok_trailers : Headers := [(str "grpc-status", str "0")].

Lemma grpc_stream_roundtrip_witness :
  exists self', collect (E := Empty_set) 3
    (RecvStream_new ((FData <$> cut) ++ [FTrailers ok_trailers]) (KResponse 200) (Some (Gzip None))) =
    Done (inl <$> sent, self').
Proof.
  assert (agree gzip6 (Some (Gzip None))) as Ha by (split; reflexivity).
  assert (encode (H := Headers) (E := Empty_set) (inl <$> sent) gzip6 = Done (inl <$> sent_frames)) as He
    by (vm_compute; reflexivity).
  assert (concat cut = concat sent_frames) as Hc by (vm_compute; reflexivity).
  assert (ends_well (KResponse 200) [FTrailers ok_trailers]) as Hk by (vm_compute; reflexivity).
  exact (grpc_stream_roundtrip gzip6 (Some (Gzip None)) sent sent_frames cut [FTrailers ok_trailers]
    (KResponse 200) Ha He Hc Hk).
Defined.

Lemma truncated_message_unnoticed_witness :
  exists self', poll_next (E := Empty_set) (T := bytes)
    (RecvStream_new (H := Headers) [FData (put_u8 0 ++ put_u32 77)] KRequest None) = Done (None, self').
Proof.
  destruct (truncated_message_unnoticed (H := Headers) (T := bytes) (E := Empty_set) 77) as (self' & Hs & _); [lia|].
  exists self'. exact Hs.
Defined.

Lemma identity_loses_message_witness :
  encode (H := Headers) (E := Empty_set) [inl (str "hello")] (Some Identity) = Done [inl (put_u8 1 ++ put_u32 0)].
Proof.
  destruct (identity_loses_message (H := Headers) (E := Empty_set) (str "hello")
    [LbWrite (str "he"); LbInsert (str "llo")] []) as [He _]; [vm_compute; reflexivity|exact He].
Defined.

Definition accepts : list CompressionEncoding := [Zstd None; Gzip None; Identity].

Lemma compression_negotiation_witness :
  exists r, CompressionEncoding.from_encoding_header (H := Headers) (Some (str "gzip")) (Some accepts) = Done (Some r) /\
    CompressionEncoding.eqb (Gzip (Some 6)) r = true.
Proof.
  destruct (compression_negotiation (H := Headers) (Zstd None) accepts (str "zstd,gzip,identity")
    (Some [Zlib (Some 1); Gzip (Some 6)]) (Gzip (Some 6))) as [_ Hr];
    [left|vm_compute; reflexivity|vm_compute; reflexivity|exact Hr].
Defined.
End GrpcExample.
