(* ===== verification/GrpcMetadata.v ===== *)
(** gRPC metadata (volo-grpc/src/metadata: encoding.rs, key.rs, value.rs, map.rs):
    keys and values that are text or, under a name that ends in [-bin], base64,
    and the map of them over [http::HeaderMap].

    [HeaderMap], the names it accepts and the base64 engine are parameters. The
    phantom type of a key or value is its index. A [MetadataMap] is the
    [HeaderMap] it wraps; the mark of a sensitive value, which only its [Debug]
    text shows, is left out. A [&mut] to a value is the update done through it. *)

From S2P Require Import Prelude Utf8 Headers GrpcStatus.

(** * Encodings (encoding.rs) *)

Inductive VE : Type := Ascii | Binary.

#[export] Instance VE_eq_dec : EqDecision VE.
Proof. solve_decision. Defined.

Definition ends_with (s p : bytes) : bool := bool_decide (drop (length s - length p) s = p).

(** [ValueEncoding::is_valid_key]. *)
Definition is_valid_key (ve : VE) (key : bytes) : bool :=
  match ve with
  | Binary => ends_with key (str "-bin")
  | Ascii => negb (ends_with key (str "-bin"))
  end.

Inductive InvalidMetadataValueBytes : Type := invalid_metadata_value_bytes.
Inductive InvalidMetadataValue : Type := invalid_metadata_value.
Inductive InvalidMetadataKey : Type := invalid_metadata_key.
Inductive ToStrError : Type := to_str_error.

#[export] Instance InvalidMetadataValueBytes_eq_dec : EqDecision InvalidMetadataValueBytes.
Proof. solve_decision. Defined.

Section Encoding.
Context `{Base64}.

(** [Sealed::is_empty]. *)
Definition ve_is_empty (ve : VE) (value : bytes) : bool :=
  match ve with
  | Ascii => bool_decide (value = [])
  | Binary => forallb (fun c => bool_decide (c = "="%byte)) value
  end.

(** [Sealed::from_bytes]. *)
Definition ve_from_bytes (ve : VE) (value : bytes) : outcome InvalidMetadataValueBytes bytes :=
  match header_value (match ve with Ascii => value | Binary => base64_encode value end) with
  | Some v => Done v
  | None => Fail invalid_metadata_value_bytes
  end.

(** [Sealed::from_static]; [HeaderValue::from_static] panics on a byte that is
    not visible ASCII. *)
Definition ve_from_static {E} (ve : VE) (value : bytes) : outcome E bytes :=
  match ve with
  | Ascii => unwrap (to_str value)
  | Binary => match base64_decode value with None => Panic | Some _ => Done value end
  end.

(** [Sealed::decode]. *)
Definition ve_decode (ve : VE) (value : bytes) : outcome InvalidMetadataValueBytes bytes :=
  match ve with
  | Ascii => Done value
  | Binary => match base64_decode value with Some v => Done v | None => Fail invalid_metadata_value_bytes end
  end.

(** [Sealed::equals]. *)
Definition ve_equals (ve : VE) (a b : bytes) : bool :=
  match ve with
  | Ascii => bool_decide (a = b)
  | Binary => match base64_decode a with Some decoded => bool_decide (decoded = b) | None => bool_decide (a = b) end
  end.

(** [Sealed::values_equal]. *)
Definition ve_values_equal (ve : VE) (a b : bytes) : bool :=
  match ve with
  | Ascii => bool_decide (a = b)
  | Binary =>
      match ve_decode Binary a, ve_decode Binary b with
      | Done a, Done b => bool_decide (a = b)
      | Fail _, Fail _ => true
      | _, _ => false
      end
  end.
End Encoding.

(** * Names *)

(** [HeaderName::from_bytes], and what is documented of it: a name is normalised
    to lower case, a normalised name is accepted as it is, and words of
    lower-case letters and hyphens are names. *)
Class HeaderNames : Type := { name_of_bytes : bytes -> option bytes }.

Definition lower (s : bytes) : bytes := ascii_lower <$> s.

Definition word_byte (b : byte) : bool := let z := Z_of_byte b in (97 <=? z) && (z <=? 122) || (z =? 45).
Definition word (s : bytes) : bool := negb (bool_decide (s = [])) && (Zlen s <=? 64) && forallb word_byte s.

Class HeaderNamesLaws `{HeaderNames} : Prop := {
  name_lower s n : name_of_bytes s = Some n -> n = lower s;
  name_normal s n : name_of_bytes s = Some n -> name_of_bytes n = Some n;
  name_word s : word s = true -> name_of_bytes s = Some s
}.

(** [HeaderName::from_static], which panics on upper case. *)
Definition name_from_static {E} `{HeaderNames} (s : bytes) : outcome E bytes :=
  if bool_decide (lower s = s) then unwrap (name_of_bytes s) else Panic.

(** * Keys (key.rs) *)

Record MetadataKey (ve : VE) : Type := mkKey { key_inner : bytes }.
Arguments mkKey {ve} key_inner.
Arguments key_inner {ve} m.

Section Keys.
Context `{HeaderNames}.

(** [MetadataKey::from_bytes]. *)
Definition key_from_bytes (ve : VE) (src : bytes) : outcome InvalidMetadataKey (MetadataKey ve) :=
  match name_of_bytes src with
  | Some name => if is_valid_key ve name then Done (mkKey name) else Panic
  | None => Fail invalid_metadata_key
  end.

(** [MetadataKey::from_static]. *)
Definition key_from_static {E} (ve : VE) (src : bytes) : outcome E (MetadataKey ve) :=
  name ← name_from_static src;
  if is_valid_key ve name then Done (mkKey name) else Panic.

(** [MetadataKey::from_str]. *)
Definition key_from_str (ve : VE) (s : bytes) : outcome InvalidMetadataKey (MetadataKey ve) :=
  map_err (fun _ => invalid_metadata_key) (key_from_bytes ve s).

(** [PartialEq<str> for MetadataKey]: [HeaderName] compares without case. *)
Definition key_eq_str {ve} (k : MetadataKey ve) (other : bytes) : bool := eq_ignore_ascii_case (key_inner k) other.
End Keys.

(** * Values (value.rs) *)

Record MetadataValue (ve : VE) : Type := mkValue { val_inner : bytes }.
Arguments mkValue {ve} val_inner.
Arguments val_inner {ve} m.

(** What [Hash for MetadataValue<Binary>] feeds to the hasher. *)
Inductive Hashed : Type := HashInner (bs : bytes) | HashDecoded (bs : bytes) | HashError.

(** The order of byte slices. *)
Fixpoint bytes_compare (a b : bytes) : comparison :=
  match a, b with
  | [], [] => Eq
  | [], _ => Lt
  | _, [] => Gt
  | x :: a, y :: b => match Z_of_byte x ?= Z_of_byte y with Eq => bytes_compare a b | c => c end
  end.

Section Values.
Context `{Base64} `{HeaderNames}.

(** [MetadataValue::from_static]. *)
Definition value_from_static {E} (ve : VE) (src : bytes) : outcome E (MetadataValue ve) :=
  v ← ve_from_static ve src; Done (mkValue v).

(** [MetadataValue::try_from_bytes]. *)
Definition try_from_bytes (ve : VE) (src : bytes) : outcome InvalidMetadataValueBytes (MetadataValue ve) :=
  v ← ve_from_bytes ve src; Done (mkValue v).

(** [MetadataValue::<Binary>::from_bytes]. *)
Definition value_from_bytes {E} (src : bytes) : outcome E (MetadataValue Binary) :=
  match try_from_bytes Binary src with Done v => Done v | _ => Panic end.

(** [MetadataValue::is_empty]. *)
Definition value_is_empty {ve} (v : MetadataValue ve) : bool := ve_is_empty ve (val_inner v).

(** [MetadataValue::to_bytes]. *)
Definition to_bytes {ve} (v : MetadataValue ve) : outcome InvalidMetadataValueBytes bytes := ve_decode ve (val_inner v).

(** [MetadataValue::<Ascii>::from_str]: [HeaderValue::from_str] takes visible
    ASCII. *)
Definition value_from_str (src : bytes) : outcome InvalidMetadataValue (MetadataValue Ascii) :=
  match to_str src with Some v => Done (mkValue v) | None => Fail invalid_metadata_value end.

(** [From<MetadataKey> for MetadataValue<Ascii>]. *)
Definition value_from_key {ve} (h : MetadataKey ve) : MetadataValue Ascii := mkValue (key_inner h).

(** [from_integers!]: the decimal text of a number. *)
Definition value_from_integer (num : Z) : MetadataValue Ascii := mkValue (dec_of_Z num).

(** [MetadataValue::<Ascii>::to_str]. *)
Definition value_to_str (v : MetadataValue Ascii) : outcome ToStrError bytes :=
  match to_str (val_inner v) with Some s => Done s | None => Fail to_str_error end.

(** [Hash]. *)
Definition value_hash {ve} (v : MetadataValue ve) : Hashed :=
  match ve with
  | Ascii => HashInner (val_inner v)
  | Binary => match to_bytes v with Done b => HashDecoded b | _ => HashError end
  end.

(** [PartialEq], [Ord] and [PartialEq<[u8]>]. *)
Definition value_eq {ve} (a b : MetadataValue ve) : bool := ve_values_equal ve (val_inner a) (val_inner b).
Definition value_cmp {ve} (a b : MetadataValue ve) : comparison := bytes_compare (val_inner a) (val_inner b).
Definition value_eq_bytes {ve} (v : MetadataValue ve) (other : bytes) : bool := ve_equals ve (val_inner v) other.
End Values.

(** * The map (map.rs) *)

(** What a lookup takes ([AsMetadataKey]): a typed key, or text. *)
Inductive AsKey (ve : VE) : Type := ByKey (k : MetadataKey ve) | ByStr (s : bytes).
Arguments ByKey {ve} k.
Arguments ByStr {ve} s.

(** What an insertion takes ([IntoMetadataKey]): a typed key, or static text. *)
Inductive IntoKey (ve : VE) : Type := IntoKeyKey (k : MetadataKey ve) | IntoKeyStatic (s : bytes).
Arguments IntoKeyKey {ve} k.
Arguments IntoKeyStatic {ve} s.

Inductive KeyAndValueRef : Type :=
| KVAscii (k : MetadataKey Ascii) (v : MetadataValue Ascii)
| KVBinary (k : MetadataKey Binary) (v : MetadataValue Binary).

Inductive KeyRef : Type := KeyAscii (k : MetadataKey Ascii) | KeyBinary (k : MetadataKey Binary).
Inductive ValueRef : Type := ValueAscii (v : MetadataValue Ascii) | ValueBinary (v : MetadataValue Binary).

(** An entry is the slot of a name. *)
Inductive Entry (ve : VE) : Type := Occupied (name : bytes) | Vacant (name : bytes).
Arguments Occupied {ve} name.
Arguments Vacant {ve} name.

Section Map.
Context {H : Type} `{HeaderMap H} `{HeaderEntries H} `{HeaderNames}.

(** Lookups of [HeaderMap] by text: text that is no name finds nothing. *)
Definition hm_get_str (s : bytes) (h : H) : option bytes := n ← name_of_bytes s; hm_get n h.
Definition hm_get_all_str (s : bytes) (h : H) : list bytes :=
  match name_of_bytes s with Some n => hm_get_all n h | None => [] end.
Definition hm_get_mut_str (s : bytes) (f : bytes -> bytes) (h : H) : H :=
  match name_of_bytes s with Some n => hm_get_mut n f h | None => h end.
Definition hm_remove_str (s : bytes) (h : H) : option bytes * H :=
  match name_of_bytes s with Some n => (hm_get n h, hm_remove n h) | None => (None, h) end.

(** [MetadataMap::get], [get_bin]. *)
Definition md_get (ve : VE) (key : AsKey ve) (map : H) : option (MetadataValue ve) :=
  match key with
  | ByKey k => mkValue <$> hm_get (key_inner k) map
  | ByStr s => if negb (is_valid_key ve s) then None else mkValue <$> hm_get_str s map
  end.

(** [MetadataMap::get_mut], [get_bin_mut]. *)
Definition md_get_mut (ve : VE) (key : AsKey ve) (f : MetadataValue ve -> MetadataValue ve) (map : H) : H :=
  let g v := val_inner (f (mkValue v)) in
  match key with
  | ByKey k => hm_get_mut (key_inner k) g map
  | ByStr s => if negb (is_valid_key ve s) then map else hm_get_mut_str s g map
  end.

(** [MetadataMap::get_all], [get_all_bin]: the iterator's values. *)
Definition md_get_all (ve : VE) (key : AsKey ve) (map : H) : list (MetadataValue ve) :=
  match key with
  | ByKey k => mkValue <$> hm_get_all (key_inner k) map
  | ByStr s => if negb (is_valid_key ve s) then [] else mkValue <$> hm_get_all_str s map
  end.

(** [MetadataMap::contains_key], which takes a key of either kind. *)
Definition md_contains_key {ve} (key : AsKey ve) (map : H) : bool :=
  match key with
  | ByKey k => hm_contains (key_inner k) map
  | ByStr s => match hm_get_str s map with Some _ => true | None => false end
  end.

(** [MetadataMap::remove], [remove_bin]. *)
Definition md_remove (ve : VE) (key : AsKey ve) (map : H) : option (MetadataValue ve) * H :=
  match key with
  | ByKey k => (mkValue <$> hm_get (key_inner k) map, hm_remove (key_inner k) map)
  | ByStr s =>
      if negb (is_valid_key ve s) then (None, map)
      else let '(v, map) := hm_remove_str s map in (mkValue <$> v, map)
  end.

Definition into_name {E} (ve : VE) (key : IntoKey ve) : outcome E bytes :=
  match key with
  | IntoKeyKey k => Done (key_inner k)
  | IntoKeyStatic s => k ← key_from_static ve s; Done (key_inner k)
  end.

(** [MetadataMap::insert], [insert_bin]: the first of the values replaced. *)
Definition md_insert {E} (ve : VE) (key : IntoKey ve) (val : MetadataValue ve) (map : H) :
    outcome E (option (MetadataValue ve) * H) :=
  n ← into_name ve key; Done (mkValue <$> hm_get n map, hm_insert n (val_inner val) map).

(** [MetadataMap::append], [append_bin]: whether the name was there. *)
Definition md_append {E} (ve : VE) (key : IntoKey ve) (val : MetadataValue ve) (map : H) : outcome E (bool * H) :=
  n ← into_name ve key; Done (hm_contains n map, hm_append n (val_inner val) map).

(** [MetadataMap::merge]. *)
Definition md_merge (other map : H) : H := hm_extend other map.

(** [MetadataMap::clear], [len], [keys_len], [is_empty]. *)
Definition md_clear (map : H) : H := hm_empty.
Definition md_len (map : H) : Z := Zlen (hm_iter map).
Definition header_names (map : H) : list bytes := remove_dups (hm_iter map).*1.
Definition md_keys_len (map : H) : Z := Zlen (header_names map).
Definition md_is_empty (map : H) : bool := bool_decide (md_len map = 0).

(** The items of [MetadataMap::iter], [keys] and [values]. *)
Definition kv_of (e : bytes * bytes) : KeyAndValueRef :=
  if is_valid_key Ascii e.1 then KVAscii (mkKey e.1) (mkValue e.2) else KVBinary (mkKey e.1) (mkValue e.2).
Definition md_iter (map : H) : list KeyAndValueRef := kv_of <$> hm_iter map.

Definition key_of (name : bytes) : KeyRef :=
  if is_valid_key Ascii name then KeyAscii (mkKey name) else KeyBinary (mkKey name).
Definition md_keys (map : H) : list KeyRef := key_of <$> header_names map.

Definition value_of (e : bytes * bytes) : ValueRef :=
  if is_valid_key Ascii e.1 then ValueAscii (mkValue e.2) else ValueBinary (mkValue e.2).
Definition md_values (map : H) : list ValueRef := value_of <$> hm_iter map.

(** [iter_mut] and [values_mut] with what is done to each kind of value. *)
Definition md_iter_mut (f : MetadataKey Ascii -> MetadataValue Ascii -> MetadataValue Ascii)
    (g : MetadataKey Binary -> MetadataValue Binary -> MetadataValue Binary) (map : H) : H :=
  hm_iter_mut (fun k v =>
    if is_valid_key Ascii k then val_inner (f (mkKey k) (mkValue v)) else val_inner (g (mkKey k) (mkValue v))) map.

(** [MetadataMap::generic_entry] ([entry], [entry_bin]). *)
Definition md_entry (ve : VE) (key : AsKey ve) (map : H) : outcome InvalidMetadataKey (Entry ve) :=
  n ← match key with
      | ByKey k => Done (key_inner k)
      | ByStr s =>
          if negb (is_valid_key ve s) then Fail invalid_metadata_key
          else match name_of_bytes s with Some n => Done n | None => Fail invalid_metadata_key end
      end;
  Done (if hm_contains n map then Occupied n else Vacant n).

(** [Entry::or_insert]: the value the reference points at, and the map. *)
Definition or_insert {ve} (e : Entry ve) (dflt : MetadataValue ve) (map : H) : option (MetadataValue ve) * H :=
  match e with
  | Occupied n => (mkValue <$> hm_get n map, map)
  | Vacant n => (Some dflt, hm_insert n (val_inner dflt) map)
  end.

(** [OccupiedEntry]: [insert], [insert_mult] (all values replaced), [append],
    [remove], [remove_entry_mult], [iter]. *)
Definition entry_insert {ve} (n : bytes) (value : MetadataValue ve) (map : H) : option (MetadataValue ve) * H :=
  (mkValue <$> hm_get n map, hm_insert n (val_inner value) map).
Definition entry_insert_mult {ve} (n : bytes) (value : MetadataValue ve) (map : H) : list (MetadataValue ve) * H :=
  (mkValue <$> hm_get_all n map, hm_insert n (val_inner value) map).
Definition entry_append {ve} (n : bytes) (value : MetadataValue ve) (map : H) : H := hm_append n (val_inner value) map.
Definition entry_remove {ve} (n : bytes) (map : H) : option (MetadataValue ve) * H :=
  (mkValue <$> hm_get n map, hm_remove n map).
Definition entry_remove_mult {ve} (n : bytes) (map : H) : MetadataKey ve * list (MetadataValue ve) * H :=
  (mkKey n, mkValue <$> hm_get_all n map, hm_remove n map).
Definition entry_iter {ve} (n : bytes) (map : H) : list (MetadataValue ve) := mkValue <$> hm_get_all n map.

(** [VacantEntry::insert_entry]: the entry it returns is typed as text. *)
Definition insert_entry {ve} (n : bytes) (value : MetadataValue ve) (map : H) : Entry Ascii * H :=
  (Occupied n, hm_insert n (val_inner value) map).
End Map.
