(* ===== verification/GrpcMetadataSpec.v ===== *)
(** What gRPC metadata promises: equality and hashing of values, lookups against
    iteration, and values read back as they were written. *)

From S2P Require Import Prelude Utf8 Headers GrpcStatus GrpcMetadata.

(** * Values *)

Section Values.
Context `{Base64}.

(** Two values are equal when they stand for the same bytes; binary values
    that decode to nothing are all equal. *)
Definition meaning {ve} (v : MetadataValue ve) : option bytes :=
  match to_bytes v with Done b => Some b | _ => None end.

Lemma value_eq_meaning {ve} (a b : MetadataValue ve) : value_eq a b = true <-> meaning a = meaning b.
Proof.
  unfold value_eq, meaning, to_bytes. destruct ve; cbn.
  - rewrite bool_decide_eq_true. split; congruence.
  - destruct (base64_decode (val_inner a)), (base64_decode (val_inner b)); cbn; try done.
    rewrite bool_decide_eq_true. split; congruence.
Qed.

(** Equality of values is an equivalence and equal values hash alike, as [Eq] and
    [Hash] ask. *)
Lemma value_eq_lawful ve :
  Equivalence (fun a b : MetadataValue ve => value_eq a b = true) /\
  forall a b : MetadataValue ve, value_eq a b = true -> value_hash a = value_hash b.
Proof.
  split; [split; repeat intro; rewrite value_eq_meaning in *; congruence|].
  intros a b Hab%value_eq_meaning. unfold meaning in Hab. unfold value_hash. destruct ve; cbn in *; [congruence|].
  destruct (base64_decode (val_inner a)), (base64_decode (val_inner b)); cbn in *; congruence.
Qed.

(** [Ord] does not follow: it compares the encoded text, so two texts for the
    same bytes are equal and yet ordered. *)
Lemma value_order_not_lawful (a b : MetadataValue Binary) :
  value_cmp a b <> Eq -> base64_decode (val_inner a) = base64_decode (val_inner b) ->
  value_eq a b = true /\ value_cmp a b <> Eq.
Proof. intros Hc Hd. split; [|done]. apply value_eq_meaning. unfold meaning, to_bytes. cbn. by rewrite Hd. Qed.
End Values.

(** * Lookups *)

Section Lookups.
Context {H : Type} `{HeaderEntriesLaws H} `{HeaderNamesLaws} `{Base64Laws}.

(** The value of an item of [iter] that has the name and the encoding. *)
Definition listed (ve : VE) (name : bytes) (kv : KeyAndValueRef) : option (MetadataValue ve) :=
  match ve with
  | Ascii => match kv with KVAscii k v => if bool_decide (key_inner k = name) then Some v else None | _ => None end
  | Binary => match kv with KVBinary k v => if bool_decide (key_inner k = name) then Some v else None | _ => None end
  end.

Lemma listed_all ve name (map : H) :
  omap (listed ve name) (md_iter map) = if is_valid_key ve name then mkValue <$> hm_get_all name map else [].
Proof.
  unfold md_iter, hm_get_all. induction (hm_iter map) as [|[k v] l IH]; [by destruct (is_valid_key _ _)|].
  rewrite fmap_cons, filter_cons. cbn [omap list_omap fst]. rewrite IH. clear IH.
  unfold kv_of. cbn [fst snd]. destruct ve; cbn [is_valid_key]; destruct (ends_with k _) eqn:Ek; cbn [negb listed key_inner];
    destruct (decide (k = name)) as [->|Hk]; rewrite ?Ek; cbn;
    rewrite ?(bool_decide_eq_true_2 (name = name)), ?(bool_decide_eq_false_2 (k = name)) by done; done.
Qed.

(** C39: A lookup by text, when its name has the encoding its text has, finds the
    values that iteration lists under that name and encoding. *)
Theorem metadata_lookup_typed ve s n (map : H) :
  name_of_bytes s = Some n -> is_valid_key ve s = is_valid_key ve n ->
  md_get_all ve (ByStr s) map = omap (listed ve n) (md_iter map) /\
  md_get ve (ByStr s) map = head (omap (listed ve n) (md_iter map)) /\
  md_contains_key (ve := ve) (ByStr s) map = negb (bool_decide (hm_get_all n map = [])).
Proof.
  intros Hn Hv. rewrite listed_all. cbn. unfold hm_get_all_str, hm_get_str. rewrite Hn, Hv. cbn.
  rewrite get_first. destruct (is_valid_key ve n), (hm_get_all n map); cbn; by rewrite ?bool_decide_eq_true_2.
Qed.

(** Text in lower case is its own name. *)
Lemma lower_name s n : name_of_bytes s = Some n -> lower s = s -> n = s.
Proof. intros Hn Hl. apply name_lower in Hn. congruence. Qed.

(** Text in mixed case is looked up under its lower-case name but checked as it
    stands, so a binary value is found as text, and not found as binary. *)
Lemma mixed_case_type_confusion v map :
  name_of_bytes (str "Trace-Bin") = Some (str "trace-bin") -> hm_get (str "trace-bin") map = Some v ->
  md_get Ascii (ByStr (str "Trace-Bin")) map = Some (mkValue v) /\ md_get Binary (ByStr (str "Trace-Bin")) map = None.
Proof.
  intros Hn Hg. split; [|reflexivity].
  change (md_get Ascii (ByStr (str "Trace-Bin")) map) with (@mkValue Ascii <$> hm_get_str (str "Trace-Bin") map).
  unfold hm_get_str. rewrite Hn. cbn [mbind option_bind]. by rewrite Hg.
Qed.

(** What is written under a key is what is read under it, bytes for bytes, and
    nothing else changes. *)
Theorem binary_metadata_roundtrip {E} key n bs (map : H) :
  into_name (E := E) Binary key = Done n ->
  exists v old map',
    value_from_bytes (E := E) bs = Done v /\ md_insert (E := E) Binary key v map = Done (old, map') /\
    to_bytes v = Done bs /\ md_get_all Binary (ByKey (mkKey n)) map' = [v] /\
    forall n', n' <> n -> hm_get_all n' map' = hm_get_all n' map.
Proof.
  intros Hn. unfold value_from_bytes, try_from_bytes, ve_from_bytes, header_value. rewrite base64_text. cbn.
  eexists _, _, _. split; [done|]. unfold md_insert. rewrite Hn. cbn. split; [done|].
  unfold to_bytes. cbn. rewrite base64_decode_encode. split; [done|]. split.
  - rewrite all_insert, bool_decide_eq_true_2 by done. done.
  - intros n' Hne. by rewrite all_insert, bool_decide_eq_false_2.
Qed.

(** Sanitised headers have none of the reserved names, and all the others. *)
Lemma sanitized_headers k (h : H) :
  hm_get_all k (into_sanitized_headers h) = if bool_decide (k ∈ GRPC_RESERVED_HEADERS) then [] else hm_get_all k h.
Proof.
  unfold into_sanitized_headers. generalize GRPC_RESERVED_HEADERS. intros l. revert h.
  induction l as [|r l IH]; intros h; cbn [foldl]; [done|]. rewrite IH, all_remove.
  repeat case_bool_decide; set_solver.
Qed.
End Lookups.
