(* ===== verification/GrpcMeta.v ===== *)
(** The context of a gRPC call (volo-grpc/src/context.rs) and the two services
    that carry it, with the metainfo, in the metadata: the client's
    (volo-grpc/src/client/meta.rs) and the server's (volo-grpc/src/server/meta.rs).

    The metainfo crate is a parameter; its task-local is passed along. Spans and
    the extensions of requests and responses are left out. *)

From S2P Require Import Prelude Net Context Utf8 Headers GrpcStatus GrpcCodec GrpcMetadata.

(** * Contexts *)

Record GrpcConfig : Type := mkGrpcConfig {
  gc_rpc_timeout : option Duration;
  gc_connect_timeout : option Duration;
  gc_read_timeout : option Duration;
  gc_write_timeout : option Duration;
  gc_accept_compressions : option (list CompressionEncoding);
  gc_send_compressions : option (list CompressionEncoding)
}.

Definition grpc_config_default : GrpcConfig := mkGrpcConfig None None None None None None.

(** [Reusable::clear for Config]: the lists are emptied, not dropped. *)
Definition grpc_config_clear (c : GrpcConfig) : GrpcConfig :=
  mkGrpcConfig None None None None ((fun _ => []) <$> gc_accept_compressions c) ((fun _ => []) <$> gc_send_compressions c).

Definition or_else {A} (new old : option A) : option A := match new with Some a => Some a | None => old end.

(** [Config::merge]. *)
Definition grpc_config_merge (self other : GrpcConfig) : GrpcConfig :=
  mkGrpcConfig (or_else (gc_rpc_timeout other) (gc_rpc_timeout self))
    (or_else (gc_connect_timeout other) (gc_connect_timeout self))
    (or_else (gc_read_timeout other) (gc_read_timeout self))
    (or_else (gc_write_timeout other) (gc_write_timeout self))
    (or_else (gc_accept_compressions other) (gc_accept_compressions self))
    (or_else (gc_send_compressions other) (gc_send_compressions self)).

(** [RpcCx] with the statistics of its side: when the transport was made, or the
    request processed. *)
Record GrpcCx : Type := mkGrpcCx {
  gx_role : Role;
  gx_caller : Endpoint;
  gx_callee : Endpoint;
  gx_method : bytes;
  gx_config : GrpcConfig;
  gx_start_at : option Z;
  gx_end_at : option Z
}.

(** [ServerContext::default]. *)
Definition server_cx_default : GrpcCx :=
  mkGrpcCx Server (Endpoint.new []) (Endpoint.new []) [] grpc_config_default None None.

Definition gx_caller_mut f (cx : GrpcCx) : GrpcCx :=
  mkGrpcCx (gx_role cx) (f (gx_caller cx)) (gx_callee cx) (gx_method cx) (gx_config cx) (gx_start_at cx) (gx_end_at cx).
Definition gx_callee_mut f (cx : GrpcCx) : GrpcCx :=
  mkGrpcCx (gx_role cx) (gx_caller cx) (f (gx_callee cx)) (gx_method cx) (gx_config cx) (gx_start_at cx) (gx_end_at cx).
Definition gx_set_method m (cx : GrpcCx) : GrpcCx :=
  mkGrpcCx (gx_role cx) (gx_caller cx) (gx_callee cx) m (gx_config cx) (gx_start_at cx) (gx_end_at cx).
Definition gx_record_start t (cx : GrpcCx) : GrpcCx :=
  mkGrpcCx (gx_role cx) (gx_caller cx) (gx_callee cx) (gx_method cx) (gx_config cx) (Some t) (gx_end_at cx).
Definition gx_record_end t (cx : GrpcCx) : GrpcCx :=
  mkGrpcCx (gx_role cx) (gx_caller cx) (gx_callee cx) (gx_method cx) (gx_config cx) (gx_start_at cx) (Some t).

(** * State and errors

    The closures of both services change their state and may return early with an
    error, which leaves the changes made so far. *)

Definition stm (St E A : Type) : Type := St -> St * outcome E A.

#[export] Instance stm_ret {St E} : MRet (stm St E) := fun A a s => (s, Done a).
#[export] Instance stm_bind {St E} : MBind (stm St E) := fun A B k m s =>
  match m s with
  | (s, Done a) => k a s
  | (s, Fail e) => (s, Fail e)
  | (s, Panic) => (s, Panic)
  | (s, OutOfFuel) => (s, OutOfFuel)
  end.

Definition lift {St E A} (m : outcome E A) : stm St E A := fun s => (s, m).
Definition update {St E} (f : St -> St) : stm St E unit := fun s => (f s, Done tt).

Fixpoint for_each {St E A} (f : A -> stm St E unit) (l : list A) : stm St E unit :=
  match l with
  | [] => mret tt
  | a :: l => _ ← f a; for_each f l
  end.

(** * Metainfo *)

Class HttpMetaInfo : Type := {
  MetaInfo : Type;
  mi_default : MetaInfo;
  HTTP_PREFIX_PERSISTENT : bytes;
  HTTP_PREFIX_TRANSIENT : bytes;
  HTTP_PREFIX_BACKWARD : bytes;
  get_all_persistents : MetaInfo -> option (list (bytes * bytes));
  get_all_transients : MetaInfo -> option (list (bytes * bytes));
  get_all_backward_transients : MetaInfo -> option (list (bytes * bytes));
  strip_http_prefix_and_set_persistent : bytes -> bytes -> MetaInfo -> MetaInfo;
  strip_http_prefix_and_set_upstream : bytes -> bytes -> MetaInfo -> MetaInfo;
  strip_http_prefix_and_set_backward_downstream : bytes -> bytes -> MetaInfo -> MetaInfo
}.

Definition DESTINATION_SERVICE : bytes := str "destination-service".
Definition DESTINATION_METHOD : bytes := str "destination-method".
Definition SOURCE_SERVICE : bytes := str "source-service".
Definition HEADER_TRANS_REMOTE_ADDR : bytes := str "rip".

(** [volo_grpc::Request] and [Response]. *)
Record GrpcMsg (H B : Type) : Type := mkMsg { gm_metadata : H; gm_message : B }.
Arguments mkMsg {H B} gm_metadata gm_message.
Arguments gm_metadata {H B} g.
Arguments gm_message {H B} g.

Section Meta.
Context {H : Type} `{HeaderMap H} `{HeaderEntries H} `{HeaderNames} `{HttpMetaInfo} `{AddrText}.

(** The conversions of metadata errors to [Status]. *)
Definition key_status (_ : InvalidMetadataKey) : Status H := Status.new InvalidArgument (str "invalid gRPC metadata key name").
Definition value_status (_ : InvalidMetadataValue) : Status H := Status.new InvalidArgument (str "failed to parse metadata value").
Definition to_str_status (_ : ToStrError) : Status H := Status.new InvalidArgument (str "failed to convert metadata to a str").

(** [metadata.insert(key, value.parse()?)], on a static key. *)
Definition insert_parsed (key value : bytes) : stm H (Status H) unit := fun md =>
  match map_err value_status (value_from_str value) with
  | Done v =>
      match md_insert Ascii (IntoKeyStatic key) v md with
      | Done (_, md) => (md, Done tt)
      | Fail e => (md, Fail e)
      | Panic => (md, Panic)
      | OutOfFuel => (md, OutOfFuel)
      end
  | Fail e => (md, Fail e)
  | Panic => (md, Panic)
  | OutOfFuel => (md, OutOfFuel)
  end.

(** [metadata.insert(MetadataKey::from_str(&(prefix + key))?, value.parse()?)]. *)
Definition insert_prefixed (prefix : bytes) (kv : bytes * bytes) : stm H (Status H) unit :=
  key ← lift (map_err key_status (key_from_str Ascii (prefix ++ kv.1)));
  v ← lift (map_err value_status (value_from_str kv.2));
  update (hm_insert (key_inner key) (val_inner v)).

Definition insert_all (prefix : bytes) (entries : option (list (bytes * bytes))) : stm H (Status H) unit :=
  match entries with Some es => for_each (insert_prefixed prefix) es | None => mret tt end.

(** * The client *)

(** What [MetaService::call] of the client puts into the metadata of a request. *)
Definition client_put_meta (mi : MetaInfo) (cx : GrpcCx) : stm H (Status H) unit :=
  _ ← insert_all HTTP_PREFIX_PERSISTENT (get_all_persistents mi);
  _ ← insert_all HTTP_PREFIX_TRANSIENT (get_all_transients mi);
  _ ← insert_parsed SOURCE_SERVICE (ep_service_name (gx_caller cx));
  _ ← insert_parsed DESTINATION_SERVICE (ep_service_name (gx_callee cx));
  insert_parsed DESTINATION_METHOD (gx_method cx).

(** The state of the closures that read metadata. *)
Record MetaState : Type := mkMeta { ms_cx : GrpcCx; ms_mi : MetaInfo; ms_md : H }.

Definition with_md md (s : MetaState) : MetaState := mkMeta (ms_cx s) (ms_mi s) md.
Definition cx_mut f (s : MetaState) : MetaState := mkMeta (f (ms_cx s)) (ms_mi s) (ms_md s).
Definition mi_mut f (s : MetaState) : MetaState := mkMeta (ms_cx s) (f (ms_mi s)) (ms_md s).

(** [metadata.remove(key)]. *)
Definition take_ascii (key : bytes) : stm MetaState (Status H) (option (MetadataValue Ascii)) := fun s =>
  let '(v, md) := md_remove Ascii (ByStr key) (ms_md s) in (with_md md s, Done v).

Definition text_of (v : MetadataValue Ascii) : stm MetaState (Status H) bytes := lift (map_err to_str_status (value_to_str v)).

(** The address a peer reports, when it parses. *)
Definition set_reported (set : Address -> GrpcCx -> GrpcCx) : stm MetaState (Status H) unit :=
  ad ← take_ascii HEADER_TRANS_REMOTE_ADDR;
  match ad with
  | Some ad =>
      text ← text_of ad;
      match parse_socket_addr text with Some addr => update (cx_mut (set (Ip addr))) | None => mret tt end
  | None => mret tt
  end.

(** The loop over the metadata: [entry] says what a header of text does to the
    metainfo, if anything; a binary header is [unreachable!]. *)
Definition visit (entry : bytes -> bytes -> option (MetaInfo -> MetaInfo)) (kv : KeyAndValueRef) :
    stm (MetaState * list bytes) (Status H) unit := fun '(s, vec) =>
  match kv with
  | KVAscii k v =>
      match map_err to_str_status (value_to_str v) with
      | Done text =>
          match entry (key_inner k) text with
          | Some f => ((mi_mut f s, vec ++ [key_inner k]), Done tt)
          | None => ((s, vec), Done tt)
          end
      | Fail e => ((s, vec), Fail e)
      | Panic => ((s, vec), Panic)
      | OutOfFuel => ((s, vec), OutOfFuel)
      end
  | KVBinary _ _ => ((s, vec), Panic)
  end.

Definition drain_entries (entry : bytes -> bytes -> option (MetaInfo -> MetaInfo)) : stm MetaState (Status H) unit := fun s =>
  match for_each (visit entry) (md_iter (ms_md s)) (s, []) with
  | ((s, vec), Done _) => (with_md (foldl (fun md k => (md_remove Ascii (ByStr k) md).2) (ms_md s) vec) s, Done tt)
  | ((s, _), r) => (s, r)
  end.

(** A backward entry. *)
Definition backward_entry (k v : bytes) : option (MetaInfo -> MetaInfo) :=
  if starts_with k HTTP_PREFIX_BACKWARD then Some (strip_http_prefix_and_set_backward_downstream k v) else None.

(** What the client takes from the metadata of a response. *)
Definition client_take_meta : stm MetaState (Status H) unit :=
  _ ← set_reported (fun a => gx_callee_mut (Endpoint.set_address a));
  drain_entries backward_entry.

(** The result of a closure that is ignored ([_ = ...]): only a panic is not. *)
Definition ignored {St E F} (r : St * outcome E unit) : outcome F St :=
  match r with
  | (s, Done _) | (s, Fail _) => Done s
  | (_, Panic) => Panic
  | (_, OutOfFuel) => OutOfFuel
  end.

(** What [MetaService::call] of the client makes of a response. *)
Definition client_meta_reply {W U : Type} (r : W * GrpcCx * MetaInfo * outcome (Status H) (GrpcMsg H U)) :
    W * GrpcCx * MetaInfo * outcome (Status H) (GrpcMsg H U) :=
  match r with
  | (w, cx, mi, Done resp) =>
      match ignored (client_take_meta (mkMeta cx mi (gm_metadata resp))) with
      | Done s => (w, ms_cx s, ms_mi s, Done (mkMsg (ms_md s) (gm_message resp)))
      | Fail e => (w, cx, mi, Fail e)
      | Panic => (w, cx, mi, Panic)
      | OutOfFuel => (w, cx, mi, OutOfFuel)
      end
  | r => r
  end.

(** [MetaService::call] of the client. *)
Definition client_meta {W T U : Type}
    (inner : W -> GrpcCx -> MetaInfo -> GrpcMsg H T -> W * GrpcCx * MetaInfo * outcome (Status H) (GrpcMsg H U))
    (w : W) (cx : GrpcCx) (mi : MetaInfo) (req : GrpcMsg H T) : W * GrpcCx * MetaInfo * outcome (Status H) (GrpcMsg H U) :=
  match ignored (client_put_meta mi cx (gm_metadata req)) with
  | Done md => client_meta_reply (inner w cx mi (mkMsg md (gm_message req)))
  | Fail e => (w, cx, mi, Fail e)
  | Panic => (w, cx, mi, Panic)
  | OutOfFuel => (w, cx, mi, OutOfFuel)
  end.

(** * The server *)

(** A persistent or a transient entry. *)
Definition forward_entry (k v : bytes) : option (MetaInfo -> MetaInfo) :=
  if starts_with k HTTP_PREFIX_PERSISTENT then Some (strip_http_prefix_and_set_persistent k v)
  else if starts_with k HTTP_PREFIX_TRANSIENT then Some (strip_http_prefix_and_set_upstream k v)
  else None.

(** What [MetaService::call] of the server takes from the metadata of a request. *)
Definition server_take_meta : stm MetaState (Status H) unit :=
  source_service ← take_ascii SOURCE_SERVICE;
  _ ← match source_service with
      | Some v =>
          name ← text_of v;
          _ ← update (cx_mut (gx_caller_mut (Endpoint.set_service_name name)));
          set_reported (fun a => gx_caller_mut (Endpoint.set_address a))
      | None => mret tt
      end;
  destination_service ← take_ascii DESTINATION_SERVICE;
  _ ← match destination_service with
      | Some v => name ← text_of v; update (cx_mut (gx_callee_mut (Endpoint.set_service_name name)))
      | None => mret tt
      end;
  drain_entries forward_entry.

(** What it adds to the metadata of a response. *)
Definition server_put_meta (mi : MetaInfo) : stm H (Status H) unit :=
  insert_all HTTP_PREFIX_BACKWARD (get_all_backward_transients mi).
End Meta.
Arguments MetaState H {_}.
