(* ===== verification/GrpcMetaSpec.v ===== *)
(** What the metadata services do to metadata, context and metainfo. *)

From S2P Require Import Prelude Net Context Utf8 Headers GrpcStatus GrpcCodec GrpcMetadata GrpcMeta.

(** * Insertions *)

Section Insertions.
Context {H : Type} `{HeaderEntriesLaws H} `{HeaderNamesLaws}.

Definition insert_many (es : list (bytes * bytes)) (md : H) : H := foldl (fun md kv => hm_insert kv.1 kv.2 md) md es.

Definition values_in (k : bytes) (es : list (bytes * bytes)) : list bytes := (base.filter (fun e => e.1 = k) es).*2.

Lemma insert_many_app es es' md : insert_many (es ++ es') md = insert_many es' (insert_many es md).
Proof. apply foldl_app. Qed.

Lemma values_in_cons k k' v es : values_in k ((k', v) :: es) = if bool_decide (k = k') then v :: values_in k es else values_in k es.
Proof. unfold values_in. rewrite filter_cons. cbn [fst]. case_bool_decide; by destruct (decide _); subst. Qed.

Lemma values_in_nil k es : values_in k es = [] <-> k ∉ es.*1.
Proof.
  induction es as [|[k' v] es IH]; [by split; [intros _ []%not_elem_of_nil|]|].
  rewrite values_in_cons, fmap_cons, not_elem_of_cons, <- IH. cbn. case_bool_decide; naive_solver.
Qed.

(** What is stored under distinct names is found under them. *)
Lemma all_insert_many k es md :
  NoDup es.*1 -> hm_get_all k (insert_many es md) = match values_in k es with [] => hm_get_all k md | vs => vs end.
Proof.
  unfold insert_many. revert md. induction es as [|[k' v] es IH]; intros md; [done|].
  rewrite fmap_cons. intros [Hn Hd]%NoDup_cons. cbn [foldl fst snd]. rewrite IH by done. rewrite values_in_cons, all_insert.
  case_bool_decide as E; [|done]. subst k'. by rewrite (proj2 (values_in_nil k es)).
Qed.

(** An entry that can be sent under a prefix. *)
Definition sendable_entry (prefix : bytes) (kv : bytes * bytes) : Prop :=
  name_of_bytes (prefix ++ kv.1) = Some (prefix ++ kv.1) /\ is_valid_key Ascii (prefix ++ kv.1) = true /\
  to_str kv.2 = Some kv.2.

Definition prefixed (prefix : bytes) (es : option (list (bytes * bytes))) : list (bytes * bytes) :=
  (fun kv => (prefix ++ kv.1, kv.2)) <$> default [] es.

Lemma insert_all_sends prefix es md :
  Forall (sendable_entry prefix) (default [] es) ->
  insert_all prefix es md = (insert_many (prefixed prefix es) md, Done tt).
Proof.
  destruct es as [es|]; [|done]. unfold insert_all, prefixed. cbn [from_option default id]. intros Hs. revert md.
  induction Hs as [|[k v] l (Hn & Hk & Hv) Hs IH]; intros md; [reflexivity|].
  cbn [for_each]. unfold insert_prefixed, key_from_str, key_from_bytes, value_from_str. cbn [fst snd] in *.
  rewrite Hn, Hk, Hv. cbn -[for_each insert_prefixed]. exact (IH _).
Qed.

Lemma insert_parsed_sends key value md :
  word key = true -> is_valid_key Ascii key = true -> lower key = key -> to_str value = Some value ->
  insert_parsed key value md = (hm_insert key value md, Done tt).
Proof.
  intros Hw Hk Hl Hv. unfold insert_parsed, value_from_str. rewrite Hv. cbn [map_err].
  unfold md_insert, into_name, key_from_static, name_from_static. rewrite bool_decide_eq_true_2 by done.
  rewrite name_word by done. cbn [unwrap mbind outcome_bind]. by rewrite Hk.
Qed.
End Insertions.

(** A name the services use is a word in lower case that names text. *)
Ltac own_name := first [reflexivity | vm_compute; reflexivity].

Section Client.
Context {H : Type} `{HeaderEntriesLaws H} `{HeaderNamesLaws} `{HttpMetaInfo} `{AddrText}.

(** The headers the client adds. *)
Definition forwarded (mi : MetaInfo) : list (bytes * bytes) :=
  prefixed HTTP_PREFIX_PERSISTENT (get_all_persistents mi) ++ prefixed HTTP_PREFIX_TRANSIENT (get_all_transients mi).

Definition call_entries (cx : GrpcCx) : list (bytes * bytes) :=
  [(SOURCE_SERVICE, ep_service_name (gx_caller cx)); (DESTINATION_SERVICE, ep_service_name (gx_callee cx));
   (DESTINATION_METHOD, gx_method cx)].

Definition sendable_meta (mi : MetaInfo) (cx : GrpcCx) : Prop :=
  Forall (sendable_entry HTTP_PREFIX_PERSISTENT) (default [] (get_all_persistents mi)) /\
  Forall (sendable_entry HTTP_PREFIX_TRANSIENT) (default [] (get_all_transients mi)) /\
  Forall (fun kv => to_str kv.2 = Some kv.2) (call_entries cx).

Lemma client_put_meta_sends mi cx (md : H) :
  sendable_meta mi cx -> client_put_meta mi cx md = (insert_many (forwarded mi ++ call_entries cx) md, Done tt).
Proof.
  intros (Hp & Ht & Hc). unfold call_entries in Hc. rewrite !Forall_cons in Hc. destruct Hc as (C1 & C2 & C3 & _).
  unfold client_put_meta, forwarded. rewrite !insert_many_app.
  unfold mbind, stm_bind. rewrite insert_all_sends, insert_all_sends by done.
  rewrite (insert_parsed_sends SOURCE_SERVICE), (insert_parsed_sends DESTINATION_SERVICE), (insert_parsed_sends DESTINATION_METHOD)
    by (done || own_name).
  done.
Qed.
End Client.

(** * Reading *)

Section Reading.
Context {H : Type} `{HeaderEntriesLaws H} `{HeaderNamesLaws} `{HttpMetaInfo} `{AddrText}.

(** Headers of visible text only. *)
Definition plain (md : H) : Prop := forall k v, v ∈ hm_get_all k md -> is_valid_key Ascii k = true /\ to_str v = Some v.

(** Names as a header map holds them. *)
Definition named (md : H) : Prop := forall k, hm_get_all k md <> [] -> name_of_bytes k = Some k.

(** The loop over plain headers runs through and notes the entries. *)
Lemma visit_plain entry l s vec :
  Forall (fun e => is_valid_key Ascii e.1 = true /\ to_str e.2 = Some e.2) l ->
  for_each (visit entry) (kv_of <$> l) (s, vec) =
  ((mi_mut (fun mi => foldl (fun mi e => match entry e.1 e.2 with Some f => f mi | None => mi end) mi l) s,
    vec ++ (base.filter (fun e => is_Some (entry e.1 e.2)) l).*1), Done tt).
Proof.
  intros Hl. revert s vec. induction Hl as [|[k v] l [Hk Hv] Hl IH]; intros s vec.
  - cbn. rewrite app_nil_r. by destruct s.
  - rewrite fmap_cons. cbn [fst snd] in *.
    assert (kv_of (k, v) = KVAscii (mkKey k) (mkValue v)) as -> by (unfold kv_of; cbn [fst]; by rewrite Hk). cbn [for_each].
    unfold mbind at 1, stm_bind. cbn [visit]. unfold value_to_str. cbn [val_inner key_inner]. rewrite Hv. cbn [map_err].
    rewrite filter_cons. cbn [fst snd]. destruct (entry k v) as [f|] eqn:E.
    + rewrite IH. destruct (decide (is_Some (Some f))) as [|[]]; [|by eexists]. cbn. rewrite E, <- app_assoc. done.
    + rewrite IH. destruct (decide (is_Some None)) as [[? ?]|]; [done|]. cbn. rewrite E. done.
Qed.

Definition remove_keys (ks : list bytes) (md : H) : H := foldl (fun md k => (md_remove Ascii (ByStr k) md).2) md ks.

Lemma all_remove_keys ks k (md : H) :
  Forall (fun k => is_valid_key Ascii k = true /\ name_of_bytes k = Some k) ks ->
  hm_get_all k (remove_keys ks md) = if bool_decide (k ∈ ks) then [] else hm_get_all k md.
Proof.
  intros Hks. unfold remove_keys. revert md. induction Hks as [|k' ks [Hk Hn] Hks IH]; intros md; cbn [foldl].
  - by rewrite bool_decide_eq_false_2 by apply not_elem_of_nil.
  - rewrite IH. unfold md_remove. rewrite Hk. cbn [negb]. unfold hm_remove_str. rewrite Hn. cbn [snd]. rewrite all_remove.
    repeat case_bool_decide; set_solver.
Qed.

(** What reading the entries of plain headers does: the metainfo gets each entry
    that is one, in the order of the map, and their names are taken out. *)
Lemma drain_entries_plain entry s :
  plain (ms_md s) -> named (ms_md s) ->
  exists md, drain_entries entry s =
    (mkMeta (ms_cx s) (foldl (fun mi e => match entry e.1 e.2 with Some f => f mi | None => mi end) (ms_mi s) (hm_iter (ms_md s))) md,
     Done tt) /\
    forall k, hm_get_all k md =
      if existsb (fun v => bool_decide (is_Some (entry k v))) (hm_get_all k (ms_md s)) then [] else hm_get_all k (ms_md s).
Proof.
  intros Hp Hn. destruct s as [cx mi md]. cbn [ms_md ms_cx ms_mi] in *. unfold drain_entries, md_iter. cbn [ms_md].
  assert (forall e, e ∈ hm_iter md -> e.2 ∈ hm_get_all e.1 md) as Hin by (intros [k v] He; by apply iter_get_all).
  rewrite visit_plain; [|apply Forall_forall; intros e He; exact (Hp _ _ (Hin _ He))].
  cbn [mi_mut ms_md ms_cx ms_mi with_md app].
  fold (remove_keys (base.filter (fun e => is_Some (entry e.1 e.2)) (hm_iter md)).*1 md).
  eexists. split; [done|]. intros k. rewrite all_remove_keys.
  - destruct (existsb _ _) eqn:Ex; case_bool_decide as Ek; try done.
    + apply existsb_exists in Ex as (v & Hv & Hs%bool_decide_eq_true). destruct Ek. apply list_elem_of_fmap.
      exists (k, v). split; [done|]. apply list_elem_of_filter. split; [done|]. apply iter_get_all. by apply list_elem_of_In.
    + apply list_elem_of_fmap in Ek as ([k' v] & -> & [Hs Hi]%list_elem_of_filter). cbn [fst snd] in *.
      apply iter_get_all in Hi. rewrite <- not_true_iff_false in Ex. destruct Ex. apply existsb_exists. exists v.
      split; [by apply list_elem_of_In|]. by apply bool_decide_eq_true.
  - apply Forall_forall. intros k' ([k2 v] & -> & [Hs Hi]%list_elem_of_filter)%list_elem_of_fmap. cbn [fst snd] in *.
    pose proof (Hin _ Hi) as Hv. cbn in Hv. split; [by apply (Hp _ _ Hv)|]. apply Hn. intros E. rewrite E in Hv.
    by apply elem_of_nil in Hv.
Qed.

Lemma take_ascii_spec key s :
  word key = true -> is_valid_key Ascii key = true ->
  take_ascii key s = (with_md (hm_remove key (ms_md s)) s, Done (mkValue <$> hm_get key (ms_md s))).
Proof.
  intros Hw Hk. unfold take_ascii, md_remove. rewrite Hk. cbn [negb]. unfold hm_remove_str. by rewrite name_word.
Qed.

Lemma plain_sub (md md' : H) : (forall k, hm_get_all k md' = hm_get_all k md \/ hm_get_all k md' = []) -> plain md -> plain md'.
Proof.
  intros Hs Hp k v Hv. destruct (Hs k) as [E|E]; rewrite E in Hv; [by apply Hp|by apply elem_of_nil in Hv].
Qed.

Lemma named_sub (md md' : H) : (forall k, hm_get_all k md' = hm_get_all k md \/ hm_get_all k md' = []) -> named md -> named md'.
Proof. intros Hs Hn k Hk. destruct (Hs k) as [E|E]; [apply Hn; congruence|done]. Qed.

(** What [set_reported] leaves of the headers and what it makes of the context. *)
Definition reported_address (h : H) : option Address := Ip <$> (head (hm_get_all HEADER_TRANS_REMOTE_ADDR h) ≫= parse_socket_addr).

Lemma set_reported_plain set cx mi (h : H) :
  plain h ->
  set_reported set (mkMeta cx mi h) =
    (mkMeta (match reported_address h with Some a => set a cx | None => cx end) mi (hm_remove HEADER_TRANS_REMOTE_ADDR h), Done tt).
Proof.
  intros Hp. unfold set_reported, reported_address, mbind, stm_bind. rewrite take_ascii_spec by own_name.
  cbn [ms_md with_md ms_cx ms_mi]. rewrite get_first. destruct (hm_get_all HEADER_TRANS_REMOTE_ADDR h) as [|v vs] eqn:E; [done|].
  assert (to_str v = Some v) as Ev by (apply (Hp HEADER_TRANS_REMOTE_ADDR); rewrite E; by left).
  cbn [head fmap option_fmap option_map]. unfold text_of, lift, value_to_str. cbn [val_inner]. rewrite Ev. cbn [map_err mbind option_bind].
  unfold update. by destruct (parse_socket_addr v).
Qed.

(** The server reads the caller and the callee, with the caller's address where
    one is reported, and then the entries of what is left. *)
Lemma server_take_meta_reported cx mi (h : H) src dst :
  plain h -> named h -> hm_get_all SOURCE_SERVICE h = [src] -> hm_get_all DESTINATION_SERVICE h = [dst] ->
  exists rest md,
    (forall k, hm_get_all k rest =
      if bool_decide (k ∈ [SOURCE_SERVICE; DESTINATION_SERVICE; HEADER_TRANS_REMOTE_ADDR]) then [] else hm_get_all k h) /\
    (forall k, hm_get_all k md =
      if existsb (fun v => bool_decide (is_Some (forward_entry k v))) (hm_get_all k rest) then [] else hm_get_all k rest) /\
    server_take_meta (mkMeta cx mi h) =
      (mkMeta (gx_callee_mut (Endpoint.set_service_name dst)
           (match reported_address h with Some a => gx_caller_mut (Endpoint.set_address a) | None => id end
              (gx_caller_mut (Endpoint.set_service_name src) cx)))
         (foldl (fun mi e => match forward_entry e.1 e.2 with Some f => f mi | None => mi end) mi (hm_iter rest)) md, Done tt).
Proof.
  intros Hp Hn Hsrc Hdst.
  set (h0 := hm_remove SOURCE_SERVICE h). set (h1 := hm_remove HEADER_TRANS_REMOTE_ADDR h0). set (h2 := hm_remove DESTINATION_SERVICE h1).
  assert (forall k, hm_get_all k h2 =
    if bool_decide (k ∈ [SOURCE_SERVICE; DESTINATION_SERVICE; HEADER_TRANS_REMOTE_ADDR]) then [] else hm_get_all k h) as Hh2.
  { intros k. unfold h2, h1, h0. rewrite !all_remove. repeat case_bool_decide; set_solver. }
  set (cx1 := match reported_address h with Some a => gx_caller_mut (Endpoint.set_address a) | None => id end
    (gx_caller_mut (Endpoint.set_service_name src) cx)).
  destruct (drain_entries_plain forward_entry (mkMeta (gx_callee_mut (Endpoint.set_service_name dst) cx1) mi h2)) as (md & Hd & Hmd).
  { eapply plain_sub; [|exact Hp]. intros k. cbn [ms_md]. rewrite Hh2. case_bool_decide; auto. }
  { eapply named_sub; [|exact Hn]. intros k. cbn [ms_md]. rewrite Hh2. case_bool_decide; auto. }
  exists h2, md. split; [done|]. split; [done|]. cbn [ms_cx ms_mi ms_md] in Hd. rewrite <- Hd.
  assert (to_str src = Some src) as Es by (apply (Hp SOURCE_SERVICE); rewrite Hsrc; by left).
  assert (to_str dst = Some dst) as Ed by (apply (Hp DESTINATION_SERVICE); rewrite Hdst; by left).
  assert (plain h0) as Hp0.
  { eapply plain_sub; [|exact Hp]. intros k. unfold h0. rewrite all_remove. case_bool_decide; auto. }
  assert (reported_address h0 = reported_address h) as Er.
  { unfold reported_address, h0. by rewrite all_remove, bool_decide_eq_false_2. }
  unfold server_take_meta, mbind, stm_bind. rewrite take_ascii_spec by own_name. cbn [ms_md]. rewrite get_first, Hsrc.
  cbn [head fmap option_fmap option_map]. unfold text_of, lift, value_to_str. cbn [val_inner]. rewrite Es. cbn [map_err].
  unfold update. unfold with_md, cx_mut. cbn [ms_cx ms_mi ms_md]. fold h0. rewrite (set_reported_plain _ _ _ h0 Hp0), Er. fold h1.
  rewrite take_ascii_spec by own_name. cbn [ms_md ms_cx ms_mi]. fold h2. rewrite get_first. unfold h1, h0.
  rewrite !all_remove, Hdst.
  rewrite !bool_decide_eq_false_2 by done. cbn [head fmap option_fmap option_map val_inner]. rewrite Ed. cbn [map_err].
  unfold cx1. by destruct (reported_address h).
Qed.
End Reading.
