(* ===== verification/GrpcService.v ===== *)
(** A gRPC call through both sides: the client's transport
    (volo-grpc/src/transport/client.rs), the body of a response
    (volo-grpc/src/body.rs), the server's entry (server/meta.rs), its router
    (server/router.rs) and the service that decodes requests and encodes responses
    (server/service.rs).

    The HTTP client, [http::Uri] and the conversions of entry messages from and
    to bodies, which are generated per method, are parameters. *)

From S2P Require Import Prelude Net Context Utf8 Headers GrpcStatus GrpcCodec GrpcMetadata GrpcMeta.
Import CompressionEncoding.

Definition ENCODING_HEADER : bytes := str "grpc-encoding".
Definition ACCEPT_ENCODING_HEADER : bytes := str "grpc-accept-encoding".

(** [Uri::builder] with a scheme, an authority and a path, and [Uri::path]. *)
Class GrpcUri (U : Type) : Type := {
  uri_build : bytes -> bytes -> bytes -> option U;
  uri_path : U -> bytes
}.

(** [hex::encode]. *)
Definition hex_lower (d : Z) : byte := byte_of_Z (if d <? 10 then 48 + d else 87 + d).
Definition hex_encode (bs : bytes) : bytes :=
  mjoin ((fun b => [hex_lower (Z_of_byte b / 16); hex_lower (Z_of_byte b mod 16)]) <$> bs).

(** [build_uri]. *)
Definition build_uri {U} `{GrpcUri U} `{AddrText} {E} (addr : Address) (path : bytes) : outcome E U :=
  match addr with
  | Ip ip => unwrap (uri_build (str "http") (fmt_socket_addr ip) path)
  | Unix unix =>
      pathname ← unwrap (as_pathname unix);
      unwrap (uri_build (str "http+unix") (hex_encode (to_string_lossy pathname)) path)
  end.

Section Service.
Context {H : Type} `{HeaderMap H} `{HeaderEntries H} `{HeaderNames} `{HttpMetaInfo} `{AddrText} `{PercentEncoding} `{Base64}.

(** * The body of a response *)

Definition trailers_frame (status : Status H) : BodyFrame H :=
  match Status.to_header_map status with Done h => FTrailers h | Fail e => FErr e | _ => FErr status end.

(** [Body::poll_frame]: the data frames, then one frame of trailers. *)
Fixpoint body_frames (bytes_stream : list (bytes + Status H)) : list (BodyFrame H) :=
  match bytes_stream with
  | inl data :: rest => FData data :: body_frames rest
  | inr status :: _ => [trailers_frame status]
  | [] => [trailers_frame (Status.new Ok [])]
  end.

(** * Entry messages *)

(** [SendEntryMessage] and [RecvEntryMessage]. *)
Class SendMessage (T : Type) : Type := {
  into_body : T -> option CompressionEncoding -> outcome (Status H) (list (bytes + Status H))
}.
Class RecvMessage (T : Type) : Type := {
  from_body : bytes -> list (BodyFrame H) -> Kind -> option CompressionEncoding -> outcome (Status H) T
}.

(** * The client's transport *)

Record HttpResponse : Type := mkHttpResponse { hp_status : Z; hp_headers : H; hp_body : list (BodyFrame H) }.

(** The compression of a request: the first of the configured list, which is
    indexed without a check. *)
Definition send_compression {E} (config : GrpcConfig) : outcome E (option CompressionEncoding) :=
  match gc_send_compressions config with
  | Some l => e ← unwrap (head l); Done (Some e)
  | None => Done None
  end.

(** The headers of a request. *)
Definition request_headers (config : GrpcConfig) (send : option CompressionEncoding) (metadata : H) : H :=
  let h := hm_insert (str "te") (str "trailers") metadata in
  let h := hm_insert (str "content-type") (str "application/grpc") h in
  let h := match send with Some e => hm_insert ENCODING_HEADER (into_header_value e) h | None => h end in
  match gc_accept_compressions config with
  | Some (e :: rest) =>
      match into_accept_encoding_header_value e (e :: rest) with
      | Some v => hm_insert ACCEPT_ENCODING_HEADER v h
      | None => h
      end
  | _ => h
  end.

Section Client.
Context {U : Type} `{GrpcUri U} {W Req Resp : Type} `{SendMessage Req} `{RecvMessage Resp}.

(** The HTTP client and all behind it. *)
Context (exchange : W -> U -> H -> list (bytes + Status H) -> W * outcome (Status H) HttpResponse).
Context (start_at end_at : Z).

(** What the transport makes of a response. *)
Definition transport_response (cx : GrpcCx) (resp : HttpResponse) : outcome (Status H) (GrpcMsg H Resp) :=
  st ← Status.from_header_map (hp_headers resp);
  _ ← match st with
      | Some status => if bool_decide (st_code status = Ok) then Done tt else Fail status
      | None => Done tt
      end;
  accept ← from_encoding_header (hm_get ENCODING_HEADER (hp_headers resp)) (gc_accept_compressions (gx_config cx));
  body ← from_body (gx_method cx) (hp_body resp) (KResponse (hp_status resp)) accept;
  Done (mkMsg (hp_headers resp) body).

(** What it makes of what the HTTP client returns. *)
Definition transport_reply (cx : GrpcCx) (mi : MetaInfo) (r : W * outcome (Status H) HttpResponse) :
    W * GrpcCx * MetaInfo * outcome (Status H) (GrpcMsg H Resp) :=
  match r with
  | (w, Done resp) => let cx := gx_record_end end_at cx in (w, cx, mi, transport_response cx resp)
  | (w, Fail e) => (w, cx, mi, Fail e)
  | (w, Panic) => (w, cx, mi, Panic)
  | (w, OutOfFuel) => (w, cx, mi, OutOfFuel)
  end.

(** [ClientTransport::call]. *)
Definition transport_call (w : W) (cx : GrpcCx) (mi : MetaInfo) (req : GrpcMsg H Req) :
    W * GrpcCx * MetaInfo * outcome (Status H) (GrpcMsg H Resp) :=
  let prepared :=
    target ← match ep_address (gx_callee cx) with
             | Some a => Done a
             | None => Fail (Status.new DataLoss (str "address is required"))
             end;
    send ← send_compression (gx_config cx);
    body ← into_body (gm_message req) send;
    uri ← build_uri target (gx_method cx);
    Done (uri, request_headers (gx_config cx) send (gm_metadata req), body) in
  match prepared with
  | Done (uri, headers, body) => transport_reply (gx_record_start start_at cx) mi (exchange w uri headers body)
  | Fail e => (w, cx, mi, Fail e)
  | Panic => (w, cx, mi, Panic)
  | OutOfFuel => (w, cx, mi, OutOfFuel)
  end.
End Client.

(** * The server *)

(** A service inside the server: world, context and metainfo go through. *)
Definition Handler (W A B : Type) : Type :=
  W -> GrpcCx -> MetaInfo -> GrpcMsg H A -> W * GrpcCx * MetaInfo * outcome (Status H) (GrpcMsg H B).

Section Server.
Context {W : Type}.

(** [Status::to_http] as the response of the server. *)
Definition status_response {E} (status : Status H) : outcome E HttpResponse :=
  match Status.to_http status with
  | Done h => Done (mkHttpResponse 200 h [])
  | Fail _ => Panic
  | Panic => Panic
  | OutOfFuel => OutOfFuel
  end.

(** What [MetaService::call] makes of the response of the inner service. *)
Definition meta_reply {E} (r : W * GrpcCx * MetaInfo * outcome (Status H) (GrpcMsg H (list (BodyFrame H)))) :
    W * outcome E HttpResponse :=
  let '(w, cx, mi, r) := r in
  match r with
  | Done resp =>
      match server_put_meta mi (gm_metadata resp) with
      | (md, Done _) =>
          (w, Done (mkHttpResponse 200 (hm_insert (str "content-type") (str "application/grpc") md) (gm_message resp)))
      | (_, Fail status) => (w, status_response status)
      | (_, Panic) => (w, Panic)
      | (_, OutOfFuel) => (w, OutOfFuel)
      end
  | Fail status => (w, status_response status)
  | Panic => (w, Panic)
  | OutOfFuel => (w, OutOfFuel)
  end.

(** [MetaService::call]. *)
Definition server_meta {E} (inner : Handler W (list (BodyFrame H)) (list (BodyFrame H)))
    (w : W) (path : bytes) (headers : H) (body : list (BodyFrame H)) : W * outcome E HttpResponse :=
  let cx := gx_set_method path server_cx_default in
  match server_take_meta (mkMeta cx mi_default headers) with
  | (s, Done _) => meta_reply (inner w (ms_cx s) (ms_mi s) (mkMsg (ms_md s) body))
  | (_, Fail status) => (w, status_response status)
  | (_, Panic) => (w, Panic)
  | (_, OutOfFuel) => (w, OutOfFuel)
  end.

(** ** The router *)

Section Router.
Context {M : Type} `{Matchit M} {B C : Type} (no_match : bytes).

Record GrpcRouter : Type := mkGrpcRouter { gr_routes : gmap Z (Handler W B C); gr_node : M }.

Definition grpc_router_new : GrpcRouter := mkGrpcRouter ∅ mt_empty.

(** The path of a service, and [RouteId::next] on the shared counter. *)
Definition service_path (name : bytes) : bytes := str "/" ++ name ++ str "/{*rest}".

(** [Router::add_service]. *)
Definition add_service {E} (name : bytes) (service : Handler W B C) (id : Z) (r : GrpcRouter) : outcome E (Z * GrpcRouter) :=
  if bool_decide (id = 2 ^ 32 - 1) then Panic
  else
    match mt_insert (service_path name) id (gr_node r) with
    | Some node => Done (id + 1, mkGrpcRouter (<[id := service]> (gr_routes r)) node)
    | None => Panic
    end.

(** [Router::call]. *)
Definition grpc_router_call (self : GrpcRouter) : Handler W B C := fun w cx mi req =>
  match mt_at (gx_method cx) (gr_node self) with
  | Some (id, _) =>
      match gr_routes self !! id with
      | Some route => route w cx mi req
      | None => (w, cx, mi, Panic)
      end
  | None => (w, cx, mi, Fail (Status.new Unimplemented no_match))
  end.
End Router.

(** ** Decoding and encoding *)

Section CodecService.
Context {T U : Type} `{RecvMessage T} `{SendMessage U} (start_at end_at : Z).

(** What [CodecService::call] makes of the response of the handler. *)
Definition codec_reply (send : option CompressionEncoding)
    (r : W * GrpcCx * MetaInfo * outcome (Status H) (GrpcMsg H U)) :
    W * GrpcCx * MetaInfo * outcome (Status H) (GrpcMsg H (list (BodyFrame H))) :=
  match r with
  | (w, cx, mi, Done resp) =>
      (w, gx_record_end end_at cx, mi,
       stream ← into_body (gm_message resp) send;
       let md := match send with
                 | Some e => hm_insert ENCODING_HEADER (into_header_value e) (gm_metadata resp)
                 | None => gm_metadata resp
                 end in
       Done (mkMsg md (body_frames stream)))
  | (w, cx, mi, Fail e) => (w, cx, mi, Fail e)
  | (w, cx, mi, Panic) => (w, cx, mi, Panic)
  | (w, cx, mi, OutOfFuel) => (w, cx, mi, OutOfFuel)
  end.

(** [CodecService::call]. *)
Definition codec_service (rpc_config : GrpcConfig) (inner : Handler W T U) : Handler W (list (BodyFrame H)) (list (BodyFrame H)) :=
  fun w cx mi req =>
    let md := gm_metadata req in
    let send := from_accept_encoding_header (hm_get ACCEPT_ENCODING_HEADER md) (gc_send_compressions rpc_config) in
    let decoded :=
      recv ← from_encoding_header (hm_get ENCODING_HEADER md) (gc_accept_compressions rpc_config);
      from_body (gx_method cx) (gm_message req) KRequest recv in
    match decoded with
    | Done message => codec_reply send (inner w (gx_record_start start_at cx) mi (mkMsg md message))
    | Fail e => (w, cx, mi, Fail e)
    | Panic => (w, cx, mi, Panic)
    | OutOfFuel => (w, cx, mi, OutOfFuel)
    end.
End CodecService.
End Server.
End Service.
Arguments SendMessage H T : clear implicits.
Arguments RecvMessage H T : clear implicits.
Arguments HttpResponse H : clear implicits.
