(* ===== verification/GrpcCall.v ===== *)
(** A gRPC call over the wire: what a client sends is what the handler of the
    server is called with, and what the handler answers is what the client gets. *)

From S2P Require Import Prelude Net Context Utf8 Headers GrpcStatus GrpcCodec GrpcRoundTrip GrpcMetadata GrpcMeta GrpcMetaSpec GrpcService.
Import CompressionEncoding.

(** The names both sides use for themselves. *)
Definition own_names : list bytes :=
  [SOURCE_SERVICE; DESTINATION_SERVICE; DESTINATION_METHOD; HEADER_TRANS_REMOTE_ADDR; str "te"; str "content-type";
   ENCODING_HEADER; ACCEPT_ENCODING_HEADER; GRPC_STATUS_HEADER_CODE].

(** What is relied on of the metainfo crate: its prefixes are told apart from
    each other and from those names. *)
Class HttpMetaInfoLaws `{HttpMetaInfo} : Prop := {
  transient_not_persistent k : starts_with (HTTP_PREFIX_TRANSIENT ++ k) HTTP_PREFIX_PERSISTENT = false;
  own_not_prefixed n : n ∈ own_names ->
    starts_with n HTTP_PREFIX_PERSISTENT = false /\ starts_with n HTTP_PREFIX_TRANSIENT = false /\
    starts_with n HTTP_PREFIX_BACKWARD = false
}.

(** Applying the entries among some headers. *)
Definition apply_entries `{HttpMetaInfo} (entry : bytes -> bytes -> option (MetaInfo -> MetaInfo)) (es : list (bytes * bytes))
    (mi : MetaInfo) : MetaInfo :=
  foldl (fun mi e => match entry e.1 e.2 with Some f => f mi | None => mi end) mi es.

Section Entries.
Context `{HttpMetaInfo}.

(** Entries are told by their names. *)
Definition by_name (entry : bytes -> bytes -> option (MetaInfo -> MetaInfo)) (named : bytes -> bool) : Prop :=
  forall k v, bool_decide (is_Some (entry k v)) = named k.

Lemma apply_entries_filter entry is_entry es mi :
  by_name entry is_entry -> apply_entries entry es mi = apply_entries entry (base.filter (fun e => is_entry e.1 = true) es) mi.
Proof.
  intros Hn. unfold apply_entries. revert mi. induction es as [|[k v] es IH]; intros mi; [done|].
  cbn [foldl fst snd]. rewrite IH, filter_cons. cbn [fst]. specialize (Hn k v).
  destruct (decide (is_entry k = true)) as [E|E]; cbn [foldl fst snd]; [done|].
  destruct (entry k v) eqn:Ee; [|done]. destruct E. rewrite <- Hn. by apply bool_decide_eq_true.
Qed.

Definition is_forward (k : bytes) : bool := starts_with k HTTP_PREFIX_PERSISTENT || starts_with k HTTP_PREFIX_TRANSIENT.
Definition is_backward (k : bytes) : bool := starts_with k HTTP_PREFIX_BACKWARD.

Lemma forward_by_name : by_name forward_entry is_forward.
Proof.
  intros k v. unfold forward_entry, is_forward. destruct (starts_with k HTTP_PREFIX_PERSISTENT); [done|].
  by destruct (starts_with k HTTP_PREFIX_TRANSIENT).
Qed.

Lemma backward_by_name : by_name backward_entry is_backward.
Proof. intros k v. unfold backward_entry, is_backward. by destruct (starts_with k HTTP_PREFIX_BACKWARD). Qed.

Lemma prefixed_starts prefix es : Forall (fun e => starts_with e.1 prefix = true) (prefixed prefix es).
Proof. unfold prefixed. apply Forall_fmap, Forall_forall. intros [k v] _. cbn. apply starts_with_app. Qed.

Lemma forwarded_names mi : Forall (fun e => is_forward e.1 = true) (forwarded mi).
Proof.
  unfold forwarded. apply Forall_app. split; (eapply Forall_impl; [apply prefixed_starts|]); intros [k v] E; cbn in *;
    unfold is_forward; rewrite E; [done|apply orb_true_r].
Qed.
End Entries.

Section Lists.
Context {H : Type} `{HeaderEntriesLaws H}.

Lemma values_in_app k es es' : values_in k (es ++ es') = values_in k es ++ values_in k es'.
Proof. unfold values_in. by rewrite filter_app, fmap_app. Qed.

Lemma values_in_filter (p : bytes -> bool) k es :
  values_in k (base.filter (fun e => p e.1 = true) es) = if p k then values_in k es else [].
Proof.
  induction es as [|[k' v] es IH]; [by destruct (p k)|]. rewrite values_in_cons, filter_cons. cbn [fst].
  destruct (decide (p k' = true)) as [E|E]; rewrite ?values_in_cons, IH; case_bool_decide as Ek; subst; try done;
    destruct (p _) eqn:Ep; try done; congruence.
Qed.

Lemma values_in_elem k v es : v ∈ values_in k es <-> (k, v) ∈ es.
Proof.
  unfold values_in. rewrite list_elem_of_fmap. split.
  - intros ([k' v'] & -> & [E Hi]%list_elem_of_filter). cbn in *. by subst.
  - intros Hi. exists (k, v). by rewrite list_elem_of_filter.
Qed.

(** The named entries of a map whose values are known. *)
Lemma named_entries_perm (p : bytes -> bool) (md : H) es :
  Forall (fun e => p e.1 = true) es -> (forall k, p k = true -> hm_get_all k md = values_in k es) ->
  base.filter (fun e => p e.1 = true) (hm_iter md) ≡ₚ es.
Proof.
  intros Hes Hv. apply same_values_perm. intros k. fold (values_in k es).
  fold (values_in k (base.filter (fun e => p e.1 = true) (hm_iter md))). rewrite values_in_filter.
  destruct (p k) eqn:E; [exact (Hv k E)|]. symmetry. apply values_in_nil. intros ([k' v] & -> & Hi)%list_elem_of_fmap.
  rewrite Forall_forall in Hes. apply Hes in Hi. cbn in *. congruence.
Qed.
End Lists.

(** * The request's metadata *)

Section Request.
Context {H : Type} `{HeaderEntriesLaws H} `{HeaderNamesLaws} `{HttpMetaInfo} `{!HttpMetaInfoLaws} `{AddrText}.

(** What a client can send: metainfo entries and names that are header text, and
    metadata of text only that leaves the names above and the prefixes alone. *)
Record sendable (mi : MetaInfo) (cx : GrpcCx) (md : H) : Prop := {
  sd_meta : sendable_meta mi cx;
  sd_keys : NoDup (forwarded mi).*1;
  sd_plain : plain md;
  sd_named : named md;
  sd_own n : n ∈ own_names -> hm_get_all n md = [];
  sd_free k : is_forward k = true -> hm_get_all k md = []
}.

(** The headers the transport adds. *)
Definition transport_entries (config : GrpcConfig) (send : option CompressionEncoding) : list (bytes * bytes) :=
  [(str "te", str "trailers"); (str "content-type", str "application/grpc")] ++
  (match send with Some e => [(ENCODING_HEADER, into_header_value e)] | None => [] end) ++
  (match gc_accept_compressions config with
   | Some (e :: rest) =>
       match into_accept_encoding_header_value e (e :: rest) with Some v => [(ACCEPT_ENCODING_HEADER, v)] | None => [] end
   | _ => []
   end).

Lemma request_headers_many config send (md : H) : request_headers config send md = insert_many (transport_entries config send) md.
Proof.
  unfold request_headers, transport_entries. rewrite !insert_many_app.
  destruct send; (destruct (gc_accept_compressions config) as [[|e l]|]; [done| |done]);
    by destruct (into_accept_encoding_header_value e (e :: l)).
Qed.

Lemma transport_entries_own config send : Forall (fun e => e.1 ∈ own_names) (transport_entries config send).
Proof.
  unfold transport_entries. apply Forall_app. split; [repeat constructor; own_name|].
  apply Forall_app. split.
  - destruct send; repeat constructor; own_name.
  - destruct (gc_accept_compressions config) as [[|e l]|]; try constructor.
    destruct (into_accept_encoding_header_value e (e :: l)); repeat constructor; own_name.
Qed.

Lemma transport_entries_nodup config send : NoDup (transport_entries config send).*1.
Proof.
  unfold transport_entries. destruct send; (destruct (gc_accept_compressions config) as [[|e l]|]);
    try destruct (into_accept_encoding_header_value e (e :: l)); cbn [app fmap list_fmap fst];
    apply (bool_decide_unpack _); vm_compute; exact I.
Qed.

Lemma transport_entries_text config send : Forall (fun e => to_str e.2 = Some e.2) (transport_entries config send).
Proof.
  unfold transport_entries. apply Forall_app. split; [by repeat constructor|]. apply Forall_app. split.
  - destruct send as [[]|]; by repeat constructor.
  - destruct (gc_accept_compressions config) as [[|e l]|]; try constructor.
    destruct (into_accept_encoding_header_value e (e :: l)) as [v|] eqn:E; repeat constructor. cbn [snd].
    unfold into_accept_encoding_header_value in E. destruct (is_enabled e); [|done]. injection E as <-.
    pose proof (visible_composed (e :: l)) as Hv. unfold visible in Hv. unfold to_str. by rewrite Hv.
Qed.

Definition sent_entries (mi : MetaInfo) (cx : GrpcCx) (config : GrpcConfig) (send : option CompressionEncoding) :=
  forwarded mi ++ call_entries cx ++ transport_entries config send.

Lemma own_not_forward n : n ∈ own_names -> is_forward n = false.
Proof. intros Hn. destruct (own_not_prefixed n Hn) as (E1 & E2 & _). unfold is_forward. by rewrite E1, E2. Qed.

Lemma call_entries_own cx config send : Forall (fun e => e.1 ∈ own_names) (call_entries cx ++ transport_entries config send).
Proof. apply Forall_app. split; [|apply transport_entries_own]. repeat constructor; own_name. Qed.

Lemma sent_nodup mi cx config send : NoDup (forwarded mi).*1 -> NoDup (sent_entries mi cx config send).*1.
Proof.
  intros Hn. unfold sent_entries. rewrite fmap_app. apply NoDup_app. split_and!; [done| |].
  - intros k ([k1 v1] & -> & Hi1)%list_elem_of_fmap ([k2 v2] & E & Hi2)%list_elem_of_fmap. cbn [fst] in E. subst k2.
    pose proof (forwarded_names mi) as Hf. rewrite Forall_forall in Hf. apply Hf in Hi1.
    pose proof (call_entries_own cx config send) as Ho. rewrite Forall_forall in Ho. apply Ho in Hi2.
    cbn [fst] in *. apply own_not_forward in Hi2. congruence.
  - rewrite fmap_app. apply NoDup_app. split_and!; [apply (bool_decide_unpack _); vm_compute; exact I| |apply transport_entries_nodup].
    intros k Hk. unfold transport_entries. destruct send; (destruct (gc_accept_compressions config) as [[|e l]|]);
      try destruct (into_accept_encoding_header_value e (e :: l)); cbn [app fmap list_fmap fst];
      repeat (apply elem_of_cons in Hk as [->|Hk]); try (by apply elem_of_nil in Hk); apply (bool_decide_unpack _); vm_compute; exact I.
Qed.

(** Every header that is sent is plain text under a name. *)
Lemma sent_good mi cx md config send k v :
  sendable mi cx md -> v ∈ hm_get_all k (insert_many (sent_entries mi cx config send) md) ->
  name_of_bytes k = Some k /\ is_valid_key Ascii k = true /\ to_str v = Some v.
Proof.
  intros Hs. rewrite all_insert_many by (apply sent_nodup, Hs). destruct (values_in k _) as [|v' vs] eqn:E.
  - intros Hv. destruct (sd_plain _ _ _ Hs k v Hv). split; [|done]. apply (sd_named _ _ _ Hs). intros En. rewrite En in Hv.
    by apply elem_of_nil in Hv.
  - rewrite <- E. intros Hv%values_in_elem. clear E. unfold sent_entries in Hv. destruct (sd_meta _ _ _ Hs) as (Hp & Ht & Hc).
    rewrite Forall_forall in Hp, Ht, Hc. rewrite !elem_of_app in Hv. unfold forwarded, prefixed in Hv. rewrite elem_of_app in Hv.
    destruct Hv as [[Hv|Hv]|Hv].
    1,2: apply list_elem_of_fmap in Hv as ([k1 v1] & [= -> ->] & Hi); first [exact (Hp (k1, v1) Hi)|exact (Ht (k1, v1) Hi)].
    assert (k ∈ own_names) as Hk.
    { pose proof (call_entries_own cx config send) as Ho. rewrite Forall_forall in Ho. apply (Ho (k, v)). by apply elem_of_app. }
    assert (forall n, n ∈ own_names -> word n = true /\ is_valid_key Ascii n = true) as Hown.
    { intros n Hn. unfold own_names in Hn. repeat (apply elem_of_cons in Hn as [->|Hn]; [by vm_compute|]). by apply elem_of_nil in Hn. }
    destruct (Hown k Hk) as [Hw Ha]. split; [by apply name_word|]. split; [done|]. destruct Hv as [Hv|Hv]; [exact (Hc _ Hv)|].
    pose proof (transport_entries_text config send) as Htx. rewrite Forall_forall in Htx. exact (Htx _ Hv).
Qed.

(** The value of the header that lists what the client accepts. *)
Definition accept_value (config : GrpcConfig) : option bytes :=
  match gc_accept_compressions config with Some (e :: rest) => into_accept_encoding_header_value e (e :: rest) | _ => None end.

Lemma forwarded_not_own mi n : n ∈ own_names -> values_in n (forwarded mi) = [].
Proof.
  intros Hn. apply values_in_nil. intros ([k v] & -> & Hi)%list_elem_of_fmap.
  pose proof (forwarded_names mi) as Hw. rewrite Forall_forall in Hw. apply Hw in Hi. cbn in *.
  apply own_not_forward in Hn. congruence.
Qed.

Lemma own_entries_not_forward cx config send k :
  is_forward k = true -> values_in k (call_entries cx ++ transport_entries config send) = [].
Proof.
  intros Hk. apply values_in_nil. intros ([k' v] & -> & Hi)%list_elem_of_fmap.
  pose proof (call_entries_own cx config send) as Ho. rewrite Forall_forall in Ho. apply Ho in Hi. cbn in *.
  apply own_not_forward in Hi. congruence.
Qed.

(** The headers of a request, by name. *)
Definition arrived (mi : MetaInfo) (cx : GrpcCx) (config : GrpcConfig) (send : option CompressionEncoding) (md h : H) : Prop :=
  (forall n, n ∈ own_names -> hm_get_all n h = values_in n (call_entries cx ++ transport_entries config send)) /\
  (forall k, is_forward k = true -> hm_get_all k h = values_in k (forwarded mi)) /\
  (forall k, k ∉ own_names -> is_forward k = false -> hm_get_all k h = hm_get_all k md) /\
  plain h /\ named h.

Lemma request_arrives mi cx md config send h :
  sendable mi cx md ->
  same_headers h (request_headers config send (insert_many (forwarded mi ++ call_entries cx) md)) ->
  arrived mi cx config send md h.
Proof.
  intros Hs Hh. rewrite request_headers_many, <- insert_many_app, <- app_assoc in Hh. fold (sent_entries mi cx config send) in Hh.
  assert (forall k v, v ∈ hm_get_all k h -> name_of_bytes k = Some k /\ is_valid_key Ascii k = true /\ to_str v = Some v) as Hgood
    by (intros k v Hv; rewrite Hh in Hv; by eapply sent_good).
  assert (forall k, hm_get_all k h = match values_in k (forwarded mi) ++ values_in k (call_entries cx ++ transport_entries config send)
    with [] => hm_get_all k md | vs => vs end) as Hval.
  { intros k. rewrite Hh, <- values_in_app. apply all_insert_many, sent_nodup, (sd_keys _ _ _ Hs). }
  split_and!.
  - intros n Hn. rewrite Hval, forwarded_not_own by done. cbn [app]. destruct (values_in n _); [|done]. by apply (sd_own _ _ _ Hs).
  - intros k Hk. rewrite Hval, own_entries_not_forward, app_nil_r by done. destruct (values_in k _); [|done].
    by apply (sd_free _ _ _ Hs).
  - intros k Ho Hk. rewrite Hval. replace (_ ++ _) with (@nil bytes); [done|]. rewrite <- values_in_app. symmetry.
    apply values_in_nil. rewrite fmap_app. intros [([k' v] & -> & Hi)%list_elem_of_fmap|([k' v] & -> & Hi)%list_elem_of_fmap]%elem_of_app.
    + pose proof (forwarded_names mi) as Hw. rewrite Forall_forall in Hw. apply Hw in Hi. cbn in *. congruence.
    + pose proof (call_entries_own cx config send) as Hw. rewrite Forall_forall in Hw. by apply Hw in Hi.
  - intros k v Hv. by apply Hgood.
  - intros k Hk. destruct (hm_get_all k h) as [|v vs] eqn:E; [done|]. apply (Hgood k v). rewrite E. by left.
Qed.

Lemma own_values cx config send :
  values_in SOURCE_SERVICE (call_entries cx ++ transport_entries config send) = [ep_service_name (gx_caller cx)] /\
  values_in DESTINATION_SERVICE (call_entries cx ++ transport_entries config send) = [ep_service_name (gx_callee cx)] /\
  values_in HEADER_TRANS_REMOTE_ADDR (call_entries cx ++ transport_entries config send) = [] /\
  values_in ENCODING_HEADER (call_entries cx ++ transport_entries config send) = option_list (into_header_value <$> send) /\
  values_in ACCEPT_ENCODING_HEADER (call_entries cx ++ transport_entries config send) = option_list (accept_value config).
Proof.
  unfold transport_entries, accept_value. rewrite !values_in_app.
  destruct send as [[]|]; (destruct (gc_accept_compressions config) as [[|e l]|]); cbn [option_list fmap option_fmap option_map];
    try destruct (into_accept_encoding_header_value e (e :: l)); split_and!; reflexivity.
Qed.

Lemma kept_values entry is_entry k (rest md : H) :
  by_name entry is_entry -> is_entry k = false ->
  hm_get_all k md = (if existsb (fun v => bool_decide (is_Some (entry k v))) (hm_get_all k rest) then [] else hm_get_all k rest) ->
  hm_get_all k md = hm_get_all k rest.
Proof.
  intros Hn Hk ->. destruct (existsb _ _) eqn:E; [|done]. apply existsb_exists in E as (v & _ & Hv). by rewrite Hn, Hk in Hv.
Qed.

(** What the server reads of a request that has arrived. *)
Lemma request_read mi cx md config send h path :
  arrived mi cx config send md h ->
  exists fs smd,
    server_take_meta (mkMeta (gx_set_method path server_cx_default) mi_default h) =
      (mkMeta (gx_callee_mut (Endpoint.set_service_name (ep_service_name (gx_callee cx)))
                 (gx_caller_mut (Endpoint.set_service_name (ep_service_name (gx_caller cx)))
                    (gx_set_method path server_cx_default)))
         (apply_entries forward_entry fs mi_default) smd, Done tt) /\
    fs ≡ₚ forwarded mi /\ (forall k, k ∉ own_names -> is_forward k = false -> hm_get_all k smd = hm_get_all k md) /\
    hm_get ENCODING_HEADER smd = into_header_value <$> send /\ hm_get ACCEPT_ENCODING_HEADER smd = accept_value config.
Proof.
  intros (Hown & Hfwd & Huser & Hp & Hn). destruct (own_values cx config send) as (Vs & Vd & Vr & Ve & Va).
  destruct (server_take_meta_reported (gx_set_method path server_cx_default) mi_default h
    (ep_service_name (gx_caller cx)) (ep_service_name (gx_callee cx)) Hp Hn) as (rest & smd & Hrest & Hsmd & Htake);
    [by rewrite Hown by (repeat constructor; own_name)..|].
  assert (reported_address h = None) as Hna.
  { unfold reported_address. rewrite Hown by (repeat constructor; own_name). by rewrite Vr. }
  assert (forall k, is_forward k = false -> k ∉ [SOURCE_SERVICE; DESTINATION_SERVICE; HEADER_TRANS_REMOTE_ADDR] -> hm_get_all k smd = hm_get_all k h) as Hkeep.
  { intros k Hk Hd. rewrite (kept_values forward_entry is_forward k rest smd forward_by_name Hk (Hsmd k)), Hrest.
    by rewrite bool_decide_eq_false_2. }
  exists (base.filter (fun e => is_forward e.1 = true) (hm_iter rest)), smd. split_and!.
  - rewrite Htake, Hna. do 2 f_equal. apply (apply_entries_filter forward_entry is_forward), forward_by_name.
  - apply named_entries_perm; [apply forwarded_names|]. intros k Hk. rewrite Hrest, bool_decide_eq_false_2; [by apply Hfwd|].
    intros Hi. assert (k ∈ own_names) as Ho%own_not_forward by (unfold own_names; set_solver). congruence.
  - intros k Ho Hk. rewrite Hkeep, Huser; [done..|]. intros Hi. apply Ho. unfold own_names. set_solver.
  - rewrite get_first, Hkeep, Hown, Ve; [by destruct send|by repeat constructor; own_name|by apply own_not_forward; repeat constructor; own_name|].
    apply (bool_decide_unpack _). vm_compute. exact I.
  - rewrite get_first, Hkeep, Hown, Va; [by destruct (accept_value config)|by repeat constructor; own_name|by apply own_not_forward; repeat constructor; own_name|].
    apply (bool_decide_unpack _). vm_compute. exact I.
Qed.
End Request.

(** * The response's metadata *)

Section Response.
Context {H : Type} `{HeaderEntriesLaws H} `{HeaderNamesLaws} `{HttpMetaInfo} `{!HttpMetaInfoLaws} `{AddrText}.

Definition returned (mi : MetaInfo) : list (bytes * bytes) := prefixed HTTP_PREFIX_BACKWARD (get_all_backward_transients mi).

(** What a handler can answer. *)
Record answerable (mi : MetaInfo) (md : H) : Prop := {
  an_meta : Forall (sendable_entry HTTP_PREFIX_BACKWARD) (default [] (get_all_backward_transients mi));
  an_keys : NoDup (returned mi).*1;
  an_plain : plain md;
  an_named : named md;
  an_own n : n ∈ own_names -> hm_get_all n md = [];
  an_free k : is_backward k = true -> hm_get_all k md = []
}.

Definition encoding_entry (send : option CompressionEncoding) : list (bytes * bytes) :=
  match send with Some e => [(ENCODING_HEADER, into_header_value e)] | None => [] end.

Definition content_entry : list (bytes * bytes) := [(str "content-type", str "application/grpc")].

(** The headers the server answers with. *)
Definition answer_headers (mi : MetaInfo) (send : option CompressionEncoding) (md : H) : H :=
  insert_many (encoding_entry send ++ returned mi ++ content_entry) md.

Lemma own_not_backward n : n ∈ own_names -> is_backward n = false.
Proof. intros Hn. by destruct (own_not_prefixed n Hn) as (_ & _ & E). Qed.

Lemma encoding_entry_own send : Forall (fun e => e.1 ∈ own_names /\ to_str e.2 = Some e.2) (encoding_entry send ++ content_entry).
Proof. destruct send as [[]|]; repeat constructor; own_name. Qed.

Lemma returned_names mi : Forall (fun e => is_backward e.1 = true) (returned mi).
Proof. apply prefixed_starts. Qed.

Lemma returned_not_own mi n : n ∈ own_names -> values_in n (returned mi) = [].
Proof.
  intros Hn. apply values_in_nil. intros ([k v] & -> & Hi)%list_elem_of_fmap.
  pose proof (returned_names mi) as Hw. rewrite Forall_forall in Hw. apply Hw in Hi. cbn in *.
  apply own_not_backward in Hn. congruence.
Qed.

Lemma own_returned_none k send : k ∉ own_names -> values_in k (encoding_entry send) = [] /\ values_in k content_entry = [].
Proof.
  intros Hk. pose proof (encoding_entry_own send) as Ho. rewrite Forall_forall in Ho.
  split; apply values_in_nil; intros ([k' v] & -> & Hi)%list_elem_of_fmap; apply Hk;
    apply (Ho (k', v)); apply elem_of_app; auto.
Qed.

Lemma answer_nodup mi send : NoDup (returned mi).*1 -> NoDup (encoding_entry send ++ returned mi ++ content_entry).*1.
Proof.
  intros Hn. assert (forall k, k ∈ own_names -> k ∉ (returned mi).*1) as Hr
    by (intros k Hk; by apply values_in_nil, returned_not_own).
  rewrite !fmap_app. apply NoDup_app. split_and!.
  - destruct send; apply (bool_decide_unpack _); vm_compute; exact I.
  - intros k Hk. rewrite not_elem_of_app. destruct send; [|by apply elem_of_nil in Hk].
    apply elem_of_cons in Hk as [->|Hk]; [|by apply elem_of_nil in Hk].
    split; [by apply Hr; repeat constructor; own_name|apply (bool_decide_unpack _); vm_compute; exact I].
  - apply NoDup_app. split_and!; [done| |apply (bool_decide_unpack _); vm_compute; exact I].
    intros k Hk Hc. apply elem_of_cons in Hc as [->|Hc]; [|by apply elem_of_nil in Hc].
    by eapply Hr; [|exact Hk]; repeat constructor; own_name.
Qed.

(** The headers of an answer, by name. *)
Definition answered (mi : MetaInfo) (send : option CompressionEncoding) (md h : H) : Prop :=
  (forall n, n ∈ own_names -> hm_get_all n h = values_in n (encoding_entry send) ++ values_in n content_entry) /\
  (forall k, is_backward k = true -> hm_get_all k h = values_in k (returned mi)) /\
  (forall k, k ∉ own_names -> is_backward k = false -> hm_get_all k h = hm_get_all k md) /\
  plain h /\ named h.

Lemma answer_good mi send md k v :
  answerable mi md -> v ∈ hm_get_all k (answer_headers mi send md) ->
  name_of_bytes k = Some k /\ is_valid_key Ascii k = true /\ to_str v = Some v.
Proof.
  intros Hs. unfold answer_headers. rewrite all_insert_many by (apply answer_nodup, Hs).
  destruct (values_in k _) as [|v' vs] eqn:E.
  - intros Hv. destruct (an_plain _ _ Hs k v Hv). split; [|done]. apply (an_named _ _ Hs). intros En. rewrite En in Hv.
    by apply elem_of_nil in Hv.
  - rewrite <- E. intros Hv%values_in_elem. clear E. rewrite !elem_of_app in Hv.
    pose proof (an_meta _ _ Hs) as Hm. rewrite Forall_forall in Hm.
    pose proof (encoding_entry_own send) as Ho. rewrite Forall_forall in Ho.
    assert (forall n, n ∈ own_names -> word n = true /\ is_valid_key Ascii n = true) as Hown.
    { intros n Hn. unfold own_names in Hn. repeat (apply elem_of_cons in Hn as [->|Hn]; [by vm_compute|]). by apply elem_of_nil in Hn. }
    assert ((k, v) ∈ encoding_entry send ++ content_entry \/ (k, v) ∈ returned mi) as [Hi|Hi].
    { destruct Hv as [Hv|[Hv|Hv]]; [left|right|left]; rewrite ?elem_of_app; auto. }
    + destruct (Ho _ Hi) as [Hk Ht]. destruct (Hown k Hk). split; [by apply name_word|done].
    + unfold returned, prefixed in Hi. apply list_elem_of_fmap in Hi as ([k1 v1] & [= -> ->] & Hi). exact (Hm (k1, v1) Hi).
Qed.

Lemma answer_arrives mi send md h :
  answerable mi md -> same_headers h (answer_headers mi send md) -> answered mi send md h.
Proof.
  intros Hs Hh.
  assert (forall k v, v ∈ hm_get_all k h -> name_of_bytes k = Some k /\ is_valid_key Ascii k = true /\ to_str v = Some v) as Hgood
    by (intros k v Hv; rewrite Hh in Hv; by eapply answer_good).
  assert (forall k, hm_get_all k h =
    match values_in k (encoding_entry send) ++ values_in k (returned mi) ++ values_in k content_entry
    with [] => hm_get_all k md | vs => vs end) as Hval.
  { intros k. rewrite Hh, <- !values_in_app. apply all_insert_many, answer_nodup, (an_keys _ _ Hs). }
  split_and!.
  - intros n Hn. rewrite Hval, returned_not_own by done. cbn [app]. destruct (values_in n _ ++ _); [|done]. by apply (an_own _ _ Hs).
  - intros k Hk. assert (k ∉ own_names) as Ho by (intros E%own_not_backward; congruence).
    destruct (own_returned_none k send Ho) as [E1 E2]. rewrite Hval, E1, E2, app_nil_r. cbn [app].
    destruct (values_in k (returned mi)); [|done]. by apply (an_free _ _ Hs).
  - intros k Ho Hk. destruct (own_returned_none k send Ho) as [E1 E2]. rewrite Hval, E1, E2, app_nil_r. cbn [app].
    destruct (values_in k (returned mi)) as [|b bs] eqn:E; [done|]. exfalso. assert (b ∈ values_in k (returned mi)) as Hi%values_in_elem by (rewrite E; by left).
    pose proof (returned_names mi) as Hw. rewrite Forall_forall in Hw. apply Hw in Hi. cbn in *. congruence.
  - intros k v Hv. by apply Hgood.
  - intros k Hk. destruct (hm_get_all k h) as [|v vs] eqn:E; [done|]. apply (Hgood k v). rewrite E. by left.
Qed.

(** What the client reads of an answer that has arrived. *)
Lemma answer_read cx cmi mi send md h :
  answered mi send md h ->
  exists bs cmd,
    client_take_meta (mkMeta cx cmi h) = (mkMeta cx (apply_entries backward_entry bs cmi) cmd, Done tt) /\
    bs ≡ₚ returned mi /\ forall k, k ∉ own_names -> is_backward k = false -> hm_get_all k cmd = hm_get_all k md.
Proof.
  intros (Hown & Hback & Huser & Hp & Hn). set (h1 := hm_remove HEADER_TRANS_REMOTE_ADDR h).
  assert (hm_get_all HEADER_TRANS_REMOTE_ADDR h = []) as Hrip.
  { rewrite Hown by (repeat constructor; own_name). by destruct send. }
  assert (forall k, hm_get_all k h1 = hm_get_all k h) as Hh1.
  { intros k. unfold h1. rewrite all_remove. case_bool_decide; congruence. }
  destruct (drain_entries_plain backward_entry (mkMeta cx cmi h1)) as (cmd & Hd & Hcmd).
  { eapply plain_sub; [|exact Hp]. auto. }
  { eapply named_sub; [|exact Hn]. auto. }
  cbn [ms_cx ms_mi ms_md] in *. exists (base.filter (fun e => is_backward e.1 = true) (hm_iter h1)), cmd. split_and!.
  - unfold client_take_meta, set_reported, mbind, stm_bind. rewrite take_ascii_spec by own_name. cbn [ms_md with_md ms_cx ms_mi].
    rewrite get_first, Hrip. cbn [head fmap option_fmap option_map mret stm_ret].
    etransitivity; [exact Hd|]. do 2 f_equal.
    apply (apply_entries_filter backward_entry is_backward), backward_by_name.
  - apply named_entries_perm; [apply returned_names|]. intros k Hk. rewrite Hh1. by apply Hback.
  - intros k Ho Hk. rewrite (kept_values backward_entry is_backward k h1 cmd backward_by_name Hk (Hcmd k)), Hh1. by apply Huser.
Qed.
End Response.

(** * The wire *)

(** What the HTTP/2 connection does to headers and bodies. *)
Record Wire (H : Type) : Type := mkWire {
  wire_headers : H -> H;
  wire_request : list (bytes + Status H) -> list (BodyFrame H);
  wire_response : list (BodyFrame H) -> list (BodyFrame H)
}.
Arguments wire_headers {H} w.
Arguments wire_request {H} w.
Arguments wire_response {H} w.

(** It keeps every header, and the bytes of a body but not their pieces. *)
Class WireLaws {H} `{HeaderEntries H} (wi : Wire H) : Prop := {
  headers_carried h : same_headers (wire_headers wi h) h;
  request_carried frames :
    exists chunks, wire_request wi (inl <$> frames) = FData <$> chunks /\ concat chunks = concat frames;
  response_carried frames t : exists chunks t',
    wire_response wi ((FData <$> frames) ++ [FTrailers t]) = (FData <$> chunks) ++ [FTrailers t'] /\
    concat chunks = concat frames /\ same_headers t' t
}.

Section Call.
Context {H : Type} `{HeaderEntriesLaws H} `{HeaderNamesLaws} `{HttpMetaInfo} `{!HttpMetaInfoLaws} `{AddrText}.
Context `{PercentEncodingLaws} `{Base64Laws} `{CompressorLaws} {T : Type} `{PbMessageLaws T}.
Context {U : Type} `{GrpcUri U} {W M : Type} `{Matchit M} {wi : Wire H} `{!WireLaws wi}.

(** Streaming entry messages. *)
#[local] Instance stream_send : SendMessage H (list T) := {| into_body msgs ce := encode (inl <$> msgs) ce |}.
#[local] Instance stream_recv : RecvMessage H (RecvStream H) := {| from_body _ body kind ce := Done (RecvStream_new body kind ce) |}.

(** The response on its way back; a server that panicked drops the stream. *)
Definition wire_reply (r : W * outcome (Status H) (HttpResponse H)) : W * outcome (Status H) (HttpResponse H) :=
  match r with
  | (w, Done r) => (w, Done (mkHttpResponse (hp_status r) (wire_headers wi (hp_headers r)) (wire_response wi (hp_body r))))
  | (w, Fail e) => (w, Fail e)
  | (w, _) => (w, Fail (Status.new Unknown (str "connection closed")))
  end.

Definition over_wire (server : W -> bytes -> H -> list (BodyFrame H) -> W * outcome (Status H) (HttpResponse H)) :
    W -> U -> H -> list (bytes + Status H) -> W * outcome (Status H) (HttpResponse H) :=
  fun w uri h stream => wire_reply (server w (uri_path uri) (wire_headers wi h) (wire_request wi stream)).

Context (no_match : bytes) (c0 c1 s0 s1 : Z).
Context (handler : Handler (H := H) W (RecvStream H) (list T)).

(** The client's whole stack, over the wire to a server's. *)
Definition grpc_call (router : GrpcRouter (H := H) (W := W) (B := list (BodyFrame H)) (C := list (BodyFrame H)))
    (w : W) (cx : GrpcCx) (mi : MetaInfo) (req : GrpcMsg H (list T)) :=
  client_meta (transport_call (Resp := RecvStream H) (over_wire (server_meta (grpc_router_call no_match router))) c0 c1) w cx mi req.

(** What becomes of the handler's answer on the way back. *)
Definition grpc_answer (cx : GrpcCx) (mi : MetaInfo) (sendback : option CompressionEncoding)
    (r : W * GrpcCx * MetaInfo * outcome (Status H) (GrpcMsg H (list T))) : W * GrpcCx * MetaInfo * outcome (Status H) (GrpcMsg H (RecvStream H)) :=
  client_meta_reply (transport_reply c1 (gx_record_start c0 cx) mi (wire_reply (meta_reply (codec_reply s1 sendback r)))).

(** The client and the server are set up for each other: the callee has an
    address, the URI keeps the method as its path, the path leads to the handler,
    and the server understands the compression the client uses. *)
Record reachable (cx : GrpcCx) (router : GrpcRouter (H := H) (W := W) (B := list (BodyFrame H)) (C := list (BodyFrame H))) (scfg : GrpcConfig)
    (send recv : option CompressionEncoding) : Prop := {
  rc_uri : exists addr uri, ep_address (gx_callee cx) = Some addr /\
    build_uri (U := U) (E := Status H) addr (gx_method cx) = Done uri /\ uri_path uri = gx_method cx;
  rc_route : exists id ps, mt_at (gx_method cx) (gr_node router) = Some (id, ps) /\
    gr_routes router !! id = Some (codec_service s0 s1 scfg handler);
  rc_send : send_compression (E := Status H) (gx_config cx) = Done send;
  rc_recv : from_encoding_header (H := H) (into_header_value <$> send) (gc_accept_compressions scfg) = Done recv;
  rc_agree : agree send recv
}.

(** C4: A call reaches its handler: whatever a client sends, with metadata, metainfo
    and messages that can be sent, the handler of the server's route is called
    with a context that has the client's names and method, with each metainfo
    entry set once, with the client's metadata, and with a stream that yields
    exactly the client's messages; and the client gets what becomes of the
    handler's answer. *)
Theorem grpc_call_over_the_wire router scfg send recv w cx mi md msgs frames :
  sendable mi cx md -> reachable cx router scfg send recv ->
  encode (H := H) (E := Status H) (inl <$> msgs) send = Done (inl <$> frames) ->
  exists scx fs smd stream stream',
    grpc_call router w cx mi (mkMsg md msgs) =
      grpc_answer cx mi (from_accept_encoding_header (accept_value (gx_config cx)) (gc_send_compressions scfg))
        (handler w scx (apply_entries forward_entry fs mi_default) (mkMsg smd stream)) /\
    ep_service_name (gx_caller scx) = ep_service_name (gx_caller cx) /\
    ep_service_name (gx_callee scx) = ep_service_name (gx_callee cx) /\ gx_method scx = gx_method cx /\
    fs ≡ₚ forwarded mi /\ (forall k, k ∉ own_names -> is_forward k = false -> hm_get_all k smd = hm_get_all k md) /\
    collect (E := Status H) (S (length msgs)) stream = Done (inl <$> msgs, stream').
Proof.
  intros Hs [(addr & uri & Ha & Hu & Hpath) (id & ps & Hat & Hroute) Hsend Hrecv Hagree] Henc.
  set (h1 := request_headers (gx_config cx) send (insert_many (forwarded mi ++ call_entries cx) md)).
  destruct (request_carried (wi := wi) frames) as (chunks & Hchunks & Hconcat).
  destruct (request_read mi cx md (gx_config cx) send (wire_headers wi h1) (gx_method cx)) as (fs & smd & Htake & Hfs & Huser & He & Hacc).
  { apply request_arrives; [done|apply headers_carried]. }
  destruct (stream_received (E := Status H) send recv msgs frames chunks [] KRequest Hagree Henc Hconcat I) as (stream' & Hcol).
  rewrite app_nil_r in Hcol.
  exists (gx_record_start s0 (gx_callee_mut (Endpoint.set_service_name (ep_service_name (gx_callee cx)))
    (gx_caller_mut (Endpoint.set_service_name (ep_service_name (gx_caller cx))) (gx_set_method (gx_method cx) server_cx_default)))).
  eexists fs, smd, _, stream'. split; [|split_and!; try done; exact Hcol].
  unfold grpc_call, client_meta. cbn [gm_metadata gm_message]. rewrite client_put_meta_sends by apply Hs. cbn [ignored].
  unfold transport_call. cbn [gm_metadata gm_message into_body stream_send]. rewrite Ha. cbn [mbind outcome_bind].
  rewrite Hsend. cbn [mbind outcome_bind]. rewrite Henc. cbn [mbind outcome_bind]. rewrite Hu. cbn [mbind outcome_bind].
  fold h1. unfold grpc_answer. do 3 f_equal. unfold over_wire. rewrite Hpath, Hchunks. f_equal.
  unfold server_meta. rewrite Htake. cbn [ms_cx ms_mi ms_md]. f_equal. unfold grpc_router_call. cbn [gx_method gx_callee_mut gx_caller_mut gx_set_method].
  rewrite Hat. match goal with |- context [?r !! id] => replace (r !! id) with (Some (codec_service s0 s1 scfg handler)) by (symmetry; exact Hroute) end.
  unfold codec_service. cbn [gm_metadata gm_message]. rewrite He, Hrecv. cbn [mbind outcome_bind from_body stream_recv].
  by rewrite Hacc.
Qed.

Lemma body_frames_ok frames :
  exists t, body_frames (H := H) (inl <$> frames) = (FData <$> frames) ++ [FTrailers t] /\
    hm_get GRPC_STATUS_HEADER_CODE t = Some (Code.to_header_value Ok) /\
    hm_get GRPC_STATUS_MESSAGE_HEADER t = None /\ hm_get GRPC_STATUS_DETAILS_HEADER t = None.
Proof.
  destruct (to_header_map_spec (H := H) (Status.new Ok [])) as (t & Ht & _).
  destruct (status_headers _ t Ht) as (G1 & G2 & G3). exists t. split.
  - induction frames as [|f frames IH]; [|by cbn; rewrite IH].
    change (body_frames (inl <$> [])) with [trailers_frame (H := H) (Status.new Ok [])]. unfold trailers_frame. by rewrite Ht.
  - split; [exact G1|]. split; [exact G2|]. rewrite G3. cbn. by rewrite get_empty.
Qed.

Lemma ok_trailers_end_well t t' :
  same_headers t' t -> hm_get GRPC_STATUS_HEADER_CODE t = Some (Code.to_header_value Ok) ->
  hm_get GRPC_STATUS_MESSAGE_HEADER t = None -> hm_get GRPC_STATUS_DETAILS_HEADER t = None ->
  ends_well (H := H) (KResponse 200) [FTrailers t'].
Proof.
  intros Ht G1 G2 G3. unfold ends_well, Status.infer_grpc_status.
  rewrite (status_read (Status.new Ok []) t'); cbn; try done; by rewrite Ht.
Qed.

(** C5: An answer reaches the client: when the handler answers with messages, and
    metadata and metainfo that can be sent, the client's call returns with the
    handler's metadata, each backward entry set once, and a stream that yields
    exactly the handler's messages and then ends. *)
Theorem grpc_reply_over_the_wire cx mi w scx smi rmd rmsgs frames sendback recv :
  answerable smi rmd -> encode (H := H) (E := Status H) (inl <$> rmsgs) sendback = Done (inl <$> frames) ->
  from_encoding_header (H := H) (into_header_value <$> sendback) (gc_accept_compressions (gx_config cx)) = Done recv ->
  agree sendback recv ->
  exists bs cmd stream stream',
    grpc_answer cx mi sendback (w, scx, smi, Done (mkMsg rmd rmsgs)) =
      (w, gx_record_end c1 (gx_record_start c0 cx), apply_entries backward_entry bs mi, Done (mkMsg cmd stream)) /\
    bs ≡ₚ returned smi /\ (forall k, k ∉ own_names -> is_backward k = false -> hm_get_all k cmd = hm_get_all k rmd) /\
    collect (E := Status H) (S (length rmsgs)) stream = Done (inl <$> rmsgs, stream').
Proof.
  intros Hs Henc Hrecv Hagree. destruct (body_frames_ok frames) as (t & Hbody & G1 & G2 & G3).
  destruct (response_carried (wi := wi) frames t) as (chunks & t' & Hwire & Hconcat & Ht).
  set (h := wire_headers wi (answer_headers smi sendback rmd)).
  pose proof (answer_arrives smi sendback rmd h Hs (headers_carried _)) as Harr.
  destruct (answer_read (gx_record_end c1 (gx_record_start c0 cx)) mi smi sendback rmd h Harr) as (bs & cmd & Htake & Hbs & Huser).
  destruct (stream_received (E := Status H) sendback recv rmsgs frames chunks [FTrailers t'] (KResponse 200) Hagree Henc Hconcat)
    as (stream' & Hcol); [by apply (ok_trailers_end_well t)|].
  eexists bs, cmd, _, stream'. split; [|split_and!; [done|done|exact Hcol]].
  destruct Harr as (Hown & _).
  assert (hm_get GRPC_STATUS_HEADER_CODE h = None) as Hst.
  { rewrite get_first, Hown by (repeat constructor; own_name). by destruct sendback. }
  assert (hm_get ENCODING_HEADER h = into_header_value <$> sendback) as Hen.
  { rewrite get_first, Hown by (repeat constructor; own_name). by destruct sendback. }
  unfold grpc_answer, codec_reply. cbn [gm_message gm_metadata into_body stream_send]. rewrite Henc. cbn [mbind outcome_bind].
  unfold meta_reply. cbn [gm_message gm_metadata]. unfold server_put_meta. rewrite insert_all_sends by apply Hs.
  rewrite Hbody. cbn [wire_reply hp_status hp_headers hp_body]. rewrite Hwire.
  match goal with |- context [wire_headers wi ?x] => change (wire_headers wi x) with (wire_headers wi
    (insert_many content_entry (insert_many (returned smi) (match sendback with Some e => hm_insert ENCODING_HEADER (into_header_value e) rmd | None => rmd end)))) end.
  replace (match sendback with Some e => hm_insert ENCODING_HEADER (into_header_value e) rmd | None => rmd end)
    with (insert_many (encoding_entry sendback) rmd) by (by destruct sendback).
  rewrite <- !insert_many_app. fold (answer_headers smi sendback rmd). fold h.
  cbn [transport_reply]. unfold transport_response, Status.from_header_map. cbn [hp_status hp_headers hp_body gx_config gx_method].
  rewrite Hst. cbn [mbind outcome_bind]. rewrite Hen. cbn [gx_record_end gx_record_start gx_config]. rewrite Hrecv.
  cbn [mbind outcome_bind from_body stream_recv client_meta_reply gm_metadata gm_message].
  cbn [gx_record_end gx_record_start] in Htake. rewrite Htake. reflexivity.
Qed.

(** An error reaches the client: when the handler answers with an error status,
    the client's call fails with that status, its message and its details. *)
Theorem grpc_error_over_the_wire cx mi w scx smi sendback (st : Status H) :
  st_code st <> Ok -> is_utf8 (st_message st) = true -> has_escape (st_message st) = false ->
  hm_get GRPC_STATUS_DETAILS_HEADER (st_metadata st) = None ->
  exists st', grpc_answer cx mi sendback (w, scx, smi, Fail st) = (w, gx_record_end c1 (gx_record_start c0 cx), mi, Fail st') /\
    st_code st' = st_code st /\ st_message st' = st_message st /\ st_details st' = st_details st.
Proof.
  intros Hc Hu He Hd. destruct (to_http_headers st Hd) as (h & Hh & G1 & G2 & G3).
  unfold grpc_answer, codec_reply, meta_reply, status_response. rewrite Hh. cbn [wire_reply hp_status hp_headers hp_body transport_reply].
  unfold transport_response. cbn [hp_headers].
  rewrite (status_read st) by (done || by rewrite headers_carried). cbn [mbind outcome_bind st_code].
  rewrite bool_decide_eq_false_2 by done. cbn. eexists. split; [done|]. done.
Qed.
End Call.
