(* ===== verification/GrpcFaults.v ===== *)
(** Where a gRPC call goes wrong: binary metadata, which both metadata services
    take for unreachable, metainfo that is no header, and empty lists of
    compressions. *)

From S2P Require Import Prelude Net Context Utf8 Headers GrpcStatus GrpcCodec GrpcMetadata GrpcMeta GrpcMetaSpec GrpcService GrpcCall.

Section Faults.
Context {H : Type} `{HeaderEntriesLaws H} `{HeaderNamesLaws} `{HttpMetaInfo} `{!HttpMetaInfoLaws} `{AddrText}.
Context `{PercentEncoding} `{Base64}.

(** Headers whose text, where they are text, is visible. *)
Definition readable (md : H) : Prop := forall k v, v ∈ hm_get_all k md -> is_valid_key Ascii k = true -> to_str v = Some v.

Definition has_binary (md : H) : Prop := exists k, is_valid_key Binary k = true /\ hm_get_all k md <> [].

Lemma visit_binary entry l st :
  Forall (fun e => is_valid_key Ascii e.1 = true -> to_str e.2 = Some e.2) l ->
  Exists (fun e => is_valid_key Ascii e.1 = false) l ->
  (for_each (visit entry) (kv_of <$> l) st).2 = Panic.
Proof.
  intros Hl Hx. revert st. induction Hl as [|[k v] l Hv Hl IH]; intros [s vec]; [by apply Exists_nil in Hx|].
  rewrite fmap_cons. cbn [for_each]. unfold mbind, stm_bind, kv_of at 1. cbn [fst snd] in *.
  destruct (is_valid_key Ascii k) eqn:Ek; cbn [visit]; [|done].
  unfold value_to_str. cbn [val_inner key_inner]. rewrite (Hv eq_refl). cbn [map_err].
  apply Exists_cons in Hx as [Hx|Hx]; [cbn [fst] in Hx; congruence|]. destruct (entry k v); by apply IH.
Qed.

Lemma drain_binary entry s : readable (ms_md s) -> has_binary (ms_md s) -> (drain_entries entry s).2 = Panic.
Proof.
  intros Hr (k & Hk & Hne). unfold drain_entries, md_iter.
  pose proof (visit_binary entry (hm_iter (ms_md s)) (s, [])) as Hv.
  destruct (for_each _ _ _) as [[s' vec] r]. cbn [snd] in Hv. rewrite Hv; [done| |].
  - apply Forall_forall. intros [k' v] Hi. apply Hr. by apply iter_get_all.
  - apply Exists_exists. destruct (hm_get_all k (ms_md s)) as [|v vs] eqn:E; [done|]. exists (k, v).
    split; [apply iter_get_all; rewrite E; by left|]. cbn in *. by rewrite Hk.
Qed.

(** A step that finishes on readable headers and leaves binary ones there. *)
Definition calm {A} (m : stm (MetaState H) (Status H) A) : Prop :=
  forall s, readable (ms_md s) -> has_binary (ms_md s) ->
  exists s' a, m s = (s', Done a) /\ readable (ms_md s') /\ has_binary (ms_md s').

Lemma calm_ret {A} (a : A) : calm (mret a).
Proof. intros s Hr Hb. by exists s, a. Qed.

Lemma calm_update f : (forall s, ms_md (f s) = ms_md s) -> calm (update f).
Proof. intros Hf s Hr Hb. exists (f s), tt. by rewrite Hf. Qed.

Lemma calm_bind {A B} (m : stm (MetaState H) (Status H) A) (f : A -> stm (MetaState H) (Status H) B) :
  calm m -> (forall a, calm (f a)) -> calm (m ≫= f).
Proof.
  intros Hm Hf s Hr Hb. destruct (Hm s Hr Hb) as (s1 & a & E & Hr1 & Hb1). destruct (Hf a s1 Hr1 Hb1) as (s2 & b & E2 & P2).
  exists s2, b. unfold mbind, stm_bind. by rewrite E.
Qed.

(** Taking a header out gives visible text, if anything. *)
Lemma calm_take {B} key (f : option (MetadataValue Ascii) -> stm (MetaState H) (Status H) B) :
  word key = true -> is_valid_key Ascii key = true ->
  (forall o, (forall v, o = Some v -> to_str (val_inner v) = Some (val_inner v)) -> calm (f o)) -> calm (take_ascii key ≫= f).
Proof.
  intros Hw Hk Hf s Hr (k & Hbk & Hne). unfold mbind, stm_bind. rewrite take_ascii_spec by done. apply Hf; cbn [with_md ms_md].
  - intros v. rewrite get_first. destruct (hm_get_all key (ms_md s)) as [|x l] eqn:E; [done|]. intros [= <-]. cbn [val_inner].
    eapply Hr; [|exact Hk]. rewrite E. by left.
  - intros k2 v. rewrite all_remove. case_bool_decide; [by intros ?%elem_of_nil|apply Hr].
  - exists k. split; [done|]. rewrite all_remove, bool_decide_eq_false_2; [done|]. intros ->. cbn in *. by rewrite Hbk in Hk.
Qed.

Lemma calm_text v : to_str (val_inner v) = Some (val_inner v) -> calm (text_of v).
Proof.
  intros Hv s Hr Hb. exists s, (val_inner v). unfold text_of, lift, value_to_str. by rewrite Hv.
Qed.

Lemma calm_reported set : calm (set_reported set).
Proof.
  apply calm_take; [own_name..|]. intros [ad|] Ho; [|apply calm_ret]. apply calm_bind; [by apply calm_text, Ho|].
  intros text. destruct (parse_socket_addr text); [by apply calm_update|apply calm_ret].
Qed.

Lemma calm_then_drain (m : stm (MetaState H) (Status H) unit) entry s :
  calm m -> readable (ms_md s) -> has_binary (ms_md s) -> ((_ ← m; drain_entries entry) s).2 = Panic.
Proof.
  intros Hm Hr Hb. destruct (Hm s Hr Hb) as (s1 & [] & E & Hr1 & Hb1). unfold mbind, stm_bind. rewrite E. by apply drain_binary.
Qed.

Definition server_take_names : stm (MetaState H) (Status H) unit :=
  source_service ← take_ascii SOURCE_SERVICE;
  _ ← match source_service with
      | Some v =>
          name ← text_of v;
          _ ← update (cx_mut (gx_caller_mut (Endpoint.set_service_name name)));
          set_reported (fun a => gx_caller_mut (Endpoint.set_address a))
      | None => mret tt
      end;
  destination_service ← take_ascii DESTINATION_SERVICE;
  match destination_service with
  | Some v => name ← text_of v; update (cx_mut (gx_callee_mut (Endpoint.set_service_name name)))
  | None => mret tt
  end.

Lemma calm_names : calm server_take_names.
Proof.
  apply calm_take; [own_name..|]. intros o Ho. apply calm_bind.
  - destruct o as [v|]; [|apply calm_ret]. apply calm_bind; [by apply calm_text, Ho|]. intros name.
    apply calm_bind; [by apply calm_update|]. intros _. apply calm_reported.
  - intros _. apply calm_take; [own_name..|]. intros [v|] Hv; [|apply calm_ret].
    apply calm_bind; [by apply calm_text, Hv|]. intros name. by apply calm_update.
Qed.

Lemma server_take_meta_split s : server_take_meta s = (_ ← server_take_names; drain_entries forward_entry) s.
Proof.
  unfold server_take_meta, server_take_names, mbind, stm_bind.
  destruct (take_ascii SOURCE_SERVICE s) as [s1 [o| | |]]; try done.
  match goal with |- context [match ?m s1 with _ => _ end] => destruct (m s1) as [s2 [?| | |]] end; try done.
  destruct (take_ascii DESTINATION_SERVICE s2) as [s3 [o2| | |]]; try done.
Qed.

(** Binary metadata brings the server down: a request with a header whose name
    ends in [-bin], its text headers being visible, panics the metadata service
    before any handler is called. *)
Theorem binary_metadata_panics_server {W E} (inner : Handler W (list (BodyFrame H)) (list (BodyFrame H))) w path headers body :
  readable headers -> has_binary headers -> server_meta (E := E) inner w path headers body = (w, Panic).
Proof.
  intros Hr Hb. unfold server_meta.
  pose proof (calm_then_drain server_take_names forward_entry (mkMeta (gx_set_method path server_cx_default) mi_default headers) calm_names Hr Hb) as Hp.
  rewrite <- server_take_meta_split in Hp. destruct (server_take_meta _) as [s r]. cbn [snd] in Hp. by subst.
Qed.

(** And the client: an answer with binary metadata panics the call. *)
Theorem binary_metadata_panics_client {W U} (w : W) cx mi (md : H) (message : U) :
  readable md -> has_binary md -> client_meta_reply (w, cx, mi, Done (mkMsg md message)) = (w, cx, mi, Panic).
Proof.
  intros Hr Hb. unfold client_meta_reply. cbn [gm_metadata gm_message].
  assert ((client_take_meta (mkMeta cx mi md)).2 = Panic) as Hp by by apply calm_then_drain; [apply calm_reported|..].
  destruct (client_take_meta _) as [s r]. cbn [snd] in Hp. by subst.
Qed.

(** Metainfo with a name that is no header name hides the caller: the request goes
    out without any of what the service would have added. *)
Lemma bad_metainfo_hides_caller mi cx (md : H) k v es :
  get_all_persistents mi = Some ((k, v) :: es) -> name_of_bytes (HTTP_PREFIX_PERSISTENT ++ k) = None ->
  exists e, client_put_meta mi cx md = (md, Fail e).
Proof.
  intros Hp Hn. eexists. unfold client_put_meta, mbind, stm_bind, insert_all. rewrite Hp.
  cbn [for_each]. unfold mbind, stm_bind, insert_prefixed, key_from_str, key_from_bytes. cbn [fst]. rewrite Hn. reflexivity.
Qed.

(** Metainfo with a name that ends in [-bin] panics the client. *)
Lemma binary_metainfo_panics mi cx (md : H) k v es n :
  get_all_persistents mi = Some ((k, v) :: es) -> name_of_bytes (HTTP_PREFIX_PERSISTENT ++ k) = Some n ->
  is_valid_key Binary n = true -> client_put_meta mi cx md = (md, Panic).
Proof.
  intros Hp Hn Hb. unfold client_put_meta, mbind, stm_bind, insert_all. rewrite Hp.
  cbn [for_each]. unfold mbind, stm_bind, insert_prefixed, key_from_str, key_from_bytes. cbn [fst]. rewrite Hn.
  cbn [is_valid_key] in *. rewrite Hb. reflexivity.
Qed.

(** A configured but empty list of compressions, which is what [Config::clear]
    leaves of one, panics every call that has an address. *)
Lemma empty_compressions_panic c l :
  gc_send_compressions c = Some l -> send_compression (E := Status H) (grpc_config_clear c) = Panic.
Proof. intros Hl. unfold send_compression, grpc_config_clear. cbn. by rewrite Hl. Qed.
End Faults.
