(* ===== verification/GrpcCallExample.v ===== *)
(** A gRPC call run on concrete data: a client with metainfo and compression, a
    wire that cuts bodies into odd pieces, a server with one service that sends
    the messages back in reverse. *)

From S2P Require Import Prelude Net Context Utf8 Headers GrpcStatus GrpcCodec GrpcRoundTrip GrpcMetadata GrpcMetadataSpec GrpcMeta GrpcMetaSpec GrpcService GrpcCall GrpcFaults.
Import GrpcExample.

Module GrpcCallExample.

(** Names of letters, digits and hyphens. *)
Definition name_byte (b : byte) : bool :=
  let z := Z_of_byte b in (97 <=? z) && (z <=? 122) || (65 <=? z) && (z <=? 90) || (48 <=? z) && (z <=? 57) || (z =? 45).

#[export] Instance simple_names : HeaderNames :=
  {| name_of_bytes s := if negb (bool_decide (s = [])) && forallb name_byte s then Some (lower s) else None |}.

Lemma name_byte_lower b : name_byte b = true -> name_byte (ascii_lower b) = true.
Proof. by destruct b. Qed.

Lemma ascii_lower_idem b : ascii_lower (ascii_lower b) = ascii_lower b.
Proof. by destruct b. Qed.

Lemma word_byte_name b : word_byte b = true -> name_byte b = true /\ ascii_lower b = b.
Proof. by destruct b. Qed.

#[export] Instance simple_names_laws : HeaderNamesLaws.
Proof.
  split; cbn -[forallb name_byte].
  - intros s n. destruct (negb _ && _); congruence.
  - intros s n. destruct (negb (bool_decide (s = [])) && forallb name_byte s) eqn:E; [|done]. intros [= <-].
    apply andb_true_iff in E as [E1%negb_true_iff%bool_decide_eq_false E2].
    rewrite bool_decide_eq_false_2 by (by destruct s). cbn [negb andb]. unfold lower.
    assert (forallb name_byte (ascii_lower <$> s) = true) as ->.
    { rewrite forallb_forall in E2 |- *. intros b Hb. apply list_elem_of_In, list_elem_of_fmap in Hb as (c & -> & Hc).
      apply name_byte_lower, E2. by apply list_elem_of_In. }
    rewrite <- list_fmap_compose. f_equal. apply list_fmap_ext. intros i b _. apply ascii_lower_idem.
  - intros s Hw. unfold word in Hw. apply andb_true_iff in Hw as [[E1 _]%andb_true_iff Hb]. rewrite E1. cbn [andb].
    rewrite forallb_forall in Hb. assert (forallb name_byte s = true) as ->.
    { apply forallb_forall. intros b Hi. by apply word_byte_name, Hb. }
    f_equal. unfold lower. rewrite <- (list_fmap_id s) at 2. apply list_fmap_ext. intros i b Hi. apply word_byte_name, Hb.
    apply list_elem_of_In. by eapply list_elem_of_lookup_2.
Qed.

(** Metainfo as three lists. *)
Record Info : Type := mkInfo { in_persistent : Headers; in_transient : Headers; in_backward : Headers }.

#[export] Instance lists_metainfo : HttpMetaInfo :=
  {| MetaInfo := Info; mi_default := mkInfo [] [] [];
     HTTP_PREFIX_PERSISTENT := str "rpc-persist-"; HTTP_PREFIX_TRANSIENT := str "rpc-transit-"; HTTP_PREFIX_BACKWARD := str "rpc-backward-";
     get_all_persistents i := Some (in_persistent i); get_all_transients i := Some (in_transient i);
     get_all_backward_transients i := Some (in_backward i);
     strip_http_prefix_and_set_persistent k v i := mkInfo (in_persistent i ++ [(drop 12 k, v)]) (in_transient i) (in_backward i);
     strip_http_prefix_and_set_upstream k v i := mkInfo (in_persistent i) (in_transient i ++ [(drop 12 k, v)]) (in_backward i);
     strip_http_prefix_and_set_backward_downstream k v i := mkInfo (in_persistent i) (in_transient i) (in_backward i ++ [(drop 13 k, v)]) |}.

#[export] Instance lists_metainfo_laws : HttpMetaInfoLaws.
Proof.
  split; [reflexivity|]. intros n Hn. unfold own_names in Hn.
  repeat (apply elem_of_cons in Hn as [->|Hn]; [by vm_compute|]). by apply elem_of_nil in Hn.
Qed.

#[export] Instance local_text : AddrText :=
  {| fmt_socket_addr _ := str "127.0.0.1:80"; parse_socket_addr _ := None; escape_ascii := id; to_string_lossy := id |}.

#[export] Instance path_uri : GrpcUri bytes := {| uri_build _ _ p := Some p; uri_path := id |}.

(** Patterns end in a wild card of seven bytes. *)
#[export] Instance prefix_matchit : Matchit (list (bytes * Z)) :=
  {| mt_empty := []; mt_insert p i m := Some ((p, i) :: m);
     mt_at path m := (fun e => (e.2.2, [])) <$> list_find (fun e => starts_with path (take (length e.1 - 7) e.1) = true) m |}.

(** A wire that cuts a body after three bytes. *)
Definition recut (all : bytes) : list (BodyFrame Headers) := FData <$> [take 3 all; drop 3 all].

Definition odd_wire : Wire Headers := {|
  wire_headers h := h;
  wire_request l := recut (concat (omap (fun x => match x with inl f => Some f | inr _ => None end) l));
  wire_response l :=
    recut (concat (omap (fun x => match x with FData f => Some f | _ => None end) l)) ++
    omap (fun x => match x with FTrailers t => Some (FTrailers t) | _ => None end) l |}.

Lemma recut_concat (all : bytes) : concat [take 3 all; drop 3 all] = all.
Proof. cbn. by rewrite app_nil_r, take_drop. Qed.

Lemma omap_all {A B C} (f : B -> option C) (g : A -> B) (h : A -> C) (l : list A) : (forall a, f (g a) = Some (h a)) -> omap f (g <$> l) = h <$> l.
Proof. intros Hf. induction l as [|a l IH]; [done|]. cbn. rewrite Hf. by f_equal. Qed.

Lemma omap_none {A B C} (f : B -> option C) (g : A -> B) (l : list A) : (forall a, f (g a) = None) -> omap f (g <$> l) = [].
Proof. intros Hf. induction l as [|a l IH]; [done|]. cbn. by rewrite Hf. Qed.

#[export] Instance odd_wire_laws : WireLaws odd_wire.
Proof.
  split.
  - intros h k. done.
  - intros frames. exists [take 3 (concat frames); drop 3 (concat frames)]. split; [|apply recut_concat].
    cbn [wire_request odd_wire]. by rewrite (omap_all _ _ id), list_fmap_id.
  - intros frames t. exists [take 3 (concat frames); drop 3 (concat frames)], t. split_and!; [|apply recut_concat|done].
    cbn [wire_response odd_wire]. rewrite !omap_app, (omap_all _ _ id), list_fmap_id, omap_none by done.
    cbn [omap list_omap app]. by rewrite app_nil_r.
Qed.

(** * The two sides *)

Definition client_config : GrpcConfig :=
  mkGrpcConfig None None None None (Some [Zlib (Some 6); Gzip (Some 6)]) (Some [Gzip (Some 6)]).
Definition server_config : GrpcConfig :=
  mkGrpcConfig None None None None (Some [Gzip (Some 3)]) (Some [Gzip (Some 3)]).

Definition method : bytes := str "/shop.Shop/Order".
Definition addr : Address := Ip (SocketAddrV4 2130706433 80).
Definition cx : GrpcCx :=
  mkGrpcCx Client (Endpoint.new (str "web")) (Endpoint.set_address addr (Endpoint.new (str "shop"))) method client_config None None.
Definition info : MetaInfo := mkInfo [(str "user", str "ann"); (str "trace", str "7")] [(str "hop", str "1")] [].
Definition metadata : Headers := [(str "x-tenant", str "blue"); (str "x-tag", str "a"); (str "x-tag", str "b")].

(** The handler answers with the messages it got, the last one first. *)
Definition reversed : Handler (H := Headers) nat (RecvStream Headers) (list bytes) := fun w cx mi req =>
  (S w, cx, mkInfo (in_persistent mi) (in_transient mi) [(str "cost", str "3")],
   match collect (E := Status Headers) 10 (gm_message req) with
   | Done (items, _) =>
       Done (mkMsg [(str "served-by", ep_service_name (gx_callee cx))]
         (reverse (omap (fun x => match x with inl m => Some m | inr _ => None end) items)))
   | _ => Fail (Status.new Internal [])
   end).

#[local] Existing Instances stream_send stream_recv.

Definition router : GrpcRouter (H := Headers) (W := nat) (M := list (bytes * Z)) (B := list (BodyFrame Headers)) (C := list (BodyFrame Headers)) :=
  match add_service (E := Empty_set) (str "shop.Shop") (codec_service 10 20 server_config reversed) 5 grpc_router_new with
  | Done (_, r) => r
  | _ => grpc_router_new
  end.

Definition call_frames : list bytes :=
  Eval vm_compute in omap (fun x => match x with inl f => Some f | inr _ => None end)
    (outcome_get [] (encode (H := Headers) (E := Empty_set) (inl <$> sent) gzip6)).

(** Facts of these headers, by going through them. *)
Ltac each_header H :=
  repeat (first [apply elem_of_cons in H as [[= -> ->]|H] | apply elem_of_cons in H as [->|H]]; [by vm_compute|]);
  by apply elem_of_nil in H.

Lemma metadata_sendable : sendable info cx metadata.
Proof.
  split.
  - split_and!; repeat constructor.
  - apply (bool_decide_unpack _). vm_compute. exact I.
  - intros k v Hin%iter_get_all. cbn [hm_iter headers_entries] in Hin. unfold metadata in Hin. each_header Hin.
  - intros k Hne. destruct (decide (k ∈ metadata.*1)) as [Hin|Hn]; [|by apply all_nil_iff in Hn].
    cbn [metadata fmap list_fmap fst] in Hin. each_header Hin.
  - intros n Hin. unfold own_names in Hin. each_header Hin.
  - intros k Hk. apply all_nil_iff. intros Hin. cbn [metadata fmap list_fmap fst] in Hin.
    repeat (apply elem_of_cons in Hin as [->|Hin]; [by vm_compute in Hk|]). by apply elem_of_nil in Hin.
Qed.

Lemma shop_reachable :
  reachable (U := bytes) (T := bytes) 10 20 reversed cx router server_config gzip6 (Some (Gzip None)).
Proof.
  split.
  - exists addr, method. by vm_compute.
  - exists 5, []. split; [by vm_compute|]. reflexivity.
  - reflexivity.
  - by vm_compute.
  - by split.
Qed.

Lemma grpc_call_over_the_wire_witness :
  exists scx fs smd stream stream',
    grpc_call (wi := odd_wire) (U := bytes) (T := bytes) (str "no route") 1 2 router 0%nat cx info (mkMsg metadata sent) =
      grpc_answer (wi := odd_wire) (T := bytes) 1 2 20 cx info (Some (Gzip (Some 3)))
        (reversed 0%nat scx (apply_entries forward_entry fs mi_default) (mkMsg smd stream)) /\
    ep_service_name (gx_caller scx) = str "web" /\ ep_service_name (gx_callee scx) = str "shop" /\ gx_method scx = method /\
    fs ≡ₚ forwarded info /\ hm_get_all (str "x-tag") smd = [str "a"; str "b"] /\
    collect (E := Status Headers) 3 stream = Done (inl <$> sent, stream').
Proof.
  assert (encode (H := Headers) (E := Status Headers) (inl <$> sent) gzip6 = Done (inl <$> call_frames)) as He
    by (vm_compute; reflexivity).
  destruct (grpc_call_over_the_wire (U := bytes) (wi := odd_wire) (str "no route") 1 2 10 20 reversed router server_config gzip6
    (Some (Gzip None)) 0%nat cx info metadata sent call_frames metadata_sendable shop_reachable He)
    as (scx & fs & smd & stream & stream' & Hc & N1 & N2 & N3 & Hf & Hu & Hs).
  exists scx, fs, smd, stream, stream'. split_and!; [exact Hc|exact N1|exact N2|exact N3|exact Hf| |exact Hs].
  rewrite Hu; [reflexivity|apply (bool_decide_unpack _); vm_compute; exact I|reflexivity].
Defined.

Definition answer_info : MetaInfo := mkInfo [] [] [(str "cost", str "3")].
Definition answer_metadata : Headers := [(str "served-by", str "shop")].

Lemma answer_answerable : answerable answer_info answer_metadata.
Proof.
  split.
  - repeat constructor.
  - apply (bool_decide_unpack _). vm_compute. exact I.
  - intros k v Hin%iter_get_all. cbn [hm_iter headers_entries] in Hin. unfold answer_metadata in Hin. each_header Hin.
  - intros k Hne. destruct (decide (k ∈ answer_metadata.*1)) as [Hin|Hn]; [|by apply all_nil_iff in Hn].
    cbn [answer_metadata fmap list_fmap fst] in Hin. each_header Hin.
  - intros n Hin. unfold own_names in Hin. each_header Hin.
  - intros k Hk. apply all_nil_iff. intros Hin. cbn [answer_metadata fmap list_fmap fst] in Hin.
    repeat (apply elem_of_cons in Hin as [->|Hin]; [by vm_compute in Hk|]). by apply elem_of_nil in Hin.
Qed.

Lemma grpc_reply_over_the_wire_witness :
  exists bs cmd stream stream',
    grpc_answer (wi := odd_wire) 1 2 20 cx info gzip6 (0%nat, cx, answer_info, Done (mkMsg answer_metadata sent)) =
      (0%nat, gx_record_end 2 (gx_record_start 1 cx), apply_entries backward_entry bs info, Done (mkMsg cmd stream)) /\
    bs ≡ₚ returned answer_info /\ hm_get_all (str "served-by") cmd = [str "shop"] /\
    collect (E := Status Headers) 3 stream = Done (inl <$> sent, stream').
Proof.
  assert (encode (H := Headers) (E := Status Headers) (inl <$> sent) gzip6 = Done (inl <$> call_frames)) as He
    by (vm_compute; reflexivity).
  assert (CompressionEncoding.from_encoding_header (H := Headers) (CompressionEncoding.into_header_value <$> gzip6)
    (gc_accept_compressions (gx_config cx)) = Done (Some (Gzip None))) as Hr by (vm_compute; reflexivity).
  assert (agree gzip6 (Some (Gzip None))) as Ha by (split; reflexivity).
  destruct (grpc_reply_over_the_wire (wi := odd_wire) 1 2 20 cx info 0%nat cx answer_info answer_metadata sent call_frames gzip6
    (Some (Gzip None)) answer_answerable He Hr Ha) as (bs & cmd & stream & stream' & Hc & Hb & Hu & Hs).
  exists bs, cmd, stream, stream'. split_and!; [exact Hc|exact Hb| |exact Hs].
  rewrite Hu; [reflexivity|apply (bool_decide_unpack _); vm_compute; exact I|reflexivity].
Defined.

Lemma grpc_error_over_the_wire_witness :
  exists st', grpc_answer (wi := odd_wire) (T := bytes) 1 2 20 cx info None (0%nat, cx, answer_info, Fail not_found) =
      (0%nat, gx_record_end 2 (gx_record_start 1 cx), info, Fail st') /\
    st_code st' = NotFound /\ st_message st' = st_message not_found.
Proof.
  destruct (grpc_error_over_the_wire (wi := odd_wire) (T := bytes) 1 2 20 cx info 0%nat cx answer_info None not_found)
    as (st' & Hc & H1 & H2 & _); [done|reflexivity..|].
  exists st'. split_and!; [exact Hc|exact H1|exact H2].
Defined.

(** A trace header, as other implementations send it. *)
Definition traced : Headers := (str "grpc-trace-bin", str "AAAA") :: metadata.

Lemma binary_metadata_panics_server_witness :
  server_meta (E := Empty_set) (grpc_router_call (str "no route") router) 0%nat method traced [] = (0%nat, Panic).
Proof.
  apply binary_metadata_panics_server.
  - intros k v Hin%iter_get_all. cbn [hm_iter headers_entries] in Hin. unfold traced, metadata in Hin. each_header Hin.
  - exists (str "grpc-trace-bin"). split; [reflexivity|]. vm_compute. discriminate.
Defined.

Lemma binary_metadata_panics_client_witness :
  client_meta_reply (W := nat) (0%nat, cx, info, Done (mkMsg traced [str "hello"])) = (0%nat, cx, info, Panic).
Proof.
  apply binary_metadata_panics_client.
  - intros k v Hin%iter_get_all. cbn [hm_iter headers_entries] in Hin. unfold traced, metadata in Hin. each_header Hin.
  - exists (str "grpc-trace-bin"). split; [reflexivity|]. vm_compute. discriminate.
Defined.

Lemma metadata_lookup_typed_witness :
  md_get_all Ascii (ByStr (str "X-Tag")) metadata = [mkValue (str "a"); mkValue (str "b")].
Proof.
  destruct (metadata_lookup_typed Ascii (str "X-Tag") (str "x-tag") metadata) as (Ha & _); [reflexivity..|].
  rewrite Ha. reflexivity.
Defined.

Lemma binary_metadata_roundtrip_witness :
  exists v old map', md_insert (E := Empty_set) Binary (IntoKeyStatic (str "trace-bin")) v metadata = Done (old, map') /\
    to_bytes v = Done [x00; xff] /\ md_get_all Binary (ByKey (mkKey (str "trace-bin"))) map' = [v].
Proof.
  destruct (binary_metadata_roundtrip (E := Empty_set) (IntoKeyStatic (str "trace-bin")) (str "trace-bin") [x00; xff] metadata)
    as (v & old & map' & _ & Hi & Hb & Hg & _); [reflexivity|].
  exists v, old, map'. split_and!; [exact Hi|exact Hb|exact Hg].
Defined.
End GrpcCallExample.
