(* ===== verification/GrpcRun.v ===== *)
(** The life of a gRPC server (volo-grpc/src/server/mod.rs, server/incoming.rs):
    its builder and settings, the service around a connection's requests, the
    accept loop with the TLS handshake inside it, and the shutdown, which tells
    every connection over a watch channel and waits for all of them.

    The theorems: the shutdown drops no connection and ends when the last one
    does; a handshake holds back the signal; the caller a handler sees has the
    address of the connection unless the request names one. *)

From S2P Require Import Prelude Net Context Headers GrpcStatus GrpcCodec GrpcMetadata GrpcMeta GrpcMetaSpec GrpcService GrpcRoundTrip GrpcCallExample.

(** * Settings and the builder *)

(** Durations are in nanoseconds. *)
Record Http2Config : Type := mkHttp2Config {
  init_stream_window_size : Z; init_connection_window_size : Z; max_concurrent_streams : option Z; adaptive_window : bool;
  http2_keepalive_interval : option Z; http2_keepalive_timeout : Z; max_frame_size : option Z; max_send_buf_size : Z;
  max_header_list_size : Z; accept_http1 : bool }.

Definition Http2Config_default : Http2Config :=
  mkHttp2Config (1024 * 1024) (1024 * 1024) None false None (20 * 10 ^ 9) None (1024 * 400) (Z.shiftl 16 20) false.

Section Settings.
Implicit Types c : Http2Config.

Definition http2_init_stream_window_size (sz : Z) c :=
  mkHttp2Config sz (init_connection_window_size c) (max_concurrent_streams c) (adaptive_window c) (http2_keepalive_interval c)
    (http2_keepalive_timeout c) (max_frame_size c) (max_send_buf_size c) (max_header_list_size c) (accept_http1 c).
Definition http2_init_connection_window_size (sz : Z) c :=
  mkHttp2Config (init_stream_window_size c) sz (max_concurrent_streams c) (adaptive_window c) (http2_keepalive_interval c)
    (http2_keepalive_timeout c) (max_frame_size c) (max_send_buf_size c) (max_header_list_size c) (accept_http1 c).
Definition http2_adaptive_window (enabled : bool) c :=
  mkHttp2Config (init_stream_window_size c) (init_connection_window_size c) (max_concurrent_streams c) enabled
    (http2_keepalive_interval c) (http2_keepalive_timeout c) (max_frame_size c) (max_send_buf_size c) (max_header_list_size c)
    (accept_http1 c).
Definition http2_max_concurrent_streams (max : option Z) c :=
  mkHttp2Config (init_stream_window_size c) (init_connection_window_size c) max (adaptive_window c) (http2_keepalive_interval c)
    (http2_keepalive_timeout c) (max_frame_size c) (max_send_buf_size c) (max_header_list_size c) (accept_http1 c).
Definition set_http2_keepalive_interval (interval : option Z) c :=
  mkHttp2Config (init_stream_window_size c) (init_connection_window_size c) (max_concurrent_streams c) (adaptive_window c)
    interval (http2_keepalive_timeout c) (max_frame_size c) (max_send_buf_size c) (max_header_list_size c) (accept_http1 c).
Definition set_http2_keepalive_timeout (timeout : Z) c :=
  mkHttp2Config (init_stream_window_size c) (init_connection_window_size c) (max_concurrent_streams c) (adaptive_window c)
    (http2_keepalive_interval c) timeout (max_frame_size c) (max_send_buf_size c) (max_header_list_size c) (accept_http1 c).
Definition http2_max_frame_size (sz : option Z) c :=
  mkHttp2Config (init_stream_window_size c) (init_connection_window_size c) (max_concurrent_streams c) (adaptive_window c)
    (http2_keepalive_interval c) (http2_keepalive_timeout c) sz (max_send_buf_size c) (max_header_list_size c) (accept_http1 c).
Definition http2_max_send_buf_size (max : Z) c :=
  mkHttp2Config (init_stream_window_size c) (init_connection_window_size c) (max_concurrent_streams c) (adaptive_window c)
    (http2_keepalive_interval c) (http2_keepalive_timeout c) (max_frame_size c) max (max_header_list_size c) (accept_http1 c).
Definition http2_max_header_list_size (max : Z) c :=
  mkHttp2Config (init_stream_window_size c) (init_connection_window_size c) (max_concurrent_streams c) (adaptive_window c)
    (http2_keepalive_interval c) (http2_keepalive_timeout c) (max_frame_size c) (max_send_buf_size c) max (accept_http1 c).
Definition set_accept_http1 (b : bool) c :=
  mkHttp2Config (init_stream_window_size c) (init_connection_window_size c) (max_concurrent_streams c) (adaptive_window c)
    (http2_keepalive_interval c) (http2_keepalive_timeout c) (max_frame_size c) (max_send_buf_size c) (max_header_list_size c) b.
End Settings.


Section Builder.
Context {H : Type} `{HeaderMap H} `{HeaderEntries H} `{HeaderNames} `{HttpMetaInfo} `{AddrText} `{PercentEncoding} `{Base64}.
Context {M : Type} `{Matchit M} {W E Tls : Type} (no_match : bytes).

(** Services around the router, and services around the metadata service. *)
Abbreviation Inner := (Handler (H := H) W (list (BodyFrame H)) (list (BodyFrame H))).
Abbreviation Outer := (W -> bytes -> H -> list (BodyFrame H) -> W * outcome E (HttpResponse H)).
Abbreviation Routes := (GrpcRouter (H := H) (W := W) (M := M) (B := list (BodyFrame H)) (C := list (BodyFrame H))).

(** Layers are functions; spans are left out. *)
Record GrpcServer : Type := mkGrpcServer {
  gs_inner_layer : Inner -> Inner; gs_outer_layer : Outer -> Outer; gs_http2_config : Http2Config; gs_router : Routes;
  gs_tls_config : option Tls }.

Definition grpc_server_new : GrpcServer := mkGrpcServer id id Http2Config_default grpc_router_new None.
Definition tls_config (value : Tls) (s : GrpcServer) : GrpcServer :=
  mkGrpcServer (gs_inner_layer s) (gs_outer_layer s) (gs_http2_config s) (gs_router s) (Some value).
Definition set_http2_config (f : Http2Config -> Http2Config) (s : GrpcServer) : GrpcServer :=
  mkGrpcServer (gs_inner_layer s) (gs_outer_layer s) (f (gs_http2_config s)) (gs_router s) (gs_tls_config s).
Definition layer (l : Inner -> Inner) (s : GrpcServer) : GrpcServer :=
  mkGrpcServer (fun x => gs_inner_layer s (l x)) (gs_outer_layer s) (gs_http2_config s) (gs_router s) (gs_tls_config s).
Definition layer_front (l : Inner -> Inner) (s : GrpcServer) : GrpcServer :=
  mkGrpcServer (fun x => l (gs_inner_layer s x)) (gs_outer_layer s) (gs_http2_config s) (gs_router s) (gs_tls_config s).
Definition layer_tower (l : Outer -> Outer) (s : GrpcServer) : GrpcServer :=
  mkGrpcServer (gs_inner_layer s) (fun x => gs_outer_layer s (l x)) (gs_http2_config s) (gs_router s) (gs_tls_config s).
Definition server_add_service {F} (name : bytes) (service : Inner) (id : Z) (s : GrpcServer) : outcome F (Z * GrpcServer) :=
  r ← add_service name service id (gs_router s);
  Done (r.1, mkGrpcServer (gs_inner_layer s) (gs_outer_layer s) (gs_http2_config s) r.2 (gs_tls_config s)).

(** The service [run_with_shutdown] clones for every connection. *)
Definition grpc_service (s : GrpcServer) : Outer :=
  gs_outer_layer s (server_meta (gs_inner_layer s (grpc_router_call no_match (gs_router s)))).

(** [IncomingService::call]. *)
Definition incoming_call (peer_addr : option Address) (inner : Outer) : Outer := fun w path h body =>
  let h :=
    if hm_contains HEADER_TRANS_REMOTE_ADDR h then h
    else
      match peer_addr with
      | Some addr =>
          match to_str (address_to_string addr) with Some v => hm_insert HEADER_TRANS_REMOTE_ADDR v h | None => h end
      | None => h
      end in
  inner w path h body.
End Builder.

(** * The caller of a request *)

Section Caller.
Context {H : Type} `{HeaderEntriesLaws H} `{HeaderNamesLaws} `{HttpMetaInfo} `{AddrText} `{PercentEncoding} `{Base64}.
Context {W E : Type}.
Abbreviation Service := (Handler (H := H) W (list (BodyFrame H)) (list (BodyFrame H))).

(** Headers to which a remote address is added. *)
Lemma rip_added (h : H) v :
  plain h -> named h -> to_str v = Some v ->
  plain (hm_insert HEADER_TRANS_REMOTE_ADDR v h) /\ named (hm_insert HEADER_TRANS_REMOTE_ADDR v h).
Proof.
  intros Hp Hn Hv. split.
  - intros k x. rewrite all_insert. case_bool_decide as Ek; [|by apply Hp]. rewrite Ek. intros ->%list_elem_of_singleton. done.
  - intros k. rewrite all_insert. case_bool_decide as Ek; [|by apply Hn]. rewrite Ek. intros _. by apply name_word.
Qed.

(** C31: The service behind a connection runs a request from a named caller with that
    caller; its address is the connection's, unless the request itself carries
    a remote address: then it is what that one says, true or not. The handler
    does not see the remote address among the metadata. *)
Theorem caller_address_of_connection (inner : Service) w path h body src dst ip :
  plain h -> named h -> hm_get_all SOURCE_SERVICE h = [src] -> hm_get_all DESTINATION_SERVICE h = [dst] ->
  to_str (fmt_socket_addr ip) = Some (fmt_socket_addr ip) -> parse_socket_addr (fmt_socket_addr ip) = Some ip ->
  exists cx mi md,
    incoming_call (E := E) (Some (Ip ip)) (server_meta inner) w path h body = meta_reply (inner w cx mi (mkMsg md body)) /\
    ep_service_name (gx_caller cx) = src /\ ep_service_name (gx_callee cx) = dst /\ gx_method cx = path /\
    ep_address (gx_caller cx) =
      match hm_get_all HEADER_TRANS_REMOTE_ADDR h with [] => Some (Ip ip) | v :: _ => Ip <$> parse_socket_addr v end /\
    hm_get_all HEADER_TRANS_REMOTE_ADDR md = [].
Proof.
  intros Hp Hn Hs Hd Ht Hparse.
  assert (exists h', plain h' /\ named h' /\ hm_get_all SOURCE_SERVICE h' = [src] /\ hm_get_all DESTINATION_SERVICE h' = [dst] /\
    reported_address h' = match hm_get_all HEADER_TRANS_REMOTE_ADDR h with [] => Some (Ip ip) | v :: _ => Ip <$> parse_socket_addr v end /\
    incoming_call (E := E) (Some (Ip ip)) (server_meta inner) w path h body = server_meta inner w path h' body)
    as (h' & Hp' & Hn' & Hs' & Hd' & Hr & ->).
  { unfold incoming_call, hm_contains. rewrite get_first. destruct (hm_get_all HEADER_TRANS_REMOTE_ADDR h) as [|v vs] eqn:Er.
    - cbn [head address_to_string]. rewrite Ht. destruct (rip_added h _ Hp Hn Ht) as [Hp' Hn'].
      eexists. split_and!; [exact Hp'|exact Hn'|by rewrite all_insert, bool_decide_eq_false_2..| |done].
      unfold reported_address. rewrite all_insert, bool_decide_eq_true_2 by done. cbn. by rewrite Hparse.
    - exists h. split_and!; [done..| |done]. unfold reported_address. by rewrite Er. }
  destruct (server_take_meta_reported (gx_set_method path server_cx_default) mi_default h' src dst Hp' Hn' Hs' Hd')
    as (rest & md & Hrest & Hmd & Ht').
  eexists _, _, md. unfold server_meta. rewrite Ht'. cbn [ms_cx ms_mi ms_md]. split; [reflexivity|]. rewrite Hr. split_and!.
  - by destruct (hm_get_all HEADER_TRANS_REMOTE_ADDR h) as [|v ?]; [|destruct (parse_socket_addr v)].
  - by destruct (hm_get_all HEADER_TRANS_REMOTE_ADDR h) as [|v ?]; [|destruct (parse_socket_addr v)].
  - by destruct (hm_get_all HEADER_TRANS_REMOTE_ADDR h) as [|v ?]; [|destruct (parse_socket_addr v)].
  - by destruct (hm_get_all HEADER_TRANS_REMOTE_ADDR h) as [|v ?]; [|destruct (parse_socket_addr v)].
  - rewrite Hmd, Hrest. by rewrite bool_decide_eq_true_2 by (rewrite !elem_of_cons; auto).
Qed.
End Caller.

(** * Running *)

(** A connection's task: whether its receiver saw the signal, and whether the
    connection was told to shut down gracefully. *)
Inductive GConn : Type := GServing (seen graceful : bool) | GDone.

(** The select, the handshake awaited in its arm, the wait for the receivers,
    and what [run_with_shutdown] returns ([false]: an error of [accept]). *)
Inductive GLoop : Type := GSelect | GHandshake | GClosing | GReturned (ok : bool).

(** [gr_sent]: a value was sent on the watch channel. *)
Record GRun : Type := mkGRun { gr_tls : bool; gr_loop : GLoop; gr_sent : bool; gr_conns : list GConn }.

Definition grpc_start (tls : bool) : GRun := mkGRun tls GSelect false [].

Definition serving (c : GConn) : bool := match c with GServing _ _ => true | GDone => false end.

Inductive Accept : Type := AcceptErr | AcceptNone | AcceptConn (tcp : bool).

(** The sender lives until [run_with_shutdown] returns. *)
Definition sender_dropped (s : GRun) : bool := match gr_loop s with GReturned _ => true | _ => false end.

(** The signal: [drop(rx)], and [tx.send], which sends nothing without receivers. *)
Definition grpc_signal (s : GRun) : option GRun :=
  match gr_loop s with
  | GSelect => Some (mkGRun (gr_tls s) GClosing (existsb serving (gr_conns s)) (gr_conns s))
  | _ => None
  end.

Definition spawn_conn (s : GRun) : GRun := mkGRun (gr_tls s) GSelect (gr_sent s) (gr_conns s ++ [GServing (gr_sent s) false]).

Definition grpc_accept (a : Accept) (s : GRun) : option GRun :=
  match gr_loop s with
  | GSelect =>
      Some (match a with
            | AcceptErr => mkGRun (gr_tls s) (GReturned false) (gr_sent s) (gr_conns s)
            | AcceptNone => mkGRun (gr_tls s) (GReturned true) (gr_sent s) (gr_conns s)
            | AcceptConn tcp =>
                if gr_tls s && tcp then mkGRun (gr_tls s) GHandshake (gr_sent s) (gr_conns s) else spawn_conn s
            end)
  | _ => None
  end.

Definition grpc_handshaken (ok : bool) (s : GRun) : option GRun :=
  match gr_loop s with
  | GHandshake => Some (if ok then spawn_conn s else mkGRun (gr_tls s) GSelect (gr_sent s) (gr_conns s))
  | _ => None
  end.

(** [tx.closed()]: every receiver is gone. *)
Definition grpc_closed (s : GRun) : option GRun :=
  match gr_loop s with
  | GClosing => if existsb serving (gr_conns s) then None else Some (mkGRun (gr_tls s) (GReturned true) (gr_sent s) (gr_conns s))
  | _ => None
  end.

Definition set_conn (i : nat) (c : GConn) (s : GRun) : GRun := mkGRun (gr_tls s) (gr_loop s) (gr_sent s) (<[i := c]> (gr_conns s)).

(** A task's turn on [watch.changed()], which is ready when something new was sent
    or the sender is gone, and is taken either way. *)
Definition conn_notice (i : nat) (s : GRun) : option GRun :=
  match gr_conns s !! i with
  | Some (GServing seen _) =>
      if gr_sent s && negb seen then Some (set_conn i (GServing true true) s)
      else if sender_dropped s then Some (set_conn i (GServing seen true) s)
      else None
  | _ => None
  end.

(** The connection is over: the task breaks and drops its receiver. *)
Definition conn_over (i : nat) (s : GRun) : option GRun :=
  match gr_conns s !! i with Some (GServing _ _) => Some (set_conn i GDone s) | _ => None end.

Inductive GEvent : Type :=
| GSignal | GAccept (a : Accept) | GHandshaken (ok : bool) | GClosed | GNotice (i : nat) | GOver (i : nat).

Definition grpc_step (e : GEvent) (s : GRun) : option GRun :=
  match e with
  | GSignal => grpc_signal s
  | GAccept a => grpc_accept a s
  | GHandshaken ok => grpc_handshaken ok s
  | GClosed => grpc_closed s
  | GNotice i => conn_notice i s
  | GOver i => conn_over i s
  end.

Fixpoint grpc_all (es : list GEvent) (s : GRun) : option GRun :=
  match es with
  | [] => Some s
  | e :: es => s ← grpc_step e s; grpc_all es s
  end.

Definition grpc_reachable (s : GRun) : Prop := exists tls es, grpc_all es (grpc_start tls) = Some s.

(** * The shutdown *)

(** Steps a task can still take after the signal. *)
Definition conn_left (c : GConn) : nat := match c with GServing false _ => 2 | GServing true _ => 1 | GDone => 0 end.
Definition loop_left (l : GLoop) : nat := match l with GClosing => 1 | _ => 0 end.
Definition run_left (s : GRun) : nat := sum_list_with conn_left (gr_conns s) + loop_left (gr_loop s).

Lemma conns_left_bound (l : list GConn) : (sum_list_with conn_left l <= 2 * length l)%nat.
Proof. induction l as [|[[] ?|] l IH]; cbn in *; lia. Qed.

(** Closing, or returned with nothing left to serve. *)
Definition draining (s : GRun) : Prop :=
  match gr_loop s with
  | GClosing => True
  | GReturned ok => ok = true /\ existsb serving (gr_conns s) = false
  | _ => False
  end.

Lemma idle_lookup (l : list GConn) i : existsb serving l = false -> forall a b, l !! i <> Some (GServing a b).
Proof.
  intros Hx a b Hi. rewrite <- not_true_iff_false in Hx. destruct Hx. apply existsb_exists. exists (GServing a b).
  split; [|done]. apply list_elem_of_In. by apply list_elem_of_lookup_2 in Hi.
Qed.

Lemma draining_step e s s' :
  draining s -> grpc_step e s = Some s' ->
  draining s' /\ length (gr_conns s') = length (gr_conns s) /\ (S (run_left s') <= run_left s)%nat.
Proof.
  unfold draining, run_left. destruct s as [tls l sent conns]. cbn [gr_loop gr_conns]. intros Hd. destruct e; cbn [grpc_step].
  1,2,3: destruct l; cbn; try done.
  - destruct l; cbn; try done. destruct (existsb serving conns) eqn:Hx; [done|]. intros [= <-]. cbn. split_and!; [done..|lia].
  - unfold conn_notice, sender_dropped, set_conn. cbn. destruct (conns !! i) as [[seen g|]|] eqn:Hi; try done.
    destruct l; cbn in *; try done; [|destruct Hd as [_ Hx]; by apply (idle_lookup _ _ Hx) in Hi].
    destruct (sent && negb seen) eqn:Hn; [|done]. apply andb_true_iff in Hn as [_ Hn]. destruct seen; [done|]. intros [= <-]. cbn.
    rewrite length_insert. pose proof (sum_list_with_insert conn_left i _ (GServing true true) _ Hi) as Hs. cbn in Hs. split_and!; [done..|lia].
  - unfold conn_over, set_conn. cbn. destruct (conns !! i) as [[seen g|]|] eqn:Hi; try done. intros [= <-]. cbn.
    rewrite length_insert. pose proof (sum_list_with_insert conn_left i _ GDone _ Hi) as Hs. cbn in Hs.
    destruct l; cbn in *; try done; [|destruct Hd as [_ Hx]; by apply (idle_lookup _ _ Hx) in Hi].
    split_and!; [done..|destruct seen; lia].
Qed.

Lemma draining_all es s s' :
  draining s -> grpc_all es s = Some s' ->
  draining s' /\ length (gr_conns s') = length (gr_conns s) /\ (length es + run_left s' <= run_left s)%nat.
Proof.
  revert s. induction es as [|e es IH]; cbn; intros s Hd; [intros [= <-]; split_and!; [done..|lia]|].
  destruct (grpc_step e s) as [s1|] eqn:H1; [|done]. cbn. intros Ha. destruct (draining_step e s s1 Hd H1) as (Hd1 & E1 & L1).
  destruct (IH s1 Hd1 Ha) as (Hd2 & E2 & L2). split_and!; [done|lia..].
Qed.

(** What holds of every state: nothing is sent before the signal, and while
    closing a connection was told exactly when its task saw the signal. *)
Definition conn_ok (c : GConn) : Prop := match c with GServing seen g => g = seen | GDone => True end.
Record grpc_inv (s : GRun) : Prop := {
  gi_open : gr_loop s = GSelect \/ gr_loop s = GHandshake -> gr_sent s = false;
  gi_closing : gr_loop s = GClosing -> existsb serving (gr_conns s) = true -> gr_sent s = true;
  gi_conns : sender_dropped s = false -> Forall conn_ok (gr_conns s) }.

Lemma serving_insert (l : list GConn) i c old :
  l !! i = Some old -> (serving c = true -> serving old = true) -> existsb serving (<[i := c]> l) = true -> existsb serving l = true.
Proof.
  revert i. induction l as [|x l IH]; intros [|i]; cbn; [done..| |].
  - intros [= ->] Hc. rewrite !orb_true_iff. intros [?|?]; auto.
  - intros Hi Hc. rewrite !orb_true_iff. intros [?|?]; eauto.
Qed.

Lemma grpc_step_inv e s s' : grpc_inv s -> grpc_step e s = Some s' -> grpc_inv s'.
Proof.
  intros [I1 I2 I3]. destruct s as [tls l sent conns]. unfold sender_dropped in *. cbn [gr_loop gr_conns gr_sent] in *.
  destruct e; cbn [grpc_step].
  - destruct l; cbn; try done. intros [= <-]. split; unfold sender_dropped; cbn; [by intros []|done|auto].
  - destruct l; cbn; try done. destruct a as [| |tcp]; cbn; [| |destruct (tls && tcp)]; intros [= <-]; split; unfold sender_dropped; cbn; try done; auto;
      try (by intros []). intros _. apply Forall_app. split; [auto|]. rewrite I1 by auto. by repeat constructor.
  - destruct l; cbn; try done. destruct ok; intros [= <-]; split; unfold sender_dropped; cbn; try done; auto.
    intros _. apply Forall_app. split; [auto|]. rewrite I1 by auto. by repeat constructor.
  - destruct l; cbn; try done. destruct (existsb serving conns) eqn:Hx; [done|]. intros [= <-]. split; unfold sender_dropped; cbn; try done.
    by intros [].
  - unfold conn_notice, set_conn, sender_dropped. cbn. destruct (conns !! i) as [[seen g|]|] eqn:Hi; try done.
    destruct (sent && negb seen); [|destruct l; try done]; intros [= <-]; split; unfold sender_dropped; cbn; try done; auto;
      try (by intros []).
    + intros Hl Hs. apply I2; [done|]. by apply (serving_insert _ _ _ _ Hi) in Hs.
    + intros Hl. apply Forall_insert; [auto|done].
  - unfold conn_over, set_conn. cbn. destruct (conns !! i) as [[seen g|]|] eqn:Hi; try done. intros [= <-].
    split; unfold sender_dropped; cbn; auto.
    + intros Hl Hs. apply I2; [done|]. by apply (serving_insert _ _ _ _ Hi) in Hs.
    + intros Hl. apply Forall_insert; [auto|done].
Qed.

Lemma grpc_reachable_inv s : grpc_reachable s -> grpc_inv s.
Proof.
  intros (tls & es & Hs). assert (grpc_inv (grpc_start tls)) as I by (split; cbn; [done..|intros; constructor]).
  revert Hs I. generalize (grpc_start tls). induction es as [|e es IH]; cbn; intros s0; [by intros [= <-]|].
  destruct (grpc_step e s0) as [s1|] eqn:H1; [|done]. cbn. intros Hs I. apply (IH s1); [done|]. by apply (grpc_step_inv e s0).
Qed.

(** C17: A server that saw the signal drops no connection: whatever happens from then
    on, no connection is accepted and [run_with_shutdown] returns, without an
    error, only when every connection is over; that takes at most two steps for
    each connection and one more. Meanwhile it is never stuck, and a
    connection was told to shut down or its task can do so at once. *)
Theorem grpc_shutdown_drains es s s' :
  grpc_reachable s -> gr_loop s = GClosing -> grpc_all es s = Some s' ->
  length (gr_conns s') = length (gr_conns s) /\ (length es <= 2 * length (gr_conns s) + 1)%nat /\
  ((gr_loop s' = GReturned true /\ Forall (fun c => c = GDone) (gr_conns s')) \/
   (gr_loop s' = GClosing /\ (exists e, is_Some (grpc_step e s')) /\
    forall i seen g, gr_conns s' !! i = Some (GServing seen g) -> g = true \/ is_Some (grpc_step (GNotice i) s'))).
Proof.
  intros Hr Hl Ha. assert (draining s) as Hd by (unfold draining; by rewrite Hl).
  destruct (draining_all es s s' Hd Ha) as (Hd' & El & Hb). split_and!; [done| |].
  { assert (run_left s <= 2 * length (gr_conns s) + 1)%nat; [|lia]. unfold run_left. rewrite Hl. cbn [loop_left].
    pose proof (conns_left_bound (gr_conns s)). lia. }
  assert (grpc_inv s') as I.
  { apply grpc_reachable_inv. destruct Hr as (tls & es0 & Hs). exists tls, (es0 ++ es). clear -Hs Ha. revert Hs. generalize (grpc_start tls).
    induction es0 as [|e es0 IH]; cbn; intros s0; [by intros [= ->]|]. destruct (grpc_step e s0); [|done]. cbn. apply IH. }
  unfold draining in Hd'. destruct (gr_loop s') eqn:Hl'; try done.
  - right. split_and!; [done| |].
    + destruct (existsb serving (gr_conns s')) eqn:Hx.
      * apply existsb_exists in Hx as (c & [i Hi]%list_elem_of_In%list_elem_of_lookup & Hc). exists (GOver i). cbn. unfold conn_over. rewrite Hi.
        destruct c; [by eexists|done].
      * exists GClosed. cbn. unfold grpc_closed. rewrite Hl', Hx. by eexists.
    + intros i seen g Hi. assert (g = seen) as ->.
      { assert (Forall conn_ok (gr_conns s')) as Hf by (apply (gi_conns _ I); unfold sender_dropped; by rewrite Hl').
        by apply (Forall_lookup_1 _ _ _ _ Hf) in Hi. }
      destruct seen; [by left|right]. cbn. unfold conn_notice. rewrite Hi, (gi_closing _ I Hl'); [by eexists|].
      apply existsb_exists. exists (GServing false false). split; [|done]. apply list_elem_of_In. by apply list_elem_of_lookup_2 in Hi.
  - left. destruct Hd' as [-> Hx]. split; [done|]. apply Forall_lookup. intros i [seen g|] Hi; [|done]. by apply (idle_lookup _ _ Hx) in Hi.
Qed.

(** While the server awaits a TLS handshake, only its end moves the loop: neither
    the signal nor another connection is taken, and no task is spawned. *)
Theorem grpc_handshake_blocks_signal es s s' :
  gr_loop s = GHandshake -> Forall (fun e => forall ok, e <> GHandshaken ok) es -> grpc_all es s = Some s' ->
  gr_loop s' = GHandshake /\ length (gr_conns s') = length (gr_conns s) /\
  grpc_step GSignal s' = None /\ forall a, grpc_step (GAccept a) s' = None.
Proof.
  intros Hl Hf. revert s Hl. induction Hf as [|e es He Hf IH]; cbn [grpc_all]; intros s Hl.
  - intros [= <-]. cbn. unfold grpc_signal, grpc_accept. by rewrite Hl.
  - destruct (grpc_step e s) as [s1|] eqn:H1; [|done]. cbn. intros Ha.
    assert (gr_loop s1 = GHandshake /\ length (gr_conns s1) = length (gr_conns s)) as [Hl1 <-].
    { destruct e; cbn in H1; unfold grpc_signal, grpc_accept, grpc_closed, conn_notice, conn_over in H1; rewrite ?Hl in H1; try done.
      - by destruct (He ok).
      - destruct (gr_conns s !! i) as [[]|]; try done. destruct (_ && _); [|destruct (sender_dropped s); [|done]]; injection H1 as <-; cbn;
          by rewrite length_insert.
      - destruct (gr_conns s !! i) as [[]|]; try done. injection H1 as <-. cbn. by rewrite length_insert. }
    by apply IH.
Qed.

(** When [accept] fails or ends, [run_with_shutdown] returns with its connections
    open; the task of each then finds its channel closed at every turn, and turns
    in place until its connection is over. *)
Lemma early_return_spins s i seen ok :
  gr_loop s = GReturned ok -> gr_sent s = false -> gr_conns s !! i = Some (GServing seen true) -> grpc_step (GNotice i) s = Some s.
Proof.
  intros Hl Hs Hi. cbn. unfold conn_notice, sender_dropped, set_conn. rewrite Hi, Hs, Hl. cbn. rewrite list_insert_id by done.
  destruct s; cbn in *. congruence.
Qed.

Lemma accept_error_returns s a : gr_loop s = GSelect -> a = AcceptErr \/ a = AcceptNone ->
  exists ok, grpc_step (GAccept a) s = Some (mkGRun (gr_tls s) (GReturned ok) (gr_sent s) (gr_conns s)).
Proof. intros Hl Ha. cbn. unfold grpc_accept. rewrite Hl. destruct Ha as [-> | ->]; by eexists. Qed.

Module GrpcRunExample.
Definition after (es : list GEvent) : GRun := default (grpc_start true) (grpc_all es (grpc_start true)).

Lemma grpc_after_reachable es : is_Some (grpc_all es (grpc_start true)) -> grpc_reachable (after es).
Proof. intros [s Hs]. exists true, es. unfold after. by rewrite Hs. Qed.

(** Two connections, a failed handshake, then the signal. *)
Definition opened : list GEvent :=
  [GAccept (AcceptConn true); GHandshaken true; GAccept (AcceptConn false); GAccept (AcceptConn true); GHandshaken false; GSignal].
Definition drained : list GEvent := [GNotice 0; GOver 1; GOver 0; GClosed].

Lemma grpc_shutdown_drains_witness :
  length (gr_conns (after (opened ++ drained))) = 2%nat /\ gr_loop (after (opened ++ drained)) = GReturned true.
Proof.
  destruct (grpc_shutdown_drains drained (after opened) (after (opened ++ drained))) as (H1 & _ & H3).
  - apply grpc_after_reachable. vm_compute. by eexists.
  - by vm_compute.
  - by vm_compute.
  - split; [rewrite H1; by vm_compute|]. destruct H3 as [[H3 _]|[H3 _]]; [exact H3|by vm_compute in H3].
Defined.

Definition waiting : list GEvent := [GAccept (AcceptConn false); GAccept (AcceptConn true)].

Lemma grpc_handshake_blocks_signal_witness : grpc_step GSignal (after (waiting ++ [GOver 0])) = None.
Proof.
  destruct (grpc_handshake_blocks_signal [GOver 0] (after waiting) (after (waiting ++ [GOver 0]))) as (_ & _ & H3 & _).
  - by vm_compute.
  - by repeat constructor.
  - by vm_compute.
  - exact H3.
Defined.

(** A call from one shop to another over a connection from 127.0.0.1:9. *)
Import GrpcExample GrpcCallExample.
Definition peer : SocketAddr := SocketAddrV4 2130706433 9.
#[local] Instance peer_text : AddrText :=
  {| fmt_socket_addr _ := str "127.0.0.1:9"; parse_socket_addr _ := Some peer; escape_ascii := id; to_string_lossy := id |}.
Definition call_headers : Headers := [(SOURCE_SERVICE, str "cart"); (DESTINATION_SERVICE, str "shop")].
Definition echo : Handler (H := Headers) unit (list (BodyFrame Headers)) (list (BodyFrame Headers)) :=
  fun w cx mi req => (w, cx, mi, Done req).

Lemma call_headers_values k v : v ∈ hm_get_all k call_headers ->
  (k = SOURCE_SERVICE /\ v = str "cart") \/ (k = DESTINATION_SERVICE /\ v = str "shop").
Proof.
  intros Hv%iter_get_all. cbn in Hv. apply elem_of_cons in Hv as [[= -> ->]|Hv]; [by left|].
  apply elem_of_cons in Hv as [[= -> ->]|Hv]; [by right|by apply elem_of_nil in Hv].
Qed.

Lemma caller_address_of_connection_witness :
  exists cx mi md,
    incoming_call (E := unit) (Some (Ip peer)) (server_meta echo) tt (str "/shop.Shop/Order") call_headers [] =
      meta_reply (echo tt cx mi (mkMsg md [])) /\
    ep_address (gx_caller cx) = Some (Ip peer).
Proof.
  destruct (caller_address_of_connection (E := unit) echo tt (str "/shop.Shop/Order") call_headers [] (str "cart") (str "shop") peer)
    as (cx & mi & md & Heq & _ & _ & _ & Ha & _).
  - intros k v [[-> ->]|[-> ->]]%call_headers_values; by vm_compute.
  - intros k Hk. destruct (hm_get_all k call_headers) as [|v l] eqn:E; [done|].
    assert (v ∈ hm_get_all k call_headers) as [[-> _]|[-> _]]%call_headers_values by (rewrite E; by left); by vm_compute.
  - by vm_compute.
  - by vm_compute.
  - by vm_compute.
  - by vm_compute.
  - exists cx, mi, md. split; [exact Heq|]. rewrite Ha. by vm_compute.
Defined.
End GrpcRunExample.
