(* ===== verification/Sse.v ===== *)
(** Server-sent events: what the server writes
    (volo-http/src/server/response/sse.rs) and how the client reads it
    (volo-http/src/client/sse.rs).

    Strings are their UTF-8 bytes, durations are milliseconds and instants are
    readings of one clock in the same unit. *)

From S2P Require Import Prelude Utf8.

Definition LF : byte := x0a.
Definition CR : byte := x0d.
Definition COLON : byte := x3a.
Definition SPACE : byte := x20.
Definition NUL : byte := x00.

(** The text before the first byte that satisfies [f], that byte, and the rest. *)
Fixpoint split_first (f : byte -> bool) (s : bytes) : option (bytes * byte * bytes) :=
  match s with
  | [] => None
  | b :: s =>
      if f b then Some ([], b, s)
      else match split_first f s with Some (a, x, r) => Some (b :: a, x, r) | None => None end
  end.

(** * The server *)

Module Server.

(** [EventFlags]: one bit per field. *)
Definition F_DATA : Z := 1.
Definition F_EVENT : Z := 2.
Definition F_ID : Z := 4.
Definition F_RETRY : Z := 8.

Definition contains_flag (flag flags : Z) : bool := Z.land flags flag =? flag.
Definition set_flag (flag flags : Z) : Z := Z.lor flags flag.

Record Event : Type := mkEvent { ev_buffer : bytes; ev_flags : Z }.

(** [Event::new]. *)
Definition new : Event := mkEvent [] 0.

Definition DATA : bytes := str "data".
Definition EVENT : bytes := str "event".
Definition ID : bytes := str "id".
Definition RETRY : bytes := str "retry".

(** The failure of [json]: the serializer's error. *)
Inductive JsonError : Type := json_error.

Definition is_line_end (b : byte) : bool := bool_decide (b = CR) || bool_decide (b = LF).

(** [Event::field]. *)
Definition field (key val : bytes) (e : Event) : outcome JsonError Event :=
  if existsb is_line_end val then Panic
  else Done (mkEvent (ev_buffer e ++ key ++ [COLON; SPACE] ++ val ++ [LF]) (ev_flags e)).

(** The assertion that a field is new, and its flag. *)
Definition claim_flag (flag : Z) (e : Event) : outcome JsonError Event :=
  if contains_flag flag (ev_flags e) then Panic
  else Done (mkEvent (ev_buffer e) (set_flag flag (ev_flags e))).

Definition event (name : bytes) (e : Event) : outcome JsonError Event :=
  e ← claim_flag F_EVENT e; field EVENT name e.

(** [memchr_split]: the iterator as the list it yields. *)
Fixpoint memchr_split (needle : byte) (haystack : bytes) : list bytes :=
  match haystack with
  | [] => [[]]
  | b :: rest =>
      if bool_decide (b = needle) then [] :: memchr_split needle rest
      else match memchr_split needle rest with
           | front :: more => (b :: front) :: more
           | [] => [[b]]
           end
  end.

Definition data (text : bytes) (e : Event) : outcome JsonError Event :=
  e ← claim_flag F_DATA e; foldM (fun e line => field DATA line e) (memchr_split LF text) e.

(** [Event::json], given what the serializer writes, or its error. *)
Definition json (text : option bytes) (e : Event) : outcome JsonError Event :=
  e ← claim_flag F_DATA e;
  match text with
  | Some text => Done (mkEvent (ev_buffer e ++ DATA ++ [COLON; SPACE] ++ text) (ev_flags e))
  | None => Fail json_error
  end.

Definition id (i : bytes) (e : Event) : outcome JsonError Event :=
  e ← claim_flag F_ID e; field ID i e.

Definition retry (timeout : Z) (e : Event) : outcome JsonError Event :=
  e ← claim_flag F_RETRY e;
  Done (mkEvent (ev_buffer e ++ RETRY ++ [COLON; SPACE] ++ dec_of_Z timeout ++ [LF]) (ev_flags e)).

Definition comment (text : bytes) (e : Event) : outcome JsonError Event := field [] text e.

Definition finalize (e : Event) : bytes := ev_buffer e ++ [LF].

(** ** Keep-alive *)

Record KeepAlive : Type := mkKeepAlive { ka_event : bytes; ka_max_interval : Z }.

Definition keep_alive_new : KeepAlive := mkKeepAlive [COLON; LF; LF] 15000.
Definition keep_alive_interval (interval : Z) (k : KeepAlive) : KeepAlive := mkKeepAlive (ka_event k) interval.
Definition keep_alive_text (text : bytes) (k : KeepAlive) : outcome JsonError KeepAlive :=
  e ← comment text new; Done (mkKeepAlive (finalize e) (ka_max_interval k)).
Definition keep_alive_event (e : Event) (k : KeepAlive) : KeepAlive := mkKeepAlive (finalize e) (ka_max_interval k).

(** [KeepAliveStream]: the configuration and the deadline of its timer. *)
Record KeepAliveStream : Type := mkKeepAliveStream { ks_keep_alive : KeepAlive; ks_deadline : Z }.

Definition keep_alive_stream_new (now : Z) (k : KeepAlive) : KeepAliveStream :=
  mkKeepAliveStream k (now + ka_max_interval k).

Definition reset (now : Z) (s : KeepAliveStream) : KeepAliveStream :=
  mkKeepAliveStream (ks_keep_alive s) (now + ka_max_interval (ks_keep_alive s)).

Inductive Poll (A : Type) : Type := Pending | Ready (a : A).
#[global] Arguments Pending {A}.
#[global] Arguments Ready {A} a.

Definition poll_event (now : Z) (s : KeepAliveStream) : Poll bytes * KeepAliveStream :=
  if now <? ks_deadline s then (Pending, s) else (Ready (ka_event (ks_keep_alive s)), reset now s).

(** [SseBody::poll_frame], given what its stream of events answers at [now]. *)
Definition poll_frame {E} (now : Z) (polled : Poll (option (E + Event))) (ka : option KeepAliveStream) :
    Poll (option (E + bytes)) * option KeepAliveStream :=
  match polled with
  | Pending =>
      match ka with
      | Some s =>
          let (p, s) := poll_event now s in
          (match p with Pending => Pending | Ready e => Ready (Some (inr e)) end, Some s)
      | None => (Pending, None)
      end
  | Ready (Some (inr e)) => (Ready (Some (inr (finalize e))), reset now <$> ka)
  | Ready (Some (inl err)) => (Ready (Some (inl err)), ka)
  | Ready None => (Ready None, ka)
  end.

(** The status and the headers [Sse::into_response] gives the response. *)
Definition into_response_head : Z * list (bytes * bytes) :=
  (200, [(str "content-type", str "text/event-stream"); (str "cache-control", str "no-cache")]).

(** The frames of a response body that is polled until its stream ends, at each
    poll the instant and what the stream of events answers. *)
Fixpoint body_frames {E} (ka : option KeepAliveStream) (polls : list (Z * Poll (option (E + Event)))) : list (E + bytes) :=
  match polls with
  | [] => []
  | (now, p) :: polls =>
      match poll_frame now p ka with
      | (Pending, ka) => body_frames ka polls
      | (Ready (Some f), ka) => f :: body_frames ka polls
      | (Ready None, _) => []
      end
  end.

End Server.

(** * The client *)

Module Client.

Definition BIT_DATA : Z := 1.
Definition BIT_EVENT : Z := 2.
Definition BIT_ID : Z := 4.
Definition BIT_RETRY : Z := 8.

Record SseEvent : Type := mkSseEvent {
  se_data : option bytes; se_event : option bytes; se_id : option bytes; se_retry : option Z }.

(** [SseEvent::event]. *)
Definition event_name (e : SseEvent) : bytes := default (str "message") (se_event e).

Record EventBuffer : Type := mkEventBuffer {
  eb_bitset : Z; eb_data : bytes; eb_event : option bytes; eb_id : option bytes; eb_retry : option Z }.

Definition buffer_default : EventBuffer := mkEventBuffer 0 [] None None None.

(** [EventBuffer::reset]. *)
Definition buffer_reset (b : EventBuffer) : EventBuffer := mkEventBuffer 0 [] None None None.

Definition has_field (b : EventBuffer) : bool := negb (eb_bitset b =? 0).
Definition is_set_id (b : EventBuffer) : bool := negb (Z.land (eb_bitset b) BIT_ID =? 0).

Definition non_empty (s : bytes) : option bytes := match s with [] => None | _ => Some s end.

(** [EventBuffer::dispatch]. *)
Definition dispatch (b : EventBuffer) : SseEvent * EventBuffer :=
  (mkSseEvent (if negb (Z.land (eb_bitset b) BIT_DATA =? 0) then Some (eb_data b) else None)
     (eb_event b) (eb_id b ≫= non_empty) (eb_retry b), buffer_reset b).

(** What the response body yields: frames with data or trailers, or an error. *)
Inductive Frame (E : Type) : Type := FData (d : bytes) | FTrailers | FErr (e : E).
#[global] Arguments FData {E} d.
#[global] Arguments FTrailers {E}.
#[global] Arguments FErr {E} e.

Record SseReader (E : Type) : Type := mkSseReader {
  sr_body : list (Frame E); sr_buffer : bytes; sr_last_event_id : bytes; sr_is_first_line : bool;
  sr_pending : EventBuffer }.
#[global] Arguments mkSseReader {E} _ _ _ _ _.
#[global] Arguments sr_body {E} _.
#[global] Arguments sr_buffer {E} _.
#[global] Arguments sr_last_event_id {E} _.
#[global] Arguments sr_is_first_line {E} _.
#[global] Arguments sr_pending {E} _.

Definition ERR_INVALID_CONTENT_TYPE : bytes := str "Content-Type returned by server is NOT text/event-stream".
Definition TEXT_EVENT_STREAM : bytes := str "text/event-stream".

Inductive ReadError (E : Type) : Type := StatusError (status : Z) | ContentTypeError | BodyError (e : E).
#[global] Arguments StatusError {E} status.
#[global] Arguments ContentTypeError {E}.
#[global] Arguments BodyError {E} e.

(** [SseReader::into_sse], given the status, the text of the Content-Type header, if
    it has one that is text, and the body. *)
Definition into_sse {E} (status : Z) (content_type : option bytes) (body : list (Frame E)) :
    outcome (ReadError E) (SseReader E) :=
  if negb ((200 <=? status) && (status <? 300)) then Fail (StatusError status)
  else if negb (starts_with (default [] content_type) TEXT_EVENT_STREAM) then Fail ContentTypeError
  else Done (mkSseReader body [] [] true buffer_default).

Section Reader.
Context {E : Type}.
Implicit Types r : SseReader E.

Definition with_buffer r (buffer : bytes) (first : bool) : SseReader E :=
  mkSseReader (sr_body r) buffer (sr_last_event_id r) first (sr_pending r).
Definition with_pending r (p : EventBuffer) : SseReader E :=
  mkSseReader (sr_body r) (sr_buffer r) (sr_last_event_id r) (sr_is_first_line r) p.

Definition is_line_end (b : byte) : bool := bool_decide (b = LF) || bool_decide (b = CR).

Definition BOM : bytes := [xef; xbb; xbf].

Definition strip_bom (line : bytes) : bytes := if starts_with line BOM then drop 3 line else line.

(** [SseReader::next_line]. *)
Definition next_line r : option (bytes * SseReader E) :=
  match split_first is_line_end (sr_buffer r) with
  | None => None
  | Some (line, terminator, buffer) =>
      let buffer :=
        match buffer with
        | b :: rest => if bool_decide (terminator = CR) && bool_decide (b = LF) then rest else buffer
        | [] => buffer
        end in
      let line := if sr_is_first_line r then strip_bom line else line in
      Some (from_utf8_lossy line, with_buffer r buffer false)
  end.

(** [SseReader::dispatch_pending]. *)
Definition dispatch_pending r : SseEvent * SseReader E :=
  let last := if is_set_id (sr_pending r) then default [] (eb_id (sr_pending r)) else sr_last_event_id r in
  let (e, p) := dispatch (sr_pending r) in
  (e, mkSseReader (sr_body r) (sr_buffer r) last (sr_is_first_line r) p).

Definition strip_space (v : bytes) : bytes :=
  match v with b :: v' => if bool_decide (b = SPACE) then v' else v | [] => v end.

(** The field name and the value of a line. *)
Definition split_field (line : bytes) : bytes * bytes :=
  match split_first (fun b => bool_decide (b = COLON)) line with
  | Some (field, _, v) => (field, strip_space v)
  | None => (line, [])
  end.

(** What a field does to the event being read. *)
Definition set_field (field value : bytes) (p : EventBuffer) : EventBuffer :=
  if bool_decide (field = str "data") then
    mkEventBuffer (Z.lor (eb_bitset p) BIT_DATA)
      (eb_data p ++ (if negb (Z.land (eb_bitset p) BIT_DATA =? 0) then [LF] else []) ++ value)
      (eb_event p) (eb_id p) (eb_retry p)
  else if bool_decide (field = str "event") then
    mkEventBuffer (Z.lor (eb_bitset p) BIT_EVENT) (eb_data p) (Some value) (eb_id p) (eb_retry p)
  else if bool_decide (field = str "id") && negb (existsb (fun b => bool_decide (b = NUL)) value) then
    mkEventBuffer (Z.lor (eb_bitset p) BIT_ID) (eb_data p) (eb_event p) (Some value) (eb_retry p)
  else if bool_decide (field = str "retry") then
    match parse_unsigned 64 value with
    | Some ms => mkEventBuffer (Z.lor (eb_bitset p) BIT_RETRY) (eb_data p) (eb_event p) (eb_id p) (Some ms)
    | None => p
    end
  else p.

(** [SseReader::process_line]; its result is never an error. *)
Definition process_line (line : bytes) r : option SseEvent * SseReader E :=
  match line with
  | [] =>
      if has_field (sr_pending r) then let (e, r) := dispatch_pending r in (Some e, r)
      else (None, r)
  | b :: _ =>
      if bool_decide (b = COLON) then (None, r)
      else let (field, value) := split_field line in (None, with_pending r (set_field field value (sr_pending r)))
  end.

(** The [while let] loop over the complete lines of the buffer. Each line takes
    at least its end from the buffer, so its length bounds the number of turns. *)
Fixpoint drain_lines (fuel : nat) r : option SseEvent * SseReader E :=
  match fuel with
  | O => (None, r)
  | S fuel =>
      match next_line r with
      | None => (None, r)
      | Some (line, r) =>
          match process_line line r with
          | (Some e, r) => (Some e, r)
          | (None, r) => drain_lines fuel r
          end
      end
  end.

Definition drain r : option SseEvent * SseReader E := drain_lines (length (sr_buffer r)) r.

(** The body has ended. *)
Definition finish r : option SseEvent * SseReader E :=
  let (found, r) :=
    match sr_buffer r with
    | [] => (None, r)
    | _ => drain (with_buffer r (sr_buffer r ++ [LF]) (sr_is_first_line r))
    end in
  match found with
  | Some e => (Some e, r)
  | None => if has_field (sr_pending r) then let (e, r) := dispatch_pending r in (Some e, r) else (None, r)
  end.

(** A frame is taken from the body and [d] of it goes to the buffer. *)
Definition pull r (body : list (Frame E)) (d : bytes) : SseReader E :=
  mkSseReader body (sr_buffer r ++ d) (sr_last_event_id r) (sr_is_first_line r) (sr_pending r).

(** [SseReader::read], along the frames that are left. *)
Fixpoint read_frames (body : list (Frame E)) r : outcome (ReadError E) (option SseEvent) * SseReader E :=
  match drain r with
  | (Some e, r) => (Done (Some e), r)
  | (None, r) =>
      match body with
      | FData d :: body => read_frames body (pull r body d)
      | FTrailers :: body => read_frames body (pull r body [])
      | FErr e :: body => (Fail (BodyError e), pull r body [])
      | [] => let (o, r) := finish r in (Done o, r)
      end
  end.

Definition read r : outcome (ReadError E) (option SseEvent) * SseReader E := read_frames (sr_body r) r.

(** A client's loop: read until the stream is exhausted or fails. *)
Fixpoint read_all (fuel : nat) r : outcome (ReadError E) (list SseEvent) * SseReader E :=
  match fuel with
  | O => (OutOfFuel, r)
  | S fuel =>
      match read r with
      | (Done (Some e), r) => let (o, r) := read_all fuel r in (o ≫= (fun es => Done (e :: es)), r)
      | (Done None, r) => (Done [], r)
      | (Fail err, r) => (Fail err, r)
      | (Panic, r) => (Panic, r)
      | (OutOfFuel, r) => (OutOfFuel, r)
      end
  end.
End Reader.
End Client.
