(* ===== verification/SseRead.v ===== *)
(** The client's reader of server-sent events on a stream of lines: however the
    bytes are cut into frames, it processes the same lines. *)

From S2P Require Import Prelude Utf8 Sse.

(** Lines as they are on the wire. *)
Definition wire (ls : list bytes) : bytes := mjoin ((fun l => l ++ [LF]) <$> ls).

(** Text without a line end. *)
Definition one_line (l : bytes) : Prop := Forall (fun b => Client.is_line_end b = false) l.

Lemma wire_app ls ls' : wire (ls ++ ls') = wire ls ++ wire ls'.
Proof. unfold wire. by rewrite fmap_app, join_app. Qed.

Lemma wire_cons l ls : wire (l :: ls) = l ++ LF :: wire ls.
Proof. unfold wire. cbn. by rewrite <- app_assoc. Qed.

Lemma split_first_app f l x rest :
  Forall (fun b => f b = false) l -> f x = true -> split_first f (l ++ x :: rest) = Some (l, x, rest).
Proof.
  intros Hl Hx. induction Hl as [|b l Hb _ IH]; cbn; [by rewrite Hx|]. by rewrite Hb, IH.
Qed.

Lemma split_first_inv f s l x rest :
  split_first f s = Some (l, x, rest) -> s = l ++ x :: rest /\ Forall (fun b => f b = false) l /\ f x = true.
Proof.
  revert l. induction s as [|b s IH]; cbn; intros l H; [done|].
  destruct (f b) eqn:Hb; [by simplify_eq|].
  destruct (split_first f s) as [[[a y] r]|]; [|done]. simplify_eq/=.
  destruct (IH a eq_refl) as (-> & ? & ?). repeat split; [|done]. by constructor.
Qed.

Lemma split_first_None f s : split_first f s = None -> Forall (fun b => f b = false) s.
Proof.
  induction s as [|b s IH]; cbn; [done|]. destruct (f b) eqn:Hb; [done|].
  destruct (split_first f s) as [[[]]|]; [done|]. auto.
Qed.

(** A line end in a prefix of the wire closes its first line. *)
Lemma wire_prefix b rest l x ls b' :
  one_line l -> Forall (fun b => Client.is_line_end b = false) b ->
  Client.is_line_end x = true -> b ++ x :: rest ++ b' = l ++ LF :: wire ls -> b = l /\ x = LF /\ rest ++ b' = wire ls.
Proof.
  intros Hl Hb Hx. revert l Hl. induction Hb as [|y b Hy Hb IH]; cbn; intros [|z l] Hl H; injection H as -> H.
  - done.
  - apply Forall_cons in Hl as [Hz _]. congruence.
  - done.
  - apply Forall_cons in Hl as [_ Hl]. by destruct (IH l Hl H) as (-> & -> & ->).
Qed.

Section Reads.
Context {E : Type}.
Implicit Types r : Client.SseReader E.

Import Client.

(** The reader without the bytes it has still to look at. *)
Record Core : Type := mkCore { co_last : bytes; co_first : bool; co_pending : EventBuffer }.

Definition core_of r : Core := mkCore (sr_last_event_id r) (sr_is_first_line r) (sr_pending r).

Definition reader (body : list (Frame E)) (buffer : bytes) (c : Core) : SseReader E :=
  mkSseReader body buffer (co_last c) (co_first c) (co_pending c).

(** One line. *)
Definition feed (line : bytes) (c : Core) : option SseEvent * Core :=
  let line := from_utf8_lossy (if co_first c then strip_bom line else line) in
  let (o, r) := process_line line (reader [] [] (mkCore (co_last c) false (co_pending c))) in
  (o, core_of r).

Fixpoint feed_all (ls : list bytes) (c : Core) : list SseEvent * Core :=
  match ls with
  | [] => ([], c)
  | l :: ls =>
      let (o, c) := feed l c in
      let (es, c) := feed_all ls c in
      (match o with Some e => e :: es | None => es end, c)
  end.

(** The data of the frames to come. *)
Fixpoint body_data (body : list (Frame E)) : bytes :=
  match body with
  | [] => []
  | FData d :: body => d ++ body_data body
  | FTrailers :: body => body_data body
  | FErr _ :: _ => []
  end.

Definition no_error (f : Frame E) : Prop := match f with FErr _ => False | _ => True end.

Lemma process_line_frame line body buffer c :
  process_line line (reader body buffer c) =
    (let (o, r) := process_line line (reader [] [] c) in (o, reader body buffer (core_of r))).
Proof.
  unfold process_line. destruct line as [|b line]; cbn.
  - by destruct (has_field (co_pending c)).
  - destruct (bool_decide (b = COLON)); [by destruct c|]. by destruct (split_field (b :: line)).
Qed.

(** A complete line at the head of the buffer. *)
Lemma next_line_feed body l rest c :
  one_line l ->
  next_line (reader body (l ++ LF :: rest) c) =
    Some (from_utf8_lossy (if co_first c then strip_bom l else l),
          reader body rest (mkCore (co_last c) false (co_pending c))).
Proof.
  intros Hl. unfold next_line. cbn. rewrite split_first_app; [|done|done].
  destruct rest; done.
Qed.

Lemma next_line_shrinks r line r' : next_line r = Some (line, r') -> (length (sr_buffer r') < length (sr_buffer r))%nat.
Proof.
  unfold next_line. destruct (split_first _ _) as [[[l x] rest]|] eqn:Hs; [|done].
  apply split_first_inv in Hs as (-> & _ & _). intros [= _ <-]. cbn. rewrite length_app. cbn.
  destruct rest as [|b rest]; cbn; [lia|]. destruct (_ && _); cbn; lia.
Qed.

Lemma process_line_buffer line r : sr_buffer (process_line line r).2 = sr_buffer r.
Proof.
  unfold process_line. destruct line; [by destruct (has_field _)|]. destruct (bool_decide _); [done|].
  by destruct (split_field _).
Qed.

(** The length of the buffer is fuel enough. *)
Lemma drain_lines_fuel n m r :
  (length (sr_buffer r) <= n)%nat -> (length (sr_buffer r) <= m)%nat -> drain_lines n r = drain_lines m r.
Proof.
  revert m r. induction n as [|n IH]; intros m r Hn Hm.
  - assert (sr_buffer r = []) as Hb by (apply nil_length_inv; lia).
    destruct m; cbn; [done|]. unfold next_line. by rewrite Hb.
  - destruct m as [|m].
    + assert (sr_buffer r = []) as Hb by (apply nil_length_inv; lia). cbn. unfold next_line. by rewrite Hb.
    + cbn. destruct (next_line r) as [[line r']|] eqn:Hl; [|done]. apply next_line_shrinks in Hl.
      pose proof (process_line_buffer line r') as Hp.
      destruct (process_line line r') as [[e|] r'']; [done|]. cbn in Hp. apply IH; rewrite Hp; lia.
Qed.

Lemma drain_line body l rest c :
  one_line l ->
  drain (reader body (l ++ LF :: rest) c) =
    match feed l c with
    | (Some e, c') => (Some e, reader body rest c')
    | (None, c') => drain (reader body rest c')
    end.
Proof.
  intros Hl. unfold drain at 1. cbn [sr_buffer reader]. rewrite length_app, Nat.add_comm. cbn [length Nat.add drain_lines].
  rewrite next_line_feed by done. rewrite process_line_frame. unfold feed.
  destruct (process_line _ _) as [[e|] r']; [done|]. apply drain_lines_fuel; cbn; lia.
Qed.

Lemma drain_partial r : split_first is_line_end (sr_buffer r) = None -> drain r = (None, r).
Proof.
  intros H. unfold drain. destruct (length (sr_buffer r)); cbn; [done|]. unfold next_line. by rewrite H.
Qed.

(** One turn of the outer loop of [read]. *)
Lemma read_eq body buffer c :
  read (reader body buffer c) =
    match drain (reader body buffer c) with
    | (Some e, r) => (Done (Some e), r)
    | (None, r) =>
        match body with
        | FData d :: body => read (pull r body d)
        | FTrailers :: body => read (pull r body [])
        | FErr e :: body => (Fail (BodyError e), pull r body [])
        | [] => let (o, r) := finish r in (Done o, r)
        end
    end.
Proof. by destruct body as [|[]]. Qed.

(** [read] on a complete line, on a buffer without one, and at the end. *)
Lemma read_line_some body l rest c e c' :
  one_line l -> feed l c = (Some e, c') -> read (reader body (l ++ LF :: rest) c) = (Done (Some e), reader body rest c').
Proof. intros Hl Hf. by rewrite read_eq, drain_line, Hf. Qed.

Lemma read_line_none body l rest c c' :
  one_line l -> feed l c = (None, c') -> read (reader body (l ++ LF :: rest) c) = read (reader body rest c').
Proof. intros Hl Hf. by rewrite !read_eq, drain_line, Hf. Qed.

Lemma read_frame body buffer c d :
  split_first is_line_end buffer = None ->
  read (reader (FData d :: body) buffer c) = read (reader body (buffer ++ d) c).
Proof. intros H. by rewrite read_eq, drain_partial. Qed.

Lemma read_trailers body buffer c :
  split_first is_line_end buffer = None -> read (reader (FTrailers :: body) buffer c) = read (reader body buffer c).
Proof. intros H. rewrite read_eq, drain_partial by done. unfold pull. cbn. by rewrite app_nil_r. Qed.

(** The end of the body hands out an event that has begun. *)
Definition flush (c : Core) : list SseEvent * Core :=
  if has_field (co_pending c) then
    let (e, r) := dispatch_pending (reader [] [] c) in ([e], core_of r)
  else ([], c).

Lemma read_end c : has_field (co_pending c) = false -> read (reader [] [] c) = (Done None, reader [] [] c).
Proof. intros H. rewrite read_eq, drain_partial by done. unfold finish. cbn. by rewrite H. Qed.

Lemma read_flush c :
  has_field (co_pending c) = true ->
  read (reader [] [] c) =
    (let (e, r) := dispatch_pending (reader [] [] c) in (Done (Some e), reader [] [] (core_of r))).
Proof. intros H. rewrite read_eq, drain_partial by done. unfold finish. cbn. by rewrite H. Qed.

(** All that a reader yields, and where it ends. *)
Inductive reads : SseReader E -> list SseEvent -> SseReader E -> Prop :=
| reads_end r r' : read r = (Done None, r') -> reads r [] r'
| reads_event r e r1 es r' : read r = (Done (Some e), r1) -> reads r1 es r' -> reads r (e :: es) r'.

Lemma reads_same r r1 es r' : read r = read r1 -> reads r1 es r' -> reads r es r'.
Proof. intros H Hr. destruct Hr; [apply reads_end|eapply reads_event]; eauto; congruence. Qed.

Lemma reads_read_all r es r' fuel : reads r es r' -> (length es < fuel)%nat -> read_all fuel r = (Done es, r').
Proof.
  intros H. revert fuel. induction H as [r r' H|r e r1 es r' H _ IH]; intros [|fuel] Hf; cbn in *; try lia.
  - by rewrite H.
  - rewrite H. by rewrite IH by lia.
Qed.

(** Frames are pulled until the buffer holds the first line. *)
Definition lines_read ls : Prop := forall body buffer c es c',
  Forall no_error body -> buffer ++ body_data body = wire ls ->
  feed_all ls c = (es, c') ->
  reads (reader body buffer c) (es ++ (flush c').1) (reader [] [] (flush c').2).

Lemma reads_flush c : reads (reader [] [] c) (flush c).1 (reader [] [] (flush c).2).
Proof.
  unfold flush. destruct (has_field (co_pending c)) eqn:H; [|by apply reads_end, read_end].
  eapply reads_event; [by apply read_flush|]. by apply reads_end, read_end.
Qed.

Lemma reads_first_line l ls body rest c es c' :
  lines_read ls -> one_line l -> Forall no_error body -> rest ++ body_data body = wire ls ->
  feed_all (l :: ls) c = (es, c') ->
  reads (reader body (l ++ LF :: rest) c) (es ++ (flush c').1) (reader [] [] (flush c').2).
Proof.
  intros IH Hl Hb Hw Hf. cbn in Hf. destruct (feed l c) as [o c1] eqn:Hfeed.
  destruct (feed_all ls c1) as [es1 c2] eqn:Hall. injection Hf as <- <-. destruct o as [e|].
  - eapply reads_event; [by apply read_line_some|]. by eapply IH.
  - eapply reads_same; [by apply read_line_none|]. by eapply IH.
Qed.

Lemma reads_pull ls body :
  lines_read ls -> forall l buffer c es c', one_line l ->
  Forall no_error body -> buffer ++ body_data body = wire (l :: ls) ->
  feed_all (l :: ls) c = (es, c') ->
  reads (reader body buffer c) (es ++ (flush c').1) (reader [] [] (flush c').2).
Proof.
  intros IH l. induction body as [|f body IHb]; intros buffer c es c' Hl Hb Hw Hf.
  all: destruct (split_first is_line_end buffer) as [[[a x] rest]|] eqn:Hs.
  all: try (apply split_first_inv in Hs as (-> & Ha & Hx); rewrite <- app_assoc, wire_cons in Hw;
    apply wire_prefix in Hw as (-> & -> & Hw); [by eapply reads_first_line|done..]).
  - apply split_first_None in Hs. cbn [body_data] in Hw. rewrite app_nil_r, wire_cons in Hw. subst buffer.
    apply Forall_app in Hs as [_ [Hs _]%Forall_cons]. done.
  - apply Forall_cons in Hb as [Hf0 Hb]. destruct f as [d| |]; [..|done].
    + eapply reads_same; [by apply read_frame|]. apply IHb; try done. cbn [body_data] in Hw. by rewrite <- app_assoc.
    + eapply reads_same; [by apply read_trailers|]. by apply IHb.
Qed.

(** However the lines are cut into frames. *)
Lemma reads_lines ls : Forall one_line ls -> lines_read ls.
Proof.
  induction 1 as [|l ls Hl _ IH].
  - intros body. induction body as [|f body IHb]; intros buffer c es c' Hb Hw Hf.
    + apply app_nil in Hw as [-> _]. injection Hf as <- <-. apply reads_flush.
    + apply app_nil in Hw as [-> Hd]. apply Forall_cons in Hb as [Hf0 Hb]. destruct f as [d| |]; [..|done].
      * eapply reads_same; [by apply read_frame|]. by apply IHb.
      * eapply reads_same; [by apply read_trailers|]. by apply IHb.
  - intros body buffer c es c'. by apply reads_pull.
Qed.
End Reads.
