(* ===== verification/SseRoundTrip.v ===== *)
(** Server-sent events from the server's [Event] builder to the client's
    [SseReader]: a stream of events, with keep-alive comments between them and
    cut into frames anyhow, is read back as the events that were built. *)

From S2P Require Import Prelude Utf8 Sse SseRead.

(** * What an event says *)

(** A call of the builder. *)
Inductive Field : Type :=
| SetEvent (name : bytes)
| SetData (text : bytes)
| SetId (i : bytes)
| SetRetry (ms : Z)
| AddComment (text : bytes).

Definition apply_field (f : Field) (e : Server.Event) : outcome Server.JsonError Server.Event :=
  match f with
  | SetEvent name => Server.event name e
  | SetData text => Server.data text e
  | SetId i => Server.id i e
  | SetRetry ms => Server.retry ms e
  | AddComment text => Server.comment text e
  end.

Definition build (fs : list Field) : outcome Server.JsonError Server.Event :=
  foldM (fun e f => apply_field f e) fs Server.new.

(** Rust's types: a [&str] is valid UTF-8, a number of milliseconds is not negative. *)
Definition field_ok (f : Field) : Prop :=
  match f with
  | SetEvent s | SetData s | SetId s | AddComment s => is_utf8 s = true
  | SetRetry ms => 0 <= ms
  end.

(** What a client is told: an id with a NUL in it and a retry time that is not a
    [u64] say nothing. *)
Definition tell (s : Client.SseEvent) (f : Field) : Client.SseEvent :=
  match f with
  | SetEvent name => Client.mkSseEvent (Client.se_data s) (Some name) (Client.se_id s) (Client.se_retry s)
  | SetData text => Client.mkSseEvent (Some text) (Client.se_event s) (Client.se_id s) (Client.se_retry s)
  | SetId i =>
      if existsb (fun b => bool_decide (b = NUL)) i then s
      else Client.mkSseEvent (Client.se_data s) (Client.se_event s) (Some i) (Client.se_retry s)
  | SetRetry ms =>
      if ms <? 2 ^ 64 then Client.mkSseEvent (Client.se_data s) (Client.se_event s) (Client.se_id s) (Some ms) else s
  | AddComment _ => s
  end.

Definition untold : Client.SseEvent := Client.mkSseEvent None None None None.

Definition told (fs : list Field) : Client.SseEvent := foldl tell untold fs.

#[export] Instance sse_event_eq_dec : EqDecision Client.SseEvent.
Proof. solve_decision. Defined.

(** The event the client gets, if the event says anything; an empty id is no id. *)
Definition received (fs : list Field) : option Client.SseEvent :=
  let s := told fs in
  if bool_decide (s = untold) then None
  else Some (Client.mkSseEvent (Client.se_data s) (Client.se_event s) (Client.se_id s ≫= Client.non_empty)
               (Client.se_retry s)).

(** The last event id after an event. *)
Definition next_id (last : bytes) (fs : list Field) : bytes := default last (Client.se_id (told fs)).

(** * The lines of an event *)

Definition field_lines (f : Field) : list bytes :=
  match f with
  | SetEvent name => [str "event: " ++ name]
  | SetData text => (app (str "data: ")) <$> Server.memchr_split LF text
  | SetId i => [str "id: " ++ i]
  | SetRetry ms => [str "retry: " ++ dec_of_Z ms]
  | AddComment text => [str ": " ++ text]
  end.

Definition event_lines (fs : list Field) : list bytes := mjoin (field_lines <$> fs) ++ [[]].

Lemma existsb_one_line v : existsb Server.is_line_end v = false -> one_line v.
Proof.
  intros H. apply Forall_forall. intros b Hb. unfold Client.is_line_end. rewrite orb_comm. change (Server.is_line_end b = false).
  destruct (Server.is_line_end b) eqn:E; [|done].
  assert (existsb Server.is_line_end v = true); [|congruence].
  apply existsb_exists. exists b. split; [by apply list_elem_of_In|done].
Qed.

Lemma field_done key v e e' :
  Server.field key v e = Done e' ->
  one_line v /\ Server.ev_buffer e' = Server.ev_buffer e ++ (key ++ [COLON; SPACE] ++ v) ++ [LF] /\
  Server.ev_flags e' = Server.ev_flags e.
Proof.
  unfold Server.field. destruct (existsb _ v) eqn:Hv; [done|]. intros [= <-].
  split; [by apply existsb_one_line|]. cbn. by rewrite <- !app_assoc.
Qed.

Lemma one_line_app a b : one_line (a ++ b) <-> one_line a /\ one_line b.
Proof. apply Forall_app. Qed.

Lemma digits_one_line n : one_line (dec_of_Z n).
Proof.
  eapply Forall_impl; [apply dec_of_Z_digits|]. intros b (d & Hd & ->).
  assert (d = 0 \/ d = 1 \/ d = 2 \/ d = 3 \/ d = 4 \/ d = 5 \/ d = 6 \/ d = 7 \/ d = 8 \/ d = 9) as H by lia.
  by repeat destruct H as [->|H]; subst.
Qed.

(** The lines a run of [data] fields adds. *)
Lemma data_lines ls e e' :
  foldM (fun e line => Server.field Server.DATA line e) ls e = Done e' ->
  Forall one_line ((app (str "data: ")) <$> ls) /\
  Server.ev_buffer e' = Server.ev_buffer e ++ wire ((app (str "data: ")) <$> ls) /\
  Server.ev_flags e' = Server.ev_flags e.
Proof.
  revert e. induction ls as [|l ls IH]; cbn [foldM]; intros e H.
  - injection H as ->. by rewrite app_nil_r.
  - apply bind_done_inv in H as (e1 & H1 & H). apply field_done in H1 as (Hl & Hb & Hf).
    apply IH in H as (Hls & Hb' & Hf'). split; [|split; [|congruence]].
    + constructor; [|done]. by apply one_line_app; split; [repeat constructor|].
    + rewrite Hb', Hb, fmap_cons, wire_cons, <- !app_assoc. done.
Qed.

(** Only [data] sets the flag of [data]. *)
Definition no_data (e : Server.Event) : bool := negb (Server.contains_flag Server.F_DATA (Server.ev_flags e)).

Lemma claim_done flag e e' :
  Server.claim_flag flag e = Done e' ->
  Server.ev_buffer e' = Server.ev_buffer e /\ Server.contains_flag flag (Server.ev_flags e) = false /\
  Server.ev_flags e' = Server.set_flag flag (Server.ev_flags e).
Proof. unfold Server.claim_flag. destruct (Server.contains_flag _ _); [done|]. by intros [= <-]. Qed.

Lemma set_flag_other flag x :
  Z.land flag 1 = 0 -> Server.contains_flag Server.F_DATA (Server.set_flag flag x) = Server.contains_flag Server.F_DATA x.
Proof. intros H. unfold Server.contains_flag, Server.set_flag, Server.F_DATA. by rewrite Z.land_lor_distr_l, H, Z.lor_0_r. Qed.

Lemma set_flag_same x : Server.contains_flag Server.F_DATA (Server.set_flag Server.F_DATA x) = true.
Proof.
  unfold Server.contains_flag, Server.set_flag, Server.F_DATA. rewrite Z.land_lor_distr_l.
  change (Z.land x 1) with (Z.land x (Z.ones 1)). rewrite Z.land_ones by lia.
  assert (x mod 2 ^ 1 = 0 \/ x mod 2 ^ 1 = 1) as [-> | ->]; [|done..].
  change (2 ^ 1) with 2. pose proof (Z.mod_pos_bound x 2). lia.
Qed.

Lemma wire_one l : wire [l] = l ++ [LF].
Proof. by rewrite wire_cons. Qed.

(** ** The lines that a call adds, and that they are lines *)

Lemma apply_field_lines f e e' :
  apply_field f e = Done e' ->
  Forall one_line (field_lines f) /\ Server.ev_buffer e' = Server.ev_buffer e ++ wire (field_lines f) /\
  (no_data e' = true -> no_data e = true /\ match f with SetData _ => False | _ => True end) /\
  match f with SetData _ => no_data e = true | _ => True end.
Proof.
  unfold no_data. destruct f as [s|s|s|ms|s]; cbn [apply_field field_lines]; intros H.
  all: try (apply bind_done_inv in H as (e1 & (Hb1 & Hc & Hf1)%claim_done & H)).
  - apply field_done in H as (Hl & Hb & Hf). rewrite Hb, Hb1, Hf, Hf1, set_flag_other by done.
    split; [by repeat constructor|]. split; [by rewrite wire_one|tauto].
  - apply data_lines in H as (Hl & Hb & Hf). rewrite Hb, Hb1, Hf, Hf1, set_flag_same, Hc. done.
  - apply field_done in H as (Hl & Hb & Hf). rewrite Hb, Hb1, Hf, Hf1, set_flag_other by done.
    split; [by repeat constructor|]. split; [by rewrite wire_one|tauto].
  - injection H as <-. cbn [Server.ev_buffer Server.ev_flags]. rewrite Hb1, Hf1, set_flag_other by done.
    split; [repeat constructor; apply digits_one_line|]. split; [by rewrite wire_one|tauto].
  - apply field_done in H as (Hl & Hb & Hf). rewrite Hb, Hf.
    split; [by repeat constructor|]. split; [by rewrite wire_one|tauto].
Qed.

Lemma tell_data s f : match f with SetData _ => False | _ => True end -> Client.se_data (tell s f) = Client.se_data s.
Proof. destruct f; cbn; try done; intros _; by case_match. Qed.

Lemma told_snoc fs f : told (fs ++ [f]) = tell (told fs) f.
Proof. unfold told. by rewrite foldl_snoc. Qed.

(** Every prefix of an event that was built. *)
Lemma build_snoc fs f e :
  build (fs ++ [f]) = Done e -> exists e', build fs = Done e' /\ apply_field f e' = Done e.
Proof.
  unfold build. rewrite foldM_app. intros (e' & H1 & H)%bind_done_inv. exists e'. split; [done|].
  cbn in H. by apply bind_done_inv in H as (e1 & H2 & [= ->]).
Qed.

Lemma build_lines fs e :
  build fs = Done e ->
  Forall one_line (event_lines fs) /\ Server.finalize e = wire (event_lines fs) /\
  (no_data e = true -> Client.se_data (told fs) = None).
Proof.
  assert (forall e, build fs = Done e ->
    Forall one_line (mjoin (field_lines <$> fs)) /\ Server.ev_buffer e = wire (mjoin (field_lines <$> fs)) /\
    (no_data e = true -> Client.se_data (told fs) = None)) as H.
  { induction fs as [|f fs IH] using rev_ind; intros e0.
    - by intros [= <-].
    - intros (e' & He' & Hf)%build_snoc. destruct (IH e' He') as (IH1 & IH2 & IH3).
      apply apply_field_lines in Hf as (H1 & H2 & H3 & _).
      rewrite fmap_app, join_app, wire_app. cbn. rewrite app_nil_r. split; [by apply Forall_app|].
      split; [by rewrite H2, IH2|]. intros Hn. destruct (H3 Hn) as [Hn' Hf]. rewrite told_snoc, tell_data by done. auto. }
  intros (H1 & H2 & H3)%H. split; [|split; [|done]].
  - apply Forall_app. split; [done|]. by repeat constructor.
  - unfold Server.finalize, event_lines. by rewrite wire_app, H2.
Qed.

(** * What the reader makes of them *)

Section Fed.
Context {E : Type}.

(** A line that does not begin with a byte-order mark is read as it is. *)
Lemma line_text (first : bool) b l :
  b <> xef -> is_utf8 (b :: l) = true ->
  from_utf8_lossy (if first then Client.strip_bom (b :: l) else b :: l) = b :: l.
Proof.
  intros Hb Hu. replace (if first then _ else _) with (b :: l); [by apply lossy_utf8|].
  destruct first; [|done]. unfold Client.strip_bom, starts_with. rewrite bool_decide_eq_false_2; [done|].
  cbn. by intros [= -> _].
Qed.

(** A field line sets its field. *)
Lemma feed_field b key v last first p :
  b <> xef -> Forall (fun x => bool_decide (x = COLON) = false) (b :: key) -> is_utf8 (b :: key) = true -> is_utf8 v = true ->
  feed (E := E) ((b :: key) ++ [COLON; SPACE] ++ v) (mkCore last first p) =
    (None, mkCore last false (Client.set_field (b :: key) v p)).
Proof.
  intros Hb Hk Hu Hv. unfold feed. cbn [co_first co_last co_pending].
  assert (is_utf8 ((b :: key) ++ [COLON; SPACE] ++ v) = true) as Hline.
  { apply utf8_app; [done|]. by apply utf8_app. }
  rewrite <- !app_comm_cons. rewrite line_text by done. unfold Client.process_line.
  apply Forall_cons in Hk as Hk'. destruct Hk' as [-> _].
  unfold Client.split_field. rewrite app_comm_cons. rewrite split_first_app by done. cbn. done.
Qed.

Definition key_ok (key : bytes) : bool :=
  match key with
  | b :: _ => negb (bool_decide (b = xef)) && forallb (fun x => negb (bool_decide (x = COLON))) key && is_utf8 key
  | [] => false
  end.

Lemma feed_key key v last first p :
  key_ok key = true -> is_utf8 v = true ->
  feed (E := E) (key ++ [COLON; SPACE] ++ v) (mkCore last first p) = (None, mkCore last false (Client.set_field key v p)).
Proof.
  destruct key as [|b key]; [done|]. unfold key_ok. intros [[Hb Hk]%andb_prop Hu]%andb_prop Hv. apply feed_field; try done.
  - by apply negb_true_iff, bool_decide_eq_false in Hb.
  - apply Forall_forall. intros x Hx. apply forallb_forall with (x := x) in Hk; [by apply negb_true_iff|].
    by apply list_elem_of_In.
Qed.

Lemma feed_comment v last first p :
  is_utf8 v = true -> feed (E := E) (COLON :: v) (mkCore last first p) = (None, mkCore last false p).
Proof. intros Hv. unfold feed. cbn [co_first co_last co_pending]. by rewrite line_text. Qed.

Lemma feed_blank last first p :
  feed (E := E) [] (mkCore last first p) =
    if Client.has_field p then
      (Some (Client.dispatch p).1,
       mkCore (if Client.is_set_id p then default [] (Client.eb_id p) else last) false Client.buffer_default)
    else (None, mkCore last false p).
Proof.
  unfold feed. cbn [co_first co_last co_pending].
  replace (from_utf8_lossy _) with (@nil byte) by (by destruct first).
  cbn [Client.process_line reader Client.sr_pending co_pending].
  by destruct (Client.has_field p).
Qed.

Lemma feed_all_app (ls ls' : list bytes) c :
  feed_all (E := E) (ls ++ ls') c =
    (let (es, c) := feed_all (E := E) ls c in let (es', c) := feed_all (E := E) ls' c in (es ++ es', c)).
Proof.
  revert c. induction ls as [|l ls IH]; intros c; cbn; [by destruct (feed_all ls' c)|].
  destruct (feed l c) as [o c1]. rewrite IH. destruct (feed_all ls c1) as [es c2].
  destruct (feed_all ls' c2) as [es' c3]. by destruct o.
Qed.
End Fed.

(** ** Splitting data into lines and joining it again *)

Definition join_lines (ls : list bytes) : bytes :=
  match ls with [] => [] | l :: ls => l ++ mjoin ((cons LF) <$> ls) end.

Lemma memchr_split_cons x s : exists l ls, Server.memchr_split x s = l :: ls.
Proof.
  induction s as [|b s (l & ls & IH)]; cbn; [eauto|]. destruct (bool_decide (b = x)); [eauto|].
  rewrite IH. eauto.
Qed.

Lemma memchr_split_join s : join_lines (Server.memchr_split LF s) = s.
Proof.
  induction s as [|b s IH]; [done|]. cbn. destruct (memchr_split_cons LF s) as (l & ls & E).
  rewrite E in *. rewrite <- IH. destruct (bool_decide (b = LF)) eqn:Hb; cbn; [|done].
  by apply bool_decide_eq_true in Hb as ->.
Qed.

Lemma memchr_split_utf8 s : is_utf8 s = true -> Forall (fun l => is_utf8 l = true) (Server.memchr_split LF s).
Proof.
  intros Hs. rewrite <- (memchr_split_join s) in Hs. destruct (Server.memchr_split LF s) as [|l ls]; [done|].
  cbn in Hs. revert l Hs. induction ls as [|l' ls IH]; cbn; intros l Hs.
  - rewrite app_nil_r in Hs. by repeat constructor.
  - destruct (utf8_cut LF _ eq_refl Hs l _ eq_refl) as [H1 H2]. constructor; [done|]. by apply IH.
Qed.

(** The reader's accumulator once it was told [s]. *)
Definition bit_of {A} (bit : Z) (o : option A) : Z := match o with Some _ => bit | None => 0 end.

Definition pending_of (s : Client.SseEvent) : Client.EventBuffer :=
  Client.mkEventBuffer
    (Z.lor (Z.lor (bit_of Client.BIT_DATA (Client.se_data s)) (bit_of Client.BIT_EVENT (Client.se_event s)))
       (Z.lor (bit_of Client.BIT_ID (Client.se_id s)) (bit_of Client.BIT_RETRY (Client.se_retry s))))
    (default [] (Client.se_data s)) (Client.se_event s) (Client.se_id s) (Client.se_retry s).

Definition with_data (d : bytes) (s : Client.SseEvent) : Client.SseEvent :=
  Client.mkSseEvent (Some d) (Client.se_event s) (Client.se_id s) (Client.se_retry s).

Lemma set_event name s : Client.set_field (str "event") name (pending_of s) = pending_of (tell s (SetEvent name)).
Proof. by destruct s as [[] [] [] []]. Qed.

Lemma set_id i s : Client.set_field (str "id") i (pending_of s) = pending_of (tell s (SetId i)).
Proof.
  unfold Client.set_field. cbn [tell]. rewrite !bool_decide_eq_false_2, bool_decide_eq_true_2 by done. cbn [andb].
  destruct (existsb _ i); [by rewrite bool_decide_eq_false_2|]. by destruct s as [[] [] [] []].
Qed.

Lemma set_retry ms s :
  0 <= ms -> Client.set_field (str "retry") (dec_of_Z ms) (pending_of s) = pending_of (tell s (SetRetry ms)).
Proof.
  intros Hms. unfold Client.set_field. cbn [tell].
  do 3 rewrite bool_decide_eq_false_2 by done. rewrite bool_decide_eq_true_2 by done. cbn [andb].
  destruct (ms <? 2 ^ 64) eqn:Hlt.
  - rewrite parse_unsigned_dec by lia. by destruct s as [[] [] [] []].
  - by rewrite parse_unsigned_dec_big by lia.
Qed.

Lemma set_data_first text s :
  Client.se_data s = None -> Client.set_field (str "data") text (pending_of s) = pending_of (with_data text s).
Proof. by destruct s as [[] [] [] []]. Qed.

Lemma set_data_next text d s :
  Client.set_field (str "data") text (pending_of (with_data d s)) = pending_of (with_data (d ++ LF :: text) s).
Proof. by destruct s as [[] [] [] []]. Qed.

Section FedEvents.
Context {E : Type}.

Lemma feed_data_lines ls s last first d :
  Forall (fun l => is_utf8 l = true) ls ->
  feed_all (E := E) ((app (str "data: ")) <$> ls) (mkCore last first (pending_of (with_data d s))) =
    ([], mkCore last (match ls with [] => first | _ => false end) (pending_of (with_data (d ++ mjoin ((cons LF) <$> ls)) s))).
Proof.
  intros Hls. revert first d. induction Hls as [|l ls Hl _ IH]; intros first d; [cbn; by rewrite app_nil_r|].
  rewrite fmap_cons. cbn [feed_all].
  rewrite (feed_key (str "data") l) by done. rewrite (set_data_next l d s), IH.
  rewrite <- app_assoc. by destruct ls.
Qed.

Lemma dec_utf8 n : is_utf8 (dec_of_Z n) = true.
Proof.
  induction (dec_of_Z_digits n) as [|b bs (d & Hd & ->) _ IH]; [done|]. cbn.
  assert (lead_of (digit d) = L1) as ->; [|done]. unfold lead_of. rewrite Z_of_byte_digit by done.
  by replace (48 + d <? 128) with true by lia.
Qed.

Lemma feed_field_lines f s last first :
  field_ok f -> match f with SetData _ => Client.se_data s = None | _ => True end ->
  feed_all (E := E) (field_lines f) (mkCore last first (pending_of s)) = ([], mkCore last false (pending_of (tell s f))).
Proof.
  destruct f as [t|t|t|ms|t]; cbn [field_lines field_ok]; intros Hok Hd.
  - cbn [feed_all]. rewrite (feed_key (str "event") t) by done. by rewrite (set_event t s).
  - pose proof (memchr_split_utf8 t Hok) as Hu. pose proof (memchr_split_join t) as Hj.
    destruct (memchr_split_cons LF t) as (l & ls & Hs). rewrite Hs in *. apply Forall_cons in Hu as [Hl Hu].
    rewrite fmap_cons. cbn [feed_all]. rewrite (feed_key (str "data") l) by done.
    rewrite (set_data_first l s Hd), feed_data_lines by done. cbn in Hj. rewrite Hj. by destruct ls.
  - cbn [feed_all]. rewrite (feed_key (str "id") t) by done. by rewrite (set_id t s).
  - cbn [feed_all]. rewrite (feed_key (str "retry") (dec_of_Z ms)) by first [done|apply dec_utf8].
    by rewrite (set_retry ms s Hok).
  - cbn [feed_all]. by rewrite (feed_comment (SPACE :: t)).
Qed.

(** The lines of an event under construction. *)
Lemma feed_fields fs e last :
  build fs = Done e -> Forall field_ok fs -> forall first,
  exists first', feed_all (E := E) (mjoin (field_lines <$> fs)) (mkCore last first (pending_of untold)) =
    ([], mkCore last first' (pending_of (told fs))).
Proof.
  revert e. induction fs as [|f fs IH] using rev_ind; intros e Hb Hok first; [by exists first|].
  apply build_snoc in Hb as (e' & He' & Hf). apply Forall_app in Hok as [Hok [Hof _]%Forall_cons].
  destruct (IH e' He' Hok first) as [first' H]. exists false.
  rewrite fmap_app, join_app, feed_all_app, H. cbn [mjoin list_join fmap list_fmap].
  rewrite app_nil_r, feed_field_lines, told_snoc; [done|done|].
  apply apply_field_lines in Hf as (_ & _ & _ & Hd). destruct f; try done.
  by apply (build_lines fs e' He').
Qed.

Lemma has_field_pending s : Client.has_field (pending_of s) = negb (bool_decide (s = untold)).
Proof.
  destruct s as [[] [] [] []]; first [by rewrite bool_decide_eq_false_2 by done|by rewrite bool_decide_eq_true_2 by done].
Qed.

(** An event, read to its blank line. *)
Lemma feed_event fs e last first :
  build fs = Done e -> Forall field_ok fs ->
  feed_all (E := E) (event_lines fs) (mkCore last first Client.buffer_default) =
    (option_list (received fs), mkCore (next_id last fs) false Client.buffer_default).
Proof.
  intros Hb Hok. unfold event_lines. rewrite feed_all_app.
  destruct (feed_fields fs e last Hb Hok first) as [first' H].
  change Client.buffer_default with (pending_of untold) at 1. rewrite H. cbn [feed_all].
  rewrite feed_blank, has_field_pending. unfold received, next_id.
  destruct (bool_decide (told fs = untold)) eqn:Hu; cbn.
  - apply bool_decide_eq_true in Hu as ->. done.
  - by destruct (told fs) as [[] [] [] []].
Qed.

End FedEvents.

(** * The whole way *)

Section EndToEnd.
Context {E : Type}.

(** What the application's stream does at each poll: nothing yet, or the event
    built by some calls. *)
Definition Script : Type := list (Z * option (list Field)).

Inductive polls_of : Script -> list (Z * Server.Poll (option (E + Server.Event))) -> Prop :=
| polls_end now : polls_of [] [(now, Server.Ready None)]
| polls_pending now script polls :
    polls_of script polls -> polls_of ((now, None) :: script) ((now, Server.Pending) :: polls)
| polls_event now fs e script polls :
    build fs = Done e -> Forall field_ok fs -> polls_of script polls ->
    polls_of ((now, Some fs) :: script) ((now, Server.Ready (Some (inr e))) :: polls).

(** The events of a script, in order. *)
Definition script_events (script : Script) : list (list Field) := omap snd script.

(** A keep-alive message that is a comment: the default one, or a text. *)
Definition quiet (k : Server.KeepAlive) : Prop :=
  exists text, is_utf8 text = true /\ one_line text /\ Server.ka_event k = COLON :: text ++ [LF; LF].

Definition frame_data (f : E + bytes) : bytes := match f with inr d => d | inl _ => [] end.

Lemma omap_shorter {A B} (f : A -> option B) l : (length (omap f l) <= length l)%nat.
Proof. induction l as [|x l IH]; cbn; [done|]. destruct (f x); cbn; lia. Qed.

Lemma quiet_lines k : quiet k ->
  exists ls, Forall one_line ls /\ Server.ka_event k = wire ls /\
    forall last first, feed_all (E := E) ls (mkCore last first Client.buffer_default) =
      ([], mkCore last false Client.buffer_default).
Proof.
  intros (text & Hu & Hl & Hk). exists [COLON :: text; []]. split; [|split].
  - repeat constructor; done.
  - rewrite Hk, wire_cons, wire_one. done.
  - intros last first. cbn [feed_all]. by rewrite (feed_comment text), feed_blank.
Qed.

Lemma body_lines script polls (ka : option Server.KeepAliveStream) :
  polls_of script polls -> (forall s, ka = Some s -> quiet (Server.ks_keep_alive s)) ->
  exists ls, Forall one_line ls /\ mjoin (frame_data <$> Server.body_frames ka polls) = wire ls /\
    forall last first, exists first', feed_all (E := E) ls (mkCore last first Client.buffer_default) =
      (omap received (script_events script),
       mkCore (foldl next_id last (script_events script)) first' Client.buffer_default).
Proof.
  intros Hp. revert ka. induction Hp as [now|now script polls Hp IH|now fs e script polls Hb Hok Hp IH]; intros ka Hq.
  - exists []. repeat split; [done|]. eauto.
  - cbn [Server.body_frames]. destruct ka as [s|]; [|by apply (IH None)].
    unfold Server.poll_frame, Server.poll_event. destruct (now <? Server.ks_deadline s); [by apply (IH (Some s))|].
    destruct (quiet_lines _ (Hq s eq_refl)) as (ls & H1 & H2 & H3).
    destruct (IH (Some (Server.reset now s))) as (ls' & H1' & H2' & H3'); [intros s' [= <-]; exact (Hq s eq_refl)|].
    exists (ls ++ ls'). split; [by apply Forall_app|]. split; [rewrite wire_app, <- H2, <- H2'; done|].
    intros last first. rewrite feed_all_app, H3. destruct (H3' last false) as [first' H]. exists first'. by rewrite H.
  - destruct (build_lines fs e Hb) as (H1 & H2 & _).
    destruct (IH (Server.reset now <$> ka)) as (ls' & H1' & H2' & H3').
    { intros s' (s & Hs & ->)%fmap_Some. exact (Hq s Hs). }
    exists (event_lines fs ++ ls'). split; [by apply Forall_app|].
    split; [rewrite wire_app, <- H2, <- H2'; done|].
    intros last first. rewrite feed_all_app, (feed_event fs e) by done.
    destruct (H3' (next_id last fs) false) as [first' H]. exists first'. rewrite H. cbn. by destruct (received fs).
Qed.

(** C7: Server-sent events reach the client as they were built: for any stream of
    events made with [event], [data], [id], [retry] and [comment], polled at
    any times and with keep-alive comments in between, and for any cut of the
    response body into frames (trailers included), the reader accepts the
    response and its [read] yields exactly the events that say something, in
    order, then the end; and it keeps the last event id for reconnection. *)
Theorem sse_roundtrip script polls k now (body : list (Client.Frame E)) :
  polls_of script polls -> (forall k0, k = Some k0 -> quiet k0) -> Forall no_error body ->
  body_data body = mjoin (frame_data <$> Server.body_frames (Server.keep_alive_stream_new now <$> k) polls) ->
  exists r r',
    Client.into_sse Server.into_response_head.1
      (snd <$> find (fun h => bool_decide (h.1 = str "content-type")) Server.into_response_head.2) body = Done r /\
    Client.read_all (S (length script)) r = (Done (omap received (script_events script)), r') /\
    Client.sr_last_event_id r' = foldl next_id [] (script_events script).
Proof.
  intros Hp Hq Hbody Hdata.
  destruct (body_lines script polls (Server.keep_alive_stream_new now <$> k) Hp) as (ls & Hl & Hw & Hf).
  { intros s (k0 & Hk & ->)%fmap_Some. exact (Hq k0 Hk). }
  rewrite Hw in Hdata. destruct (Hf [] true) as [first' H].
  pose proof (reads_lines (E := E) ls Hl body [] _ _ _ Hbody Hdata H) as Hr.
  cbn [flush fst snd] in Hr. unfold flush in Hr. cbn [co_pending Client.has_field fst snd] in Hr. rewrite app_nil_r in Hr.
  eexists _, _. split; [reflexivity|]. split; [apply reads_read_all; [exact Hr|]|reflexivity].
  unfold script_events. pose proof (omap_shorter received (omap snd script)).
  pose proof (omap_shorter snd script). lia.
Qed.
End EndToEnd.

(** * What goes wrong *)

Section Flaws.
Context {E : Type}.

Definition fresh_reader (body : list (Client.Frame E)) : Client.SseReader E :=
  Client.mkSseReader body [] [] true Client.buffer_default.

(** [Event::json] does not end its line, so [finalize] ends that line instead of the
    event: two events whose data is JSON text of one line each reach the
    client as a single event with both texts as its data. *)
Theorem json_events_merge a b e1 e2 body :
  is_utf8 a = true -> is_utf8 b = true -> one_line a -> one_line b ->
  Server.json (Some a) Server.new = Done e1 -> Server.json (Some b) Server.new = Done e2 ->
  Forall no_error body -> body_data body = Server.finalize e1 ++ Server.finalize e2 ->
  exists r, Client.read_all 2 (fresh_reader body) =
    (Done [Client.mkSseEvent (Some (a ++ [LF] ++ b)) None None None], r).
Proof.
  intros Ha Hb La Lb [= <-] [= <-] Hbody Hdata.
  assert (body_data body = wire [str "data: " ++ a; str "data: " ++ b]) as Hw.
  { rewrite Hdata, !wire_cons. unfold Server.finalize. cbn. by rewrite <- !app_assoc. }
  assert (feed_all (E := E) [str "data: " ++ a; str "data: " ++ b] (mkCore [] true Client.buffer_default) =
    ([], mkCore [] false (pending_of (with_data (a ++ LF :: b) untold)))) as Hf.
  { change Client.buffer_default with (pending_of untold). cbn [feed_all].
    rewrite (feed_key (str "data") a), (set_data_first a untold) by done.
    by rewrite (feed_key (str "data") b), (set_data_next b a untold). }
  eexists. apply reads_read_all; [|cbn; lia].
  refine (reads_lines (E := E) _ _ body [] (mkCore [] true Client.buffer_default) _ _ Hbody Hw Hf).
  by repeat constructor.
Qed.

(** A CRLF line end whose two bytes come in different frames is read as two line
    ends: the event is handed out after its first line, while the same bytes
    in one frame are one event. *)
Theorem crlf_split_ends_event :
  fst (Client.read_all 3 (fresh_reader [Client.FData (str "data: a" ++ [CR; LF] ++ str "data: b" ++ [CR; LF; CR; LF])])) =
    Done [Client.mkSseEvent (Some (str "a" ++ [LF] ++ str "b")) None None None] /\
  fst (Client.read_all 3 (fresh_reader [Client.FData (str "data: a" ++ [CR]);
                                        Client.FData (LF :: str "data: b" ++ [CR; LF; CR; LF])])) =
    Done [Client.mkSseEvent (Some (str "a")) None None None; Client.mkSseEvent (Some (str "b")) None None None].
Proof. split; vm_compute; reflexivity. Qed.

End Flaws.

(** * A concrete stream *)

Section Example.

Definition ping : list Field :=
  [SetEvent (str "ping"); SetData (str "hello" ++ [LF] ++ str "world"); SetId (str "7"); SetRetry 15000; AddComment (str "c")].
Definition quiet_event : list Field := [AddComment (str "only a comment")].
Definition pong : list Field := [SetData (str "bye")].

Definition ping_script : Script := [(0, Some ping); (20000, None); (21000, Some quiet_event); (22000, Some pong)].

Definition built (fs : list Field) : Server.Event := match build fs with Done e => e | _ => Server.new end.

Definition ping_polls : list (Z * Server.Poll (option (unit + Server.Event))) :=
  [(0, Server.Ready (Some (inr (built ping)))); (20000, Server.Pending);
   (21000, Server.Ready (Some (inr (built quiet_event)))); (22000, Server.Ready (Some (inr (built pong))));
   (23000, Server.Ready None)].

Definition ping_bytes : bytes :=
  mjoin (frame_data <$> Server.body_frames (Some (Server.keep_alive_stream_new 0 Server.keep_alive_new)) ping_polls).

Lemma sse_roundtrip_witness :
  exists r, fst (Client.read_all (E := unit) 5 r) =
    Done [Client.mkSseEvent (Some (str "hello" ++ [LF] ++ str "world")) (Some (str "ping")) (Some (str "7")) (Some 15000);
          Client.mkSseEvent (Some (str "bye")) None None None].
Proof.
  destruct (sse_roundtrip (E := unit) ping_script ping_polls (Some Server.keep_alive_new) 0
    [Client.FData (take 9 ping_bytes); Client.FTrailers; Client.FData (drop 9 ping_bytes)]) as (r & r' & _ & H & _).
  - repeat first [apply polls_end|apply polls_pending|apply polls_event; [vm_compute; reflexivity|by repeat constructor|]].
  - intros k0 [= <-]. exists []. by repeat constructor.
  - by repeat constructor.
  - vm_compute. reflexivity.
  - exists r. change 5%nat with (S (length ping_script)). rewrite H. vm_compute. reflexivity.
Defined.

Lemma json_events_merge_witness :
  exists r, Client.read_all (E := unit) 2 (fresh_reader [Client.FData (str "data: 1" ++ [LF] ++ str "data: 2" ++ [LF])]) =
    (Done [Client.mkSseEvent (Some (str "1" ++ [LF] ++ str "2")) None None None], r).
Proof.
  eapply (json_events_merge (E := unit) (str "1") (str "2")); try (vm_compute; reflexivity); by repeat constructor.
Defined.

End Example.
