(* ===== verification/HttpPool.v ===== *)
(** The HTTP client's connection pool (volo-http/src/client/transport/pool.rs)
    and the connections it holds (HttpConnection and H1Lease of protocol.rs).

    The definitions are the critical sections of the code, on the state behind
    the mutex and the one-shot channels of the waiting checkouts;
    [HttpTransport.step] interleaves them. Time is in milliseconds. A receiver
    that is dropped between [is_closed] and [send] of one critical section is
    dropped just before it: both ways [put] keeps the value. *)

From S2P Require Import Prelude.

(** [Ver], with the feature [http2]. *)
Inductive Ver : Type := Auto | Http2.

#[export] Instance http_ver_eq_dec : EqDecision Ver.
Proof. solve_decision. Defined.

(** [From<Version> for Ver]: asked whether the request is HTTP/2. *)
Definition ver_from (is_http2 : bool) : Ver := if is_http2 then Http2 else Auto.

(** An HTTP/1 lease holds the sender of a physical connection until it is used;
    an HTTP/2 sender is a handle that can be cloned. *)
Inductive HttpConnection : Type :=
| H1 (lease : option nat)
| H2 (sender : nat).

#[export] Instance http_connection_eq_dec : EqDecision HttpConnection.
Proof. solve_decision. Defined.

Inductive Reservation : Type :=
| Shared (to_keep to_return : HttpConnection)
| Unique (t : HttpConnection).

Definition reserve (t : HttpConnection) : Reservation :=
  match t with
  | H1 h1 => Unique (H1 h1)
  | H2 h2 => Shared (H2 h2) (H2 h2)
  end.

Definition can_share (t : HttpConnection) : bool :=
  match t with H1 _ => false | H2 _ => true end.

(** What hyper tells of a connection through its sender: it takes a request, it
    is busy with one, or it is closed. *)
Inductive Hyper : Type := Ready | Busy | Closed.

#[export] Instance hyper_eq_dec : EqDecision Hyper.
Proof. solve_decision. Defined.

Abbreviation Conns := (gmap nat Hyper).

Definition is_ready (conns : Conns) (sender : nat) : bool := bool_decide (conns !! sender = Some Ready).

Definition is_open (conns : Conns) (t : HttpConnection) : bool :=
  match t with
  | H1 (Some sender) => is_ready conns sender
  | H1 None => false
  | H2 sender => is_ready conns sender
  end.

Record Idle : Type := mkIdle { idle_at : Z; idle_value : HttpConnection }.

Inductive PoolError : Type := CheckoutNoLongerWanted | CheckedOutClosedValue.

(** [Error::is_canceled]. *)
Definition is_canceled (e : PoolError) : bool :=
  match e with CheckedOutClosedValue => true | CheckoutNoLongerWanted => false end.

Section Pool.
Context {K : Type} `{Countable K}.

Record Config : Type := mkConfig { cfg_idle_timeout : Z; cfg_max_idle_per_host : Z }.
Definition Config_default : Config := mkConfig 20000 10240.

Record PoolInner : Type := mkInner {
  in_connecting : gset K;
  in_idle : gmap K (list Idle);
  in_max_idle_per_host : Z;
  in_waiters : gmap K (list nat);
  in_interval : bool;
  in_timeout : Z
}.

Definition with_connecting c (s : PoolInner) : PoolInner :=
  mkInner c (in_idle s) (in_max_idle_per_host s) (in_waiters s) (in_interval s) (in_timeout s).
Definition with_idle i (s : PoolInner) : PoolInner :=
  mkInner (in_connecting s) i (in_max_idle_per_host s) (in_waiters s) (in_interval s) (in_timeout s).
Definition with_waiters ws (s : PoolInner) : PoolInner :=
  mkInner (in_connecting s) (in_idle s) (in_max_idle_per_host s) ws (in_interval s) (in_timeout s).

(** [Pool::new]. *)
Definition Pool_new (cfg : Config) : PoolInner :=
  mkInner ∅ ∅ (cfg_max_idle_per_host cfg) ∅ false (cfg_idle_timeout cfg).

(** A one-shot channel from its receiver's side, listed with the key it was
    opened for: nothing yet, a value, the sender gone, the receiver gone. *)
Inductive Chan : Type := ChOpen | ChSent (t : HttpConnection) | ChTxGone | ChRxGone.

Abbreviation Chans := (gmap nat (K * Chan)).
Abbreviation Store := (PoolInner * Chans)%type.

Definition drop_tx (tx : nat) (chans : Chans) : Chans :=
  alter (fun c => match c with (k, ChOpen) => (k, ChTxGone) | _ => c end) tx chans.
Definition drop_txs (txs : list nat) (chans : Chans) : Chans := foldr drop_tx chans txs.
Definition drop_rx (rx : nat) (chans : Chans) : Chans := alter (fun c => (c.1, ChRxGone)) rx chans.

(** [Sender::is_closed] and [Sender::send]. *)
Definition is_closed (chans : Chans) (tx : nat) : bool :=
  match chans !! tx with Some (_, ChOpen) => false | _ => true end.

Definition send (tx : nat) (t : HttpConnection) (chans : Chans) : Chans + HttpConnection :=
  match chans !! tx with
  | Some (k, ChOpen) => inl (<[tx := (k, ChSent t)]> chans)
  | _ => inr t
  end.

(** [Expiration::expires], and the test of [clear_expired]. *)
Definition expires (now timeout idle_at : Z) : bool := bool_decide (timeout < Z.max 0 (now - idle_at)).

(** [Pool::connecting]: whether the [Connecting] it gives refers to the pool. *)
Definition connecting (key : K) (ver : Ver) (self : PoolInner) : option bool * PoolInner :=
  match ver with
  | Http2 =>
      if bool_decide (key ∈ in_connecting self) then (None, self)
      else (Some true, with_connecting ({[key]} ∪ in_connecting self) self)
  | Auto => (Some false, self)
  end.

(** The [while] loop of [PoolInner::put]: the senders left, the value if it was
    not given away, the channels. *)
Fixpoint put_waiters {E} (waiters : list nat) (value : option HttpConnection) (chans : Chans) :
    outcome E (list nat * option HttpConnection * Chans) :=
  match waiters with
  | [] => Done ([], value, chans)
  | tx :: waiters =>
      if is_closed chans tx then put_waiters waiters value chans
      else
        reserved ← unwrap value;
        let '(value, reserved) :=
          match reserve reserved with
          | Shared to_keep to_send => (Some to_keep, to_send)
          | Unique uniq => (None, uniq)
          end in
        match send tx reserved chans with
        | inl chans =>
            match value with
            | None => Done (waiters, None, chans)
            | Some _ => put_waiters waiters value chans
            end
        | inr e => put_waiters waiters (Some e) chans
        end
  end.

(** [spawn_idle_interval]. *)
Definition spawn_idle_interval (self : PoolInner) : PoolInner :=
  mkInner (in_connecting self) (in_idle self) (in_max_idle_per_host self) (in_waiters self) true (in_timeout self).

(** The end of [PoolInner::put], for a value nobody waited for. *)
Definition put_idle (now : Z) (key : K) (value : HttpConnection) (self : PoolInner) : PoolInner :=
  let idle_list := default [] (in_idle self !! key) in
  if bool_decide (in_max_idle_per_host self <= Zlen idle_list)
  then with_idle (<[key := idle_list]> (in_idle self)) self
  else spawn_idle_interval (with_idle (<[key := idle_list ++ [mkIdle now value]]> (in_idle self)) self).

(** [PoolInner::put]. *)
Definition put {E} (now : Z) (key : K) (value : HttpConnection) (s : Store) : outcome E Store :=
  let '(self, chans) := s in
  if can_share value && bool_decide (is_Some (in_idle self !! key)) then Done s
  else
    '(value, self, chans) ←
      match in_waiters self !! key with
      | Some waiters =>
          '(waiters, value, chans) ← put_waiters waiters (Some value) chans;
          let ws := if bool_decide (waiters = []) then delete key (in_waiters self)
                    else <[key := waiters]> (in_waiters self) in
          Done (value, with_waiters ws self, chans)
      | None => Done (Some value, self, chans)
      end;
    match value with
    | Some value => Done (put_idle now key value self, chans)
    | None => Done (self, chans)
    end.

(** [PoolInner::connected]: the senders of the waiters it removes are dropped. *)
Definition connected {E} `{BuildProfile} (key : K) (s : Store) : outcome E Store :=
  let '(self, chans) := s in
  let existed := bool_decide (key ∈ in_connecting self) in
  let self := with_connecting (in_connecting self ∖ {[key]}) self in
  if overflow_checks && negb existed then Panic
  else Done (with_waiters (delete key (in_waiters self)) self,
             drop_txs (default [] (in_waiters self !! key)) chans).

(** [Drop for Connecting]; [guard]: it refers to the pool. *)
Definition drop_connecting {E} `{BuildProfile} (key : K) (guard : bool) (s : Store) : outcome E Store :=
  if guard then connected key s else Done s.

(** [Connecting::alpn_h2]; the [Connecting] it is called on refers to no pool. *)
Definition alpn_h2 {E} `{BuildProfile} (key : K) (guard : bool) (self : PoolInner) :
    outcome E (option bool * PoolInner) :=
  if overflow_checks && guard then Panic else Done (connecting key Http2 self).

(** [Pooled]: what a call holds, and whether it refers to the pool. *)
Record Pooled : Type := mkPooled { pl_key : K; pl_value : HttpConnection; pl_pool : bool }.

(** [Pool::pooled]: the [Connecting] is dropped at its end. *)
Definition pooled {E} `{BuildProfile} (now : Z) (key : K) (guard : bool) (value : HttpConnection) (s : Store) :
    outcome E (Pooled * Store) :=
  match reserve value with
  | Shared to_insert to_return =>
      s ← put now key to_insert s;
      s ← connected key s;
      Done (mkPooled key to_return false, s)
  | Unique value =>
      s ← drop_connecting key guard s;
      Done (mkPooled key value true, s)
  end.

(** [Pool::reuse]. *)
Definition reuse (key : K) (value : HttpConnection) : Pooled := mkPooled key value (negb (can_share value)).

(** [Drop for Pooled]. *)
Definition drop_pooled {E} (conns : Conns) (now : Z) (p : Pooled) (s : Store) : outcome E Store :=
  if negb (is_open conns (pl_value p)) then Done s
  else if pl_pool p then put now (pl_key p) (pl_value p) s
  else Done s.

(** [IdlePopper::pop], on the list from its end. *)
Fixpoint pop_back (conns : Conns) (now timeout : Z) (l : list Idle) : option Idle * list Idle :=
  match l with
  | [] => (None, [])
  | entry :: l =>
      if negb (is_open conns (idle_value entry)) then pop_back conns now timeout l
      else if expires now timeout (idle_at entry) then pop_back conns now timeout l
      else
        match reserve (idle_value entry) with
        | Shared to_reinsert to_checkout => (Some (mkIdle (idle_at entry) to_checkout), mkIdle now to_reinsert :: l)
        | Unique unique => (Some (mkIdle (idle_at entry) unique), l)
        end
  end.

Definition pop (conns : Conns) (now timeout : Z) (l : list Idle) : option Idle * list Idle :=
  let '(e, l) := pop_back conns now timeout (rev l) in (e, rev l).

(** [Checkout::checkout], without a waiter: a value, or the new waiter [tx]. *)
Definition checkout (conns : Conns) (now : Z) (key : K) (tx : nat) (s : Store) : option Pooled * Store :=
  let '(self, chans) := s in
  let '(entry, idle) :=
    match in_idle self !! key with
    | Some l =>
        let '(e, l) := pop conns now (in_timeout self) l in
        match e with
        | Some e => (Some e, if bool_decide (l = []) then delete key (in_idle self) else <[key := l]> (in_idle self))
        | None => (None, delete key (in_idle self))
        end
    | None => (None, delete key (in_idle self))
    end in
  let self := with_idle idle self in
  match entry with
  | Some e => (Some (reuse key (idle_value e)), (self, chans))
  | None =>
      let waiters := default [] (in_waiters self !! key) ++ [tx] in
      (None, (with_waiters (<[key := waiters]> (in_waiters self)) self, <[tx := (key, ChOpen)]> chans))
  end.

(** [Checkout::poll_waiter] on a receiver: pending, or its answer. *)
Definition poll_waiter (conns : Conns) (key : K) (rx : nat) (chans : Chans) :
    option (Pooled + PoolError) * Chans :=
  match chans !! rx with
  | Some (_, ChSent value) =>
      (Some (if is_open conns value then inl (reuse key value) else inr CheckedOutClosedValue), drop_rx rx chans)
  | Some (_, ChTxGone) => (Some (inr CheckoutNoLongerWanted), drop_rx rx chans)
  | _ => (None, chans)
  end.

(** [PoolInner::clean_waiters], the locked part of [Drop for Checkout]. *)
Definition clean_waiters (key : K) (s : Store) : Store :=
  let '(self, chans) := s in
  match in_waiters self !! key with
  | Some waiters =>
      let waiters := base.filter (fun tx => is_closed chans tx = false) waiters in
      (with_waiters (if bool_decide (waiters = []) then delete key (in_waiters self)
                     else <[key := waiters]> (in_waiters self)) self, chans)
  | None => s
  end.

(** [PoolInner::clear_expired]. *)
Definition clear_expired (conns : Conns) (now : Z) (self : PoolInner) : PoolInner :=
  let keep (e : Idle) := is_open conns (idle_value e) && negb (expires now (in_timeout self) (idle_at e)) in
  let idle := (fun l => base.filter (fun e => keep e = true) l) <$> in_idle self in
  with_idle (base.filter (fun kv => kv.2 <> []) idle) self.
End Pool.
Arguments PoolInner K {_ _}.
Arguments Pooled K : clear implicits.
