(* ===== verification/HttpTransport.v ===== *)
(** Calls of an HTTP client over its pool (volo-http/src/client/transport/protocol.rs):
    [pooled_connect], which races a checkout against a lazy dial, the HTTP/1
    lease that a call takes and gives back to the driver of its connection, and
    the driver, which returns it to the pool when hyper is ready for the next
    request.

    A world is the pool, the connections and their drivers, and the tasks that run
    [ClientTransport::call], each at one of its await or lock points. An event is
    what one task does between two such points, a driver's poll, time passing,
    the idle task, hyper finishing or closing a connection, or the drop of a
    task's future. The answers of the outside come with the event. *)

From S2P Require Import Prelude HttpPool.

(** What TLS negotiated: no ALPN, [h2], or something else. *)
Inductive Alpn : Type := NoAlpn | AlpnH2 | AlpnOther.

(** [conn_use_h2], with the features [http1], [http2] and TLS. *)
Definition conn_use_h2 (ver : Ver) (alpn : Alpn) : bool :=
  match alpn with
  | AlpnH2 => true
  | AlpnOther => false
  | NoAlpn => bool_decide (ver = Http2)
  end.

Section Steps.
Context {K : Type} `{Countable K} `{BuildProfile}.

(** The lazy connector: not started, dialling, or shaking hands for HTTP/2 or
    HTTP/1; with the guard of its [Connecting]. *)
Inductive Connector : Type :=
| CInit
| CDial (guard : bool)
| CShake (guard h2 : bool).

(** [Started::started], and the guard a dropped connector drops. *)
Definition started (c : Connector) : bool := match c with CInit => false | _ => true end.
Definition guard_of (c : Connector) : bool :=
  match c with CInit => false | CDial guard | CShake guard _ => guard end.

Inductive Pc : Type :=
| TStart
| TSelect (rx : nat) (c : Connector)
| TConnect (c : Connector)
| TRetry (rx : nat)
| TDropRx (rx : nat) (next : Pc)
| TClean (next : Pc)
| TDropConn (guard : bool) (next : Pc)
| THold (p : Pooled K)
| TSending (p : Pooled K) (guard : option nat)
| TBackground (c : Connector)
| TDropPooled (p : Pooled K)
| TDone
| TFailed (e : PoolError + unit)
| TGone.

Record Task : Type := mkTask { tk_key : K; tk_ver : Ver; tk_pc : Pc }.

(** [ManagedH1Connection]: the senders in its return channel and the one it waits for. *)
Record Driver : Type := mkDriver { dr_key : K; dr_return_rx : list nat; dr_waiting : option nat }.

(** [w_made] is the history of the HTTP/1 connections, with the key each was made for. *)
Record World : Type := mkWorld {
  w_store : PoolInner K * gmap nat (K * Chan);
  w_conns : Conns;
  w_drivers : gmap nat Driver;
  w_tasks : gmap nat Task;
  w_now : Z;
  w_made : list (K * nat)
}.

Definition init (cfg : Config) : World := mkWorld (Pool_new cfg, ∅) ∅ ∅ ∅ 0 [].

(** What an await of the connector answers: a failure, a connection, a
    handshake done on the new connection [n]. *)
Inductive Answer : Type := AFail | AConn (alpn : Alpn) | AShake (n : nat).

Inductive Event : Type :=
| ESpawn (i : nat) (key : K) (ver : Ver)
| ETick (d : Z)
| EIdleTask
| EFinish (n : nat)
| EClose (n : nat)
| ECheckout (i rx : nat)
| EPollRx (i j : nat)
| EStart (i : nat)
| EConn (i : nat) (a : Answer)
| EDropRx (i : nat)
| EClean (i : nat)
| EDropConn (i : nat)
| EDropPooled (i : nat)
| ESend (i : nat)
| EResponse (i : nat) (ok : bool)
| ECancel (i : nat)
| EDriverRecv (n : nat)
| EDriverReady (n : nat)
| EDriverExit (n : nat).

(** An event that cannot happen now. *)
Inductive Disabled : Type := disabled.

Definition require (b : bool) : outcome Disabled unit := if b then Done tt else Fail disabled.

Definition get_task (i : nat) (w : World) : outcome Disabled Task :=
  match w_tasks w !! i with Some t => Done t | None => Fail disabled end.
Definition get_driver (n : nat) (w : World) : outcome Disabled Driver :=
  match w_drivers w !! n with Some d => Done d | None => Fail disabled end.

Definition with_store s (w : World) : World :=
  mkWorld s (w_conns w) (w_drivers w) (w_tasks w) (w_now w) (w_made w).
Definition with_conns c (w : World) : World :=
  mkWorld (w_store w) c (w_drivers w) (w_tasks w) (w_now w) (w_made w).
Definition with_drivers d (w : World) : World :=
  mkWorld (w_store w) (w_conns w) d (w_tasks w) (w_now w) (w_made w).
Definition with_inner self (w : World) : World := with_store (self, (w_store w).2) w.
Definition with_chans chans (w : World) : World := with_store ((w_store w).1, chans) w.
Definition set_task (i : nat) (t : Task) (w : World) : World :=
  mkWorld (w_store w) (w_conns w) (w_drivers w) (<[i := t]> (w_tasks w)) (w_now w) (w_made w).
Definition set_pc (i : nat) (t : Task) (pc : Pc) (w : World) : World :=
  set_task i (mkTask (tk_key t) (tk_ver t) pc) w.

(** A new connection of [key]: with HTTP/1 its driver is spawned. *)
Definition new_conn (key : K) (h2 : bool) (n : nat) (w : World) : outcome Disabled World :=
  _ ← require (bool_decide (w_conns w !! n = None));
  Done (mkWorld (w_store w) (<[n := Ready]> (w_conns w))
          (if h2 then w_drivers w else <[n := mkDriver key [] None]> (w_drivers w))
          (w_tasks w) (w_now w) (if h2 then w_made w else (key, n) :: w_made w)).

(** The outcome of a step of the connector: it goes on, [Err(retry())], another
    error with the guard still to be dropped, or a connection. *)
Inductive Connected : Type :=
| RMore (c : Connector)
| RRetry
| RErr (guard : bool)
| ROk (p : Pooled K).

(** The closure of [connect_to]. *)
Definition start_connect (key : K) (ver : Ver) (w : World) : Connected * World :=
  let '(lock, inner) := connecting key ver (w_store w).1 in
  (match lock with Some guard => RMore (CDial guard) | None => RRetry end, with_inner inner w).

(** [connect_impl], from one await to the next. *)
Definition connect_impl (key : K) (ver : Ver) (c : Connector) (a : Answer) (w : World) :
    outcome Disabled (Connected * World) :=
  match c, a with
  | CDial guard, AFail => Done (RErr guard, w)
  | CDial guard, AConn alpn =>
      if conn_use_h2 ver alpn then
        match ver with
        | Auto =>
            '(lock, inner) ← alpn_h2 key guard (w_store w).1;
            Done (match lock with Some guard => RMore (CShake guard true) | None => RRetry end, with_inner inner w)
        | Http2 => Done (RMore (CShake guard true), w)
        end
      else Done (RMore (CShake guard false), w)
  | CShake guard _, AFail => Done (RErr guard, w)
  | CShake guard h2, AShake n =>
      w ← new_conn key h2 n w;
      '(p, s) ← pooled (w_now w) key guard (if h2 then H2 n else H1 (Some n)) (w_store w);
      Done (ROk p, with_store s w)
  | _, _ => Fail disabled
  end.

(** What a task does with the outcome of its connector, by where it polls it from:
    [pooled_connect]'s select, its [connecting.await], or the spawned task. *)
Definition after_connect (pc : Pc) (r : Connected) : Pc :=
  match pc, r with
  | TSelect rx _, RMore c => TSelect rx c
  | TSelect rx _, RRetry => TRetry rx
  | TSelect rx _, RErr guard => TDropConn guard (TDropRx rx (TFailed (inr tt)))
  | TSelect rx _, ROk p => TDropRx rx (THold p)
  | TConnect _, RMore c => TConnect c
  | TConnect _, RRetry => TFailed (inr tt)
  | TConnect _, RErr guard => TDropConn guard (TFailed (inr tt))
  | TConnect _, ROk p => THold p
  | TBackground _, RMore c => TBackground c
  | TBackground _, RRetry => TGone
  | TBackground _, RErr guard => TDropConn guard TGone
  | TBackground _, ROk p => TDropPooled p
  | pc, _ => pc
  end.

Definition connector_of (pc : Pc) : option Connector :=
  match pc with TSelect _ c | TConnect c | TBackground c => Some c | _ => None end.

(** [H1ReturnGuard::return_to_driver]: without a driver the sender is dropped. *)
Definition return_to_driver (n : nat) (drivers : gmap nat Driver) : gmap nat Driver :=
  alter (fun d => mkDriver (dr_key d) (dr_return_rx d ++ [n]) (dr_waiting d)) n drivers.

Definition return_guard (guard : option nat) (w : World) : World :=
  match guard with
  | Some n => with_drivers (return_to_driver n (w_drivers w)) w
  | None => w
  end.

(** [HttpConnection::send_request]: an HTTP/1 lease is taken by a guard, and hyper
    is busy with the request unless the connection is closed. *)
Definition send_request (p : Pooled K) (conns : Conns) : Pooled K * option nat * Conns :=
  match pl_value p with
  | H1 (Some n) =>
      (mkPooled (pl_key p) (H1 None) (pl_pool p), Some n,
       alter (fun c => match c with Ready => Busy | c => c end) n conns)
  | _ => (p, None, conns)
  end.

(** The end of a spawned connector's select: it goes on in the background. *)
Definition spawn_connector (j : nat) (t : Task) (c : Connector) (w : World) : outcome Disabled World :=
  if started c then
    _ ← require (bool_decide (w_tasks w !! j = None));
    Done (set_pc j t (TBackground c) w)
  else Done w.

(** A poll of [ManagedH1Connection]: it receives the sender a request gave back. *)
Definition driver_recv (n : nat) (w : World) : outcome Disabled World :=
  d ← get_driver n w;
  match dr_waiting d, dr_return_rx d with
  | None, r :: rest => Done (with_drivers (<[n := mkDriver (dr_key d) rest (Some r)]> (w_drivers w)) w)
  | _, _ => Fail disabled
  end.

(** Hyper reports that the sender is reusable: it goes back to the pool. *)
Definition driver_ready (n : nat) (w : World) : outcome Disabled World :=
  d ← get_driver n w;
  match dr_waiting d with
  | Some r =>
      _ ← require (is_ready (w_conns w) r);
      let w := with_drivers (<[n := mkDriver (dr_key d) (dr_return_rx d) None]> (w_drivers w)) w in
      s ← put (w_now w) (dr_key d) (H1 (Some r)) (w_store w);
      Done (with_store s w)
  | None => Fail disabled
  end.

(** The driver ends, with the connection: the socket closed or failed, the sender is
    closed, or nobody holds a sender any more. *)
Definition driver_exit (n : nat) (w : World) : outcome Disabled World :=
  _ ← get_driver n w;
  Done (with_conns (<[n := Closed]> (w_conns w)) (with_drivers (delete n (w_drivers w)) w)).

Definition step (e : Event) (w : World) : outcome Disabled World :=
  match e with
  | ESpawn i key ver =>
      _ ← require (bool_decide (w_tasks w !! i = None));
      Done (set_task i (mkTask key ver TStart) w)
  | ETick d =>
      _ ← require (bool_decide (0 <= d));
      Done (mkWorld (w_store w) (w_conns w) (w_drivers w) (w_tasks w) (w_now w + d) (w_made w))
  | EIdleTask =>
      _ ← require (in_interval (w_store w).1);
      Done (with_inner (clear_expired (w_conns w) (w_now w) (w_store w).1) w)
  | EFinish n =>
      _ ← require (bool_decide (w_conns w !! n = Some Busy));
      Done (with_conns (<[n := Ready]> (w_conns w)) w)
  | EClose n =>
      _ ← require (bool_decide (is_Some (w_conns w !! n)));
      Done (with_conns (<[n := Closed]> (w_conns w)) w)
  | ECheckout i rx =>
      t ← get_task i w;
      _ ← require (bool_decide ((w_store w).2 !! rx = None));
      match tk_pc t with
      | TStart =>
          let '(o, s) := checkout (w_conns w) (w_now w) (tk_key t) rx (w_store w) in
          let pc := match o with Some p => THold p | None => TSelect rx CInit end in
          Done (set_pc i t pc (with_store s w))
      | _ => Fail disabled
      end
  | EPollRx i j =>
      t ← get_task i w;
      match tk_pc t with
      | TSelect rx c =>
          let '(o, chans) := poll_waiter (w_conns w) (tk_key t) rx (w_store w).2 in
          let w := with_chans chans w in
          match o with
          | None => Done w
          | Some (inl p) => spawn_connector j t c (set_pc i t (THold p) w)
          | Some (inr e) =>
              Done (set_pc i t (if is_canceled e then TConnect c else TDropConn (guard_of c) (TFailed (inl e))) w)
          end
      | TRetry rx =>
          let '(o, chans) := poll_waiter (w_conns w) (tk_key t) rx (w_store w).2 in
          let w := with_chans chans w in
          match o with
          | None => Done w
          | Some (inl p) => Done (set_pc i t (THold p) w)
          | Some (inr e) => Done (set_pc i t (TFailed (inl e)) w)
          end
      | _ => Fail disabled
      end
  | EStart i =>
      t ← get_task i w;
      match connector_of (tk_pc t) with
      | Some CInit =>
          let '(r, w) := start_connect (tk_key t) (tk_ver t) w in
          Done (set_pc i t (after_connect (tk_pc t) r) w)
      | _ => Fail disabled
      end
  | EConn i a =>
      t ← get_task i w;
      match connector_of (tk_pc t) with
      | Some c =>
          '(r, w) ← connect_impl (tk_key t) (tk_ver t) c a w;
          Done (set_pc i t (after_connect (tk_pc t) r) w)
      | None => Fail disabled
      end
  | EDropRx i =>
      t ← get_task i w;
      match tk_pc t with
      | TDropRx rx next => Done (set_pc i t (TClean next) (with_chans (drop_rx rx (w_store w).2) w))
      | _ => Fail disabled
      end
  | EClean i =>
      t ← get_task i w;
      match tk_pc t with
      | TClean next => Done (set_pc i t next (with_store (clean_waiters (tk_key t) (w_store w)) w))
      | _ => Fail disabled
      end
  | EDropConn i =>
      t ← get_task i w;
      match tk_pc t with
      | TDropConn guard next =>
          s ← drop_connecting (tk_key t) guard (w_store w);
          Done (set_pc i t next (with_store s w))
      | _ => Fail disabled
      end
  | EDropPooled i =>
      t ← get_task i w;
      match tk_pc t with
      | TDropPooled p =>
          s ← drop_pooled (w_conns w) (w_now w) p (w_store w);
          Done (set_pc i t TGone (with_store s w))
      | _ => Fail disabled
      end
  | ESend i =>
      t ← get_task i w;
      match tk_pc t with
      | THold p =>
          let '(p, guard, conns) := send_request p (w_conns w) in
          Done (set_pc i t (TSending p guard) (with_conns conns w))
      | _ => Fail disabled
      end
  | EResponse i ok =>
      t ← get_task i w;
      match tk_pc t with
      | TSending p guard =>
          let w := return_guard guard w in
          s ← drop_pooled (w_conns w) (w_now w) p (w_store w);
          Done (set_pc i t (if ok : bool then TDone else TFailed (inr tt)) (with_store s w))
      | _ => Fail disabled
      end
  | ECancel i =>
      t ← get_task i w;
      match tk_pc t with
      | TStart => Done (set_pc i t TGone w)
      | TSelect rx c => Done (set_pc i t (TDropRx rx (TDropConn (guard_of c) TGone)) w)
      | TConnect c => Done (set_pc i t (TDropConn (guard_of c) TGone) w)
      | TRetry rx => Done (set_pc i t (TDropRx rx TGone) w)
      | TSending p guard =>
          let w := return_guard guard w in
          s ← drop_pooled (w_conns w) (w_now w) p (w_store w);
          Done (set_pc i t TGone (with_store s w))
      | _ => Fail disabled
      end
  | EDriverRecv n => driver_recv n w
  | EDriverReady n => driver_ready n w
  | EDriverExit n => driver_exit n w
  end.

(** A run: the events one after the other. *)
Definition run (es : list Event) (w : World) : outcome Disabled World :=
  foldM (fun w e => step e w) es w.

(** The worlds a client can reach. *)
Inductive reachable (cfg : Config) : World -> Prop :=
| reachable_init : reachable cfg (init cfg)
| reachable_step w e w' : reachable cfg w -> step e w = Done w' -> reachable cfg w'.

Lemma http_reachable_run cfg es w w' : reachable cfg w -> run es w = Done w' -> reachable cfg w'.
Proof.
  revert w. induction es as [|e es IH]; intros w Hw Hr; cbn in Hr; done_inv; eauto using reachable_step.
Qed.
End Steps.
Arguments Pc K : clear implicits.
Arguments Task K : clear implicits.
Arguments Driver K : clear implicits.
Arguments World K {_ _}.
Arguments Event K : clear implicits.
