(* ===== verification/HttpPoolOps.v ===== *)
(** What each critical section of the HTTP connection pool does
    (volo-http/src/client/transport/pool.rs): which HTTP/1 senders and which
    [connecting] flags it takes and gives, that it does not panic, and that it
    keeps the pool well formed. *)

From S2P Require Import Prelude Multiset HttpPool.

Section Ops.
Context {K : Type} `{Countable K} `{BuildProfile}.

Abbreviation Store := (PoolInner K * gmap nat (K * Chan))%type.

(** * Senders, channels, flags *)

(** The HTTP/1 senders of a value, with the key they are held for. *)
Definition val_held (k : K) (v : HttpConnection) : list (K * nat) :=
  match v with H1 (Some n) => [(k, n)] | _ => [] end.
Definition opt_held (k : K) (v : option HttpConnection) : list (K * nat) :=
  match v with Some v => val_held k v | None => [] end.
Definition idle_held (k : K) (l : list Idle) : list (K * nat) := l ≫= fun e => val_held k (idle_value e).
Definition chan_held (_ : nat) (c : K * Chan) : list (K * nat) :=
  match c with (k, ChSent v) => val_held k v | _ => [] end.
Definition store_conns (s : Store) : list (K * nat) :=
  gather idle_held (in_idle s.1) ++ gather chan_held s.2.

Definition opens (chans : gmap nat (K * Chan)) (rx : nat) (k : K) : Prop := chans !! rx = Some (k, ChOpen).
Definition key_of (chans : gmap nat (K * Chan)) (rx : nat) : option K := fst <$> chans !! rx.

(** An open channel is listed under its key and its key has no idle list; what is
    listed under a key was opened for it. *)
Record store_wf (s : Store) : Prop := mkWf {
  wf_listed : forall rx k, opens s.2 rx k -> exists ws, in_waiters s.1 !! k = Some ws /\ rx ∈ ws;
  wf_hungry : forall rx k, opens s.2 rx k -> in_idle s.1 !! k = None;
  wf_keyed : forall k ws rx, in_waiters s.1 !! k = Some ws -> rx ∈ ws -> key_of s.2 rx = Some k
}.

(** A caller that relies on somebody else's dial: as long as its channel is open,
    the flag of its key is set. *)
Definition waits (s : Store) (rx : nat) (k : K) : Prop :=
  key_of s.2 rx = Some k /\ (opens s.2 rx k -> k ∈ in_connecting s.1).

(** An operation given the senders [inn] and the flags [gin] that gives out [out]
    and [gout] creates and duplicates none, and keeps what tasks rely on. *)
Record effect (inn out : list (K * nat)) (gin gout : list K) (s s' : Store) : Prop := mkEffect {
  ef_conns : out ++ store_conns s' ⊆+ inn ++ store_conns s;
  ef_flags : gout ++ elements (in_connecting s.1) ≡ₚ gin ++ elements (in_connecting s'.1);
  ef_keys : forall rx k, key_of s.2 rx = Some k -> key_of s'.2 rx = Some k;
  ef_waits : forall rx k, waits s rx k -> waits s' rx k;
  ef_wf : store_wf s'
}.

Lemma eff_refl l g s : store_wf s -> effect l l g g s s.
Proof. by split. Qed.

Lemma eff_trans i1 i2 i3 g1 g2 g3 s1 s2 s3 :
  effect i1 i2 g1 g2 s1 s2 -> effect i2 i3 g2 g3 s2 s3 -> effect i1 i3 g1 g3 s1 s3.
Proof.
  intros [C1 F1 K1 W1 I1] [C2 F2 K2 W2 I2]. split; [mset| |eauto..].
  apply (anti_symm submseteq); mset.
Qed.

(** Frames: what an operation does not touch. *)
Lemma eff_frame l inn out gin gout s s' :
  effect inn out gin gout s s' -> effect (l ++ inn) (l ++ out) gin gout s s'.
Proof. intros [C F K1 W I]. split; [mset|done..]. Qed.

Lemma eff_drop inn out gin gout s s' inn' :
  inn ⊆+ inn' -> effect inn out gin gout s s' -> effect inn' out gin gout s s'.
Proof. intros Hi [C F K1 W I]. split; [mset|done..]. Qed.

(** Senders given by more or asked for by less, flags in another order. *)
Lemma eff_weaken inn inn' out out' gin gin' gout gout' s s' :
  inn ⊆+ inn' -> out' ⊆+ out -> gin ≡ₚ gin' -> gout ≡ₚ gout' ->
  effect inn out gin gout s s' -> effect inn' out' gin' gout' s s'.
Proof. intros Hi Ho Hg Hg' [C F K1 W I]. split; [mset| |done..]. by rewrite <- Hg, <- Hg'. Qed.

Lemma eff_frames l g inn out gin gout s s' :
  effect inn out gin gout s s' -> effect (l ++ inn) (l ++ out) (g ++ gin) (g ++ gout) s s'.
Proof. intros [C F K1 W I]. split; [mset| |done..]. by rewrite <- !app_assoc, F. Qed.

(** The channels of [chans'] are those of [chans], some no longer open. *)
Definition chans_le (chans chans' : gmap nat (K * Chan)) : Prop :=
  (forall rx, key_of chans' rx = key_of chans rx) /\ (forall rx k, opens chans' rx k -> opens chans rx k).

Lemma chans_le_refl chans : chans_le chans chans.
Proof. done. Qed.

Lemma chans_le_trans a b c : chans_le a b -> chans_le b c -> chans_le a c.
Proof. intros [K1 O1] [K2 O2]. split; intros; [by rewrite K2, K1|auto]. Qed.

Lemma chans_le_waits (s s' : Store) rx k :
  chans_le s.2 s'.2 -> in_connecting s.1 ⊆ in_connecting s'.1 -> waits s rx k -> waits s' rx k.
Proof. intros [Hk Ho] Hc [W1 W2]. split; [by rewrite Hk|]. intros. apply Hc, W2. by apply Ho. Qed.

(** Only channels change. *)
Lemma eff_chans inn out g self (chans chans' : gmap nat (K * Chan)) :
  store_wf (self, chans) -> chans_le chans chans' ->
  out ++ gather chan_held chans' ⊆+ inn ++ gather chan_held chans ->
  effect inn out g g (self, chans) (self, chans').
Proof.
  intros [L Hu Ky] Hc Hg. pose proof Hc as [H1 H2]. split; cbn [fst snd]; auto.
  - unfold store_conns. cbn [fst snd]. mset.
  - intros rx k. by rewrite H1.
  - intros rx k. by apply chans_le_waits.
  - split; cbn [fst snd] in *; eauto. intros k ws rx. rewrite H1. eauto.
Qed.

Lemma alter_chan (f : K * Chan -> K * Chan) rx (chans : gmap nat (K * Chan)) :
  (forall c, (f c).1 = c.1) -> (forall c, (f c).2 = ChOpen -> c.2 = ChOpen) -> chans_le chans (alter f rx chans).
Proof.
  intros Hk Ho. split; intros rx'; unfold key_of, opens; destruct (decide (rx' = rx)) as [->|Hn];
    rewrite ?lookup_alter_ne, ?lookup_alter_eq by done; try done.
  - destruct (chans !! rx) as [c|]; [|done]. cbn. by rewrite Hk.
  - intros k (c & Hc & Hf)%fmap_Some. rewrite Hc. destruct c as [k' c].
    specialize (Hk (k', c)). specialize (Ho (k', c)). rewrite <- Hf in Hk, Ho. cbn in Hk, Ho. by rewrite Hk, Ho.
Qed.

Lemma gather_alter (f : K * Chan -> K * Chan) rx (chans : gmap nat (K * Chan)) :
  (forall c, chan_held rx (f c) ⊆+ chan_held rx c) -> gather chan_held (alter f rx chans) ⊆+ gather chan_held chans.
Proof.
  intros Hf. pose proof (gather_delete chan_held rx chans) as G1. pose proof (gather_delete chan_held rx (alter f rx chans)) as G2.
  rewrite delete_alter_eq in G2. unfold gather_at in *. rewrite lookup_alter_eq in G2.
  destruct (chans !! rx) as [c|]; cbn in G2; [specialize (Hf c)|]; mset.
Qed.

Lemma drop_tx_le tx (chans : gmap nat (K * Chan)) : chans_le chans (drop_tx tx chans).
Proof. apply alter_chan; by intros [k []]. Qed.

Lemma drop_txs_le txs (chans : gmap nat (K * Chan)) : chans_le chans (drop_txs txs chans).
Proof. induction txs as [|tx txs IH]; [done|]. cbn. eapply chans_le_trans; [exact IH|apply drop_tx_le]. Qed.

Lemma drop_txs_held txs (chans : gmap nat (K * Chan)) : gather chan_held (drop_txs txs chans) ⊆+ gather chan_held chans.
Proof. induction txs as [|tx txs IH]; [done|]. cbn. etrans; [|exact IH]. apply gather_alter. by intros [k []]. Qed.

Lemma drop_txs_closed txs (chans : gmap nat (K * Chan)) rx k : rx ∈ txs -> ~ opens (drop_txs txs chans) rx k.
Proof.
  induction txs as [|tx txs IH]; [by intros Hin%not_elem_of_nil|]. cbn. intros [->|Hin]%elem_of_cons Ho.
  - unfold opens, drop_tx at 1 in Ho. rewrite lookup_alter_eq in Ho. destruct (_ !! tx) as [[? []]|]; simplify_eq/=.
  - apply (IH Hin). by apply (drop_tx_le tx (drop_txs txs chans)).
Qed.

Lemma drop_rx_eff rx g self (chans : gmap nat (K * Chan)) :
  store_wf (self, chans) -> effect [] [] g g (self, chans) (self, drop_rx rx chans).
Proof.
  intros Hw. apply eff_chans; [done|apply alter_chan; by intros [k []]|]. cbn. apply gather_alter. intros [k c]. apply submseteq_nil_l.
Qed.

(** * Handing a value to the waiters *)

Lemma is_closed_false (chans : gmap nat (K * Chan)) tx : is_closed chans tx = false -> exists k, opens chans tx k.
Proof. unfold is_closed, opens. destruct (chans !! tx) as [[k []]|]; try done. eauto. Qed.

Lemma is_closed_opens (chans : gmap nat (K * Chan)) tx k : opens chans tx k -> is_closed chans tx = false.
Proof. unfold is_closed, opens. by intros ->. Qed.

Lemma sent_le tx k v (chans : gmap nat (K * Chan)) : opens chans tx k -> chans_le chans (<[tx := (k, ChSent v)]> chans).
Proof.
  unfold opens. intros Ho. split; intros rx; unfold key_of, opens; destruct (decide (rx = tx)) as [->|Hn];
    rewrite ?lookup_insert_eq, ?lookup_insert_ne by done; rewrite ?Ho; done.
Qed.

Lemma sent_held tx k v (chans : gmap nat (K * Chan)) : opens chans tx k ->
  gather chan_held (<[tx := (k, ChSent v)]> chans) ≡ₚ val_held k v ++ gather chan_held chans.
Proof.
  unfold opens. intros Ho. pose proof (gather_insert chan_held tx (k, ChSent v) chans) as G1.
  pose proof (gather_delete chan_held tx chans) as G2. unfold gather_at in G2. rewrite Ho in G2. cbn in G1, G2.
  by rewrite G1, G2.
Qed.

Lemma put_waiters_spec {E} key ws v (chans : gmap nat (K * Chan)) :
  (forall rx, rx ∈ ws -> key_of chans rx = Some key) ->
  exists ws' v' chans', put_waiters (E := E) ws (Some v) chans = Done (ws', v', chans') /\ chans_le chans chans' /\
    opt_held key v' ++ gather chan_held chans' ⊆+ val_held key v ++ gather chan_held chans /\
    (forall rx, rx ∈ ws' -> rx ∈ ws) /\ (forall rx k, rx ∈ ws -> opens chans' rx k -> rx ∈ ws') /\ (v' = None \/ ws' = []).
Proof.
  revert v chans. induction ws as [|tx ws IH]; intros v chans Hk; cbn [put_waiters].
  { eexists _, _, _. split_and!; try done. by right. }
  destruct (is_closed chans tx) eqn:Hc.
  - destruct (IH v chans) as (ws' & v' & chans' & Hp & Hle & Hh & Hs & Ho & Hv); [intros; apply Hk; by right|].
    exists ws', v', chans'. split_and!; try done; [by intros; right; auto|].
    intros rx k [->|Hin]%elem_of_cons Hop; [|by eapply Ho].
    apply Hle in Hop. apply is_closed_opens in Hop. congruence.
  - apply is_closed_false in Hc as [k Hop]. assert (k = key) as ->.
    { specialize (Hk tx (list_elem_of_here _ _)). unfold key_of, opens in *. rewrite Hop in Hk. by injection Hk. }
    cbn [unwrap mbind outcome_bind]. unfold send. rewrite Hop.
    pose proof (fun v => sent_le tx key v chans Hop) as Hl. pose proof (fun v => sent_held tx key v chans Hop) as Hh.
    destruct v as [l|n]; cbn [reserve].
    + eexists ws, None, _. split_and!; try done; [..|by left].
      * specialize (Hh (H1 l)). cbn [opt_held]. mset.
      * by intros; right.
      * intros rx k [->|Hin]%elem_of_cons Ho; [|done]. unfold opens in Ho. by rewrite lookup_insert_eq in Ho.
    + destruct (IH (H2 n) (<[tx := (key, ChSent (H2 n))]> chans)) as (ws' & v' & chans' & Hp & Hle & Hh' & Hs & Ho & Hv).
      { intros rx Hin. rewrite (proj1 (Hl (H2 n))). apply Hk. by right. }
      exists ws', v', chans'. split_and!; try done; [by eapply chans_le_trans|..].
      * specialize (Hh (H2 n)). cbn [val_held] in *. mset.
      * by intros; right; auto.
      * intros rx k [->|Hin]%elem_of_cons Hop'; [|by eapply Ho]. apply Hle in Hop'. unfold opens in Hop'.
        by rewrite lookup_insert_eq in Hop'.
Qed.

(** Only idle lists change. *)
Lemma eff_idle inn out g (self : PoolInner K) chans idle' :
  store_wf (self, chans) -> (forall rx k, opens chans rx k -> idle' !! k = None) ->
  out ++ gather idle_held idle' ⊆+ inn ++ gather idle_held (in_idle self) ->
  effect inn out g g (self, chans) (with_idle idle' self, chans).
Proof.
  intros [L Hu Ky] Hi Hc. split; cbn [fst snd with_idle in_connecting]; auto.
  - unfold store_conns. cbn [fst snd with_idle in_idle]. mset.
  - by split.
Qed.

Lemma put_idle_connecting now key v (self : PoolInner K) : in_connecting (put_idle now key v self) = in_connecting self.
Proof. unfold put_idle. by case_bool_decide. Qed.

Lemma put_idle_eff now key v g (self : PoolInner K) chans :
  store_wf (self, chans) -> (forall rx, ~ opens chans rx key) ->
  effect (val_held key v) [] g g (self, chans) (put_idle now key v self, chans).
Proof.
  intros Hw Hn. unfold put_idle. set (l := default [] (in_idle self !! key)).
  assert (gather_at idle_held key (in_idle self) = idle_held key l) as Hl.
  { unfold gather_at, l. by destruct (in_idle self !! key). }
  assert (forall l', idle_held key l' ⊆+ val_held key v ++ idle_held key l ->
    effect (val_held key v) [] g g (self, chans) (with_idle (<[key := l']> (in_idle self)) self, chans)) as Hgo.
  { intros l' Hl'. apply eff_idle; [done|..].
    - intros rx k Ho. destruct (decide (k = key)) as [->|]; [by destruct (Hn rx)|].
      rewrite lookup_insert_ne by done. by apply (wf_hungry _ Hw rx).
    - apply gather_update. by rewrite Hl. }
  case_bool_decide.
  - apply Hgo. mset.
  - destruct (Hgo (l ++ [mkIdle now v])) as [C F Ky W [L Hu Ke]]; [|by split].
    unfold idle_held. rewrite bind_app. cbn. rewrite app_nil_r. mset.
Qed.

Lemma not_listed (s : Store) key : store_wf s -> in_waiters s.1 !! key = None -> forall rx, ~ opens s.2 rx key.
Proof. intros [L _ _] Hn rx Ho. destruct (L rx key Ho) as (ws & Hws & _). congruence. Qed.

(** The waiters of a key go over to those left. *)
Lemma eff_waiters inn out g (self : PoolInner K) (chans chans' : gmap nat (K * Chan)) key ws ws' :
  store_wf (self, chans) -> in_waiters self !! key = Some ws -> chans_le chans chans' ->
  (forall rx, rx ∈ ws' -> rx ∈ ws) -> (forall rx k, rx ∈ ws -> opens chans' rx k -> rx ∈ ws') ->
  out ++ gather chan_held chans' ⊆+ inn ++ gather chan_held chans ->
  effect inn out g g (self, chans)
    (with_waiters (if bool_decide (ws' = []) then delete key (in_waiters self) else <[key := ws']> (in_waiters self)) self, chans').
Proof.
  intros Hw Hws Hle Hs Ho Hc. pose proof Hw as [L Hu Ky]. pose proof Hle as [H1 H2]. cbn [fst snd] in *.
  split; cbn [fst snd with_waiters in_connecting]; auto.
  - unfold store_conns. cbn [fst snd with_waiters in_idle]. mset.
  - intros rx k. by rewrite H1.
  - intros rx k. by apply chans_le_waits.
  - split; cbn [fst snd with_waiters in_waiters in_idle].
    + intros rx k Hop. destruct (L rx k (H2 _ _ Hop)) as (wk & Hwk & Hin). destruct (decide (k = key)) as [->|Hne].
      * rewrite Hws in Hwk. injection Hwk as <-. pose proof (Ho rx key Hin Hop) as Hin'.
        rewrite bool_decide_eq_false_2 by (intros ->; by apply not_elem_of_nil in Hin').
        exists ws'. by rewrite lookup_insert_eq.
      * exists wk. case_bool_decide; [by rewrite lookup_delete_ne|by rewrite lookup_insert_ne].
    + intros rx k Hop. by eapply Hu, H2.
    + intros k wk rx. rewrite H1. destruct (decide (k = key)) as [->|Hne].
      * case_bool_decide; [by rewrite lookup_delete_eq|]. rewrite lookup_insert_eq. intros [= <-] Hin. eauto.
      * case_bool_decide; [rewrite lookup_delete_ne by done|rewrite lookup_insert_ne by done]; eauto.
Qed.

Lemma put_eff {E} now key v g (s : Store) :
  store_wf s -> exists s', put (E := E) now key v s = Done s' /\ in_connecting s'.1 = in_connecting s.1 /\
    effect (val_held key v) [] g g s s'.
Proof.
  destruct s as [self chans]. intros Hw. unfold put.
  destruct (can_share v && _); [eexists; split_and!; [done..|]; eapply eff_drop, eff_refl, Hw; apply submseteq_nil_l|].
  destruct (in_waiters self !! key) as [ws|] eqn:Hws.
  - destruct (put_waiters_spec (E := E) key ws v chans) as (ws' & v' & chans' & -> & Hle & Hh & Hs & Ho & Hv).
    { intros rx. by apply (wf_keyed _ Hw). }
    cbn [mbind outcome_bind].
    pose proof (eff_waiters (val_held key v) (opt_held key v') g self chans chans' key ws ws' Hw Hws Hle Hs Ho Hh) as He.
    destruct v' as [v'|]; (eexists; split_and!; [done|..]); [| |done|done].
    + exact (put_idle_connecting _ _ _ _).
    + eapply eff_trans; [exact He|]. apply put_idle_eff; [exact (ef_wf _ _ _ _ _ _ He)|]. destruct Hv as [| ->]; [done|].
      apply (not_listed _ _ (ef_wf _ _ _ _ _ _ He)). cbn. by rewrite lookup_delete_eq.
  - cbn [mbind outcome_bind]. eexists. split_and!; [done|exact (put_idle_connecting _ _ _ _)|].
    apply put_idle_eff; [done|]. by apply (not_listed (self, chans)).
Qed.

(** * The flags *)

Definition flags (guard : bool) (key : K) : list K := if guard then [key] else [].

Lemma connected_eff {E} key (s : Store) :
  store_wf s -> key ∈ in_connecting s.1 ->
  exists s', connected (E := E) key s = Done s' /\ effect [] [] [key] [] s s'.
Proof.
  destruct s as [self chans]. intros Hw Hk. pose proof Hw as [L Hu Ky]. cbn [fst snd] in *.
  unfold connected. rewrite bool_decide_eq_true_2, andb_false_r by done.
  set (txs := default [] _). eexists. split; [done|].
  assert (forall rx k, opens (drop_txs txs chans) rx k -> k <> key) as Hne.
  { intros rx k Ho ->. destruct (L rx key (proj2 (drop_txs_le txs chans) _ _ Ho)) as (ws & Hws & Hin).
    eapply drop_txs_closed, Ho. unfold txs. cbn. by rewrite Hws. }
  pose proof (drop_txs_le txs chans) as [H1 H2].
  split; cbn [fst snd with_waiters with_connecting in_connecting in_waiters in_idle].
  - unfold store_conns. cbn. pose proof (drop_txs_held txs chans). mset.
  - cbn. by apply elements_delete.
  - intros rx k. by rewrite H1.
  - intros rx k [W1 W2]. split; cbn [fst snd] in *; [by rewrite H1|]. intros Ho. pose proof (Hne _ _ Ho).
    apply elem_of_difference. split; [by apply W2, H2|by rewrite elem_of_singleton].
  - split; cbn [fst snd with_waiters with_connecting in_waiters in_idle].
    + intros rx k Ho. rewrite lookup_delete_ne by (intros <-; by eapply Hne). by apply L, H2.
    + intros rx k Ho. by eapply Hu, H2.
    + intros k ws rx. rewrite H1. intros [_ ?]%lookup_delete_Some. eauto.
Qed.

Lemma drop_connecting_eff {E} key guard (s : Store) :
  store_wf s -> (guard = true -> key ∈ in_connecting s.1) ->
  exists s', drop_connecting (E := E) key guard s = Done s' /\ effect [] [] (flags guard key) [] s s'.
Proof. intros Hw Hg. destruct guard; cbn; [apply connected_eff; auto|eexists; split; [done|by apply eff_refl]]. Qed.

Lemma connecting_eff key ver (self : PoolInner K) chans :
  store_wf (self, chans) ->
  let '(o, self') := connecting key ver self in
  effect [] [] [] (match o with Some guard => flags guard key | None => [] end) (self, chans) (self', chans) /\
  match o with
  | Some guard => guard = bool_decide (ver = Http2)
  | None => key ∈ in_connecting self' /\ ver = Http2
  end.
Proof.
  intros Hw. destruct ver; cbn; [split; [by apply eff_refl|done]|].
  case_bool_decide as Hk; [split; [by apply eff_refl|done]|]. split; [|done].
  destruct Hw as [L Hu Ky]. split; cbn [fst snd with_connecting in_connecting]; auto.
  - cbn. by rewrite elements_union_singleton.
  - intros rx k [W1 W2]. split; [done|]. intros Ho. apply elem_of_union_r, W2, Ho.
  - by split.
Qed.

Lemma pooled_eff {E} now key guard v (s : Store) :
  store_wf s -> (guard = true -> key ∈ in_connecting s.1) -> (can_share v = true -> guard = true) ->
  exists p s', pooled (E := E) now key guard v s = Done (p, s') /\ pl_key p = key /\
    effect (val_held key v) (val_held (pl_key p) (pl_value p)) (flags guard key) [] s s'.
Proof.
  intros Hw Hg Hv. unfold pooled. destruct v as [l|n]; cbn [reserve].
  - destruct (drop_connecting_eff (E := E) key guard s Hw Hg) as (s' & -> & He). eexists _, s'. split_and!; [done..|].
    cbn [pl_key pl_value]. pose proof (eff_frame (val_held key (H1 l)) _ _ _ _ _ _ He) as He'. by rewrite !app_nil_r in He'.
  - destruct (put_eff (E := E) now key (H2 n) [key] s Hw) as (s1 & -> & Hc & H1). cbn [mbind outcome_bind].
    rewrite (Hv eq_refl). destruct (connected_eff (E := E) key s1) as (s2 & -> & He2).
    { apply H1. } { rewrite Hc. auto. }
    eexists _, s2. split_and!; [done..|]. by eapply eff_trans.
Qed.

Lemma drop_pooled_eff {E} conns now p g (s : Store) :
  store_wf s -> exists s', drop_pooled (E := E) conns now p s = Done s' /\
    effect (val_held (pl_key p) (pl_value p)) [] g g s s'.
Proof.
  intros Hw. assert (effect (val_held (pl_key p) (pl_value p)) [] g g s s) as Hd
    by (eapply eff_drop, eff_refl, Hw; apply submseteq_nil_l).
  unfold drop_pooled. destruct (negb _); [eauto|]. destruct (pl_pool p); [|eauto].
  destruct (put_eff (E := E) now (pl_key p) (pl_value p) g s Hw) as (s' & ? & _ & ?). eauto.
Qed.

(** * Checkouts *)

Lemma idle_held_rev k l : idle_held k (rev l) ≡ₚ idle_held k l.
Proof. unfold idle_held. by rewrite <- (Permutation_rev l). Qed.

Lemma pop_back_held conns now timeout k l :
  let '(e, l') := pop_back conns now timeout l in
  opt_held k (idle_value <$> e) ++ idle_held k l' ⊆+ idle_held k l.
Proof.
  induction l as [|entry l IH]; [apply submseteq_nil_l|]. cbn [pop_back].
  assert (idle_held k (entry :: l) = val_held k (idle_value entry) ++ idle_held k l) as Hc by done. rewrite Hc.
  destruct (negb _); [destruct (pop_back conns now timeout l); mset|].
  destruct (expires _ _ _); [destruct (pop_back conns now timeout l); mset|].
  destruct (idle_value entry) as [h|n]; cbn; done.
Qed.

Lemma pop_held conns now timeout k l :
  let '(e, l') := pop conns now timeout l in
  opt_held k (idle_value <$> e) ++ idle_held k l' ⊆+ idle_held k l.
Proof.
  unfold pop. pose proof (pop_back_held conns now timeout k (rev l)) as Hp. destruct (pop_back _ _ _ _) as [e l'].
  pose proof (idle_held_rev k l). pose proof (idle_held_rev k l'). mset.
Qed.

(** What a checkout or a receiver gives. *)
Definition pooled_held (o : option (Pooled K)) : list (K * nat) :=
  match o with Some p => val_held (pl_key p) (pl_value p) | None => [] end.

Lemma delete_idle_wf (self : PoolInner K) chans key (idle' : gmap K (list Idle)) :
  store_wf (self, chans) -> (forall k, k <> key -> idle' !! k = in_idle self !! k) ->
  (idle' !! key = None \/ is_Some (in_idle self !! key)) -> forall rx k, opens chans rx k -> idle' !! k = None.
Proof.
  intros Hw Hne Hk rx k Ho. pose proof (wf_hungry _ Hw rx k Ho) as Hu. cbn in Hu.
  destruct (decide (k = key)) as [->|]; [|by rewrite Hne]. destruct Hk as [|[x Hx]]; [done|congruence].
Qed.

Lemma enqueue_eff g key tx (self : PoolInner K) chans :
  store_wf (self, chans) -> chans !! tx = None -> in_idle self !! key = None ->
  effect [] [] g g (self, chans)
    (with_waiters (<[key := default [] (in_waiters self !! key) ++ [tx]]> (in_waiters self)) self, <[tx := (key, ChOpen)]> chans).
Proof.
  intros [L Hu Ky] Hf Hi. cbn [fst snd] in *.
  assert (forall rx, key_of chans rx <> None -> rx <> tx) as Hne by (intros rx Hr ->; unfold key_of in Hr; by rewrite Hf in Hr).
  split; cbn [fst snd with_waiters in_connecting].
  - unfold store_conns. cbn [fst snd with_waiters in_idle]. pose proof (gather_insert_None chan_held tx (key, ChOpen) chans Hf) as G. cbn [chan_held app] in G. mset.
  - done.
  - intros rx k Hr. unfold key_of in *. rewrite lookup_insert_ne; [done|]. intros <-. by rewrite Hf in Hr.
  - intros rx k [W1 W2]. cbn [fst snd] in *. assert (tx <> rx) as Hn by (apply not_eq_sym, Hne; congruence).
    split; cbn [fst snd with_waiters in_connecting]; unfold key_of, opens in *; rewrite lookup_insert_ne by done; auto.
  - split; cbn [fst snd with_waiters in_waiters in_idle]; unfold opens.
    + intros rx k [[<- [= <-]]|[Hn Ho]]%lookup_insert_Some.
      * eexists. rewrite lookup_insert_eq. split; [done|]. apply elem_of_app. right. by apply list_elem_of_singleton.
      * destruct (L rx k Ho) as (ws & Hws & Hin). destruct (decide (k = key)) as [->|].
        -- eexists. rewrite lookup_insert_eq, Hws. split; [done|]. apply elem_of_app. by left.
        -- exists ws. by rewrite lookup_insert_ne.
    + intros rx k [[<- [= <-]]|[Hn Ho]]%lookup_insert_Some; [done|]. by eapply Hu.
    + intros k ws rx. unfold key_of. destruct (decide (rx = tx)) as [->|Hn].
      * rewrite lookup_insert_eq. cbn. intros [[<- _]|[Hk Hws]]%lookup_insert_Some Hin; [done|].
        specialize (Ky _ _ _ Hws Hin). unfold key_of in Ky. by rewrite Hf in Ky.
      * rewrite (lookup_insert_ne _ tx) by done. intros [[<- <-]|[Hk Hws]]%lookup_insert_Some Hin; [|by eapply Ky].
        apply elem_of_app in Hin as [Hin| ->%list_elem_of_singleton]; [|done].
        destruct (in_waiters self !! key) as [ws|] eqn:Hws; [by eapply Ky|by apply not_elem_of_nil in Hin].
Qed.

(** A popped list goes back into the map, unless it is empty. *)
Lemma popped_eff g key (self : PoolInner K) chans l e l' :
  store_wf (self, chans) -> in_idle self !! key = Some l ->
  opt_held key (idle_value <$> e) ++ idle_held key l' ⊆+ idle_held key l ->
  effect [] (opt_held key (idle_value <$> e)) g g (self, chans)
    (with_idle (if bool_decide (l' = []) then delete key (in_idle self) else <[key := l']> (in_idle self)) self, chans).
Proof.
  intros Hw Hl Hh. pose proof (gather_delete idle_held key (in_idle self)) as G. unfold gather_at in G. rewrite Hl in G.
  apply eff_idle; [done|..].
  - apply (delete_idle_wf self chans key); [done| |right; by rewrite Hl].
    intros k Hk. case_bool_decide; [by rewrite lookup_delete_ne|by rewrite lookup_insert_ne].
  - case_bool_decide as He; [|pose proof (gather_insert idle_held key l' (in_idle self))]; mset.
Qed.

Lemma forget_idle_eff g key (self : PoolInner K) chans :
  store_wf (self, chans) -> effect [] [] g g (self, chans) (with_idle (delete key (in_idle self)) self, chans).
Proof.
  intros Hw. apply eff_idle; [done|..].
  - apply (delete_idle_wf self chans key); [done| |left; by rewrite lookup_delete_eq].
    intros k Hk. by rewrite lookup_delete_ne.
  - pose proof (gather_delete idle_held key (in_idle self)). mset.
Qed.

Lemma checkout_eff conns now key tx g (s : Store) :
  store_wf s -> s.2 !! tx = None ->
  let '(o, s') := checkout conns now key tx s in
  effect [] (pooled_held o) g g s s' /\ match o with Some p => pl_key p = key | None => key_of s'.2 tx = Some key end.
Proof.
  destruct s as [self chans]. intros Hw Hf. cbn [fst snd] in Hf. unfold checkout.
  assert (effect [] [] g g (self, chans)
    (with_waiters (<[key := default [] (in_waiters self !! key) ++ [tx]]> (in_waiters self)) (with_idle (delete key (in_idle self)) self),
     <[tx := (key, ChOpen)]> chans)) as Hnone.
  { eapply eff_trans; [by apply forget_idle_eff|]. apply (enqueue_eff g key tx (with_idle (delete key (in_idle self)) self)).
    - apply (forget_idle_eff g key self chans Hw). - done. - cbn. by rewrite lookup_delete_eq. }
  assert (key_of (<[tx := (key, ChOpen)]> chans) tx = Some key) as Hk by (unfold key_of; by rewrite lookup_insert_eq).
  destruct (in_idle self !! key) as [l|] eqn:Hl; [|by split].
  pose proof (pop_held conns now (in_timeout self) key l) as Hp. destruct (pop conns now (in_timeout self) l) as [[e|] l']; [|by split].
  split; [|done]. by apply (popped_eff g key self chans l (Some e)).
Qed.

Lemma poll_waiter_eff conns key rx g (self : PoolInner K) chans :
  store_wf (self, chans) -> key_of chans rx = Some key ->
  let '(o, chans') := poll_waiter conns key rx chans in
  effect [] (match o with Some (inl p) => pooled_held (Some p) | _ => [] end) g g (self, chans) (self, chans') /\
  match o with Some (inl p) => pl_key p = key | _ => True end.
Proof.
  intros Hw Hk. unfold poll_waiter. pose proof (drop_rx_eff rx g self chans Hw) as Hd.
  destruct (chans !! rx) as [[k c]|] eqn:Hc; [|split; [by apply eff_refl|done]].
  assert (k = key) as -> by (unfold key_of in Hk; rewrite Hc in Hk; by injection Hk).
  destruct c as [|v| |]; try (split; [by apply eff_refl|done]); [|by split].
  destruct (is_open conns v); [|by split]. split; [|done]. apply eff_chans; [done|apply alter_chan; by intros [k []]|].
  pose proof (gather_delete chan_held rx chans) as G1. pose proof (gather_delete chan_held rx (drop_rx rx chans)) as G2.
  unfold drop_rx in G2 at 3. rewrite delete_alter_eq in G2. unfold gather_at in G1, G2. rewrite Hc in G1.
  unfold drop_rx in G2 at 2. rewrite lookup_alter_eq, Hc in G2. cbn in G1, G2. cbn [pooled_held reuse pl_key pl_value]. mset.
Qed.

(** * Cleaning up *)

Lemma clean_waiters_eff key g (s : Store) : store_wf s -> effect [] [] g g s (clean_waiters key s).
Proof.
  destruct s as [self chans]. intros Hw. unfold clean_waiters.
  destruct (in_waiters self !! key) as [ws|] eqn:Hws; [|by apply eff_refl].
  apply (eff_waiters _ _ g self chans chans key ws); try done.
  - by intros rx [_ ?]%list_elem_of_filter.
  - intros rx k Hin Ho. apply list_elem_of_filter. split; [by eapply is_closed_opens|done].
Qed.

Lemma clear_expired_eff conns now g (s : Store) : store_wf s -> effect [] [] g g s (clear_expired conns now s.1, s.2).
Proof.
  destruct s as [self chans]. intros Hw. cbn [fst snd]. unfold clear_expired. apply eff_idle; [done|..].
  - intros rx k Ho. pose proof (wf_hungry _ Hw rx k Ho) as Hu. cbn in Hu. apply map_lookup_filter_None. left.
    by rewrite lookup_fmap, Hu.
  - cbn [app]. etrans; [apply gather_filter|]. apply gather_fmap. intros k l. unfold idle_held.
    induction l as [|e l IH]; [done|]. rewrite filter_cons. destruct (decide _); cbn; [by apply submseteq_app|].
    by apply submseteq_inserts_l.
Qed.
End Ops.
