(* ===== verification/HttpPoolSafety.v ===== *)
(** What the HTTP client's pool and connections guarantee in every interleaving
    (volo-http/src/client/transport/pool.rs and protocol.rs): an HTTP/1 connection
    carries one request at a time and serves the peer it was made for; the
    [connecting] flags are those of the dials under way; nobody waits in vain for
    a dial that is over; and no event panics. *)

From S2P Require Import Prelude Multiset HttpPool HttpTransport HttpPoolOps.

Section Safety.
Context {K : Type} `{Countable K} `{BuildProfile}.

(** * Who holds what *)

(** The senders a task could send with, those in flight, and its flags. *)
Fixpoint pc_parked (pc : Pc K) : list (K * nat) :=
  match pc with
  | THold p | TDropPooled p | TSending p _ => val_held (pl_key p) (pl_value p)
  | TDropRx _ next | TClean next | TDropConn _ next => pc_parked next
  | _ => []
  end.

Fixpoint pc_out (pc : Pc K) : list (K * nat) :=
  match pc with
  | TSending p (Some n) => [(pl_key p, n)]
  | TDropRx _ next | TClean next | TDropConn _ next => pc_out next
  | _ => []
  end.

Fixpoint pc_flags (key : K) (pc : Pc K) : list K :=
  match pc with
  | TSelect _ c | TConnect c | TBackground c => flags (guard_of c) key
  | TDropRx _ next | TClean next => pc_flags key next
  | TDropConn guard next => flags guard key ++ pc_flags key next
  | _ => []
  end.

Definition task_parked (_ : nat) (t : Task K) : list (K * nat) := pc_parked (tk_pc t).
Definition task_out (_ : nat) (t : Task K) : list (K * nat) := pc_out (tk_pc t).
Definition task_flags (_ : nat) (t : Task K) : list K := pc_flags (tk_key t) (tk_pc t).
Definition driver_held (_ : nat) (d : Driver K) : list (K * nat) :=
  (fun r => (dr_key d, r)) <$> (dr_return_rx d ++ option_list (dr_waiting d)).

Definition parked (w : World K) : list (K * nat) := store_conns (w_store w) ++ gather task_parked (w_tasks w).
Definition in_flight (w : World K) : list (K * nat) := gather task_out (w_tasks w) ++ gather driver_held (w_drivers w).

(** A sender that is not in the middle of an exchange. *)
Definition quiet (conns : Conns) (x : K * nat) : Prop := conns !! x.2 <> Some Busy.

(** The guard of a dial: by the version asked for, and always for HTTP/2. *)
Definition connector_ok (ver : Ver) (c : Connector) : Prop :=
  match c with
  | CInit => True
  | CDial guard => guard = bool_decide (ver = Http2)
  | CShake guard h2 => h2 = true -> guard = true
  end.

Fixpoint pc_ok (ver : Ver) (key : K) (s : PoolInner K * gmap nat (K * Chan)) (pc : Pc K) : Prop :=
  match pc with
  | TSelect rx c => key_of s.2 rx = Some key /\ connector_ok ver c
  | TConnect c | TBackground c => connector_ok ver c
  | TRetry rx => waits s rx key
  | TDropRx _ next | TClean next | TDropConn _ next => pc_ok ver key s next
  | THold p | TDropPooled p | TSending p _ => pl_key p = key
  | _ => True
  end.

Definition task_ok s (t : Task K) : Prop := pc_ok (tk_ver t) (tk_key t) s (tk_pc t).

Record hinv (w : World K) : Prop := mkHinv {
  hi_made : NoDup (w_made w).*2;
  hi_conns : forall x, x ∈ w_made w -> is_Some (w_conns w !! x.2);
  hi_total : parked w ++ in_flight w ⊆+ w_made w;
  hi_quiet : Forall (quiet (w_conns w)) (parked w);
  hi_drivers : forall n d, w_drivers w !! n = Some d -> (dr_key d, n) ∈ w_made w;
  hi_wf : store_wf (w_store w);
  hi_flags : gather task_flags (w_tasks w) ≡ₚ elements (in_connecting (w_store w).1);
  hi_tasks : forall i t, w_tasks w !! i = Some t -> task_ok (w_store w) t
}.

Lemma http_pc_ok_mono inn out gin gout s s' ver key pc :
  effect inn out gin gout s s' -> pc_ok ver key s pc -> pc_ok ver key s' pc.
Proof.
  intros [_ _ Hk Hw _]. induction pc; cbn; auto. intros []. split; auto.
Qed.

Lemma hinv_init cfg : hinv (init cfg).
Proof.
  split; [constructor|by intros x Hx%not_elem_of_nil|apply submseteq_nil_l|constructor|done| |done|done].
  by split.
Qed.

(** Senders that nobody holds and that may be parked. *)
Definition spare (extra : list (K * nat)) (w : World K) : Prop :=
  extra ++ parked w ++ in_flight w ⊆+ w_made w /\ Forall (quiet (w_conns w)) extra.

Lemma spare_nil w : hinv w -> spare [] w.
Proof. intros Hw. split; [apply hi_total, Hw|constructor]. Qed.

(** The tasks change together with the store. *)
Lemma hinv_tasks extra s' tasks' now w :
  hinv w -> spare extra w ->
  effect (extra ++ gather task_parked (w_tasks w)) (gather task_parked tasks')
    (gather task_flags (w_tasks w)) (gather task_flags tasks') (w_store w) s' ->
  gather task_out tasks' ⊆+ gather task_out (w_tasks w) ->
  (forall i t, tasks' !! i = Some t -> task_ok s' t) ->
  hinv (mkWorld s' (w_conns w) (w_drivers w) tasks' now (w_made w)).
Proof.
  intros [H1 H2 H3 H4 H5 H6 H7 H8] [Hx1 Hx2] He Ho Ht. pose proof He as [C F Ky W I].
  assert (parked (mkWorld s' (w_conns w) (w_drivers w) tasks' now (w_made w)) ⊆+ extra ++ parked w) as Hp.
  { unfold parked. cbn [w_store w_tasks]. mset. }
  split; cbn [w_store w_tasks w_conns w_drivers w_made]; try done.
  - unfold in_flight in *. cbn [w_tasks w_drivers] in *. mset.
  - apply Forall_forall. intros x Hx. pose proof (elem_of_submseteq _ _ _ Hx Hp) as [Hi|Hi]%elem_of_app.
    + rewrite Forall_forall in Hx2. auto.
    + rewrite Forall_forall in H4. auto.
  - apply (anti_symm submseteq); mset.
Qed.

(** A task moves on while it does something to the store. *)
Lemma task_move_extra extra i t pc s' w :
  hinv w -> spare extra w -> w_tasks w !! i = Some t ->
  effect (extra ++ pc_parked (tk_pc t)) (pc_parked pc) (pc_flags (tk_key t) (tk_pc t)) (pc_flags (tk_key t) pc) (w_store w) s' ->
  pc_out pc ⊆+ pc_out (tk_pc t) -> pc_ok (tk_ver t) (tk_key t) s' pc ->
  hinv (set_pc i t pc (with_store s' w)).
Proof.
  intros Hw Hx Et He Ho Hpc. pose proof (hi_tasks w Hw) as Ht.
  apply (hinv_tasks extra s' _ (w_now w) w Hw Hx); cbn [w_tasks with_store].
  - pose proof (gather_delete task_parked i (w_tasks w)) as G1. pose proof (gather_delete task_flags i (w_tasks w)) as G2.
    unfold gather_at in G1, G2. rewrite Et in G1, G2.
    eapply eff_weaken; [..|exact (eff_frames (gather task_parked (delete i (w_tasks w))) (gather task_flags (delete i (w_tasks w))) _ _ _ _ _ _ He)].
    + change (task_parked i t) with (pc_parked (tk_pc t)) in G1. mset.
    + pose proof (gather_insert task_parked i (mkTask (tk_key t) (tk_ver t) pc) (w_tasks w)) as G.
      change (task_parked i (mkTask (tk_key t) (tk_ver t) pc)) with (pc_parked pc) in G. mset.
    + rewrite G2. apply Permutation_app_comm.
    + rewrite gather_insert. apply Permutation_app_comm.
  - apply (gather_update _ _ _ []). unfold gather_at. by rewrite Et.
  - intros j t'. intros [[<- <-]|[Hn E]]%lookup_insert_Some; [done|]. eapply http_pc_ok_mono, Ht, E. exact He.
Qed.

Lemma task_move i t pc s' w :
  hinv w -> w_tasks w !! i = Some t ->
  effect (pc_parked (tk_pc t)) (pc_parked pc) (pc_flags (tk_key t) (tk_pc t)) (pc_flags (tk_key t) pc) (w_store w) s' ->
  pc_out pc ⊆+ pc_out (tk_pc t) -> pc_ok (tk_ver t) (tk_key t) s' pc ->
  hinv (set_pc i t pc (with_store s' w)).
Proof. intros Hw. by apply (task_move_extra []), spare_nil. Qed.

(** It only moves. *)
Lemma task_goto i t pc w :
  hinv w -> w_tasks w !! i = Some t ->
  pc_parked pc ⊆+ pc_parked (tk_pc t) -> pc_flags (tk_key t) pc = pc_flags (tk_key t) (tk_pc t) -> pc_out pc ⊆+ pc_out (tk_pc t) ->
  pc_ok (tk_ver t) (tk_key t) (w_store w) pc -> hinv (set_pc i t pc w).
Proof.
  intros Hw Et Hp Hf Ho Hpc. apply (task_move i t pc (w_store w) w); try done. rewrite Hf.
  eapply eff_drop; [exact Hp|]. apply eff_refl, Hw.
Qed.

(** Only the store changes. *)
Lemma store_move extra s' w :
  hinv w -> spare extra w -> (forall g, effect extra [] g g (w_store w) s') -> hinv (with_store s' w).
Proof.
  intros Hw Hx He. apply (hinv_tasks extra s' (w_tasks w) (w_now w) w Hw Hx); [|done|].
  - eapply eff_weaken; [..|exact (eff_frame (gather task_parked (w_tasks w)) _ _ _ _ _ _ (He _))]; [mset|mset|done..].
  - intros i t E. eapply http_pc_ok_mono; [exact (He [])|]. by eapply hi_tasks.
Qed.

(** Connections change, and none becomes busy. *)
Lemma conns_move conns' w :
  hinv w -> (forall n, conns' !! n = Some Busy -> w_conns w !! n = Some Busy) ->
  (forall n, is_Some (w_conns w !! n) -> is_Some (conns' !! n)) -> hinv (with_conns conns' w).
Proof.
  intros [H1 H2 H3 H4 H5 H6 H7 H8] Hb Hs. split; cbn [w_store w_tasks w_conns w_drivers w_made with_conns]; try done.
  - intros x Hx. by apply Hs, H2.
  - eapply Forall_impl; [exact H4|]. intros x Hx Hbusy. by apply Hx, Hb.
Qed.

Lemma flag_set i t k w :
  hinv w -> w_tasks w !! i = Some t -> k ∈ pc_flags (tk_key t) (tk_pc t) -> k ∈ in_connecting (w_store w).1.
Proof.
  intros Hw Et Hk. apply elem_of_elements. rewrite <- (hi_flags w Hw).
  eapply elem_of_submseteq; [exact Hk|]. apply (gather_one task_flags _ _ _ Et).
Qed.

Lemma flag_set_of i t guard l w :
  hinv w -> w_tasks w !! i = Some t -> pc_flags (tk_key t) (tk_pc t) = flags guard (tk_key t) ++ l ->
  guard = true -> tk_key t ∈ in_connecting (w_store w).1.
Proof. intros Hw Et Hf ->. eapply flag_set; [done|exact Et|]. rewrite Hf. left. Qed.

(** * Every event *)

(** The event did not panic, and leads to a good world. *)
Definition safe (m : outcome Disabled (World K)) : Prop :=
  match m with Done w => hinv w | Fail _ => True | _ => False end.

Lemma safe_task i w (k : Task K -> outcome Disabled (World K)) :
  (forall t, w_tasks w !! i = Some t -> safe (k t)) -> safe (t ← get_task i w; k t).
Proof. unfold get_task. intros Hk. destruct (w_tasks w !! i); [by apply Hk|done]. Qed.

Lemma safe_driver n w (k : Driver K -> outcome Disabled (World K)) :
  (forall d, w_drivers w !! n = Some d -> safe (k d)) -> safe (d ← get_driver n w; k d).
Proof. unfold get_driver. intros Hk. destruct (w_drivers w !! n); [by apply Hk|done]. Qed.

Lemma safe_require b (m : outcome Disabled (World K)) : (b = true -> safe m) -> safe (_ ← require b; m).
Proof. destruct b; cbn; auto. Qed.

Lemma spawn_safe i key ver w : hinv w -> w_tasks w !! i = None -> hinv (set_task i (mkTask key ver TStart) w).
Proof.
  intros Hw Hn. apply (hinv_tasks [] (w_store w) _ (w_now w) w Hw (spare_nil w Hw)).
  - eapply eff_weaken; [..|apply (eff_refl (gather task_parked (w_tasks w)) (gather task_flags (w_tasks w))), Hw]; try done.
    + by rewrite gather_insert_None.
    + by rewrite gather_insert_None.
  - by rewrite gather_insert_None.
  - intros j t [[<- <-]|[_ E]]%lookup_insert_Some; [done|]. by eapply hi_tasks.
Qed.

Lemma checkout_safe i t rx w :
  hinv w -> w_tasks w !! i = Some t -> tk_pc t = TStart -> (w_store w).2 !! rx = None ->
  let '(o, s) := checkout (w_conns w) (w_now w) (tk_key t) rx (w_store w) in
  hinv (set_pc i t (match o with Some p => THold p | None => TSelect rx CInit end) (with_store s w)).
Proof.
  intros Hw Et Hpc Hf. pose proof (checkout_eff (w_conns w) (w_now w) (tk_key t) rx [] (w_store w) (hi_wf w Hw) Hf) as Hc.
  destruct (checkout _ _ _ _ _) as [o s]. destruct Hc as [He Hk].
  apply task_move; [done|done|rewrite Hpc; by destruct o|destruct o; apply submseteq_nil_l|destruct o; cbn; auto].
Qed.

(** The receiver of a waiting call is polled: what it gives is held next. *)
Lemma poll_rx_move i t rx w pc :
  hinv w -> w_tasks w !! i = Some t -> key_of (w_store w).2 rx = Some (tk_key t) -> pc_parked (tk_pc t) = [] ->
  (forall o chans, poll_waiter (w_conns w) (tk_key t) rx (w_store w).2 = (o, chans) ->
    pc_parked (pc o) ⊆+ match o with Some (inl p) => pooled_held (Some p) | _ => [] end /\
    pc_flags (tk_key t) (pc o) = pc_flags (tk_key t) (tk_pc t) /\ pc_out (pc o) = [] /\
    (forall s, match o with Some (inl p) => pl_key p = tk_key t | _ => True end -> pc_ok (tk_ver t) (tk_key t) s (pc o))) ->
  let '(o, chans) := poll_waiter (w_conns w) (tk_key t) rx (w_store w).2 in
  hinv (set_pc i t (pc o) (with_chans chans w)).
Proof.
  intros Hw Et Hk Hp Hpc. destruct (w_store w) as [self chans] eqn:Hs. cbn [fst snd] in *.
  assert (store_wf (self, chans)) as Hwf by (rewrite <- Hs; apply Hw).
  pose proof (poll_waiter_eff (w_conns w) (tk_key t) rx (pc_flags (tk_key t) (tk_pc t)) self chans Hwf Hk) as He.
  destruct (poll_waiter _ _ _ _) as [o chans']. destruct He as [He Hkey]. destruct (Hpc o chans' eq_refl) as (P1 & P2 & P3 & P4).
  unfold with_chans. rewrite Hs. apply task_move; [done|done|..].
  - rewrite Hp, P2, Hs. cbn [fst]. eapply eff_weaken; [done|exact P1|done..].
  - rewrite P3. apply submseteq_nil_l.
  - auto.
Qed.

(** What two entries of a map hold when one is replaced and one is new. *)
Lemma gather_fork {B C} `{EqDecision C} (f : nat -> B -> list C) i j a b (m : gmap nat B) :
  <[i := a]> m !! j = None -> gather f (<[j := b]> (<[i := a]> m)) ≡ₚ f j b ++ f i a ++ gather f (delete i m).
Proof. intros Hj. rewrite (gather_insert_None f j b) by done. by rewrite gather_insert. Qed.

Lemma poll_rx_spawn i j t rx c p chans w :
  hinv w -> w_tasks w !! i = Some t -> tk_pc t = TSelect rx c ->
  <[i := mkTask (tk_key t) (tk_ver t) (THold p)]> (w_tasks w) !! j = None ->
  poll_waiter (w_conns w) (tk_key t) rx (w_store w).2 = (Some (inl p), chans) ->
  hinv (set_pc j t (TBackground c) (set_pc i t (THold p) (with_chans chans w))).
Proof.
  intros Hw Et Hpc Hj Hp. pose proof (hi_tasks w Hw i t Et) as Hok. unfold task_ok in Hok. rewrite Hpc in Hok. destruct Hok as [Hk Hc].
  pose proof (poll_waiter_eff (w_conns w) (tk_key t) rx (gather task_flags (w_tasks w)) (w_store w).1 (w_store w).2) as He.
  rewrite <- surjective_pairing, Hp in He. destruct (He (hi_wf w Hw) Hk) as [He1 Hkey]. clear He.
  apply (hinv_tasks [] ((w_store w).1, chans) _ (w_now w) w Hw (spare_nil w Hw)); cbn [w_tasks set_pc set_task with_chans with_store].
  - pose proof (gather_delete task_parked i (w_tasks w)) as G1. pose proof (gather_delete task_flags i (w_tasks w)) as G2.
    unfold gather_at in G1, G2. rewrite Et in G1, G2.
    eapply eff_weaken; [..|exact (eff_frame (gather task_parked (w_tasks w)) _ _ _ _ _ _ He1)]; [mset| |done|].
    + rewrite gather_fork by done. unfold task_parked at 1 2. cbn [tk_pc pc_parked]. change (task_parked i t) with (pc_parked (tk_pc t)) in G1.
      rewrite Hpc in G1. cbn [pc_parked app pooled_held] in *. mset.
    + rewrite gather_fork, G2 by done. unfold task_flags at 1 4 5. rewrite Hpc. done.
  - rewrite gather_fork by done. pose proof (gather_delete task_out i (w_tasks w)). unfold task_out at 1 2. cbn [tk_pc pc_out]. mset.
  - intros k u [[<- <-]|[_ [[<- <-]|[_ E]]%lookup_insert_Some]]%lookup_insert_Some; [done..|].
    eapply http_pc_ok_mono, (hi_tasks w Hw k u E). exact He1.
Qed.

Lemma http_poll_rx_safe i j w : hinv w -> safe (step (EPollRx i j) w).
Proof.
  intros Hw. apply safe_task. intros t Et. pose proof (hi_tasks w Hw i t Et) as Hok. unfold task_ok in Hok.
  assert (forall rx, key_of (w_store w).2 rx = Some (tk_key t) -> forall chans,
    poll_waiter (w_conns w) (tk_key t) rx (w_store w).2 = (None, chans) -> hinv (with_chans chans w)) as Hnone.
  { intros rx Hk chans Hp. apply (store_move []); [done|by apply spare_nil|]. intros g.
    pose proof (poll_waiter_eff (w_conns w) (tk_key t) rx g (w_store w).1 (w_store w).2) as He.
    rewrite <- surjective_pairing, Hp in He. by apply He; [apply Hw|]. }
  destruct (tk_pc t) as [|rx c| |rx| | | | | | | | | |] eqn:Hpc; try done.
  - destruct Hok as [Hk Hc]. pose proof (poll_rx_move i t rx w (fun o => match o with
      | Some (inl p) => if started c then tk_pc t else THold p
      | Some (inr e) => if is_canceled e then TConnect c else TDropConn (guard_of c) (TFailed (inl e))
      | None => tk_pc t end) Hw Et Hk) as Hm. rewrite Hpc in Hm. specialize (Hm eq_refl).
    pose proof (Hnone rx Hk) as Hn. pose proof (poll_rx_spawn i j t rx c) as Hs.
    destruct (poll_waiter (w_conns w) (tk_key t) rx (w_store w).2) as [o chans] eqn:Hp.
    destruct o as [[p|e]|]; [| |by apply Hn].
    + unfold spawn_connector. destruct (started c) eqn:Hst.
      * apply safe_require. intros Hj%bool_decide_eq_true. by eapply Hs.
      * apply Hm. intros ? ? [= <- <-]. split_and!; try done. cbn. by destruct c.
    + apply Hm. intros ? ? [= <- <-]. destruct (is_canceled e); split_and!; try done. cbn. by rewrite app_nil_r.
  - destruct Hok as [Hk Ho]. pose proof (poll_rx_move i t rx w (fun o => match o with
      | Some (inl p) => THold p | Some (inr e) => TFailed (inl e) | None => tk_pc t end) Hw Et Hk) as Hm.
    rewrite Hpc in Hm. specialize (Hm eq_refl). pose proof (Hnone rx Hk) as Hn.
    destruct (poll_waiter (w_conns w) (tk_key t) rx (w_store w).2) as [[[p|e]|] chans]; [..|by apply Hn];
      apply Hm; intros ? ? [= <- <-]; split_and!; try done.
Qed.

(** The flags of a connector that a step of it leaves behind, and what it gives. *)
Definition result_flags (key : K) (r : Connected (K := K)) : list K :=
  match r with RMore c => flags (guard_of c) key | RRetry => [] | RErr guard => flags guard key | ROk _ => [] end.
Definition result_held (r : Connected (K := K)) : list (K * nat) :=
  match r with ROk p => val_held (pl_key p) (pl_value p) | _ => [] end.
Definition result_ok (ver : Ver) (key : K) (s : PoolInner K * gmap nat (K * Chan)) (r : Connected (K := K)) : Prop :=
  match r with
  | RMore c => connector_ok ver c
  | RRetry => key ∈ in_connecting s.1
  | RErr _ => True
  | ROk p => pl_key p = key
  end.

Lemma connector_step extra i t c r s' w :
  hinv w -> spare extra w -> w_tasks w !! i = Some t -> connector_of (tk_pc t) = Some c ->
  effect extra (result_held r) (flags (guard_of c) (tk_key t)) (result_flags (tk_key t) r) (w_store w) s' ->
  result_ok (tk_ver t) (tk_key t) s' r ->
  hinv (set_pc i t (after_connect (tk_pc t) r) (with_store s' w)).
Proof.
  intros Hw Hx Et Hc He Hr. pose proof (hi_tasks w Hw i t Et) as Hok. unfold task_ok in Hok.
  assert (pc_parked (tk_pc t) = [] /\ pc_flags (tk_key t) (tk_pc t) = flags (guard_of c) (tk_key t) /\ pc_out (tk_pc t) = []) as (P1 & P2 & P3).
  { by destruct (tk_pc t); try done; injection Hc as <-. }
  apply (task_move_extra extra); try done; rewrite ?P1, ?P2, ?P3, ?app_nil_r.
  - eapply eff_weaken; [done| |done| |exact He].
    + destruct (tk_pc t); try done; destruct r; try done; apply submseteq_nil_l.
    + destruct (tk_pc t); try done; destruct r; cbn; by rewrite ?app_nil_r.
  - destruct (tk_pc t); try done; destruct r; apply submseteq_nil_l.
  - destruct (tk_pc t); try done; destruct r; cbn in *; try done.
    + destruct Hok as [Hk _]. split; [|done]. by apply (ef_keys _ _ _ _ _ _ He).
    + destruct Hok as [Hk _]. split; [|done]. by apply (ef_keys _ _ _ _ _ _ He).
Qed.

Lemma start_safe i w : hinv w -> safe (step (EStart i) w).
Proof.
  intros Hw. apply safe_task. intros t Et. destruct (connector_of (tk_pc t)) as [[]|] eqn:Hc; try done.
  unfold start_connect. pose proof (connecting_eff (tk_key t) (tk_ver t) (w_store w).1 (w_store w).2) as He.
  rewrite <- surjective_pairing in He. specialize (He (hi_wf w Hw)).
  destruct (connecting _ _ _) as [o self]. destruct He as [He Ho].
  apply (connector_step [] i t CInit _ (self, (w_store w).2) w); [done|by apply spare_nil|done|done|..].
  - by destruct o.
  - destruct o; [done|]. cbn. by destruct Ho.
Qed.

(** A new connection, held by nobody yet. *)
Lemma new_conn_safe key h2 n w w' :
  hinv w -> new_conn key h2 n w = Done w' ->
  hinv w' /\ spare (val_held key (if h2 then H2 n else H1 (Some n))) w' /\
  w_store w' = w_store w /\ w_tasks w' = w_tasks w /\ w_now w' = w_now w.
Proof.
  intros Hw Hn. unfold new_conn in Hn. apply bind_done_inv in Hn as ([] & Hr & [= <-]).
  unfold require in Hr. case_bool_decide as Hf; [|done].
  destruct Hw as [H1 H2' H3 H4 H5 H6 H7 H8]. cbn [w_store w_tasks w_now].
  assert (n ∉ (w_made w).*2) as Hfresh.
  { intros ([k' n'] & -> & Hin)%list_elem_of_fmap. apply H2' in Hin as [? Hin]. cbn in *. congruence. }
  assert (forall h : bool, gather driver_held (if h then w_drivers w else <[n := mkDriver key [] None]> (w_drivers w)) ⊆+ gather driver_held (w_drivers w)) as Hd.
  { intros []; [done|]. apply (gather_update _ _ _ []). unfold driver_held at 1. cbn. apply submseteq_nil_l. }
  specialize (Hd h2).
  assert (forall x, quiet (w_conns w) x -> quiet (<[n := Ready]> (w_conns w)) x) as Hq.
  { intros x Hx. unfold quiet in *. destruct (decide (x.2 = n)) as [->|]; [by rewrite lookup_insert_eq|by rewrite lookup_insert_ne]. }
  split_and!; try done.
  - split; cbn [w_store w_tasks w_conns w_drivers w_made]; try done.
    + destruct h2; [done|]. by apply NoDup_cons.
    + intros x Hx. destruct (decide (x.2 = n)) as [->|]; [by rewrite lookup_insert_eq|]. rewrite lookup_insert_ne by done.
      apply H2'. destruct h2; [done|]. apply elem_of_cons in Hx as [->|]; done.
    + unfold parked, in_flight in *. cbn [w_store w_tasks w_drivers] in *. destruct h2; mset.
    + eapply Forall_impl; [exact H4|exact Hq].
    + intros m d. destruct h2; [apply H5|]. intros [[<- <-]|[_ E]]%lookup_insert_Some; [by left|right; by apply H5].
  - unfold spare, parked, in_flight in *. cbn [w_store w_tasks w_drivers w_made w_conns] in *. split.
    + destruct h2; cbn [val_held]; mset.
    + destruct h2; constructor; [|constructor]. unfold quiet. by rewrite lookup_insert_eq.
Qed.

Lemma conn_safe i a w : hinv w -> safe (step (EConn i a) w).
Proof.
  intros Hw. apply safe_task. intros t Et. destruct (connector_of (tk_pc t)) as [c|] eqn:Hc; [|done].
  pose proof (hi_tasks w Hw i t Et) as Hok. unfold task_ok in Hok.
  assert (connector_ok (tk_ver t) c) as Hcok by (destruct (tk_pc t); try done; injection Hc as <-; try destruct Hok; done).
  assert (exists l, pc_flags (tk_key t) (tk_pc t) = flags (guard_of c) (tk_key t) ++ l) as [l Hl].
  { exists []. rewrite app_nil_r. by destruct (tk_pc t); try done; injection Hc as <-. }
  assert (forall r, result_flags (tk_key t) r = flags (guard_of c) (tk_key t) -> result_held r = [] ->
    result_ok (tk_ver t) (tk_key t) (w_store w) r -> hinv (set_pc i t (after_connect (tk_pc t) r) w)) as Hstay.
  { intros r Hr Hh Ho. apply (connector_step [] i t c r (w_store w) w); try done; [by apply spare_nil|].
    rewrite Hr, Hh. apply eff_refl, Hw. }
  destruct c as [|guard|guard h2], a as [|alpn|n]; try done; cbn [connect_impl].
  - by apply Hstay.
  - cbn in Hcok. destruct (conn_use_h2 (tk_ver t) alpn) eqn:Hu; [|by apply Hstay]. destruct (tk_ver t) eqn:Hv; [|].
    + subst guard. unfold alpn_h2. rewrite andb_false_r. cbn [mbind outcome_bind].
      pose proof (connecting_eff (tk_key t) Http2 (w_store w).1 (w_store w).2) as He. rewrite <- surjective_pairing in He.
      specialize (He (hi_wf w Hw)). destruct (connecting _ _ _) as [o self]. destruct He as [He Ho].
      apply (connector_step [] i t (CDial false) _ (self, (w_store w).2) w); [done|by apply spare_nil|done|done|..].
      * by destruct o.
      * destruct o; cbn; [by intros _; subst|by destruct Ho].
    + apply Hstay; [done..|]. intros _. by subst guard.
  - by apply Hstay.
  - destruct (new_conn (tk_key t) h2 n w) as [w1| | |] eqn:Hn; try done.
    2,3: unfold new_conn, require in Hn; by destruct (bool_decide _).
    destruct (new_conn_safe _ _ _ _ _ Hw Hn) as (Hw1 & Hx & Hs & Ht & Hnow). cbn [mbind outcome_bind].
    destruct (pooled_eff (E := Disabled) (w_now w1) (tk_key t) guard (if h2 then H2 n else H1 (Some n)) (w_store w1))
      as (p & s' & Hp & Hk & He); [apply Hw1| | |].
    + rewrite Hs. by eapply flag_set_of.
    + cbn in Hcok. by destruct h2.
    + rewrite Hp. cbn [mbind outcome_bind safe]. apply (connector_step _ i t (CShake guard h2) (ROk p) s' w1 Hw1 Hx); try done. by rewrite Ht.
Qed.

Lemma drops_safe i w :
  hinv w -> safe (step (EDropRx i) w) /\ safe (step (EClean i) w) /\ safe (step (EDropConn i) w) /\ safe (step (EDropPooled i) w).
Proof.
  intros Hw. split_and!; apply safe_task; intros t Et; pose proof (hi_tasks w Hw i t Et) as Hok; unfold task_ok in Hok;
    destruct (tk_pc t) as [| | | |rx next|next|guard next| | | |p| | |] eqn:Hpc; try done.
  - pose proof (drop_rx_eff rx (pc_flags (tk_key t) next) (w_store w).1 (w_store w).2) as He. rewrite <- surjective_pairing in He.
    specialize (He (hi_wf w Hw)). apply task_move; [done|done|..]; rewrite ?Hpc; try done.
    + pose proof (eff_frame (pc_parked next) _ _ _ _ _ _ He) as He'. by rewrite !app_nil_r in He'.
    + exact (http_pc_ok_mono _ _ _ _ _ _ _ _ next He Hok).
  - pose proof (clean_waiters_eff (tk_key t) (pc_flags (tk_key t) next) (w_store w) (hi_wf w Hw)) as He.
    apply task_move; [done|done|..]; rewrite ?Hpc; try done.
    + pose proof (eff_frame (pc_parked next) _ _ _ _ _ _ He) as He'. by rewrite !app_nil_r in He'.
    + exact (http_pc_ok_mono _ _ _ _ _ _ _ _ next He Hok).
  - destruct (drop_connecting_eff (E := Disabled) (tk_key t) guard (w_store w) (hi_wf w Hw)) as (s' & -> & He).
    { eapply flag_set_of; [done|done|]. by rewrite Hpc. }
    cbn [mbind outcome_bind]. apply task_move; [done|done|..]; rewrite ?Hpc; try done.
    + pose proof (eff_frames (pc_parked next) (pc_flags (tk_key t) next) _ _ _ _ _ _ He) as He'. rewrite !app_nil_r in He'.
      eapply eff_weaken; [done|done| |done|exact He']. apply Permutation_app_comm.
    + exact (http_pc_ok_mono _ _ _ _ _ _ _ _ next He Hok).
  - destruct (drop_pooled_eff (E := Disabled) (w_conns w) (w_now w) p [] (w_store w) (hi_wf w Hw)) as (s' & -> & He).
    cbn [mbind outcome_bind]. apply task_move; [done|done|..]; by rewrite ?Hpc.
Qed.

(** Everything held is held once. *)
Lemma sender_once w x y : hinv w -> [x; y] ⊆+ parked w ++ in_flight w -> x.2 <> y.2.
Proof.
  intros Hw Hs Hxy. assert ([x; y] ⊆+ w_made w) as Hm by (etrans; [exact Hs|apply Hw]).
  apply (fmap_submseteq snd), submseteq_Permutation in Hm as (k & E).
  pose proof (hi_made w Hw) as Hn. rewrite E in Hn. cbn in Hn. rewrite Hxy in Hn.
  apply NoDup_cons in Hn as [Hn _]. apply Hn. left.
Qed.

Lemma send_safe i w : hinv w -> safe (step (ESend i) w).
Proof.
  intros Hw. apply safe_task. intros t Et. pose proof (hi_tasks w Hw i t Et) as Hok. unfold task_ok in Hok.
  destruct (tk_pc t) as [| | | | | | |p| | | | | |] eqn:Hpc; try done. cbn in Hok.
  assert (set_pc i t (TSending p None) (with_conns (w_conns w) w) = set_pc i t (TSending p None) w) as Hid by done.
  assert (hinv (set_pc i t (TSending p None) w)) as Hstay by (apply task_goto; by rewrite ?Hpc).
  unfold send_request. destruct (pl_value p) as [[n|]|n] eqn:Hv; [|by rewrite Hid..]. clear Hid Hstay. cbn [safe].
  pose proof Hw as [I1 I2 I3 I4 I5 I6 I7 I8].
  pose proof (gather_delete task_parked i (w_tasks w)) as G1. unfold gather_at in G1. rewrite Et in G1.
  change (task_parked i t) with (pc_parked (tk_pc t)) in G1. rewrite Hpc in G1. cbn [pc_parked] in G1. rewrite Hv in G1. cbn [val_held] in G1.
  set (p' := mkPooled (pl_key p) (H1 None) (pl_pool p)). unfold set_pc.
  set (t' := mkTask (tk_key t) (tk_ver t) (TSending p' (Some n))).
  assert (gather task_parked (<[i := t']> (w_tasks w)) ≡ₚ gather task_parked (delete i (w_tasks w))) as G2 by (by rewrite gather_insert).
  assert (gather task_out (<[i := t']> (w_tasks w)) ⊆+ (pl_key p, n) :: gather task_out (w_tasks w)) as G3.
  { apply (gather_update _ _ _ [(pl_key p, n)]). apply submseteq_inserts_r. done. }
  split; cbn [w_store w_tasks w_conns w_drivers w_made set_pc set_task with_conns]; try done.
  - intros x Hx. apply I2 in Hx as [c Hc]. destruct (decide (x.2 = n)) as [Hn|]; [|rewrite lookup_alter_ne by done; eauto].
    rewrite Hn in Hc |- *. rewrite lookup_alter_eq, Hc. by eexists.
  - unfold parked, in_flight in *. cbn [w_store w_tasks w_drivers set_task with_conns] in *. mset.
  - apply Forall_forall. intros x Hx. unfold parked in Hx. cbn [w_store w_tasks set_task with_conns] in Hx. rewrite G2 in Hx.
    assert (x.2 <> n) as Hne.
    { apply (sender_once w x (pl_key p, n) Hw). unfold parked. apply list_elem_of_split in Hx as (l1 & l2 & Hl).
      assert (store_conns (w_store w) ++ gather task_parked (delete i (w_tasks w)) ≡ₚ l1 ++ x :: l2) as Hl' by by rewrite Hl. mset. }
    unfold quiet. rewrite lookup_alter_ne by done. rewrite Forall_forall in I4. apply I4. unfold parked. rewrite G1.
    apply elem_of_app in Hx as [Hx|Hx]; apply elem_of_app; [by left|right; by right].
  - rewrite gather_insert, <- I7, (gather_delete task_flags i (w_tasks w)). unfold gather_at. rewrite Et.
    unfold task_flags at 1 3. by rewrite Hpc.
  - intros j u [[<- <-]|[_ E]]%lookup_insert_Some; [done|by apply (I8 j)].
Qed.

Lemma made_key w a b n : hinv w -> (a, n) ∈ w_made w -> (b, n) ∈ w_made w -> a = b.
Proof.
  intros Hw Ha Hb. pose proof (hi_made w Hw) as Hn.
  apply list_elem_of_lookup in Ha as [x Ha], Hb as [y Hb].
  assert (x = y) as ->.
  { eapply (NoDup_lookup _ x y n Hn); rewrite list_lookup_fmap; by rewrite ?Ha, ?Hb. }
  rewrite Ha in Hb. by injection Hb.
Qed.

(** The sender of a request goes to the driver of its connection. *)
Lemma return_safe i t p guard w :
  hinv w -> w_tasks w !! i = Some t -> tk_pc t = TSending p guard ->
  hinv (set_pc i t (TSending p None) (return_guard guard w)).
Proof.
  intros Hw Et Hpc. pose proof (hi_tasks w Hw i t Et) as Hok. unfold task_ok in Hok. rewrite Hpc in Hok. cbn in Hok.
  assert (hinv (set_pc i t (TSending p None) w)) as Hn by (apply task_goto; rewrite ?Hpc; try done; apply submseteq_nil_l).
  destruct guard as [n|]; [|exact Hn].
  assert ((pl_key p, n) ∈ w_made w) as Hm.
  { eapply elem_of_submseteq; [|apply (hi_total w Hw)]. apply elem_of_app. right. apply elem_of_app. left.
    eapply elem_of_submseteq; [|apply (gather_one task_out _ _ _ Et)]. unfold task_out. rewrite Hpc. by left. }
  pose proof (gather_delete task_out i (w_tasks w)) as G1. unfold gather_at in G1. rewrite Et in G1. unfold task_out at 2 in G1. rewrite Hpc in G1. cbn [pc_out app] in G1.
  assert (gather task_out (<[i := mkTask (tk_key t) (tk_ver t) (TSending p None)]> (w_tasks w)) ≡ₚ gather task_out (delete i (w_tasks w))) as G2 by (by rewrite gather_insert).
  assert (gather driver_held (return_to_driver n (w_drivers w)) ⊆+ (pl_key p, n) :: gather driver_held (w_drivers w)) as G3.
  { unfold return_to_driver. pose proof (gather_delete driver_held n (w_drivers w)) as D1.
    pose proof (gather_delete driver_held n (alter (fun d => mkDriver (dr_key d) (dr_return_rx d ++ [n]) (dr_waiting d)) n (w_drivers w))) as D2.
    rewrite delete_alter_eq in D2. unfold gather_at in D1, D2. rewrite lookup_alter_eq in D2.
    destruct (w_drivers w !! n) as [d|] eqn:Hd; cbn [fmap option_fmap option_map] in D2; [|mset].
    rewrite (made_key w (pl_key p) (dr_key d) n Hw Hm (hi_drivers w Hw n d Hd)) in *.
    assert (driver_held n (mkDriver (dr_key d) (dr_return_rx d ++ [n]) (dr_waiting d)) ≡ₚ (dr_key d, n) :: driver_held n d) as D3.
    { unfold driver_held. cbn [dr_key dr_return_rx dr_waiting]. rewrite !fmap_app, <- app_assoc. cbn. by rewrite Permutation_middle. }
    mset. }
  destruct Hn as [I1 I2 I3 I4 I5 I6 I7 I8]. split; cbn [return_guard w_store w_tasks w_conns w_drivers w_made set_pc set_task with_drivers] in *; try done.
  - pose proof (hi_total w Hw) as H3. unfold parked, in_flight in *. cbn [w_store w_tasks w_drivers set_pc set_task with_drivers] in *.
    assert (gather task_parked (<[i := mkTask (tk_key t) (tk_ver t) (TSending p None)]> (w_tasks w)) ⊆+ gather task_parked (w_tasks w)) as G4.
    { apply (gather_update _ _ _ []). unfold gather_at. rewrite Et. unfold task_parked. rewrite Hpc. cbn. reflexivity. }
    mset.
  - intros m d. unfold return_to_driver. intros Hd. destruct (decide (m = n)) as [->|].
    + rewrite lookup_alter_eq in Hd. apply fmap_Some in Hd as (d0 & Hd0 & ->). exact (hi_drivers w Hw n d0 Hd0).
    + rewrite lookup_alter_ne in Hd by done. by apply (hi_drivers w Hw).
Qed.

Lemma finish_safe i t p guard pc w :
  hinv w -> w_tasks w !! i = Some t -> tk_pc t = TSending p guard -> pc_parked pc = [] -> pc_flags (tk_key t) pc = [] ->
  pc_out pc = [] -> (forall s, pc_ok (tk_ver t) (tk_key t) s pc) ->
  safe (let w := return_guard guard w in s ← drop_pooled (w_conns w) (w_now w) p (w_store w); Done (set_pc i t pc (with_store s w))).
Proof.
  intros Hw Et Hpc H1 H2 H3 H4. pose proof (return_safe i t p guard w Hw Et Hpc) as Hr. cbn zeta. set (w1 := return_guard guard w) in *.
  assert (w_tasks w1 = w_tasks w) as Ht by (by destruct guard).
  destruct (drop_pooled_eff (E := Disabled) (w_conns w1) (w_now w1) p [] (w_store w1)) as (s & -> & He).
  { apply (hi_wf _ Hr). }
  cbn [mbind outcome_bind safe].
  assert (set_pc i t pc (with_store s w1) =
    set_pc i (mkTask (tk_key t) (tk_ver t) (TSending p None)) pc (with_store s (set_pc i t (TSending p None) w1))) as ->.
  { unfold set_pc, set_task, with_store. cbn. by rewrite insert_insert_eq. }
  apply task_move; [done|cbn; by rewrite lookup_insert_eq|cbn [tk_pc tk_key pc_parked pc_flags]; by rewrite H1, H2|by rewrite H3|apply H4].
Qed.

Lemma cancel_safe i w : hinv w -> safe (step (ECancel i) w).
Proof.
  intros Hw. apply safe_task. intros t Et. pose proof (hi_tasks w Hw i t Et) as Hok. unfold task_ok in Hok.
  destruct (tk_pc t) eqn:Hpc; try done; try (by eapply finish_safe); cbn [safe];
    (apply task_goto; [done|done|..]; rewrite ?Hpc; cbn; rewrite ?app_nil_r; done).
Qed.

(** The drivers change, and hold nothing more. *)
Lemma drivers_move drivers' extra w :
  hinv w -> extra ++ gather driver_held drivers' ⊆+ gather driver_held (w_drivers w) -> Forall (quiet (w_conns w)) extra ->
  (forall n d, drivers' !! n = Some d -> (dr_key d, n) ∈ w_made w) ->
  hinv (with_drivers drivers' w) /\ spare extra (with_drivers drivers' w).
Proof.
  intros [H1 H2 H3 H4 H5 H6 H7 H8] Hd Hx Hk. unfold spare, parked, in_flight in *.
  cbn [w_store w_tasks w_conns w_drivers w_made with_drivers]. split; [|split; [mset|done]].
  split; cbn [w_store w_tasks w_conns w_drivers w_made with_drivers]; try done.
  unfold parked, in_flight. cbn [w_store w_tasks w_drivers with_drivers]. mset.
Qed.

Lemma driver_keys n d d' w :
  hinv w -> w_drivers w !! n = Some d -> dr_key d' = dr_key d ->
  forall m e, <[n := d']> (w_drivers w) !! m = Some e -> (dr_key e, m) ∈ w_made w.
Proof.
  intros Hw Hd Hk m e [[<- <-]|[_ E]]%lookup_insert_Some; [rewrite Hk|]; by apply (hi_drivers w Hw).
Qed.

Lemma driver_safe n w :
  hinv w -> safe (step (EDriverRecv n) w) /\ safe (step (EDriverReady n) w) /\ safe (step (EDriverExit n) w).
Proof.
  intros Hw. split_and!; apply safe_driver; intros d Hd.
  - destruct (dr_waiting d) eqn:Hwt, (dr_return_rx d) as [|r rest] eqn:Hr; try done. cbn [safe].
    apply (drivers_move _ []); [done| |constructor|by apply (driver_keys n d)].
    apply (gather_update _ _ _ []). unfold gather_at. rewrite Hd. unfold driver_held. rewrite Hwt, Hr. cbn.
    rewrite fmap_app, app_nil_r. cbn. by rewrite <- Permutation_cons_append.
  - destruct (dr_waiting d) as [r|] eqn:Hwt; [|done]. apply safe_require. intros Hr.
    set (d' := mkDriver (dr_key d) (dr_return_rx d) None).
    destruct (drivers_move (<[n := d']> (w_drivers w)) [(dr_key d, r)] w) as [Hw1 Hx]; [done| | |by apply (driver_keys n d)|].
    { pose proof (gather_delete driver_held n (w_drivers w)) as G1. pose proof (gather_insert driver_held n d' (w_drivers w)) as G2.
      unfold gather_at in G1. rewrite Hd in G1.
      assert (driver_held n d ≡ₚ (dr_key d, r) :: driver_held n d') as G3.
      { unfold driver_held. rewrite Hwt. cbn. rewrite app_nil_r, fmap_app. cbn. by rewrite <- Permutation_cons_append. }
      mset. }
    { constructor; [|constructor]. unfold is_ready in Hr. apply bool_decide_eq_true in Hr. unfold quiet. cbn. by rewrite Hr. }
    destruct (put_eff (E := Disabled) (w_now w) (dr_key d) (H1 (Some r)) [] (w_store w) (hi_wf w Hw)) as (s & Hp & _ & _).
    cbn zeta. cbn [w_now w_store with_drivers]. rewrite Hp. cbn [mbind outcome_bind safe].
    apply (store_move [(dr_key d, r)]); [done|done|]. intros g.
    destruct (put_eff (E := Disabled) (w_now w) (dr_key d) (H1 (Some r)) g (w_store w) (hi_wf w Hw)) as (s' & Hp' & _ & He).
    rewrite Hp in Hp'. by injection Hp' as <-.
  - cbn [safe]. apply conns_move.
    + apply (drivers_move _ []); [done| |constructor|].
      * pose proof (gather_delete driver_held n (w_drivers w)). mset.
      * intros m e [_ E]%lookup_delete_Some. by apply (hi_drivers w Hw).
    + cbn. intros m [[_ ?]|[_ E]]%lookup_insert_Some; done.
    + cbn. intros m Hm. destruct (decide (m = n)) as [->|]; [by rewrite lookup_insert_eq|by rewrite lookup_insert_ne].
Qed.

Lemma http_step_safe e w : hinv w -> safe (step e w).
Proof.
  intros Hw. destruct e as [i key ver|d| |n|n|i rx|i j|i|i a|i|i|i|i|i|i ok|i|n|n|n].
  - apply safe_require. intros Hn%bool_decide_eq_true. by apply spawn_safe.
  - apply safe_require. intros _. destruct Hw. by split.
  - apply safe_require. intros _. apply (store_move []); [done|by apply spare_nil|]. intros g. by apply clear_expired_eff, Hw.
  - apply safe_require. intros Hb%bool_decide_eq_true. apply conns_move; [done|..]; intros m.
    + by intros [[_ ?]|[_ E]]%lookup_insert_Some.
    + intros Hm. destruct (decide (m = n)) as [->|]; [by rewrite lookup_insert_eq|by rewrite lookup_insert_ne].
  - apply safe_require. intros Hb%bool_decide_eq_true. apply conns_move; [done|..]; intros m.
    + by intros [[_ ?]|[_ E]]%lookup_insert_Some.
    + intros Hm. destruct (decide (m = n)) as [->|]; [by rewrite lookup_insert_eq|by rewrite lookup_insert_ne].
  - apply safe_task. intros t Et. apply safe_require. intros Hf%bool_decide_eq_true. destruct (tk_pc t) eqn:Hpc; try done.
    pose proof (checkout_safe i t rx w Hw Et Hpc Hf) as Hc. by destruct (checkout _ _ _ _ _).
  - by apply http_poll_rx_safe.
  - by apply start_safe.
  - by apply conn_safe.
  - by apply drops_safe.
  - by apply drops_safe.
  - by apply drops_safe.
  - by apply drops_safe.
  - by apply send_safe.
  - apply safe_task. intros t Et. destruct (tk_pc t) eqn:Hpc; try done. by eapply finish_safe; try done; destruct ok.
  - by apply cancel_safe.
  - by apply driver_safe.
  - by apply driver_safe.
  - by apply driver_safe.
Qed.

Lemma http_reachable_inv cfg w : reachable cfg w -> hinv w.
Proof.
  induction 1 as [|w e w' _ IH Hs]; [apply hinv_init|]. pose proof (http_step_safe e w IH) as Hw. by rewrite Hs in Hw.
Qed.
End Safety.
