(* ===== verification/HttpPoolWaits.v ===== *)
(** The receivers of waiting calls of the HTTP client
    (volo-http/src/client/transport/pool.rs and protocol.rs): each belongs to one
    task and is not dropped while that task may still poll it. *)

From S2P Require Import Prelude Multiset HttpPool HttpTransport HttpPoolOps HttpPoolSafety.

Section Waits.
Context {K : Type} `{Countable K} `{BuildProfile}.

Abbreviation Store := (PoolInner K * gmap nat (K * Chan))%type.

(** The receivers a task has. *)
Fixpoint pc_rxs (pc : Pc K) : list nat :=
  match pc with
  | TSelect rx _ | TRetry rx => [rx]
  | TDropRx rx next => rx :: pc_rxs next
  | TClean next | TDropConn _ next => pc_rxs next
  | _ => []
  end.
Definition task_rxs (_ : nat) (t : Task K) : list nat := pc_rxs (tk_pc t).
Definition rxs (w : World K) : list nat := gather task_rxs (w_tasks w).

Definition alive (chans : gmap nat (K * Chan)) (rx : nat) : Prop :=
  exists k c, chans !! rx = Some (k, c) /\ c <> ChRxGone.

(** No receiver is dropped. *)
Definition spares (chans chans' : gmap nat (K * Chan)) : Prop := forall rx, alive chans rx -> alive chans' rx.

Record rx_inv (w : World K) : Prop := mkRxInv {
  rx_once : NoDup (rxs w);
  rx_alive : Forall (alive (w_store w).2) (rxs w)
}.

Lemma spares_refl chans : spares chans chans.
Proof. by intros rx. Qed.
#[local] Hint Resolve spares_refl : core.

Lemma spares_alter (f : K * Chan -> K * Chan) tx (chans : gmap nat (K * Chan)) :
  (forall c, (f c).2 = ChRxGone -> c.2 = ChRxGone) -> spares chans (alter f tx chans).
Proof.
  intros Hf rx (k & c & Hc & Hn). destruct (decide (rx = tx)) as [->|].
  - exists (f (k, c)).1, (f (k, c)).2. rewrite lookup_alter_eq, Hc. cbn. split; [by destruct (f (k, c))|]. intros Hg. by apply Hn, (Hf (k, c)).
  - exists k, c. by rewrite lookup_alter_ne.
Qed.

Lemma spares_insert tx x (chans : gmap nat (K * Chan)) : x.2 <> ChRxGone -> spares chans (<[tx := x]> chans).
Proof.
  intros Hx rx (k & c & Hc & Hn). destruct (decide (rx = tx)) as [->|].
  - exists x.1, x.2. rewrite lookup_insert_eq. split; [by destruct x|done].
  - exists k, c. by rewrite lookup_insert_ne.
Qed.

Lemma spares_drop_txs txs (chans : gmap nat (K * Chan)) : spares chans (drop_txs txs chans).
Proof.
  induction txs as [|tx txs IH]; intros rx Ha; [done|]. cbn. apply spares_alter; [by intros [k []]|by apply IH].
Qed.

Lemma put_waiters_spares {E} ws v (chans : gmap nat (K * Chan)) ws' v' chans' :
  put_waiters (E := E) ws v chans = Done (ws', v', chans') -> spares chans chans'.
Proof.
  revert v chans. induction ws as [|tx ws IH]; intros v chans; cbn [put_waiters]; [by intros [= _ _ <-]|].
  destruct (is_closed chans tx) eqn:Hc; [apply IH|]. apply is_closed_false in Hc as [k Ho].
  destruct v as [v|]; [|done]. cbn [unwrap mbind outcome_bind]. unfold send. rewrite Ho.
  destruct v; cbn [reserve]; [intros [= _ _ <-]; by apply spares_insert|].
  intros Hp rx Ha. eapply IH; [exact Hp|]. by apply spares_insert.
Qed.

Lemma put_spares {E} now key v (s s' : Store) : put (E := E) now key v s = Done s' -> spares s.2 s'.2.
Proof.
  destruct s as [self chans]. unfold put. destruct (_ && _); [by intros [= <-]|].
  destruct (in_waiters self !! key) as [ws|].
  - intros (x & Hx & Hp)%bind_done_inv. apply bind_done_inv in Hx as ([[ws' v'] chans'] & Hw & [= <-]).
    apply put_waiters_spares in Hw. by destruct v'; injection Hp as <-.
  - by intros [= <-].
Qed.

Lemma connected_spares {E} key (s s' : Store) : connected (E := E) key s = Done s' -> spares s.2 s'.2.
Proof. destruct s as [self chans]. unfold connected. destruct (_ && _); [done|]. intros [= <-]. apply spares_drop_txs. Qed.

Lemma drop_connecting_spares {E} key guard (s s' : Store) : drop_connecting (E := E) key guard s = Done s' -> spares s.2 s'.2.
Proof. destruct guard; cbn; [apply connected_spares|by intros [= <-]]. Qed.

Lemma pooled_spares {E} now key guard v (s : Store) p s' : pooled (E := E) now key guard v s = Done (p, s') -> spares s.2 s'.2.
Proof.
  unfold pooled. destruct (reserve v).
  - intros (s1 & H1 & (s2 & H2 & [= _ <-])%bind_done_inv)%bind_done_inv rx Ha.
    by eapply connected_spares, put_spares.
  - intros (s1 & H1 & [= _ <-])%bind_done_inv. by eapply drop_connecting_spares.
Qed.

Lemma drop_pooled_spares {E} conns now p (s s' : Store) : drop_pooled (E := E) conns now p s = Done s' -> spares s.2 s'.2.
Proof.
  unfold drop_pooled. destruct (negb _); [by intros [= <-]|]. destruct (pl_pool p); [apply put_spares|by intros [= <-]].
Qed.

Lemma clean_waiters_chans key (s : Store) : (clean_waiters key s).2 = s.2.
Proof. destruct s as [self chans]. unfold clean_waiters. by destruct (in_waiters self !! key). Qed.

(** * Steps *)

Lemma rx_keep (w w' : World K) : rx_inv w -> rxs w' ⊆+ rxs w -> spares (w_store w).2 (w_store w').2 -> rx_inv w'.
Proof.
  intros [Ho Ha] Hs Hp. split.
  - apply submseteq_Permutation in Hs as (l & Hl). rewrite Hl in Ho. by apply NoDup_app in Ho as [? _].
  - rewrite Forall_forall in Ha |- *. intros rx Hin. apply Hp, Ha. exact (elem_of_submseteq _ _ _ Hin Hs).
Qed.

(** A task goes on with receivers it had, while the store spares them all. *)
Lemma rx_move i t pc s (w : World K) :
  rx_inv w -> w_tasks w !! i = Some t -> pc_rxs pc ⊆+ pc_rxs (tk_pc t) -> spares (w_store w).2 s.2 ->
  rx_inv (set_pc i t pc (with_store s w)).
Proof.
  intros Hw Et Hp Hs. eapply rx_keep; [exact Hw| |exact Hs]. apply (gather_update _ _ _ []). unfold gather_at. by rewrite Et.
Qed.

(** It drops one of them. *)
Lemma rx_drop i t pc rx (w : World K) :
  rx_inv w -> w_tasks w !! i = Some t -> rx :: pc_rxs pc ⊆+ pc_rxs (tk_pc t) ->
  rx_inv (set_pc i t pc (with_chans (drop_rx rx (w_store w).2) w)).
Proof.
  intros [Ho Ha] Et Hp. set (w' := set_pc _ _ _ _).
  assert (rx :: rxs w' ⊆+ rxs w) as Hs.
  { unfold rxs, w'. cbn [w_tasks set_pc set_task with_chans with_store]. pose proof (gather_delete task_rxs i (w_tasks w)) as G1.
    pose proof (gather_insert task_rxs i (mkTask (tk_key t) (tk_ver t) pc) (w_tasks w)) as G2. unfold gather_at in G1. rewrite Et in G1.
    change (task_rxs i t) with (pc_rxs (tk_pc t)) in G1. change (task_rxs i (mkTask (tk_key t) (tk_ver t) pc)) with (pc_rxs pc) in G2. mset. }
  assert (NoDup (rx :: rxs w')) as [Hn Hnd]%NoDup_cons.
  { apply submseteq_Permutation in Hs as (l & Hl). rewrite Hl in Ho. by apply NoDup_app in Ho as [? _]. }
  split; [done|]. rewrite Forall_forall in Ha |- *. intros r Hin.
  destruct (Ha r) as (k & c & Hc & Hne); [eapply elem_of_submseteq; [|exact Hs]; by right|].
  exists k, c. cbn. unfold drop_rx. rewrite lookup_alter_ne; [done|]. by intros ->.
Qed.

Lemma get_task_done i (w : World K) t : get_task i w = Done t -> w_tasks w !! i = Some t.
Proof. unfold get_task. destruct (w_tasks w !! i); [by intros [= ->]|done]. Qed.

Lemma require_done b : require b = Done tt -> b = true.
Proof. by destruct b. Qed.

Lemma poll_waiter_chans conns key rx (chans : gmap nat (K * Chan)) o chans' :
  poll_waiter conns key rx chans = (o, chans') ->
  match o with None => chans' = chans | Some _ => chans' = drop_rx rx chans end.
Proof. unfold poll_waiter. destruct (chans !! rx) as [[k []]|]; by intros [= <- <-]. Qed.

Lemma connect_spares key ver c a (w : World K) r w' :
  connect_impl key ver c a w = Done (r, w') -> spares (w_store w).2 (w_store w').2 /\ w_tasks w' = w_tasks w.
Proof.
  unfold connect_impl. destruct c as [|guard|guard h2], a as [|alpn|n]; try done.
  - by intros [= _ <-].
  - destruct (conn_use_h2 ver alpn); [|by intros [= _ <-]]. destruct ver; [|by intros [= _ <-]].
    intros ([lock inner] & _ & [= _ <-])%bind_done_inv. done.
  - by intros [= _ <-].
  - intros (w1 & Hn & ([p s] & Hp & [= _ <-])%bind_done_inv)%bind_done_inv.
    unfold new_conn in Hn. apply bind_done_inv in Hn as ([] & _ & [= <-]). cbn in *. split; [by eapply pooled_spares|done].
Qed.

Lemma after_connect_rxs pc r : pc_rxs (after_connect pc r) ⊆+ pc_rxs pc.
Proof. destruct pc; destruct r; cbn; try done; apply submseteq_nil_l. Qed.

Lemma rx_checkout i t rx (w : World K) :
  rx_inv w -> w_tasks w !! i = Some t -> tk_pc t = TStart -> (w_store w).2 !! rx = None ->
  let '(o, s) := checkout (w_conns w) (w_now w) (tk_key t) rx (w_store w) in
  rx_inv (set_pc i t (match o with Some p => THold p | None => TSelect rx CInit end) (with_store s w)).
Proof.
  intros Hw Et Hpc Hf. unfold checkout. destruct (w_store w) as [self chans] eqn:Hs.
  destruct (match in_idle self !! tk_key t with Some l => _ | None => _ end) as [[e|] idle].
  - apply rx_move; [done|done|apply submseteq_nil_l|by rewrite Hs].
  - destruct Hw as [Ho Ha]. rewrite Hs in Ha. cbn [snd] in Ha, Hf.
    set (w' := set_pc _ _ _ _). assert (rxs w' ≡ₚ rx :: rxs w) as Hr.
    { unfold rxs, w'. cbn [w_tasks set_pc set_task with_store]. rewrite gather_insert.
      pose proof (gather_delete task_rxs i (w_tasks w)) as G. unfold gather_at in G. rewrite Et in G.
      change (task_rxs i t) with (pc_rxs (tk_pc t)) in G. rewrite Hpc in G. cbn in G |- *. by rewrite G. }
    split; rewrite Hr.
    + apply NoDup_cons. split; [|done]. intros Hin. rewrite Forall_forall in Ha. destruct (Ha rx Hin) as (k & c & Hc & _). congruence.
    + constructor.
      * exists (tk_key t), ChOpen. cbn. by rewrite lookup_insert_eq.
      * eapply Forall_impl; [exact Ha|]. intros r. cbn. by apply spares_insert.
Qed.

Lemma rx_poll i j (w w' : World K) : rx_inv w -> step (EPollRx i j) w = Done w' -> rx_inv w'.
Proof.
  intros Hw. cbn. intros (t & Et%get_task_done & Hs)%bind_done_inv.
  destruct (tk_pc t) as [|rx c| |rx| | | | | | | | | |] eqn:Hpc; try done;
    destruct (poll_waiter _ _ _ _) as [o chans] eqn:Hp; apply poll_waiter_chans in Hp; destruct o as [[p|e]|]; subst chans.
  - assert (rx_inv (set_pc i t (THold p) (with_chans (drop_rx rx (w_store w).2) w))) as Hd by (apply rx_drop; by rewrite ?Hpc).
    unfold spawn_connector in Hs. destruct (started c); [|by injection Hs as <-].
    apply bind_done_inv in Hs as ([] & Hj%require_done%bool_decide_eq_true & [= <-]). eapply rx_keep; [exact Hd| |done].
    apply (gather_update _ _ _ []). apply submseteq_nil_l.
  - injection Hs as <-. apply rx_drop; [done|done|]. rewrite Hpc. by destruct (is_canceled e).
  - injection Hs as <-. by eapply rx_keep.
  - injection Hs as <-. apply rx_drop; by rewrite ?Hpc.
  - injection Hs as <-. apply rx_drop; by rewrite ?Hpc.
  - injection Hs as <-. by eapply rx_keep.
Qed.

Lemma rx_same_tasks (w w' : World K) : rx_inv w -> w_tasks w' = w_tasks w -> spares (w_store w).2 (w_store w').2 -> rx_inv w'.
Proof. intros Hw Ht Hs. eapply rx_keep; [exact Hw|unfold rxs; by rewrite Ht|done]. Qed.

Lemma rx_step e (w w' : World K) : rx_inv w -> step e w = Done w' -> rx_inv w'.
Proof.
  intros Hw. destruct e as [i key ver|d| |n|n|i rx|i j|i|i a|i|i|i|i|i|i ok|i|n|n|n]; [..|by apply rx_poll| | | | | | | | | | | |]; cbn [step]; unfold driver_recv, driver_ready, driver_exit; intros Hs;
    repeat match goal with
    | H : (t ← get_task _ _; _) = Done _ |- _ => apply bind_done_inv in H as (t & Et%get_task_done & H)
    | H : (_ ← require _; _) = Done _ |- _ => apply bind_done_inv in H as ([] & Hr%require_done & H)
    | H : (d ← get_driver _ _; _) = Done _ |- _ => apply bind_done_inv in H as (d & Ed & H)
    end.
  - injection Hs as <-. apply bool_decide_eq_true in Hr. eapply rx_keep; [exact Hw| |done]. unfold rxs. cbn. by rewrite gather_insert_None.
  - injection Hs as <-. by eapply rx_same_tasks.
  - injection Hs as <-. by eapply rx_same_tasks.
  - injection Hs as <-. by eapply rx_same_tasks.
  - injection Hs as <-. by eapply rx_same_tasks.
  - apply bool_decide_eq_true in Hr. destruct (tk_pc t) eqn:Hpc; try done. pose proof (rx_checkout i t rx w Hw Et Hpc Hr) as Hc.
    destruct (checkout _ _ _ _ _). by injection Hs as <-.
  - destruct (connector_of (tk_pc t)) as [[]|]; try done. unfold start_connect in Hs. destruct (connecting _ _ _) as [lock inner].
    injection Hs as <-. apply (rx_move i t _ (inner, (w_store w).2)); [done|done|apply after_connect_rxs|done].
  - destruct (connector_of (tk_pc t)) as [c|]; [|done]. apply bind_done_inv in Hs as ([r w1] & [Hp Ht]%connect_spares & [= <-]).
    eapply rx_keep; [exact Hw| |exact Hp]. unfold rxs. cbn. rewrite Ht. apply (gather_update _ _ _ []). unfold gather_at. rewrite Et.
    apply after_connect_rxs.
  - destruct (tk_pc t) eqn:Hpc; try done. injection Hs as <-. apply rx_drop; by rewrite ?Hpc.
  - destruct (tk_pc t) eqn:Hpc; try done. injection Hs as <-. apply rx_move; [done|done|by rewrite Hpc|]. by rewrite clean_waiters_chans.
  - destruct (tk_pc t) eqn:Hpc; try done. apply bind_done_inv in Hs as (s & Hd & [= <-]). apply rx_move; [done|done|by rewrite Hpc|].
    by eapply drop_connecting_spares.
  - destruct (tk_pc t) eqn:Hpc; try done. apply bind_done_inv in Hs as (s & Hd & [= <-]). apply rx_move; [done|done|apply submseteq_nil_l|].
    by eapply drop_pooled_spares.
  - destruct (tk_pc t) eqn:Hpc; try done. destruct (send_request _ _) as [[p' g] conns]. injection Hs as <-.
    eapply rx_keep; [exact Hw| |done]. apply (gather_update _ _ _ []). apply submseteq_nil_l.
  - destruct (tk_pc t) eqn:Hpc; try done. cbn zeta in Hs. apply bind_done_inv in Hs as (s & Hd%drop_pooled_spares & [= <-]).
    eapply rx_keep; [exact Hw| |by destruct guard]. unfold rxs. cbn [w_tasks set_pc set_task with_store].
    replace (w_tasks (return_guard guard w)) with (w_tasks w) by (by destruct guard).
    apply (gather_update _ _ _ []). destruct ok; apply submseteq_nil_l.
  - destruct (tk_pc t) eqn:Hpc; try done.
    5: { cbn zeta in Hs. apply bind_done_inv in Hs as (s & Hd%drop_pooled_spares & [= <-]).
      eapply rx_keep; [exact Hw| |by destruct guard]. unfold rxs. cbn [w_tasks set_pc set_task with_store].
      replace (w_tasks (return_guard guard w)) with (w_tasks w) by (by destruct guard).
      apply (gather_update _ _ _ []). apply submseteq_nil_l. }
    all: injection Hs as <-; apply (rx_move i t _ (w_store w)); [done|done|rewrite Hpc; cbn; done|done].
  - destruct (dr_waiting d), (dr_return_rx d); try done. injection Hs as <-. by eapply rx_same_tasks.
  - destruct (dr_waiting d); [|done]. apply bind_done_inv in Hs as ([] & _ & Hs). cbn zeta in Hs.
    apply bind_done_inv in Hs as (s & Hp%put_spares & [= <-]). by eapply rx_same_tasks.
  - injection Hs as <-. by eapply rx_same_tasks.
Qed.

Lemma rx_reachable cfg (w : World K) : reachable cfg w -> rx_inv w.
Proof.
  induction 1 as [|w e w' _ IH Hs]; [|by eapply rx_step]. split; [constructor|constructor].
Qed.
End Waits.
