(* ===== verification/HttpConnections.v ===== *)
(** The guarantees of the HTTP client's connections
    (volo-http/src/client/transport/pool.rs and protocol.rs), and runs of them. *)

From S2P Require Import Prelude Multiset HttpPool HttpTransport HttpPoolOps HttpPoolSafety HttpPoolWaits.

Section Guarantees.
Context {K : Type} `{Countable K} `{BuildProfile} (cfg : Config).

(** Call [i] has the HTTP/1 connection [n] for [key]: it is about to send on it, or
    its request is in flight. *)
Definition uses (w : World K) (i : nat) (key : K) (n : nat) : Prop :=
  exists t, w_tasks w !! i = Some t /\ tk_key t = key /\ (key, n) ∈ pc_parked (tk_pc t) ++ pc_out (tk_pc t).

(** The connection lies in the pool, is on its way to a waiting call, or is with
    its driver. *)
Definition offered (w : World K) (n : nat) : Prop :=
  (exists k l e, in_idle (w_store w).1 !! k = Some l /\ e ∈ l /\ idle_value e = H1 (Some n)) \/
  (exists rx k, (w_store w).2 !! rx = Some (k, ChSent (H1 (Some n)))) \/
  (exists m d, w_drivers w !! m = Some d /\ (n ∈ dr_return_rx d \/ dr_waiting d = Some n)).

Lemma uses_held w i key n : uses w i key n ->
  exists t, w_tasks w !! i = Some t /\ [(key, n)] ⊆+ task_parked i t ++ task_out i t.
Proof. intros (t & Et & _ & Hin). exists t. split; [done|]. by apply singleton_submseteq_l. Qed.

Lemma uses_world w i key n : uses w i key n -> [(key, n)] ⊆+ gather task_parked (w_tasks w) ++ gather task_out (w_tasks w).
Proof.
  intros (t & Et & Hs)%uses_held. pose proof (gather_one task_parked _ _ _ Et). pose proof (gather_one task_out _ _ _ Et). mset.
Qed.

Lemma offered_world w n : offered w n ->
  exists k, [(k, n)] ⊆+ store_conns (w_store w) ++ gather driver_held (w_drivers w).
Proof.
  intros [(k & l & e & El & He & Hv)|[(rx & k & Ec)|(m & d & Ed & Hd)]].
  - exists k. assert ([(k, n)] ⊆+ idle_held k l) as Hi.
    { apply singleton_submseteq_l. unfold idle_held. apply list_elem_of_bind. exists e. rewrite Hv. split; [by left|done]. }
    pose proof (gather_one idle_held _ _ _ El). unfold store_conns. mset.
  - exists k. pose proof (gather_one chan_held _ _ _ Ec) as Hc. cbn [chan_held val_held] in Hc. unfold store_conns. mset.
  - exists (dr_key d). assert ([(dr_key d, n)] ⊆+ driver_held m d) as Hi.
    { apply singleton_submseteq_l, list_elem_of_fmap. exists n. split; [done|]. apply elem_of_app.
      destruct Hd as [|Hd]; [by left|right]. rewrite Hd. by apply list_elem_of_singleton. }
    pose proof (gather_one driver_held _ _ _ Ed). mset.
Qed.

(** C10: Exclusive use of an HTTP/1 connection: in every interleaving of calls, dials,
    cancellations, drivers and idle sweeps, a connection that a call is about to
    send on or has a request in flight on was made for the key of that call
    (scheme, address, TLS name), is used by no other call, and is neither idle,
    nor on its way to a waiting call, nor with its driver. *)
Theorem http1_exclusive w i key n :
  reachable cfg w -> uses w i key n ->
  (key, n) ∈ w_made w /\ (forall j key', uses w j key' n -> j = i) /\ ~ offered w n.
Proof.
  intros Hr Hu. pose proof (http_reachable_inv cfg w Hr) as Hw. pose proof (uses_world _ _ _ _ Hu) as Hi. split_and!.
  - apply singleton_submseteq_l. etrans; [|apply (hi_total w Hw)]. unfold parked, in_flight. mset.
  - intros j key' Hu'. destruct (decide (j = i)) as [|Hne]; [done|exfalso].
    apply uses_held in Hu as (t & Et & Ht), Hu' as (t' & Et' & Ht').
    pose proof (gather_two task_parked i j t t' _ Et Et' (not_eq_sym Hne)). pose proof (gather_two task_out i j t t' _ Et Et' (not_eq_sym Hne)).
    apply (sender_once w (key, n) (key', n) Hw); [|done]. unfold parked, in_flight. mset.
  - intros (k & Ho)%offered_world. apply (sender_once w (key, n) (k, n) Hw); [|done]. unfold parked, in_flight. mset.
Qed.

(** C11: One exchange at a time: when a call starts to send on an HTTP/1 connection, hyper
    is not busy with an earlier exchange on it; a connection is given out again
    only after its driver saw it ready. *)
Theorem http1_one_exchange (w : World K) i t p n :
  reachable cfg w -> w_tasks w !! i = Some t -> tk_pc t = THold p -> pl_value p = H1 (Some n) ->
  w_conns w !! n = Some Ready \/ w_conns w !! n = Some Closed.
Proof.
  intros Hr Et Hpc Hv. pose proof (http_reachable_inv cfg w Hr) as Hw.
  assert ((pl_key p, n) ∈ task_parked i t) as Hin by (unfold task_parked; rewrite Hpc; cbn; rewrite Hv; by left).
  apply singleton_submseteq_l in Hin. pose proof (gather_one task_parked _ _ _ Et).
  assert ((pl_key p, n) ∈ parked w) as Hp by (apply singleton_submseteq_l; unfold parked; mset).
  pose proof (hi_quiet w Hw) as Hq. rewrite Forall_forall in Hq. specialize (Hq _ Hp). unfold quiet in Hq. cbn in Hq.
  assert ((pl_key p, n) ∈ w_made w) as Hm.
  { apply singleton_submseteq_l. etrans; [|apply (hi_total w Hw)]. unfold parked. mset. }
  apply (hi_conns w Hw) in Hm as [[] Hm]; cbn in Hm; [by left|by destruct Hq|by right].
Qed.

(** No call waits in vain: a call that gave up its dial because another one dials
    for its key can take an answer from its checkout at once, or a dial for
    that key is still under way and no connection for it is idle. Every end of
    that dial, a failure or a drop included, makes the first case true. *)
Theorem http_waits_for_a_dial (w : World K) i t rx :
  reachable cfg w -> w_tasks w !! i = Some t -> tk_pc t = TRetry rx ->
  (exists o chans, poll_waiter (w_conns w) (tk_key t) rx (w_store w).2 = (Some o, chans)) \/
  ((exists j u, w_tasks w !! j = Some u /\ tk_key t ∈ pc_flags (tk_key u) (tk_pc u)) /\
   in_idle (w_store w).1 !! tk_key t = None).
Proof.
  intros Hr Et Hpc. pose proof (http_reachable_inv cfg w Hr) as Hw. pose proof (hi_tasks w Hw i t Et) as Hok.
  unfold task_ok in Hok. rewrite Hpc in Hok. destruct Hok as [Hk Ho].
  pose proof (rx_alive w (rx_reachable cfg w Hr)) as Ha. rewrite Forall_forall in Ha.
  destruct (Ha rx) as (k & c & Hc & Hne).
  { eapply elem_of_submseteq; [|apply (gather_one task_rxs _ _ _ Et)]. unfold task_rxs. rewrite Hpc. by left. }
  unfold key_of in Hk. rewrite Hc in Hk. injection Hk as ->. unfold poll_waiter. rewrite Hc.
  destruct c; [right|left; by eexists _, _|left; by eexists _, _|done]. split; [|by apply (wf_hungry _ (hi_wf w Hw) rx)].
  specialize (Ho Hc). apply elem_of_elements in Ho. rewrite <- (hi_flags w Hw) in Ho. unfold gather in Ho.
  apply list_elem_of_bind in Ho as ([j u] & Hin & Hj%elem_of_map_to_list). eauto.
Qed.

(** The transport never panics: in every reachable world every event that can happen
    leads to another world; no assertion and no [expect] of the pool, the
    leases or the drivers fails, with debug assertions or without. *)
Theorem http_never_panics (w : World K) e :
  reachable cfg w -> (exists w', step e w = Done w') \/ step e w = Fail disabled.
Proof.
  intros Hr. pose proof (http_step_safe e w (http_reachable_inv cfg w Hr)) as Hs.
  destruct (step e w) as [w'|[]| |]; [left; eauto|by right|done..].
Qed.
End Guarantees.

(** * Runs *)

Module HttpConnectionsExample.
#[local] Instance http_debug : BuildProfile := true.

Definition cfg : Config := Config_default.

Definition reached (w : outcome Disabled (World nat)) : World nat :=
  match w with Done w => w | _ => init cfg end.

(** Call [i] for peer 7 registers the receiver [rx], dials with HTTP/1 and gets the connection [n]. *)
Definition dial1 (i rx n : nat) : list (Event nat) :=
  [ESpawn i 7%nat Auto; ECheckout i rx; EStart i; EConn i (AConn AlpnOther); EConn i (AShake n); EDropRx i; EClean i].

(** It sends and is answered; the driver gives the connection back when hyper is done. *)
Definition exchange (i n : nat) : list (Event nat) :=
  [ESend i; EResponse i true; EDriverRecv n; EFinish n; EDriverReady n].

(** A connection is used by two calls one after the other. *)
Definition reuse_run : list (Event nat) :=
  dial1 0 0 10 ++ exchange 0 10 ++ [ESpawn 1 7%nat Auto; ECheckout 1 1].

Definition reuse_world : World nat := Eval vm_compute in reached (run reuse_run (init cfg)).

Lemma http_reuse_reachable : reachable cfg reuse_world.
Proof. eapply (http_reachable_run _ reuse_run); [constructor|]. vm_compute. reflexivity. Qed.

Lemma http1_exclusive_witness :
  uses reuse_world 1 7%nat 10 /\ (7%nat, 10%nat) ∈ w_made reuse_world /\
  (forall j key', uses reuse_world j key' 10 -> j = 1%nat) /\ ~ offered reuse_world 10.
Proof.
  assert (uses reuse_world 1 7%nat 10) as Hu.
  { exists (mkTask 7%nat Auto (THold (mkPooled 7%nat (H1 (Some 10%nat)) true))). split_and!; [reflexivity|reflexivity|]. vm_compute. left. }
  split; [exact Hu|]. exact (http1_exclusive cfg reuse_world 1 7%nat 10 http_reuse_reachable Hu).
Defined.

Lemma http1_one_exchange_witness :
  w_conns reuse_world !! 10%nat = Some Ready \/ w_conns reuse_world !! 10%nat = Some Closed.
Proof.
  apply (http1_one_exchange cfg reuse_world 1 (mkTask 7%nat Auto (THold (mkPooled 7%nat (H1 (Some 10%nat)) true)))
           (mkPooled 7%nat (H1 (Some 10%nat)) true) 10 http_reuse_reachable); reflexivity.
Defined.

(** Two HTTP/2 calls: the second waits for the dial of the first. *)
Definition wait_run : list (Event nat) :=
  [ESpawn 0 7%nat Http2; ECheckout 0 0; EStart 0; ESpawn 1 7%nat Http2; ECheckout 1 1; EStart 1].

Definition wait_world : World nat := Eval vm_compute in reached (run wait_run (init cfg)).

Lemma http_waits_for_a_dial_witness :
  (exists o chans, poll_waiter (w_conns wait_world) 7%nat 1 (w_store wait_world).2 = (Some o, chans)) \/
  ((exists j u, w_tasks wait_world !! j = Some u /\ 7%nat ∈ pc_flags (tk_key u) (tk_pc u)) /\
   in_idle (w_store wait_world).1 !! 7%nat = None).
Proof.
  apply (http_waits_for_a_dial cfg wait_world 1 (mkTask 7%nat Http2 (TRetry 1)) 1); [|reflexivity..].
  eapply (http_reachable_run _ wait_run); [constructor|]. vm_compute. reflexivity.
Defined.

Lemma http_never_panics_witness :
  (exists w', step (EPollRx 1 5) wait_world = Done w') \/ step (EPollRx 1 5) wait_world = Fail disabled.
Proof.
  apply (http_never_panics cfg wait_world (EPollRx 1 5)).
  eapply (http_reachable_run _ wait_run); [constructor|]. vm_compute. reflexivity.
Defined.

(** An HTTP/1 call whose own dial is going well, and an HTTP/2 call for the same peer
    whose dial fails. *)
Definition foreign_failure : list (Event nat) :=
  [ESpawn 0 7%nat Auto; ECheckout 0 0; EStart 0; EConn 0 (AConn AlpnOther);
   ESpawn 1 7%nat Http2; ECheckout 1 1; EStart 1; EConn 1 AFail; EDropConn 1;
   EPollRx 0 5; EDropConn 0].

(** A call can fail because of another one: the end of a failed HTTP/2 dial cancels
    every waiter of the key, also that of an HTTP/1 call whose own dial has
    succeeded and shakes hands; the branch marked unreachable is taken and the
    call returns the cancelled checkout's error. *)
Theorem foreign_dial_failure_fails_call :
  exists w, run foreign_failure (init cfg) = Done w /\
    tk_pc <$> w_tasks w !! 0%nat = Some (TFailed (inl CheckoutNoLongerWanted)).
Proof. eexists. split; [vm_compute; reflexivity|]. vm_compute. reflexivity. Qed.
End HttpConnectionsExample.
