(* ===== verification/HttpTarget.v ===== *)
(** Where an HTTP request goes: the target of a client
    (volo-http/src/client/target.rs, client/utils.rs), the part of the client
    context the layers change (context/client.rs) and the request and response
    values they pass on.

    [http::Uri], [http::HeaderMap] and the standard library's text forms of IP
    addresses are parameters. The TLS feature is a flag of the build. *)

From S2P Require Import Prelude Net Context Utf8 Headers.

(** [http::uri::Scheme]. *)
Inductive Scheme : Type := HTTP | HTTPS | OtherScheme (s : bytes).

#[export] Instance Scheme_eq_dec : EqDecision Scheme.
Proof. solve_decision. Defined.

Definition scheme_str (s : Scheme) : bytes :=
  match s with HTTP => str "http" | HTTPS => str "https" | OtherScheme s => s end.

(** [std::net::IpAddr]. *)
Inductive IpAddr : Type := IpV4 (ip : Z) | IpV6 (ip : Z).

#[export] Instance IpAddr_eq_dec : EqDecision IpAddr.
Proof. solve_decision. Defined.

Definition is_ipv4 (ip : IpAddr) : bool := match ip with IpV4 _ => true | IpV6 _ => false end.

(** [SocketAddr::new], [SocketAddr::ip]. *)
Definition socket_addr (ip : IpAddr) (port : Z) : SocketAddr :=
  match ip with IpV4 i => SocketAddrV4 i port | IpV6 i => SocketAddrV6 i port 0 0 end.
Definition socket_ip (a : SocketAddr) : IpAddr :=
  match a with SocketAddrV4 i _ => IpV4 i | SocketAddrV6 i _ _ _ => IpV6 i end.

(** The text forms of an IP address. *)
Class IpText : Type := { fmt_ip : IpAddr -> bytes; parse_ip : bytes -> option IpAddr }.

(** Whether a TLS feature is enabled. *)
Class TlsFeature : Type := tls_enabled : bool.

(** * Targets *)

Inductive RemoteHost : Type := HostIp (ip : IpAddr) | HostName (name : bytes).

Record RemoteTarget : Type := mkRemoteTarget { rt_scheme : Scheme; rt_host : RemoteHost; rt_port : Z }.

Inductive Target : Type :=
| TNone
| Remote (rt : RemoteTarget)
| Local (sa : UnixSocketAddr).

#[export] Instance RemoteHost_eq_dec : EqDecision RemoteHost.
Proof. solve_decision. Defined.
#[export] Instance RemoteTarget_eq_dec : EqDecision RemoteTarget.
Proof. solve_decision. Defined.
#[export] Instance Target_eq_dec : EqDecision Target.
Proof. solve_decision. Defined.

(** The errors of this part of the client; [InnerError] is what an inner service
    fails with, [GatewayError] a failure behind a proxy. *)
Inductive ClientError : Type :=
| BadScheme (s : Scheme)
| NoAddress
| SchemeUnavailable
| PortUnavailable
| TooManyRedirects
| InvalidRedirectLocation
| BodyNotReplayable
| BuilderError (e : bytes)
| RequestTimeout
| StatusCodeError (status : Z)
| LbFailed (e : bytes)
| NoAvailableEndpoint
| InnerError (e : bytes)
| GatewayError (inner : ClientError) (gateway : Target).

Definition HTTP_DEFAULT_PORT : Z := 80.
Definition HTTPS_DEFAULT_PORT : Z := 443.

Section Targets.
Context `{TlsFeature} `{IpText}.

(** [get_default_port]: any other scheme is [unreachable!]. *)
Definition get_default_port (scheme : Scheme) : outcome ClientError Z :=
  match scheme with
  | HTTPS => if tls_enabled then Done HTTPS_DEFAULT_PORT else Panic
  | HTTP => Done HTTP_DEFAULT_PORT
  | OtherScheme _ => Panic
  end.

Definition is_default_port (scheme : Scheme) (port : Z) : outcome ClientError bool :=
  p ← get_default_port scheme; Done (p =? port).

Definition check_scheme (scheme : Scheme) : outcome ClientError unit :=
  match scheme with
  | HTTPS => if tls_enabled then Done tt else Fail (BadScheme scheme)
  | HTTP => Done tt
  | OtherScheme _ => Fail (BadScheme scheme)
  end.

Definition new_host_unchecked (scheme : Scheme) (host : bytes) (port : Z) : Target :=
  Remote (mkRemoteTarget scheme (HostName host) port).

Definition new_addr_unchecked (scheme : Scheme) (ip : IpAddr) (port : Z) : Target :=
  Remote (mkRemoteTarget scheme (HostIp ip) port).

Definition new_host (scheme : option Scheme) (host : bytes) (port : option Z) : outcome ClientError Target :=
  let scheme := default HTTP scheme in
  _ ← check_scheme scheme;
  port ← match port with Some p => Done p | None => get_default_port scheme end;
  Done (new_host_unchecked scheme host port).

Definition new_addr (scheme : option Scheme) (ip : IpAddr) (port : option Z) : outcome ClientError Target :=
  let scheme := default HTTP scheme in
  _ ← check_scheme scheme;
  port ← match port with Some p => Done p | None => get_default_port scheme end;
  Done (new_addr_unchecked scheme ip port).

Definition from_host (host : bytes) : Target := new_host_unchecked HTTP host HTTP_DEFAULT_PORT.

(** [Target::from_uri], on the parts of the URI it looks at. *)
Definition from_uri_parts (scheme : option Scheme) (host : option bytes) (port : option Z) : outcome ClientError Target :=
  let scheme := default HTTP scheme in
  _ ← check_scheme scheme;
  match host with
  | None => Fail NoAddress
  | Some host =>
      port ← match port with Some p => Done p | None => get_default_port scheme end;
      Done (match parse_ip host with
            | Some ip => new_addr_unchecked scheme ip port
            | None => new_host_unchecked scheme host port
            end)
  end.

Definition remote_ref (t : Target) : option RemoteTarget :=
  match t with Remote rt => Some rt | _ => None end.

Definition set_scheme (scheme : Scheme) (t : Target) : outcome ClientError Target :=
  match remote_ref t with
  | None => Fail SchemeUnavailable
  | Some rt =>
      _ ← check_scheme scheme;
      d ← is_default_port (rt_scheme rt) (rt_port rt);
      port ← (if d : bool then get_default_port scheme else Done (rt_port rt));
      Done (Remote (mkRemoteTarget scheme (rt_host rt) port))
  end.

Definition set_port (port : Z) (t : Target) : outcome ClientError Target :=
  match remote_ref t with
  | None => Fail PortUnavailable
  | Some rt => Done (Remote (mkRemoteTarget (rt_scheme rt) (rt_host rt) port))
  end.

Definition is_none (t : Target) : bool := match t with TNone => true | _ => false end.
Definition remote_ip (t : Target) : option IpAddr :=
  match t with Remote (mkRemoteTarget _ (HostIp ip) _) => Some ip | _ => None end.
Definition remote_host (t : Target) : option bytes :=
  match t with Remote (mkRemoteTarget _ (HostName n) _) => Some n | _ => None end.
Definition unix_socket_addr (t : Target) : option UnixSocketAddr :=
  match t with Local sa => Some sa | _ => None end.
Definition target_scheme (t : Target) : option Scheme := rt_scheme <$> remote_ref t.
Definition target_port (t : Target) : option Z := rt_port <$> remote_ref t.

(** [From<Address> for Target]. *)
Definition from_address (a : Address) : Target :=
  match a with
  | Ip sa => new_addr_unchecked HTTP (socket_ip sa) (port sa)
  | Unix uds => Local uds
  end.

(** The three [Display]s. *)
Definition host_to_string (h : RemoteHost) : bytes :=
  match h with
  | HostIp ip => if is_ipv4 ip then fmt_ip ip else str "[" ++ fmt_ip ip ++ str "]"
  | HostName name => name
  end.

Definition remote_to_string (rt : RemoteTarget) : outcome ClientError bytes :=
  d ← is_default_port (rt_scheme rt) (rt_port rt);
  Done (scheme_str (rt_scheme rt) ++ str "://" ++ host_to_string (rt_host rt) ++
        (if d : bool then [] else str ":" ++ dec_of_Z (rt_port rt))).

Definition target_to_string (t : Target) : outcome ClientError bytes :=
  match t with
  | TNone => Done (str "none")
  | Remote rt => remote_to_string rt
  | Local sa =>
      Done (match as_pathname sa with
            | Some path => if is_utf8 path then path else str "[unnamed]"
            | None => str "[unnamed]"
            end)
  end.

Definition ipv6_strip_brackets (src : bytes) : bytes :=
  match head src, last src with
  | Some "["%byte, Some "]"%byte => take (length src - 2) (drop 1 src)
  | _, _ => src
  end.

(** * The client context *)

(** What the layers use of a [ClientContext]: the callee and the [Config] of its
    [RpcInfo], which is a timeout, and the target. *)
Record ClientContext : Type := mkClientContext { hcx_callee : Endpoint; hcx_target : Target; hcx_timeout : option Z }.

(** The tag under which [Port] is kept in the callee. *)
Definition PORT_TAG : N := 80.

Definition replace_target (t : Target) (cx : ClientContext) : ClientContext * Target :=
  (mkClientContext (hcx_callee cx) t (hcx_timeout cx), hcx_target cx).

Definition callee_mut (f : Endpoint -> Endpoint) (cx : ClientContext) : ClientContext :=
  mkClientContext (f (hcx_callee cx)) (hcx_target cx) (hcx_timeout cx).

(** [Target::apply_and_replace]; its result is never an error. *)
Definition apply_and_replace (self : Target) (cx : ClientContext) : ClientContext * Target :=
  let cx :=
    match self with
    | Remote rt =>
        match rt_host rt with
        | HostIp ip =>
            let sa := socket_addr ip (rt_port rt) in
            callee_mut (fun c => Endpoint.set_address (Ip sa) (Endpoint.set_service_name (fmt_ip (socket_ip sa)) c)) cx
        | HostName host =>
            callee_mut (fun c => Endpoint.insert PORT_TAG (put_u16 (rt_port rt))
                                   (Endpoint.set_service_name (ipv6_strip_brackets host) c)) cx
        end
    | Local uds =>
        callee_mut (fun c => Endpoint.set_service_name (str "unix-domain-socket")
                               (Endpoint.set_address (Unix uds) c)) cx
    | TNone => cx
    end in
  replace_target self cx.

(** [Apply<ClientContext> for Target]. *)
Definition apply_target (self : Target) (cx : ClientContext) : ClientContext := (apply_and_replace self cx).1.

(** [update_target], [restore_target]. *)
Definition update_target (target : Target) (cx : ClientContext) : ClientContext :=
  apply_target target (callee_mut Endpoint.clear cx).

Lemma apply_and_replace_target t cx :
  hcx_target (apply_and_replace t cx).1 = t /\ (apply_and_replace t cx).2 = hcx_target cx.
Proof. by destruct t as [|[s [] p]|]. Qed.

Lemma update_target_target t cx : hcx_target (update_target t cx) = t.
Proof. apply apply_and_replace_target. Qed.

End Targets.

(** * Requests and responses *)

(** [http::Method], [http::Version]: the names the code compares with. *)
Inductive Method : Type := GET | HEAD | POST | OtherMethod (m : bytes).
Inductive Version : Type := HTTP_10 | HTTP_11 | HTTP_2.

#[export] Instance Method_eq_dec : EqDecision Method.
Proof. solve_decision. Defined.
#[export] Instance Version_eq_dec : EqDecision Version.
Proof. solve_decision. Defined.

(** [Body]: complete bytes, or one of the three streaming representations with
    what it will yield. *)
Inductive Body : Type :=
| FullBody (d : bytes)
| HyperBody (d : bytes)
| StreamBody (d : bytes)
| BoxedBody (d : bytes).

Definition body_empty : Body := FullBody [].

(** [Body::try_clone]. *)
Definition try_clone (b : Body) : option Body :=
  match b with FullBody d => Some (FullBody d) | _ => None end.

(** The URI of a request or of a redirect, as the [http] crate gives access to it. *)
Class UriOps (U : Type) : Type := {
  uri_scheme : U -> option Scheme;
  uri_host : U -> option bytes;
  uri_port : U -> option Z;
  uri_path_and_query : U -> option bytes;
  uri_to_string : U -> bytes;
  uri_parse : bytes -> option U;
  (** a [PathAndQuery] as a [Uri] *)
  uri_of_path : bytes -> U;
  (** [Uri::from_parts] with a scheme, an authority that was parsed, and a path *)
  uri_from_parts : Scheme -> bytes -> bytes -> option U;
  (** [Authority::from_maybe_shared] *)
  authority_parse : bytes -> option bytes
}.

Section Messages.
Context {U H : Type}.

Record Parts : Type := mkParts {
  pt_method : Method; pt_uri : U; pt_version : Version; pt_headers : H;
  (** the [Scheme] among the extensions *)
  pt_ext_scheme : option Scheme }.

Record Request : Type := mkRequest { rq_parts : Parts; rq_body : Body }.

Record Response : Type := mkResponse { rs_status : Z; rs_headers : H; rs_body : bytes }.

Definition with_method (m : Method) (p : Parts) : Parts :=
  mkParts m (pt_uri p) (pt_version p) (pt_headers p) (pt_ext_scheme p).
Definition with_uri (u : U) (p : Parts) : Parts :=
  mkParts (pt_method p) u (pt_version p) (pt_headers p) (pt_ext_scheme p).
Definition with_headers (h : H) (p : Parts) : Parts :=
  mkParts (pt_method p) (pt_uri p) (pt_version p) h (pt_ext_scheme p).

(** [update_request_extension]. *)
Definition update_request_extension (target : Target) (p : Parts) : Parts :=
  mkParts (pt_method p) (pt_uri p) (pt_version p) (pt_headers p) (target_scheme target).

(** A service: it may change the context and a state of its own. *)
Definition Service (S : Type) : Type :=
  S -> ClientContext -> Request -> S * ClientContext * outcome ClientError Response.
End Messages.
Arguments Parts U H : clear implicits.
Arguments Request U H : clear implicits.
Arguments Response H : clear implicits.
Arguments Service U H S : clear implicits.
