(* ===== verification/GrpcDial.v ===== *)
(** Where a gRPC client connects to: the resolution of a callee's name
    (volo-grpc/src/client/dns.rs) and the connector, which reads the address
    back from the URI the transport made of it (transport/connect.rs;
    [build_uri] of transport/client.rs is in [GrpcService]).

    The resolver's lookups, [http::Uri] and the standard library's text forms of
    socket addresses are parameters. *)

From S2P Require Import Prelude Net Context Utf8 Discovery RandomBalance HttpTarget GrpcService.

(** * Names *)

Definition ERR_INVALID_PORT : bytes := str "invalid port number".
Definition ERR_BAD_HOST : bytes := str "bad host name".
Definition ERR_MISSING_ADDR : bytes := str "missing target address".
Definition DEFAULT_PORT : Z := 80.

(** [str::find], [str::rsplit_once] of a character: what is before and after it. *)
Fixpoint split_first (c : byte) (s : bytes) : option (bytes * bytes) :=
  match s with
  | [] => None
  | b :: s => if bool_decide (b = c) then Some ([], s) else '(x, y) ← split_first c s; Some (b :: x, y)
  end.
Fixpoint rsplit_once (c : byte) (s : bytes) : option (bytes * bytes) :=
  match s with
  | [] => None
  | b :: s =>
      match rsplit_once c s with
      | Some (x, y) => Some (b :: x, y)
      | None => if bool_decide (b = c) then Some ([], s) else None
      end
  end.

Definition parse_port (s : bytes) : outcome LoadBalanceError Z :=
  match parse_unsigned 16 s with Some p => Done p | None => Fail (LbDiscover ERR_INVALID_PORT) end.

(** [parse_host_and_port]. *)
Definition parse_host_and_port (service_name : bytes) : outcome LoadBalanceError (bytes * Z) :=
  match service_name with
  | "["%byte :: rest =>
      match split_first "]"%byte rest with
      | Some (ip_part, after) =>
          port ← match after with ":"%byte :: port_str => parse_port port_str | _ => Done DEFAULT_PORT end;
          Done (ip_part, port)
      | None => Fail (LbDiscover ERR_BAD_HOST)
      end
  | _ =>
      match rsplit_once ":"%byte service_name with
      | Some (host, port_str) => port ← parse_port port_str; Done (host, port)
      | None => Done (service_name, DEFAULT_PORT)
      end
  end.

(** [DnsResolver]. *)
Record DnsResolver : Type := mkDnsResolver { gd_lookup_ip : bytes -> option (list IpAddr) }.

Definition grpc_resolve (self : DnsResolver) (host : bytes) : option IpAddr := gd_lookup_ip self host ≫= head.

Definition grpc_discover (self : DnsResolver) (ep : Endpoint) : outcome LoadBalanceError (list Instance) :=
  match ep_address ep with
  | Some _ => Done []
  | None =>
      match ep_service_name ep with
      | [] => Fail (LbDiscover ERR_MISSING_ADDR)
      | service_name =>
          '(host, port) ← parse_host_and_port service_name;
          match grpc_resolve self host with
          | Some ip => Done [mkInstance (Ip (socket_addr ip port)) 10 ∅]
          | None => Fail (LbDiscover ERR_BAD_HOST)
          end
      end
  end.

#[export] Instance grpc_discover_class : Discover DnsResolver bytes LoadBalanceError := {|
  discover := grpc_discover;
  discover_key _ ep := ep_service_name ep;
|}.

(** * The connector *)

(** [Vec::from_hex]. *)
Definition hex_value (b : byte) : option Z :=
  let z := Z_of_byte b in
  if (48 <=? z) && (z <=? 57) then Some (z - 48)
  else if (97 <=? z) && (z <=? 102) then Some (z - 87)
  else if (65 <=? z) && (z <=? 70) then Some (z - 55)
  else None.
Fixpoint hex_decode (s : bytes) : option bytes :=
  match s with
  | [] => Some []
  | h :: l :: s => h ← hex_value h; l ← hex_value l; s ← hex_decode s; Some (byte_of_Z (16 * h + l) :: s)
  | [_] => None
  end.

(** [SocketAddr::from_pathname] of Unix: a name that fits [sun_path]. *)
Definition SUN_PATH : Z := 108.
Definition from_pathname (p : bytes) : option UnixSocketAddr :=
  if bool_decide (x00 ∈ p) then None
  else if SUN_PATH <=? Zlen p then None
  else Some (match p with [] => Unnamed | _ => PathName p end).

(** Accessors of [Uri]. *)
Class GrpcUriParts (U : Type) : Type := { uri_scheme_str : U -> option bytes; uri_authority : U -> option bytes }.
Class GrpcUriLaws (U : Type) `{GrpcUri U} `{GrpcUriParts U} : Prop := {
  built_parts s a p u : uri_build s a p = Some u -> uri_scheme_str u = Some s /\ uri_authority u = Some a }.

(** The errors, by their texts. *)
Definition NOT_SOCKET_ADDR : bytes := str "authority must be valid SocketAddr".
Definition NOT_HEX : bytes := str "authority must be hex-encoded path".
Definition NOT_UTF8 : bytes := str "authority must be valid UTF-8".
Definition BAD_PATH : bytes := str "path must be shorter than SUN_LEN and must not contain interior NUL bytes".

(** [tower::Service::call] of the connector: the address it connects to. *)
Definition connect_target {U} `{GrpcUriParts U} `{AddrText} (uri : U) : outcome bytes Address :=
  authority ← unwrap (uri_authority uri);
  if bool_decide (uri_scheme_str uri = Some (str "http")) then
    match parse_socket_addr authority with Some a => Done (Ip a) | None => Fail NOT_SOCKET_ADDR end
  else if bool_decide (uri_scheme_str uri = Some (str "http+unix")) then
    match hex_decode authority with
    | None => Fail NOT_HEX
    | Some path =>
        if is_utf8 path then
          match from_pathname path with Some a => Done (Unix a) | None => Fail BAD_PATH end
        else Fail NOT_UTF8
    end
  else Panic.

(** * Names in and out *)

Lemma split_first_piece c x y : c ∉ x -> split_first c (x ++ c :: y) = Some (x, y).
Proof.
  induction x as [|b x IH]; cbn; intros Hc; [by rewrite bool_decide_eq_true_2|].
  rewrite bool_decide_eq_false_2 by (intros ->; apply Hc; left). rewrite IH; [done|]. intros H. apply Hc. by right.
Qed.

Lemma rsplit_none c s : c ∉ s -> rsplit_once c s = None.
Proof.
  induction s as [|b s IH]; cbn; intros Hc; [done|]. rewrite IH by (intros H; apply Hc; by right).
  rewrite bool_decide_eq_false_2; [done|]. intros ->. apply Hc. left.
Qed.

Lemma rsplit_app c x y : c ∉ y -> rsplit_once c (x ++ c :: y) = Some (x, y).
Proof.
  intros Hc. induction x as [|b x IH]; cbn; [by rewrite (rsplit_none _ _ Hc), bool_decide_eq_true_2|]. by rewrite IH.
Qed.

Lemma colon_not_digit p : ":"%byte ∉ dec_of_Z p.
Proof.
  intros H. pose proof (dec_of_Z_digits p) as Hd. rewrite Forall_forall in Hd. destruct (Hd _ H) as (d & Hr & He).
  apply (f_equal Z_of_byte) in He. rewrite Z_of_byte_digit in He by done. cbn in He. lia.
Qed.

(** A host as it is written in a name: in brackets or plain. *)
Definition host_text (bracket : bool) (host : bytes) : bytes := if bracket then str "[" ++ host ++ str "]" else host.
Definition host_ok (bracket : bool) (host : bytes) : Prop :=
  if bracket then "]"%byte ∉ host else (":"%byte ∉ host) /\ ("["%byte ∉ host).

Lemma not_bracket b s : "["%byte ∉ b :: s -> b <> "["%byte.
Proof. intros H ->. apply H. left. Qed.

(** A name that does not begin with a bracket is split at its last colon. *)
Lemma parse_plain s : head s <> Some "["%byte ->
  parse_host_and_port s =
  match rsplit_once ":"%byte s with Some (host, port_str) => (port ← parse_port port_str; Done (host, port)) | None => Done (s, DEFAULT_PORT) end.
Proof. destruct s as [|b s]; [done|]. cbn [head]. intros Hb. unfold parse_host_and_port. destruct b; done. Qed.

Lemma parse_host_text bracket host p :
  host_ok bracket host -> in_width 16 p ->
  parse_host_and_port (host_text bracket host ++ str ":" ++ dec_of_Z p) = Done (host, p) /\
  parse_host_and_port (host_text bracket host) = Done (host, DEFAULT_PORT).
Proof.
  intros Hh Hp. assert (parse_port (dec_of_Z p) = Done p) as Hpp by (unfold parse_port; by rewrite parse_unsigned_dec).
  destruct bracket; unfold host_text, host_ok in *.
  - change (str "[" ++ ?x) with ("["%byte :: x). change (str "]") with ["]"%byte]. unfold parse_host_and_port.
    split; [|by rewrite split_first_piece].
    change (("["%byte :: host ++ ["]"%byte]) ++ str ":" ++ dec_of_Z p) with ("["%byte :: (host ++ ["]"%byte]) ++ ":"%byte :: dec_of_Z p).
    rewrite <- app_assoc. cbn [app]. rewrite split_first_piece by done. by rewrite Hpp.
  - destruct Hh as [Hc Hb]. assert (forall t, head (host ++ t) <> Some "["%byte \/ host = []) as Hhead.
    { intros t. destruct host as [|b host]; [by right|left]. cbn. intros [= ->]. apply Hb. left. }
    split.
    + rewrite parse_plain by (destruct (Hhead (str ":" ++ dec_of_Z p)) as [?| ->]; done).
      change (str ":" ++ dec_of_Z p) with (":"%byte :: dec_of_Z p). rewrite rsplit_app by apply colon_not_digit. by rewrite Hpp.
    + rewrite parse_plain by (destruct (Hhead []) as [H| ->]; [by rewrite app_nil_r in H|done]). by rewrite rsplit_none.
Qed.

(** * The connector reads back what the transport wrote *)

Lemma hex_digit_roundtrip d : 0 <= d < 16 -> hex_value (hex_lower d) = Some d.
Proof.
  intros Hd. assert (exists k, (k < 16)%nat /\ d = Z.of_nat k) as (k & Hk & ->) by (exists (Z.to_nat d); lia).
  do 16 (destruct k as [|k]; [reflexivity|]). lia.
Qed.

Lemma hex_roundtrip bs : hex_decode (hex_encode bs) = Some bs.
Proof.
  induction bs as [|b bs IH]; [done|].
  change (hex_encode (b :: bs)) with (hex_lower (Z_of_byte b / 16) :: hex_lower (Z_of_byte b mod 16) :: hex_encode bs). cbn [hex_decode].
  pose proof (Z_of_byte_range b). 
  assert (0 <= Z_of_byte b / 16 < 16) by (split; [apply Z.div_pos|apply Z.div_lt_upper_bound]; lia).
  assert (0 <= Z_of_byte b mod 16 < 16) by (apply Z.mod_pos_bound; lia). rewrite !hex_digit_roundtrip by done.
  cbn [mbind option_bind]. rewrite IH. cbn [mbind option_bind]. rewrite <- Z.div_mod by lia. by rewrite byte_of_Z_of_byte.
Qed.

(** The name of a host with a port or without. *)
Lemma parse_host_name bracket host p :
  host_ok bracket host -> (forall p', p = Some p' -> in_width 16 p') ->
  parse_host_and_port (host_text bracket host ++ (match p with Some p => str ":" ++ dec_of_Z p | None => [] end)) =
    Done (host, default DEFAULT_PORT p).
Proof.
  intros Hok Hp. destruct p as [p|].
  - apply (parse_host_text bracket host p Hok). by apply Hp.
  - rewrite app_nil_r. by apply (parse_host_text bracket host 0).
Qed.

Lemma host_name_nonempty bracket host l : host <> [] -> [] <> host_text bracket host ++ l.
Proof. by destruct bracket, host. Qed.

Section Connect.
Context {U : Type} `{GrpcUriLaws U} `{AddrText}.

(** Addresses whose text is the address: sockets that parse from their [Display], and
    path names of a Unix socket that are UTF-8. *)
Definition connectable (a : Address) : Prop :=
  match a with
  | Ip ip => parse_socket_addr (fmt_socket_addr ip) = Some ip
  | Unix (PathName p) => is_utf8 p = true /\ (x00 ∉ p) /\ 0 < Zlen p < SUN_PATH /\ to_string_lossy p = p
  | Unix _ => False
  end.

Lemma connector_reads_back (a : Address) path (u : U) :
  connectable a -> build_uri (E := bytes) a path = Done u -> connect_target u = Done a.
Proof.
  destruct a as [ip|[|p|n]]; cbn [connectable build_uri]; try done.
  - intros Hp. unfold unwrap. destruct (uri_build _ _ _) as [u'|] eqn:Hb; [|done]. intros [= <-].
    destruct (built_parts _ _ _ _ Hb) as [Hs Ha]. unfold connect_target. rewrite Ha, Hs. cbn [unwrap mbind outcome_bind].
    rewrite bool_decide_eq_true_2 by done. by rewrite Hp.
  - intros (Hu & Hz & Hl & Ht). cbn [as_pathname unwrap mbind outcome_bind]. rewrite Ht.
    destruct (uri_build _ _ _) as [u'|] eqn:Hb; [|done]. intros [= <-].
    destruct (built_parts _ _ _ _ Hb) as [Hs Ha]. unfold connect_target. rewrite Ha, Hs. cbn [unwrap mbind outcome_bind].
    rewrite bool_decide_eq_false_2, bool_decide_eq_true_2 by done. rewrite hex_roundtrip, Hu.
    unfold from_pathname. rewrite bool_decide_eq_false_2 by done. destruct (SUN_PATH <=? Zlen p) eqn:Hle; [lia|].
    destruct p; [by destruct Hl|done].
Qed.

(** A call for a host reaches that host: a callee named by a host, plain or in
    brackets, with or without a port, is resolved to one instance, at the first
    address of the host and that port or 80, and the connector that is given
    the URI the transport makes of this address connects to exactly it. *)
Theorem grpc_call_dials_host (resolver : DnsResolver) (bracket : bool) host (p : option Z) ip ep path :
  ep_address ep = None -> host <> [] -> host_ok bracket host -> (forall p', p = Some p' -> in_width 16 p') ->
  ep_service_name ep = host_text bracket host ++ (match p with Some p => str ":" ++ dec_of_Z p | None => [] end) ->
  grpc_resolve resolver host = Some ip ->
  exists a, a = Ip (socket_addr ip (default DEFAULT_PORT p)) /\ grpc_discover resolver ep = Done [mkInstance a 10 ∅] /\
    (connectable a -> forall u : U, build_uri (E := bytes) a path = Done u -> connect_target u = Done a).
Proof.
  intros Ha Hne Hok Hp Hs Hr. eexists. split; [done|]. split; [|by intros Hc u; apply connector_reads_back].
  pose proof (parse_host_name bracket host p Hok Hp) as Hparse. rewrite <- Hs in Hparse.
  unfold grpc_discover. rewrite Ha. destruct (ep_service_name ep) as [|b n] eqn:Hn.
  - by apply host_name_nonempty in Hs.
  - rewrite Hparse. cbn [mbind outcome_bind]. by rewrite Hr.
Qed.

(** What follows the bracket of a name is ignored when it does not begin with a
    colon: the port is 80. *)
Lemma port_without_colon_ignored host c rest :
  "]"%byte ∉ host -> c <> ":"%byte -> parse_host_and_port (str "[" ++ host ++ str "]" ++ c :: rest) = Done (host, DEFAULT_PORT).
Proof.
  intros Hh Hc. change (str "[" ++ ?x) with ("["%byte :: x). change (str "]" ++ ?x) with ("]"%byte :: x). unfold parse_host_and_port.
  rewrite split_first_piece by done. by destruct c.
Qed.
End Connect.

Module GrpcDialExample.
Definition Uri : Type := bytes * bytes * bytes.
#[local] Instance uris : GrpcUri Uri := {| uri_build s a p := Some (s, a, p); uri_path u := u.2 |}.
#[local] Instance parts : GrpcUriParts Uri := {| uri_scheme_str u := Some u.1.1; uri_authority u := Some u.1.2 |}.
#[local] Instance laws : GrpcUriLaws Uri.
Proof. split. by intros s a p u [= <-]. Qed.
#[local] Instance text : AddrText :=
  {| fmt_socket_addr _ := str "10.0.0.1:8080"; parse_socket_addr _ := Some (SocketAddrV4 1 8080); escape_ascii := id; to_string_lossy := id |}.

Definition resolver : DnsResolver := mkDnsResolver (fun _ => Some [IpV4 1]).
Definition ep : Endpoint := Endpoint.new (str "a.example:8080").

Lemma grpc_call_dials_host_witness :
  grpc_discover resolver ep = Done [mkInstance (Ip (SocketAddrV4 1 8080)) 10 ∅] /\
  connect_target ((str "http", str "10.0.0.1:8080", str "/x") : Uri) = Done (Ip (SocketAddrV4 1 8080)).
Proof.
  destruct (grpc_call_dials_host (U := Uri) resolver false (str "a.example") (Some 8080) (IpV4 1) ep (str "/x")) as (a & -> & H1 & H2).
  - done.
  - done.
  - split; intros H; vm_compute in H; repeat (apply elem_of_cons in H as [H|H]; [done|]); by apply not_elem_of_nil in H.
  - by intros p [= <-].
  - by vm_compute.
  - done.
  - split; [exact H1|]. by apply H2.
Defined.
End GrpcDialExample.
