(* ===== verification/GrpcClient.v ===== *)
(** The gRPC client (volo-grpc/src/client/mod.rs): its builder and settings, the
    call options (client/callopt.rs), the balancer's service
    (layer/loadbalance/mod.rs), the deadline around all of them
    (client/layer/timeout.rs), the client of the generated code, and the
    service that sets the user agent (layer/user_agent.rs).

    The transport below the metadata service is [GrpcService]'s; name resolution
    and the connector are in [GrpcDial]. The timer, the metainfo's deadline and
    the layers of the user are parameters. *)

From S2P Require Import Prelude Net Context Utf8 Headers Discovery RandomBalance GrpcStatus GrpcTimeout GrpcCodec GrpcRoundTrip GrpcMetadata GrpcMeta GrpcService GrpcCallExample HttpTarget GrpcDial.

(** * Settings *)

(** Durations are in nanoseconds. *)
Record Http2Config : Type := mkHttp2Config {
  init_stream_window_size : Z; init_connection_window_size : Z; adaptive_window : bool; max_frame_size : Z;
  http2_keepalive_interval : option Z; http2_keepalive_timeout : Z; http2_keepalive_while_idle : bool;
  max_concurrent_reset_streams : Z; max_send_buf_size : Z }.

Definition Http2Config_default : Http2Config :=
  mkHttp2Config (1024 * 1024 * 2) (1024 * 1024 * 5) false (1024 * 16) None (20 * 10 ^ 9) false 10 (1024 * 1024).

Section Settings.
Implicit Types c : Http2Config.
Definition http2_init_stream_window_size (sz : Z) c :=
  mkHttp2Config sz (init_connection_window_size c) (adaptive_window c) (max_frame_size c) (http2_keepalive_interval c)
    (http2_keepalive_timeout c) (http2_keepalive_while_idle c) (max_concurrent_reset_streams c) (max_send_buf_size c).
Definition http2_init_connection_window_size (sz : Z) c :=
  mkHttp2Config (init_stream_window_size c) sz (adaptive_window c) (max_frame_size c) (http2_keepalive_interval c)
    (http2_keepalive_timeout c) (http2_keepalive_while_idle c) (max_concurrent_reset_streams c) (max_send_buf_size c).
Definition http2_adaptive_window (enabled : bool) c :=
  mkHttp2Config (init_stream_window_size c) (init_connection_window_size c) enabled (max_frame_size c) (http2_keepalive_interval c)
    (http2_keepalive_timeout c) (http2_keepalive_while_idle c) (max_concurrent_reset_streams c) (max_send_buf_size c).
Definition http2_max_frame_size (sz : Z) c :=
  mkHttp2Config (init_stream_window_size c) (init_connection_window_size c) (adaptive_window c) sz (http2_keepalive_interval c)
    (http2_keepalive_timeout c) (http2_keepalive_while_idle c) (max_concurrent_reset_streams c) (max_send_buf_size c).
Definition set_http2_keepalive_interval (interval : option Z) c :=
  mkHttp2Config (init_stream_window_size c) (init_connection_window_size c) (adaptive_window c) (max_frame_size c) interval
    (http2_keepalive_timeout c) (http2_keepalive_while_idle c) (max_concurrent_reset_streams c) (max_send_buf_size c).
Definition set_http2_keepalive_timeout (timeout : Z) c :=
  mkHttp2Config (init_stream_window_size c) (init_connection_window_size c) (adaptive_window c) (max_frame_size c)
    (http2_keepalive_interval c) timeout (http2_keepalive_while_idle c) (max_concurrent_reset_streams c) (max_send_buf_size c).
Definition set_http2_keepalive_while_idle (enabled : bool) c :=
  mkHttp2Config (init_stream_window_size c) (init_connection_window_size c) (adaptive_window c) (max_frame_size c)
    (http2_keepalive_interval c) (http2_keepalive_timeout c) enabled (max_concurrent_reset_streams c) (max_send_buf_size c).
Definition http2_max_concurrent_reset_streams (sz : Z) c :=
  mkHttp2Config (init_stream_window_size c) (init_connection_window_size c) (adaptive_window c) (max_frame_size c)
    (http2_keepalive_interval c) (http2_keepalive_timeout c) (http2_keepalive_while_idle c) sz (max_send_buf_size c).
Definition http2_max_send_buf_size (max : Z) c :=
  mkHttp2Config (init_stream_window_size c) (init_connection_window_size c) (adaptive_window c) (max_frame_size c)
    (http2_keepalive_interval c) (http2_keepalive_timeout c) (http2_keepalive_while_idle c) (max_concurrent_reset_streams c) max.

Implicit Types g : GrpcConfig.
Definition rpc_timeout (t : option Duration) g :=
  mkGrpcConfig t (gc_connect_timeout g) (gc_read_timeout g) (gc_write_timeout g) (gc_accept_compressions g) (gc_send_compressions g).
Definition connect_timeout (t : Duration) g :=
  mkGrpcConfig (gc_rpc_timeout g) (Some t) (gc_read_timeout g) (gc_write_timeout g) (gc_accept_compressions g) (gc_send_compressions g).
Definition read_timeout (t : Duration) g :=
  mkGrpcConfig (gc_rpc_timeout g) (gc_connect_timeout g) (Some t) (gc_write_timeout g) (gc_accept_compressions g) (gc_send_compressions g).
Definition write_timeout (t : Duration) g :=
  mkGrpcConfig (gc_rpc_timeout g) (gc_connect_timeout g) (gc_read_timeout g) (Some t) (gc_accept_compressions g) (gc_send_compressions g).
Definition send_compressions (l : list CompressionEncoding) g :=
  mkGrpcConfig (gc_rpc_timeout g) (gc_connect_timeout g) (gc_read_timeout g) (gc_write_timeout g) (gc_accept_compressions g) (Some l).
Definition accept_compressions (l : list CompressionEncoding) g :=
  mkGrpcConfig (gc_rpc_timeout g) (gc_connect_timeout g) (gc_read_timeout g) (gc_write_timeout g) (Some l) (gc_send_compressions g).
End Settings.

(** [volo::net::dial::Config], and what [ClientTransport::new] gives its connector
    and the HTTP client. *)
Record DialConfig : Type := mkDialConfig {
  dc_connect_timeout : option Duration; dc_read_timeout : option Duration; dc_write_timeout : option Duration }.

Definition with_connect_timeout (t : option Duration) (c : DialConfig) : DialConfig :=
  mkDialConfig t (dc_read_timeout c) (dc_write_timeout c).
Definition with_read_timeout (t : option Duration) (c : DialConfig) : DialConfig :=
  mkDialConfig (dc_connect_timeout c) t (dc_write_timeout c).
Definition with_write_timeout (t : option Duration) (c : DialConfig) : DialConfig :=
  mkDialConfig (dc_connect_timeout c) (dc_read_timeout c) t.

Record TransportConfig (Tls : Type) : Type := mkTransportConfig { tc_http2 : Http2Config; tc_dial : DialConfig; tc_tls : option Tls }.
Arguments mkTransportConfig {Tls}.
Arguments tc_http2 {Tls}.
Arguments tc_dial {Tls}.
Arguments tc_tls {Tls}.

(** [Connector::new] and [new_with_tls], with [DefaultMakeTransport]'s setters. *)
Definition connector_dial (cfg : option DialConfig) : DialConfig :=
  let mt := mkDialConfig None None None in
  match cfg with
  | Some cfg => with_write_timeout (dc_write_timeout cfg) (with_read_timeout (dc_read_timeout cfg)
      (with_connect_timeout (dc_connect_timeout cfg) mt))
  | None => mt
  end.

Definition client_transport {Tls} (http2_config : Http2Config) (rpc_config : GrpcConfig) (tls : option Tls) : TransportConfig Tls :=
  mkTransportConfig http2_config
    (connector_dial (Some (mkDialConfig (gc_connect_timeout rpc_config) (gc_read_timeout rpc_config) (gc_write_timeout rpc_config)))) tls.

(** * Services *)

(** The [Debug] form of a boxed error, by its text. *)
Class DebugText : Type := debug_text : bytes -> bytes.

Section Services.
Context {H : Type} `{HeaderMap H} `{HeaderEntries H} `{HeaderNames} `{HttpMetaInfo} `{BuildProfile} `{DebugText}.
Context {T U : Type}.
Abbreviation Svc W := (Handler (H := H) W T U).
Abbreviation Msg := (GrpcMsg H T).

(** [From<LoadBalanceError> for Status]. *)
Definition lb_status (err : LoadBalanceError) : Status H :=
  Status.new Unknown
    (match err with
     | LbRetry => str "load balance retry reaches end"
     | LbDiscover msg => str "load balance discovery error: " ++ debug_text msg
     | _ => str "missing 'request_hash' for consistent hash load balancer"
     end).

(** A service beside the state of a balancer. *)
Definition beside {LB W} (lb : LB) (r : W * GrpcCx * MetaInfo * outcome (Status H) (GrpcMsg H U)) :
    (LB * W) * GrpcCx * MetaInfo * outcome (Status H) (GrpcMsg H U) :=
  let '(w, cx, mi, r) := r in ((lb, w), cx, mi, r).

(** [LoadBalanceService::call]: one address, no retry. *)
Definition lb_call {LB Picker W} (get_picker : Endpoint -> LB -> outcome LoadBalanceError (Picker * LB))
    (next : Picker -> outcome LoadBalanceError (option Address * Picker)) (inner : Svc W) : Svc (LB * W) := fun '(lb, w) cx mi req =>
  match ep_address (gx_callee cx) with
  | Some _ => beside lb (inner w cx mi req)
  | None =>
      match get_picker (gx_callee cx) lb with
      | Done (picker, lb) =>
          match next picker with
          | Done (Some addr, _) => beside lb (inner w (gx_callee_mut (Endpoint.set_address addr) cx) mi req)
          | Done (None, _) => ((lb, w), cx, mi, Fail (lb_status LbRetry))
          | Fail err => ((lb, w), cx, mi, Fail (lb_status err))
          | Panic => ((lb, w), cx, mi, Panic)
          | OutOfFuel => ((lb, w), cx, mi, OutOfFuel)
          end
      | Fail err => ((lb, w), cx, mi, Fail (lb_status err))
      | Panic => ((lb, w), cx, mi, Panic)
      | OutOfFuel => ((lb, w), cx, mi, OutOfFuel)
      end
  end.

(** [Timeout::call]; [race] runs a service against a sleep and answers [None] when
    the sleep ends first, [mi_timeout] is the deadline in the metainfo. *)
Definition timeout_call {W} (mi_timeout : MetaInfo -> option Duration)
    (race : Duration -> Svc W -> W -> GrpcCx -> MetaInfo -> Msg -> W * GrpcCx * MetaInfo * option (outcome (Status H) (GrpcMsg H U)))
    (inner : Svc W) : Svc W := fun w cx mi req =>
  match client_timeout (gc_rpc_timeout (gx_config cx)) (mi_timeout mi) (gm_metadata req) with
  | Done (headers, sleep) =>
      let req := mkMsg headers (gm_message req) in
      match sleep with
      | Some timeout =>
          let '(w, cx, mi, r) := race timeout inner w cx mi req in
          (w, cx, mi, match r with Some r => r | None => Fail (Status.new DeadlineExceeded (str "timeout")) end)
      | None => inner w cx mi req
      end
  | Fail e => (w, cx, mi, Fail e)
  | Panic => (w, cx, mi, Panic)
  | OutOfFuel => (w, cx, mi, OutOfFuel)
  end.

(** ** Call options *)

Record CallOpt : Type := mkCallOpt {
  co_callee_faststr_tags : gmap N bytes; co_callee_tags : gmap N bytes; co_address : option Address; co_config : GrpcConfig;
  co_caller_faststr_tags : gmap N bytes; co_caller_tags : gmap N bytes }.

Definition CallOpt_new : CallOpt := mkCallOpt ∅ ∅ None grpc_config_default ∅ ∅.

Definition extend_tags (faststr tags : gmap N bytes) (e : Endpoint) : Endpoint :=
  let e := if bool_decide (faststr = ∅) then e
           else mkEndpoint (ep_service_name e) (ep_address e) (faststr ∪ ep_faststr_tags e) (ep_tags e) in
  if bool_decide (tags = ∅) then e
  else mkEndpoint (ep_service_name e) (ep_address e) (ep_faststr_tags e) (tags ∪ ep_tags e).

Definition gx_config_mut f (cx : GrpcCx) : GrpcCx :=
  mkGrpcCx (gx_role cx) (gx_caller cx) (gx_callee cx) (gx_method cx) (f (gx_config cx)) (gx_start_at cx) (gx_end_at cx).

(** [CallOpt::apply]. *)
Definition apply (o : CallOpt) (cx : GrpcCx) : GrpcCx :=
  let cx := gx_caller_mut (extend_tags (co_caller_faststr_tags o) (co_caller_tags o)) cx in
  let cx := gx_callee_mut (extend_tags (co_callee_faststr_tags o) (co_callee_tags o)) cx in
  let cx := match co_address o with Some addr => gx_callee_mut (Endpoint.set_address addr) cx | None => cx end in
  gx_config_mut (fun c => grpc_config_merge c (co_config o)) cx.

(** [WithOptService::call]. *)
Definition with_opt_call {W} (opt : CallOpt) (inner : Svc W) : Svc W := fun w cx mi req => inner w (apply opt cx) mi req.

(** ** The client *)

Record Client (W : Type) : Type := mkClient {
  cl_transport : Svc W; cl_callee_name : bytes; cl_caller_name : bytes; cl_rpc_config : GrpcConfig; cl_target : option Address }.
#[global] Arguments mkClient {W}.
#[global] Arguments cl_transport {W}.
#[global] Arguments cl_callee_name {W}.
#[global] Arguments cl_caller_name {W}.
#[global] Arguments cl_rpc_config {W}.
#[global] Arguments cl_target {W}.

(** [Client::make_cx]. *)
Definition make_cx {W} (c : Client W) (path : bytes) : GrpcCx :=
  let callee := Endpoint.new (cl_callee_name c) in
  let callee := match cl_target c with Some target => Endpoint.set_address target callee | None => callee end in
  mkGrpcCx Context.Client (Endpoint.new (cl_caller_name c)) callee path (cl_rpc_config c) None None.

Definition with_opt {W} (opt : CallOpt) (c : Client W) : Client W :=
  mkClient (with_opt_call opt (cl_transport c)) (cl_callee_name c) (cl_caller_name c) (cl_rpc_config c) (cl_target c).

(** [Client::call], inside a scope of the metainfo or not. *)
Definition client_call {W} (c : Client W) (w : W) (cx : GrpcCx) (scope : option MetaInfo) (req : Msg) :
    W * GrpcCx * option MetaInfo * outcome (Status H) (GrpcMsg H U) :=
  match scope with
  | Some mi => let '(w, cx, mi, r) := cl_transport c w cx mi req in (w, cx, Some mi, r)
  | None => let '(w, cx, _, r) := cl_transport c w cx mi_default req in (w, cx, None, r)
  end.
End Services.
Arguments Client : clear implicits.
Arguments Client H {_} T U W.

(** * The builder *)

Section Builder.
Context {H : Type} `{HeaderMap H} `{HeaderEntries H} `{HeaderNames} `{HttpMetaInfo} `{AddrText} `{BuildProfile}.
Context {T U W W' C Tls : Type}.
Abbreviation Svc W := (Handler (H := H) W T U).

(** Layers are functions; [cb_mk_lb] makes the balancer's layer, and [cb_mk_client]
    wraps the client for the generated code. *)
Record ClientBuilder : Type := mkClientBuilder {
  cb_http2_config : Http2Config; cb_rpc_config : GrpcConfig; cb_callee_name : bytes; cb_caller_name : bytes; cb_target : option Address;
  cb_inner_layer : Svc W -> Svc W; cb_outer_layer : Svc W' -> Svc W'; cb_mk_client : Client H T U W' -> C; cb_mk_lb : Svc W -> Svc W';
  cb_tls_config : option Tls }.

(** [ClientBuilder::new], for a balancer's layer. *)
Definition builder_new (mk_client : Client H T U W' -> C) (service_name : bytes) (mk_lb : Svc W -> Svc W') : ClientBuilder :=
  mkClientBuilder Http2Config_default grpc_config_default service_name [] None id id mk_client mk_lb None.

Implicit Types b : ClientBuilder.
Definition set_http2 (f : Http2Config -> Http2Config) b :=
  mkClientBuilder (f (cb_http2_config b)) (cb_rpc_config b) (cb_callee_name b) (cb_caller_name b) (cb_target b) (cb_inner_layer b)
    (cb_outer_layer b) (cb_mk_client b) (cb_mk_lb b) (cb_tls_config b).
Definition set_rpc (f : GrpcConfig -> GrpcConfig) b :=
  mkClientBuilder (cb_http2_config b) (f (cb_rpc_config b)) (cb_callee_name b) (cb_caller_name b) (cb_target b) (cb_inner_layer b)
    (cb_outer_layer b) (cb_mk_client b) (cb_mk_lb b) (cb_tls_config b).
Definition caller_name (name : bytes) b :=
  mkClientBuilder (cb_http2_config b) (cb_rpc_config b) (cb_callee_name b) name (cb_target b) (cb_inner_layer b)
    (cb_outer_layer b) (cb_mk_client b) (cb_mk_lb b) (cb_tls_config b).
Definition mk_load_balance (mk_lb : Svc W -> Svc W') b :=
  mkClientBuilder (cb_http2_config b) (cb_rpc_config b) (cb_callee_name b) (cb_caller_name b) (cb_target b) (cb_inner_layer b)
    (cb_outer_layer b) (cb_mk_client b) mk_lb (cb_tls_config b).
Definition address (target : Address) b :=
  mkClientBuilder (cb_http2_config b) (cb_rpc_config b) (cb_callee_name b) (cb_caller_name b) (Some target) (cb_inner_layer b)
    (cb_outer_layer b) (cb_mk_client b) (cb_mk_lb b) (cb_tls_config b).
Definition layer_inner (l : Svc W -> Svc W) b :=
  mkClientBuilder (cb_http2_config b) (cb_rpc_config b) (cb_callee_name b) (cb_caller_name b) (cb_target b)
    (fun s => cb_inner_layer b (l s)) (cb_outer_layer b) (cb_mk_client b) (cb_mk_lb b) (cb_tls_config b).
Definition layer_inner_front (l : Svc W -> Svc W) b :=
  mkClientBuilder (cb_http2_config b) (cb_rpc_config b) (cb_callee_name b) (cb_caller_name b) (cb_target b)
    (fun s => l (cb_inner_layer b s)) (cb_outer_layer b) (cb_mk_client b) (cb_mk_lb b) (cb_tls_config b).
Definition layer_outer (l : Svc W' -> Svc W') b :=
  mkClientBuilder (cb_http2_config b) (cb_rpc_config b) (cb_callee_name b) (cb_caller_name b) (cb_target b) (cb_inner_layer b)
    (fun s => cb_outer_layer b (l s)) (cb_mk_client b) (cb_mk_lb b) (cb_tls_config b).
Definition layer_outer_front (l : Svc W' -> Svc W') b :=
  mkClientBuilder (cb_http2_config b) (cb_rpc_config b) (cb_callee_name b) (cb_caller_name b) (cb_target b) (cb_inner_layer b)
    (fun s => l (cb_outer_layer b s)) (cb_mk_client b) (cb_mk_lb b) (cb_tls_config b).
Definition tls_config (tls : Tls) b :=
  mkClientBuilder (cb_http2_config b) (cb_rpc_config b) (cb_callee_name b) (cb_caller_name b) (cb_target b) (cb_inner_layer b)
    (cb_outer_layer b) (cb_mk_client b) (cb_mk_lb b) (Some tls).

(** [build]: the transport's service for a configuration is a parameter. *)
Definition build_service (transport : TransportConfig Tls -> Svc W) (mi_timeout : MetaInfo -> option Duration)
    (race : Duration -> Svc W' -> W' -> GrpcCx -> MetaInfo -> GrpcMsg H T -> W' * GrpcCx * MetaInfo * option (outcome (Status H) (GrpcMsg H U)))
    b : Svc W' :=
  let transport := client_meta (transport (client_transport (cb_http2_config b) (cb_rpc_config b) (cb_tls_config b))) in
  timeout_call mi_timeout race (cb_outer_layer b (cb_mk_lb b (cb_inner_layer b transport))).

Definition build transport mi_timeout race b : C :=
  cb_mk_client b (mkClient (build_service transport mi_timeout race b) (cb_callee_name b) (cb_caller_name b) (cb_rpc_config b) (cb_target b)).
End Builder.

(** * The user agent *)

Definition VOLO_USER_AGENT : bytes := str "volo-user-agent".
Definition USER_AGENT : bytes := str "user-agent".

(** [UserAgent::new]. *)
Definition user_agent_new {E} (user_agent : option bytes) : outcome E bytes :=
  match user_agent with
  | Some value => unwrap (header_value (value ++ str " " ++ VOLO_USER_AGENT))
  | None => Done VOLO_USER_AGENT
  end.

(** [UserAgent::call], on the headers of a request. *)
Definition user_agent_call {H} `{HeaderMap H} {Cx B R : Type} (user_agent : bytes) (inner : Cx -> H -> B -> R) (cx : Cx) (headers : H) (body : B) : R :=
  inner cx (hm_insert USER_AGENT user_agent headers) body.

(** * Calls of a client *)

(** [DefaultLb]: random balancing over the resolver; [draw] is the random number. *)
Definition grpc_default_lb {H} `{HeaderMap H} `{HttpMetaInfo} {T U W} `{BinarySearch} `{DebugText} (resolver : DnsResolver) (draw : Z) :
    Handler (H := H) W T U -> Handler (H := H) (gmap bytes Random.WeightedInstances * W) T U :=
  lb_call (fun ep router => Random.get_picker id ep resolver router) (Random.next draw).

Section Calls.
Context {H : Type} `{HeaderMap H} `{HeaderEntries H} `{HeaderNames} `{HttpMetaInfo} `{AddrText} `{BuildProfile} `{BinarySearchLaws} `{DebugText}.
Context {T U W Tls : Type} (transport : TransportConfig Tls -> Handler (H := H) W T U) (mi_timeout : MetaInfo -> option Duration).
Abbreviation State := (gmap bytes Random.WeightedInstances * W)%type.
Abbreviation Race := (Duration -> Handler (H := H) State T U -> State -> GrpcCx -> MetaInfo -> GrpcMsg H T ->
  State * GrpcCx * MetaInfo * option (outcome (Status H) (GrpcMsg H U))).
Context (race : Race).
Abbreviation Builder := (ClientBuilder (H := H) (T := T) (U := U) (W := W) (W' := State) (C := Client H T U State) (Tls := Tls)).

(** A builder whose layers are its own. *)
Definition plain_builder (resolver : DnsResolver) (draw : Z) (b : Builder) : Prop :=
  cb_inner_layer b = id /\ cb_outer_layer b = id /\ cb_mk_client b = id /\ cb_mk_lb b = grpc_default_lb resolver draw.

Lemma builder_new_plain resolver draw name : plain_builder resolver draw (builder_new id name (grpc_default_lb resolver draw)).
Proof. done. Qed.

(** The context of a call with options. *)
Lemma apply_config o cx : gx_config (apply o cx) = grpc_config_merge (gx_config cx) (co_config o).
Proof. unfold apply. by destruct (co_address o). Qed.

Lemma extend_tags_name f t e : ep_service_name (extend_tags f t e) = ep_service_name e /\ ep_address (extend_tags f t e) = ep_address e.
Proof. unfold extend_tags. by repeat case_bool_decide. Qed.

Lemma apply_callee o cx :
  ep_service_name (gx_callee (apply o cx)) = ep_service_name (gx_callee cx) /\
  ep_address (gx_callee (apply o cx)) = or_else (co_address o) (ep_address (gx_callee cx)).
Proof.
  destruct (extend_tags_name (co_callee_faststr_tags o) (co_callee_tags o) (gx_callee cx)) as [En Ea].
  unfold apply. destruct (co_address o); cbn; by rewrite ?En, ?Ea.
Qed.

Lemma make_cx_callee {W'} (c : Client H T U W') path :
  ep_service_name (gx_callee (make_cx c path)) = cl_callee_name c /\ ep_address (gx_callee (make_cx c path)) = cl_target c.
Proof. unfold make_cx. by destruct (cl_target c). Qed.

(** The configuration the transport of a client is made with. *)
Definition built_transport (b : Builder) : Handler (H := H) W T U :=
  client_meta (transport (client_transport (cb_http2_config b) (cb_rpc_config b) (cb_tls_config b))).

(** The service behind the deadline: the builder's outer layers around its
    balancer, around its inner layers, around the transport. *)
Definition behind_deadline (b : Builder) : Handler (H := H) State T U :=
  cb_outer_layer b (cb_mk_lb b (cb_inner_layer b (built_transport b))).

(** The deadline of a call with options: the shorter of the call's (its options
    first, then the builder's) and the one in the metainfo. *)
Definition call_deadline (b : Builder) (o : CallOpt) (mi : MetaInfo) : option Duration :=
  shorter (or_else (gc_rpc_timeout (co_config o)) (gc_rpc_timeout (cb_rpc_config b))) (mi_timeout mi).

Lemma call_cx_callee b o path :
  cb_mk_client b = id ->
  let cx := apply o (make_cx (build transport mi_timeout race b) path) in
  ep_service_name (gx_callee cx) = cb_callee_name b /\ ep_address (gx_callee cx) = or_else (co_address o) (cb_target b) /\
  gx_config cx = grpc_config_merge (cb_rpc_config b) (co_config o).
Proof.
  intros Hid cx. unfold cx, build. rewrite Hid. set (c := mkClient _ _ _ _ _).
  destruct (apply_callee o (make_cx (id c) path)) as [-> ->]. destruct (make_cx_callee (id c) path) as [-> ->]. rewrite apply_config. done.
Qed.

(** The result of a call inside a scope of the metainfo. *)
Definition scoped {A B C D : Type} (r : A * B * C * D) : A * B * option C * D := let '(a, b, c, d) := r in (a, b, Some c, d).

(** A call with options is the service behind the deadline, under it. *)
Lemma call_under_timeout b o path s mi req :
  cb_mk_client b = id ->
  let c := build transport mi_timeout race b in
  let cx := apply o (make_cx c path) in
  client_call (with_opt o c) s (make_cx c path) (Some mi) req =
    scoped (timeout_call mi_timeout race (behind_deadline b) s cx mi req) /\
  gc_rpc_timeout (gx_config cx) = or_else (gc_rpc_timeout (co_config o)) (gc_rpc_timeout (cb_rpc_config b)).
Proof.
  intros Hm c cx. destruct (call_cx_callee b o path Hm) as (_ & _ & Hc). fold c in Hc. fold cx in Hc. split; [|by rewrite Hc].
  assert (cl_transport c = timeout_call mi_timeout race (behind_deadline b)) as Ht by (unfold c, build, build_service; by rewrite Hm).
  unfold client_call, with_opt, with_opt_call. cbn [cl_transport]. by rewrite Ht.
Qed.

(** A call without a deadline. *)
Lemma call_untimed b o path s mi req :
  cb_mk_client b = id -> call_deadline b o mi = None ->
  let c := build transport mi_timeout race b in
  client_call (with_opt o c) s (make_cx c path) (Some mi) req = scoped (behind_deadline b s (apply o (make_cx c path)) mi req).
Proof.
  intros Hm Hd c. destruct (call_under_timeout b o path s mi req Hm) as [Hcall Hc]. fold c in Hcall, Hc. rewrite Hcall.
  unfold timeout_call, client_timeout. rewrite Hc. fold (call_deadline b o mi). rewrite Hd. by destruct req.
Qed.

Lemma behind_default resolver draw b :
  plain_builder resolver draw b -> cb_mk_client b = id /\ behind_deadline b = grpc_default_lb resolver draw (built_transport b).
Proof. intros (Hi & Ho & Hm & Hl). split; [done|]. unfold behind_deadline. by rewrite Hi, Ho, Hl. Qed.

(** C29: The deadline of a call: whatever layers and balancer a client was built with,
    a call that has a deadline (the shorter of the one of its options, or else
    the builder's, and the one of the request being served) runs the outer
    layers, the balancer with its name resolution, the inner layers and the
    transport under it, in that order; the request they are given tells the
    server the deadline, and the call ends with [DeadlineExceeded] when the
    timer does. *)
Theorem grpc_call_deadline b o path s mi req t text :
  cb_mk_client b = id -> call_deadline b o mi = Some t ->
  duration_to_grpc_timeout (E := Status H) t = Done text -> header_value text = Some text ->
  let c := build transport mi_timeout race b in
  client_call (with_opt o c) s (make_cx c path) (Some mi) req =
  scoped (let '(s, cx, mi, r) :=
              race t (cb_outer_layer b (cb_mk_lb b (cb_inner_layer b (built_transport b)))) s (apply o (make_cx c path)) mi
                (mkMsg (hm_insert GRPC_TIMEOUT_HEADER text (gm_metadata req)) (gm_message req)) in
          (s, cx, mi, match r with Some r => r | None => Fail (Status.new DeadlineExceeded (str "timeout")) end)).
Proof.
  intros Hm Ht Hd Hv c. destruct (call_under_timeout b o path s mi req Hm) as [Hcall Hc]. fold c in Hcall, Hc. rewrite Hcall.
  unfold timeout_call, client_timeout. rewrite Hc. fold (call_deadline b o mi). rewrite Ht, Hd. cbn [mbind outcome_bind]. by rewrite Hv.
Qed.
End Calls.

(** * Where a call goes *)

Section Reach.
Context {H : Type} `{HeaderMap H} `{HeaderEntries H} `{HeaderNames} `{HttpMetaInfo} `{AddrText} `{BuildProfile} `{BinarySearchLaws} `{DebugText}.
Context {Uri : Type} `{!GrpcUri Uri} `{!GrpcUriParts Uri} `{!GrpcUriLaws Uri}.
Context {T U W Tls : Type} (transport : TransportConfig Tls -> Handler (H := H) W T U) (mi_timeout : MetaInfo -> option Duration).
Context (race : Duration -> Handler (H := H) (gmap bytes Random.WeightedInstances * W) T U -> gmap bytes Random.WeightedInstances * W -> GrpcCx ->
  MetaInfo -> GrpcMsg H T -> (gmap bytes Random.WeightedInstances * W) * GrpcCx * MetaInfo * option (outcome (Status H) (GrpcMsg H U))).
Abbreviation built := (build transport mi_timeout race).

(** Nothing about [name] is cached, or [a] is. *)
Definition caches (lb : gmap bytes Random.WeightedInstances) (name : bytes) (a : Address) : Prop :=
  lb !! name = None \/ lb !! name = Some (Random.weighted_from [mkInstance a 10 ∅]).

(** An address given by the options of a call, or else by the builder, is where the
    call goes; nothing is resolved or picked. *)
Theorem grpc_call_goes_to_address resolver draw b o path lb w mi req a :
  plain_builder resolver draw b -> call_deadline mi_timeout b o mi = None -> or_else (co_address o) (cb_target b) = Some a ->
  let c := built b in
  let cx := apply o (make_cx c path) in
  ep_address (gx_callee cx) = Some a /\
  client_call (with_opt o c) (lb, w) (make_cx c path) (Some mi) req = scoped (beside lb (built_transport transport b w cx mi req)).
Proof.
  intros Hb Hd Ha c cx. destruct (behind_default transport resolver draw b Hb) as [Hm Hbd].
  pose proof (call_untimed transport mi_timeout race b o path (lb, w) mi req Hm Hd) as Hc. cbn zeta in Hc. fold c in Hc. fold cx in Hc.
  destruct (call_cx_callee transport mi_timeout race b o path (proj1 (proj2 (proj2 Hb)))) as (_ & Hca & _).
  fold c in Hca. fold cx in Hca. rewrite Ha in Hca. split; [done|]. rewrite Hc, Hbd. unfold grpc_default_lb, lb_call. by rewrite Hca.
Qed.

(** C30: Without an address a call goes to the host its client was built for: the name
    is resolved once, the transport is called with the host's first address and
    port, which the URI it makes leads the connector to, and the address stays
    cached for every later call. *)
Theorem grpc_client_reaches_host resolver draw b o path lb w mi req bracket host p ip :
  plain_builder resolver draw b -> call_deadline mi_timeout b o mi = None -> or_else (co_address o) (cb_target b) = None ->
  0 <= draw < 10 -> host <> [] -> host_ok bracket host -> (forall p', p = Some p' -> in_width 16 p') ->
  cb_callee_name b = host_text bracket host ++ (match p with Some p => str ":" ++ dec_of_Z p | None => [] end) ->
  grpc_resolve resolver host = Some ip ->
  let c := built b in
  let cx := apply o (make_cx c path) in
  let a := Ip (socket_addr ip (default DEFAULT_PORT p)) in
  caches lb (cb_callee_name b) a ->
  exists lb', lb' !! cb_callee_name b = Some (Random.weighted_from [mkInstance a 10 ∅]) /\
    client_call (with_opt o c) (lb, w) (make_cx c path) (Some mi) req =
      scoped (beside lb' (built_transport transport b w (gx_callee_mut (Endpoint.set_address a) cx) mi req)) /\
    (connectable a -> forall u : Uri, build_uri (E := bytes) a path = Done u -> connect_target u = Done a).
Proof.
  intros Hb Hd Ha Hdraw Hne Hok Hp Hn Hr c cx a Hcache.
  destruct (behind_default transport resolver draw b Hb) as [Hm Hbd].
  pose proof (call_untimed transport mi_timeout race b o path (lb, w) mi req Hm Hd) as Hc. cbn zeta in Hc. fold c in Hc. fold cx in Hc.
  destruct (call_cx_callee transport mi_timeout race b o path (proj1 (proj2 (proj2 Hb)))) as (Hcn & Hca & _).
  fold c in Hcn, Hca. fold cx in Hcn, Hca. rewrite Ha in Hca. rewrite Hc, Hbd. unfold grpc_default_lb, lb_call. rewrite Hca.
  unfold Random.get_picker. cbn [discover_key discover grpc_discover_class]. rewrite Hcn.
  assert (grpc_discover resolver (gx_callee cx) = Done [mkInstance a 10 ∅]) as Hdisc.
  { unfold grpc_discover. rewrite Hca, Hcn. assert (parse_host_and_port (cb_callee_name b) = Done (host, default DEFAULT_PORT p)) as Hparse.
    { rewrite Hn. by apply parse_host_name. }
    destruct (cb_callee_name b) as [|x n]; [by apply host_name_nonempty in Hn|]. rewrite Hparse. cbn [mbind outcome_bind]. by rewrite Hr. }
  destruct (Random.next_single (E := LoadBalanceError) a 10 draw Hdraw) as [pk Hpk].
  destruct Hcache as [Hl|Hl]; rewrite Hl.
  - rewrite Hdisc. cbn [map_err mbind outcome_bind]. rewrite Hpk. eexists. split; [apply lookup_insert_eq|].
    split; [done|]. intros Hcn' u. by apply connector_reads_back.
  - cbn [mbind outcome_bind]. rewrite Hpk. exists lb. split_and!; [done..|]. intros Hcn' u. by apply connector_reads_back.
Qed.

(** The deadline a client has when nobody set one. *)
Lemma default_client_waits name mk_lb mi :
  mi_timeout mi = None -> call_deadline mi_timeout (builder_new (H := H) (T := T) (U := U) (W := W) (Tls := Tls) id name mk_lb) CallOpt_new mi = None.
Proof. intros Hm. unfold call_deadline. by rewrite Hm. Qed.
End Reach.

Module GrpcClientExample.
Import GrpcCallExample GrpcExample RandomExample.
Definition Uri : Type := bytes * bytes * bytes.
#[local] Instance debug : BuildProfile := true.
#[local] Instance quoted : DebugText := fun s => x22 :: s ++ [x22].
#[local] Instance uris : GrpcUri Uri := {| uri_build s a p := Some (s, a, p); uri_path u := u.2 |}.
#[local] Instance parts : GrpcUriParts Uri := {| uri_scheme_str u := Some u.1.1; uri_authority u := Some u.1.2 |}.
#[local] Instance parts_laws : GrpcUriLaws Uri.
Proof. split. by intros s a p u [= <-]. Qed.

Definition resolver : DnsResolver := mkDnsResolver (fun _ => Some [IpV4 1]).

(** A transport that answers with the address it was called at. *)
Definition where_to (_ : TransportConfig unit) : Handler (H := Headers) unit (list nat) (option Address) :=
  fun w cx mi req => (w, cx, mi, Done (mkMsg [] (ep_address (gx_callee cx)))).

Abbreviation State := (gmap bytes Random.WeightedInstances * unit)%type.

(** A timer that never ends. *)
Definition patient (t : Duration) (s : Handler (H := Headers) State (list nat) (option Address)) (w : State) cx mi req :=
  let '(w, cx, mi, r) := s w cx mi req in (w, cx, mi, Some r).

Definition builder := builder_new (H := Headers) (T := list nat) (U := option Address) (W := unit) (Tls := unit) id
  (str "a.example:8080") (grpc_default_lb resolver 3).
Definition no_deadline (_ : MetaInfo) : option Duration := None.
Definition the_client := build where_to no_deadline patient builder.
Definition request : GrpcMsg Headers (list nat) := mkMsg [] [1%nat].

Lemma grpc_client_reaches_host_witness :
  exists lb', client_call (with_opt CallOpt_new the_client) (∅, tt) (make_cx the_client method) (Some mi_default) request =
    scoped (beside lb' (built_transport where_to builder tt
      (gx_callee_mut (Endpoint.set_address (Ip (SocketAddrV4 1 8080))) (apply CallOpt_new (make_cx the_client method))) mi_default request)).
Proof.
  destruct (grpc_client_reaches_host (Uri := Uri) where_to no_deadline patient resolver 3 builder CallOpt_new method ∅ tt mi_default request
    false (str "a.example") (Some 8080) (IpV4 1)) as (lb' & _ & Heq & _).
  - apply builder_new_plain.
  - done.
  - done.
  - lia.
  - done.
  - split; intros Hin; vm_compute in Hin; repeat (apply elem_of_cons in Hin as [Hin|Hin]; [done|]); by apply not_elem_of_nil in Hin.
  - by intros p [= <-].
  - by vm_compute.
  - done.
  - by left.
  - exists lb'. exact Heq.
Defined.

(** A call with a second to answer, under a deadline of half a second. *)
Definition second : CallOpt := mkCallOpt ∅ ∅ None (mkGrpcConfig (Some (10 ^ 9)) None None None None None) ∅ ∅.
Definition half (_ : MetaInfo) : option Duration := Some (5 * 10 ^ 8).

(** An outer layer that writes the name of the method into the request. *)
Definition tagging (next : Handler (H := Headers) State (list nat) (option Address)) : Handler (H := Headers) State (list nat) (option Address) :=
  fun s cx mi req => next s cx mi (mkMsg (hm_insert (str "x-tag") (gx_method cx) (gm_metadata req)) (gm_message req)).
Definition client3 := build where_to half patient (layer_outer tagging (address addr builder)).

Lemma grpc_call_deadline_witness :
  client_call (with_opt second client3) (∅, tt) (make_cx client3 method) (Some mi_default) request =
    scoped (let '(s, cx, mi, r) :=
              patient (5 * 10 ^ 8) (tagging (grpc_default_lb resolver 3 (built_transport where_to (address addr builder)))) (∅, tt)
                (apply second (make_cx client3 method)) mi_default (mkMsg (hm_insert GRPC_TIMEOUT_HEADER (str "500m") []) [1%nat]) in
            (s, cx, mi, match r with Some r => r | None => Fail (Status.new DeadlineExceeded (str "timeout")) end)).
Proof.
  apply (grpc_call_deadline where_to half patient (layer_outer tagging (address addr builder)) second method (∅, tt) mi_default request).
  - done.
  - by vm_compute.
  - by vm_compute.
  - by vm_compute.
Defined.

Lemma grpc_call_goes_to_address_witness :
  ep_address (gx_callee (apply CallOpt_new (make_cx (build where_to no_deadline patient (address addr builder)) method))) = Some addr.
Proof.
  destruct (grpc_call_goes_to_address where_to no_deadline patient resolver 3 (address addr builder) CallOpt_new method ∅ tt mi_default request addr)
    as [Ha _].
  - repeat split.
  - done.
  - done.
  - exact Ha.
Defined.
End GrpcClientExample.
