(* ===== verification/HttpLayers.v ===== *)
(** The layers of the HTTP client that rewrite a request: headers and [Host]
    (volo-http/src/client/layer/header.rs), a fixed target (layer/utils.rs), an
    HTTP proxy (layer/http_proxy.rs) and redirects (layer/redirect.rs).

    A layer is a function from the inner service to a service. *)

From S2P Require Import Prelude Net Context Headers HttpTarget GrpcStatus.

Definition HOST : bytes := str "host".
Definition USER_AGENT : bytes := str "user-agent".
Definition AUTHORIZATION : bytes := str "authorization".
Definition COOKIE : bytes := str "cookie".
Definition LOCATION : bytes := str "location".
Definition CONTENT_TYPE : bytes := str "content-type".
Definition CONTENT_LENGTH : bytes := str "content-length".
Definition CONTENT_ENCODING : bytes := str "content-encoding".
Definition TRANSFER_ENCODING : bytes := str "transfer-encoding".

Section Layers.
Context {tls : TlsFeature} {iptext : IpText} {U H : Type} {uops : UriOps U} {hmap : HeaderMap H} {S : Type}.

Implicit Types (inner : Service U H S) (cx : ClientContext) (req : Request U H) (p : Parts U H).

(** * Headers *)

Definition insert_header (k v : bytes) req : Request U H :=
  mkRequest (with_headers (hm_insert k v (pt_headers (rq_parts req))) (rq_parts req)) (rq_body req).

Definition has_header (k : bytes) req : bool := hm_contains k (pt_headers (rq_parts req)).

(** [HeaderService::call]. *)
Definition header_service (key val : bytes) inner : Service U H S :=
  fun s cx req => inner s cx (insert_header key val req).

Inductive Host : Type := HostNone | HostAuto | HostForce (v : bytes) | HostFallback (v : bytes).

Definition UDS_HOST : bytes := str "unix-domain-socket".

(** The host and, unless it is the default one, the port of a remote target. *)
Definition host_and_port (rt : RemoteTarget) : outcome ClientError bytes :=
  d ← is_default_port (rt_scheme rt) (rt_port rt);
  Done (host_to_string (rt_host rt) ++ (if d : bool then [] else str ":" ++ dec_of_Z (rt_port rt))).

(** [gen_host]. *)
Definition gen_host (t : Target) : outcome ClientError (option bytes) :=
  match t with
  | TNone => Done None
  | Remote rt => h ← host_and_port rt; Done (header_value h)
  | Local _ => Done (Some UDS_HOST)
  end.

(** A call of [inner] after a computation that may panic. *)
Definition then_call {A} (m : outcome ClientError A) (s : S) cx (k : A -> S * ClientContext * outcome ClientError (Response H)) :
    S * ClientContext * outcome ClientError (Response H) :=
  match m with
  | Done a => k a
  | Fail e => (s, cx, Fail e)
  | Panic => (s, cx, Panic)
  | OutOfFuel => (s, cx, OutOfFuel)
  end.

(** [HostService::call]. *)
Definition host_service (config : Host) inner : Service U H S :=
  fun s cx req =>
    match config with
    | HostNone => inner s cx req
    | HostAuto =>
        if has_header HOST req then inner s cx req
        else then_call (gen_host (hcx_target cx)) s cx (fun h =>
               inner s cx (match h with Some v => insert_header HOST v req | None => req end))
    | HostForce v => inner s cx (insert_header HOST v req)
    | HostFallback v => inner s cx (if has_header HOST req then req else insert_header HOST v req)
    end.

(** [UserAgentService::call]. *)
Definition user_agent_service (val : bytes) inner : Service U H S :=
  fun s cx req => inner s cx (if has_header USER_AGENT req then req else insert_header USER_AGENT val req).

(** [TargetService::call]. *)
Definition target_service (target : Target) (service_name : bytes) inner : Service U H S :=
  fun s cx req =>
    let cx := apply_target target cx in
    let req := mkRequest (update_request_extension target (rq_parts req)) (rq_body req) in
    let cx := match service_name with [] => cx | _ => callee_mut (Endpoint.set_service_name service_name) cx end in
    if has_header HOST req then inner s cx req
    else then_call (gen_host target) s cx (fun h =>
           inner s cx (match h with Some v => insert_header HOST v req | None => req end)).

(** * The proxy *)

(** [parse_uri]. *)
Definition proxy_parse_uri (u : U) : option Target :=
  match uri_scheme u with
  | Some HTTPS | Some (OtherScheme _) => None
  | _ => match from_uri_parts (uri_scheme u) (uri_host u) (uri_port u) with Done t => Some t | _ => None end
  end.

(** [parse_env], given the two environment variables. *)
Definition parse_env (http_proxy HTTP_PROXY : option bytes) : option U :=
  match http_proxy with
  | Some uri => uri_parse uri
  | None => match HTTP_PROXY with Some uri => uri_parse uri | None => None end
  end.

(** [HttpProxy::env], [HttpProxy::new] on a text. *)
Definition proxy_env (http_proxy HTTP_PROXY : option bytes) : option Target :=
  parse_env http_proxy HTTP_PROXY ≫= proxy_parse_uri.
Definition proxy_new (uri : bytes) : option Target := uri_parse uri ≫= proxy_parse_uri.

(** [gen_authority]. *)
Definition gen_authority (t : Target) : outcome ClientError (option bytes) :=
  match t with
  | Remote rt => h ← host_and_port rt; Done (Some h)
  | _ => Done None
  end.

(** [HttpProxyService::update_req]: the context and the request for the proxy and
    the target to restore, or nothing. *)
Definition update_req (proxy : option Target) cx req : outcome ClientError (option (ClientContext * Request U H * Target)) :=
  match proxy with
  | None => Done None
  | Some target =>
      if negb (bool_decide (pt_version (rq_parts req) = HTTP_11)) then Done None
      else if match target_scheme (hcx_target cx) with Some s => negb (bool_decide (s = HTTP)) | None => false end then Done None
      else
        authority ← gen_authority (hcx_target cx);
        match authority ≫= authority_parse with
        | None => Done None
        | Some authority =>
            let path := default (str "/") (uri_path_and_query (pt_uri (rq_parts req))) in
            match uri_from_parts HTTP authority path with
            | None => Done None
            | Some uri =>
                let '(cx, old_target) := apply_and_replace target (callee_mut Endpoint.clear cx) in
                Done (Some (cx, mkRequest (with_uri uri (rq_parts req)) (rq_body req), old_target))
            end
        end
  end.

Definition gateway_result (proxy : option Target) (r : outcome ClientError (Response H)) : outcome ClientError (Response H) :=
  match proxy with
  | Some gateway => map_err (fun e => GatewayError e gateway) r
  | None => r
  end.

(** [HttpProxyService::call]. *)
Definition http_proxy_service (proxy : option Target) inner : Service U H S :=
  fun s cx req =>
    then_call (update_req proxy cx req) s cx (fun u =>
      match u with
      | Some (cx, req, old_target) =>
          let '(s, cx, r) := inner s cx req in
          (s, update_target old_target cx, gateway_result proxy r)
      | None =>
          let '(s, cx, r) := inner s cx req in (s, cx, gateway_result proxy r)
      end).

(** * Redirects *)

(** [status_is_redirect]. *)
Definition status_is_redirect (status : Z) : bool := bool_decide (status ∈ [301; 302; 303; 307; 308]).

(** [should_change_to_get]. *)
Definition should_change_to_get (status : Z) (method : Method) : bool :=
  if status =? 303 then negb (bool_decide (method = HEAD))
  else if (status =? 301) || (status =? 302) then bool_decide (method = POST)
  else false.

(** [change_to_get]. *)
Definition change_to_get p : Parts U H :=
  let h := pt_headers p in
  with_headers (hm_remove TRANSFER_ENCODING (hm_remove CONTENT_ENCODING (hm_remove CONTENT_LENGTH (hm_remove CONTENT_TYPE h))))
    (with_method GET p).

(** [remote_host_changed], [origin_changed]. *)
Definition remote_host_changed (old new : RemoteHost) : bool :=
  match old, new with
  | HostIp a, HostIp b => negb (bool_decide (a = b))
  | HostName a, HostName b => negb (eq_ignore_ascii_case a b)
  | _, _ => true
  end.

Definition origin_changed (old new : Target) : bool :=
  match remote_ref old, remote_ref new with
  | Some old, Some new =>
      negb (bool_decide (rt_scheme old = rt_scheme new)) || negb (rt_port old =? rt_port new) ||
      remote_host_changed (rt_host old) (rt_host new)
  | _, _ => true
  end.

(** [remove_sensitive_headers_on_origin_change]. *)
Definition remove_sensitive_headers_on_origin_change (old new : Target) p : Parts U H :=
  if origin_changed old new then with_headers (hm_remove COOKIE (hm_remove AUTHORIZATION (pt_headers p))) p else p.

(** [update_host]. *)
Definition update_host (target : Target) p : outcome ClientError (Parts U H) :=
  if hm_contains HOST (pt_headers p) then
    let h := hm_remove HOST (pt_headers p) in
    host ← gen_host target;
    Done (with_headers (match host with Some v => hm_insert HOST v h | None => h end) p)
  else Done p.

(** [HeaderValue::to_str]: visible ASCII and tabs. *)
Definition to_str (v : bytes) : option bytes :=
  if forallb (fun b => let z := Z_of_byte b in (32 <=? z) && (z <? 127) || (z =? 9)) v then Some v else None.

(** [Url::parse] followed by [Url::join], as text. *)
Context (url_join : bytes -> bytes -> option bytes).

(** [resolve_redirect]. *)
Definition resolve_redirect (target : Target) (current_uri : U) (location : bytes) : outcome ClientError (option (Target * U)) :=
  match to_str location with
  | None => Done None
  | Some location =>
      base ← target_to_string target;
      match url_join (base ++ uri_to_string current_uri) location ≫= uri_parse with
      | None => Done None
      | Some uri =>
          match from_uri_parts (uri_scheme uri) (uri_host uri) (uri_port uri) with
          | Done target => Done (Some (target, uri_of_path (default (str "/") (uri_path_and_query uri))))
          | Fail _ => Done None
          | Panic => Panic
          | OutOfFuel => OutOfFuel
          end
      end
  end.

(** [RedirectPredicate]. *)
Context (should_follow : Target -> Parts U H -> bool).

(** The request head of the next hop. *)
Definition next_parts (status : Z) (old target : Target) (uri : U) p : outcome ClientError (Parts U H) :=
  let p := if should_change_to_get status (pt_method p) then change_to_get p else p in
  p ← update_host target (remove_sensitive_headers_on_origin_change old target (with_uri uri p));
  Done (update_request_extension target p).

(** Decision on a response: it goes to the caller, the call fails, or the next hop
    has this target, this head and this body. *)
Inductive Decision : Type :=
| Return (r : outcome ClientError (Response H))
| Follow (target : Target) (p : Parts U H) (body : Body).

Definition decide_hop (max_redirects redirects : nat) cx p (body : Body) (can_replay : bool) (resp : Response H) : Decision :=
  if negb (status_is_redirect (rs_status resp)) then Return (Done resp)
  else if (max_redirects <=? redirects)%nat then Return (Fail TooManyRedirects)
  else
    match hm_get LOCATION (rs_headers resp) with
    | None => Return (Done resp)
    | Some location =>
        match resolve_redirect (hcx_target cx) (pt_uri p) location with
        | Done None => Return (Fail InvalidRedirectLocation)
        | Done (Some (target, uri)) =>
            let to_get := should_change_to_get (rs_status resp) (pt_method p) in
            match next_parts (rs_status resp) (hcx_target cx) target uri p with
            | Done p =>
                if negb (should_follow target p) then Return (Done resp)
                else if negb to_get && negb can_replay then Return (Fail BodyNotReplayable)
                else Follow target p (if to_get then body_empty else body)
            | Fail e => Return (Fail e)
            | Panic => Return Panic
            | OutOfFuel => Return OutOfFuel
            end
        | Fail e => Return (Fail e)
        | Panic => Return Panic
        | OutOfFuel => Return OutOfFuel
        end
    end.

(** The loop of [FollowRedirectService::call]. *)
Fixpoint redirect_loop (fuel : nat) (max_redirects redirects : nat) inner (s : S) cx p (body : Body) :
    S * ClientContext * outcome ClientError (Response H) :=
  match fuel with
  | O => (s, cx, OutOfFuel)
  | Datatypes.S fuel =>
      let '(this_body, body, can_replay) :=
        match try_clone body with Some retained => (body, retained, true) | None => (body, body_empty, false) end in
      let '(s, cx, r) := inner s cx (mkRequest p this_body) in
      match r with
      | Done resp =>
          match decide_hop max_redirects redirects cx p body can_replay resp with
          | Return r => (s, cx, r)
          | Follow target p body =>
              redirect_loop fuel max_redirects (Datatypes.S redirects) inner s (update_target target cx) p body
          end
      | Fail e => (s, cx, Fail e)
      | Panic => (s, cx, Panic)
      | OutOfFuel => (s, cx, OutOfFuel)
      end
  end.

(** [FollowRedirectService::call]. Every turn but the last adds a redirect, and
    the limit ends the loop, so one turn more than the limit is enough. *)
Definition follow_redirect_service (max_redirects : nat) inner : Service U H S :=
  fun s cx req =>
    if (max_redirects =? 0)%nat || negb (should_follow (hcx_target cx) (rq_parts req)) then inner s cx req
    else redirect_loop (Datatypes.S max_redirects) max_redirects 0 inner s cx (rq_parts req) (rq_body req).

End Layers.

(** What the inner service is asked, and answers: a service that keeps a record. *)
Definition Trace (U H : Type) : Type := list (Target * Request U H * outcome ClientError (Response H)).

Definition traced {U H S} (inner : Service U H S) : Service U H (S * Trace U H) :=
  fun s cx req =>
    let '(s', cx', r) := inner s.1 cx req in
    ((s', s.2 ++ [(hcx_target cx, req, r)]), cx', r).
