(* ===== verification/HttpRedirect.v ===== *)
(** What following redirects does with a request: the requests that are sent are
    a chain of permitted hops, credentials stay with their origin, and the
    proxy below gives back the target it borrowed. *)

From S2P Require Import Prelude Net Context Headers GrpcStatus HttpTarget HttpLayers.

(** * Origins *)

Definition same_origin (a b : Target) : Prop := origin_changed a b = false.

Lemma host_unchanged_trans a b c :
  remote_host_changed a b = false -> remote_host_changed b c = false -> remote_host_changed a c = false.
Proof.
  destruct a, b, c; cbn; try done; unfold eq_ignore_ascii_case; rewrite !negb_false_iff, !bool_decide_eq_true; congruence.
Qed.

Lemma same_origin_trans a b c : same_origin a b -> same_origin b c -> same_origin a c.
Proof.
  unfold same_origin, origin_changed. destruct (remote_ref a), (remote_ref b), (remote_ref c); try done.
  rewrite !orb_false_iff, !negb_false_iff, !bool_decide_eq_true, !Z.eqb_eq.
  intros [[-> ->] H1] [[-> ->] H2]. split; [done|]. by eapply host_unchanged_trans.
Qed.

Section Redirect.
Context {tls : TlsFeature} {iptext : IpText} {U H : Type} {uops : UriOps U} {hmap : HeaderMap H}.
Context {laws : HeaderMapLaws H}.
Context (url_join : bytes -> bytes -> option bytes) (should_follow : Target -> Parts U H -> bool).

Implicit Types (p : Parts U H) (req : Request U H).

(** The header that a part has under [k]. *)
Definition header_of (k : bytes) req : option bytes := hm_get k (pt_headers (rq_parts req)).

(** ** One hop *)

Definition CREDENTIALS : list bytes := [AUTHORIZATION; COOKIE].
Definition CONTENT_HEADERS : list bytes := [CONTENT_TYPE; CONTENT_LENGTH; CONTENT_ENCODING; TRANSFER_ENCODING].

Lemma host_not_content : HOST ∉ CONTENT_HEADERS.
Proof. apply (bool_decide_eq_false_1 (HOST ∈ CONTENT_HEADERS)). vm_compute. reflexivity. Qed.

Lemma host_not_credential : HOST ∉ CREDENTIALS.
Proof. apply (bool_decide_eq_false_1 (HOST ∈ CREDENTIALS)). vm_compute. reflexivity. Qed.

Lemma credential_not_content k : k ∈ CREDENTIALS -> k ∉ CONTENT_HEADERS.
Proof.
  intros Hk. apply (bool_decide_eq_false_1 (k ∈ CONTENT_HEADERS)). unfold CREDENTIALS in Hk.
  rewrite !elem_of_cons in Hk. destruct Hk as [->|[->|[]%elem_of_nil]]; vm_compute; reflexivity.
Qed.

(** What a redirect with [status] lets the next request be. *)
Record hop_ok (status : Z) (old new : Target) req req' : Prop := mkHop {
  hop_to_get : should_change_to_get status (pt_method (rq_parts req)) = true ->
    pt_method (rq_parts req') = GET /\ rq_body req' = body_empty /\
    forall k, k ∈ CONTENT_HEADERS -> header_of k req' = None;
  hop_keeps : should_change_to_get status (pt_method (rq_parts req)) = false ->
    pt_method (rq_parts req') = pt_method (rq_parts req) /\ rq_body req' = rq_body req /\
    try_clone (rq_body req) = Some (rq_body req) /\
    forall k, k ∈ CONTENT_HEADERS -> header_of k req' = header_of k req;
  hop_credentials k : k ∈ CREDENTIALS ->
    header_of k req' = if origin_changed old new then None else header_of k req;
  hop_host : header_of HOST req' =
    match header_of HOST req with
    | Some _ => match gen_host new with Done h => h | _ => None end
    | None => None
    end;
  hop_others k : k ∉ HOST :: CREDENTIALS ++ CONTENT_HEADERS -> header_of k req' = header_of k req;
  hop_scheme : pt_ext_scheme (rq_parts req') = target_scheme new
}.

Lemma update_host_spec target p p' :
  update_host target p = Done p' ->
  pt_method p' = pt_method p /\ pt_uri p' = pt_uri p /\ pt_ext_scheme p' = pt_ext_scheme p /\
  (forall k, hm_get k (pt_headers p') =
     if bool_decide (k = HOST)
     then match hm_get HOST (pt_headers p) with Some _ => match gen_host target with Done h => h | _ => None end | None => None end
     else hm_get k (pt_headers p)).
Proof.
  unfold update_host, hm_contains. destruct (hm_get HOST (pt_headers p)) as [v|] eqn:Hh.
  - intros (h & Hg & [= <-])%bind_done_inv. repeat split. intros k. rewrite Hg. cbn.
    destruct h as [v'|]; rewrite ?get_insert, get_remove; by case_bool_decide.
  - intros [= <-]. repeat split. intros k. by case_bool_decide as E; [rewrite E|].
Qed.

Lemma sensitive_get old new p k :
  hm_get k (pt_headers (remove_sensitive_headers_on_origin_change old new p)) =
    if origin_changed old new && bool_decide (k ∈ CREDENTIALS) then None else hm_get k (pt_headers p).
Proof.
  unfold remove_sensitive_headers_on_origin_change. destruct (origin_changed old new); [|done].
  cbn [pt_headers with_headers]. rewrite !get_remove. unfold CREDENTIALS. cbn [andb].
  destruct (decide (k = COOKIE)) as [->|]; [done|]. destruct (decide (k = AUTHORIZATION)) as [->|]; [done|].
  rewrite !bool_decide_eq_false_2; [done|..]; try done. rewrite !elem_of_cons. intros [|[|[]%elem_of_nil]]; done.
Qed.

Lemma to_get_headers p k :
  hm_get k (pt_headers (change_to_get p)) = if bool_decide (k ∈ CONTENT_HEADERS) then None else hm_get k (pt_headers p).
Proof.
  unfold change_to_get, CONTENT_HEADERS. cbn [pt_headers with_headers]. rewrite !get_remove.
  destruct (decide (k = TRANSFER_ENCODING)) as [->|]; [done|]. destruct (decide (k = CONTENT_ENCODING)) as [->|]; [done|].
  destruct (decide (k = CONTENT_LENGTH)) as [->|]; [done|]. destruct (decide (k = CONTENT_TYPE)) as [->|]; [done|].
  rewrite !bool_decide_eq_false_2; [done|..]; try done. rewrite !elem_of_cons. intros [|[|[|[|[]%elem_of_nil]]]]; done.
Qed.

Lemma sensitive_rest old new p :
  pt_method (remove_sensitive_headers_on_origin_change old new p) = pt_method p /\
  pt_uri (remove_sensitive_headers_on_origin_change old new p) = pt_uri p.
Proof. unfold remove_sensitive_headers_on_origin_change. by destruct (origin_changed old new). Qed.

(** The head of the next hop, field by field. *)
Lemma next_parts_spec status old new uri p p' :
  next_parts status old new uri p = Done p' ->
  pt_uri p' = uri /\ pt_ext_scheme p' = target_scheme new /\
  pt_method p' = (if should_change_to_get status (pt_method p) then GET else pt_method p) /\
  forall k, hm_get k (pt_headers p') =
    if bool_decide (k = HOST) then
      match hm_get HOST (pt_headers p) with Some _ => match gen_host new with Done h => h | _ => None end | None => None end
    else if origin_changed old new && bool_decide (k ∈ CREDENTIALS) then None
    else if should_change_to_get status (pt_method p) && bool_decide (k ∈ CONTENT_HEADERS) then None
    else hm_get k (pt_headers p).
Proof.
  unfold next_parts. intros (q & Hq & [= <-])%bind_done_inv.
  apply update_host_spec in Hq as (Hm & Hu & _ & Hh).
  cbn [update_request_extension pt_uri pt_ext_scheme pt_method pt_headers].
  set (p1 := if should_change_to_get status (pt_method p) then change_to_get p else p) in *.
  destruct (sensitive_rest old new (with_uri uri p1)) as [Hm1 Hu1].
  split; [by rewrite Hu, Hu1|]. split; [done|]. split.
  { rewrite Hm, Hm1. unfold p1. cbn. by destruct (should_change_to_get status (pt_method p)). }
  assert (forall k, hm_get k (pt_headers p1) =
    if should_change_to_get status (pt_method p) && bool_decide (k ∈ CONTENT_HEADERS) then None else hm_get k (pt_headers p)) as Hp1.
  { intros k. unfold p1. destruct (should_change_to_get _ _); [apply to_get_headers|done]. }
  intros k. rewrite Hh. rewrite !sensitive_get. cbn [pt_headers with_uri]. rewrite !Hp1.
  destruct (bool_decide (k = HOST)); [|done].
  by rewrite (bool_decide_eq_false_2 _ host_not_credential), (bool_decide_eq_false_2 _ host_not_content), !andb_false_r.
Qed.

(** The next request of a decision to follow. *)
Lemma next_hop_ok status old new uri p p' body :
  next_parts status old new uri p = Done p' ->
  (should_change_to_get status (pt_method p) = false -> try_clone body = Some body) ->
  hop_ok status old new (mkRequest p body)
    (mkRequest p' (if should_change_to_get status (pt_method p) then body_empty else body)).
Proof.
  intros (Hu & Hs & Hm & Hh)%next_parts_spec Hb. split; unfold header_of; cbn [rq_parts rq_body].
  - intros E. rewrite E in *. split; [done|]. split; [done|]. intros k Hk.
    rewrite Hh, (bool_decide_eq_true_2 _ Hk), bool_decide_eq_false_2; [by destruct (_ && _)|].
    intros ->. by apply host_not_content.
  - intros E. rewrite E in *. split; [done|]. split; [done|]. split; [by apply Hb|]. intros k Hk. rewrite Hh. cbn [andb].
    rewrite (bool_decide_eq_false_2 (k = HOST)), (bool_decide_eq_false_2 (k ∈ CREDENTIALS)), andb_false_r; [done|..].
    + intros Hc. by apply (credential_not_content k).
    + intros ->. by apply host_not_content.
  - intros k Hk. rewrite Hh, (bool_decide_eq_true_2 _ Hk), andb_true_r.
    rewrite (bool_decide_eq_false_2 _ (credential_not_content k Hk)), andb_false_r, bool_decide_eq_false_2; [done|].
    intros ->. by apply host_not_credential.
  - by rewrite Hh, bool_decide_eq_true_2.
  - intros k Hk. rewrite elem_of_cons, elem_of_app in Hk.
    rewrite Hh, !bool_decide_eq_false_2, !andb_false_r by tauto. done.
  - done.
Qed.

(** ** The chain of requests *)

Abbreviation Entry := (Target * Request U H * outcome ClientError (Response H))%type.

(** The response to [a] redirects, and [b] is what it redirects to. *)
Definition follows (a b : Entry) : Prop :=
  exists resp location uri,
    a.2 = Done resp /\ status_is_redirect (rs_status resp) = true /\
    hm_get LOCATION (rs_headers resp) = Some location /\
    resolve_redirect url_join a.1.1 (pt_uri (rq_parts a.1.2)) location = Done (Some (b.1.1, uri)) /\
    pt_uri (rq_parts b.1.2) = uri /\ should_follow b.1.1 (rq_parts b.1.2) = true /\
    hop_ok (rs_status resp) a.1.1 b.1.1 a.1.2 b.1.2.

Inductive chain : Entry -> list Entry -> Prop :=
| chain_one a : chain a []
| chain_more a b tr : follows a b -> chain b tr -> chain a (b :: tr).

Context {S : Type}.
Implicit Types inner : Service U H S.

(** An inner service that leaves the target as it found it. *)
Definition keeps_target inner : Prop :=
  forall s cx req, hcx_target (inner s cx req).1.2 = hcx_target cx.

Lemma decide_follow max n cx p body can_replay resp target p' body' :
  decide_hop url_join should_follow max n cx p body can_replay resp = Follow target p' body' ->
  (n < max)%nat /\ status_is_redirect (rs_status resp) = true /\
  exists location uri,
    hm_get LOCATION (rs_headers resp) = Some location /\
    resolve_redirect url_join (hcx_target cx) (pt_uri p) location = Done (Some (target, uri)) /\
    next_parts (rs_status resp) (hcx_target cx) target uri p = Done p' /\
    should_follow target p' = true /\
    (should_change_to_get (rs_status resp) (pt_method p) = false -> can_replay = true) /\
    body' = (if should_change_to_get (rs_status resp) (pt_method p) then body_empty else body).
Proof.
  unfold decide_hop. destruct (status_is_redirect (rs_status resp)); cbn [negb]; [|done].
  destruct (max <=? n)%nat eqn:Hn; [done|]. apply Nat.leb_gt in Hn.
  destruct (hm_get LOCATION (rs_headers resp)) as [location|]; [|done].
  destruct (resolve_redirect _ _ _ _) as [[[t uri]|]| | |] eqn:Hr; try done.
  destruct (next_parts _ _ _ _ _) as [q| | |] eqn:Hp; try done.
  destruct (should_follow t q) eqn:Hf; cbn [negb]; [|done].
  destruct (should_change_to_get _ _) eqn:Hg; cbn [negb andb].
  - intros [= <- <- <-]. split; [done|]. split; [done|]. by exists location, uri.
  - destruct can_replay; [|done]. intros [= <- <- <-]. split; [done|]. split; [done|]. by exists location, uri.
Qed.

(** What the caller gets is the last answer or an error of the layer. *)
Definition answer_ok (last : Entry) (r : outcome ClientError (Response H)) : Prop :=
  (forall resp, r = Done resp -> last.2 = Done resp) /\ (r = OutOfFuel -> last.2 = OutOfFuel).

Lemma halts_default_port scheme : halts (get_default_port scheme).
Proof. unfold get_default_port. halts. Qed.
#[local] Hint Resolve halts_default_port : volo_halts.

Lemma halts_is_default_port scheme port : halts (is_default_port scheme port).
Proof. unfold is_default_port. halts. Qed.
#[local] Hint Resolve halts_is_default_port : volo_halts.

Lemma halts_gen_host t : halts (gen_host t).
Proof. unfold gen_host, host_and_port. halts. Qed.
#[local] Hint Resolve halts_gen_host : volo_halts.

Lemma halts_from_uri scheme host port : halts (from_uri_parts scheme host port).
Proof. unfold from_uri_parts, check_scheme. halts. Qed.

Lemma halts_resolve t u l : halts (resolve_redirect url_join t u l).
Proof.
  unfold resolve_redirect. destruct (to_str l); [|halts].
  apply halts_bind; [unfold target_to_string, remote_to_string; halts|]. intros base _.
  destruct (_ ≫= uri_parse) as [uri|]; [|halts].
  pose proof (halts_from_uri (uri_scheme uri) (uri_host uri) (uri_port uri)). by destruct (from_uri_parts _ _ _).
Qed.

Lemma halts_next_parts status old new uri p : halts (next_parts status old new uri p).
Proof. unfold next_parts, update_host. halts. Qed.

Lemma decide_return max n cx p body can_replay resp r :
  decide_hop url_join should_follow max n cx p body can_replay resp = Return r ->
  (forall resp', r = Done resp' -> resp' = resp) /\ r <> OutOfFuel.
Proof.
  unfold decide_hop. destruct (status_is_redirect (rs_status resp)); cbn [negb]; [|by intros [= <-]; split; [congruence|]].
  destruct (max <=? n)%nat; [by intros [= <-]|].
  destruct (hm_get LOCATION (rs_headers resp)) as [location|]; [|by intros [= <-]; split; [congruence|]].
  destruct (resolve_redirect _ _ _ _) as [[[t uri]|]| | |] eqn:Hr; try (by intros [= <-]).
  - destruct (next_parts _ _ _ _ _) as [q| | |] eqn:Hp; try (by intros [= <-]).
    + destruct (negb (should_follow t q)); [by intros [= <-]; split; [congruence|]|].
      destruct (_ && _); [by intros [= <-]|done].
    + by destruct (halts_next_parts (rs_status resp) (hcx_target cx) t uri p).
  - by destruct (halts_resolve (hcx_target cx) (pt_uri p) location).
Qed.

(** The loop from its [n]th redirect on, with the inner service keeping a record. *)
Lemma loop_chain fuel : forall max n inner s tr0 cx p body,
  keeps_target inner -> (fuel + n = Datatypes.S max)%nat -> (n <= max)%nat ->
  let '((s', tr), cx', r) := redirect_loop url_join should_follow fuel max n (traced inner) (s, tr0) cx p body in
  exists o rest last,
    tr = tr0 ++ (hcx_target cx, mkRequest p body, o) :: rest /\
    chain (hcx_target cx, mkRequest p body, o) rest /\ (n + length rest <= max)%nat /\
    list.last ((hcx_target cx, mkRequest p body, o) :: rest) = Some last /\
    hcx_target cx' = last.1.1 /\ answer_ok last r.
Proof.
  induction fuel as [|fuel IH]; intros max n inner s tr0 cx p body Hk Hf Hn; [lia|].
  cbn [redirect_loop].
  set (bodies := match try_clone body with Some retained => _ | None => _ end).
  assert (exists retained replay, bodies = (body, retained, replay) /\ (replay = true -> retained = body /\ try_clone body = Some body))
    as (retained & replay & -> & Hrep).
  { unfold bodies. destruct body; cbn; eexists _, _; (split; [reflexivity|]); done. }
  unfold traced at 1. cbn [fst snd]. specialize (Hk s cx (mkRequest p body)) as Hcx.
  destruct (inner s cx (mkRequest p body)) as [[s1 cx1] r1] eqn:Hin. cbn [fst snd] in Hcx |- *.
  set (e := (hcx_target cx, mkRequest p body, r1)).
  assert (forall r, answer_ok e r -> exists o rest last,
    tr0 ++ [e] = tr0 ++ (hcx_target cx, mkRequest p body, o) :: rest /\
    chain (hcx_target cx, mkRequest p body, o) rest /\ (n + length rest <= max)%nat /\
    list.last ((hcx_target cx, mkRequest p body, o) :: rest) = Some last /\
    hcx_target cx1 = last.1.1 /\ answer_ok last r) as Hstop.
  { intros r Hr. exists r1, [], e. repeat split; try done; [constructor|cbn; lia|apply Hr|apply Hr]. }
  destruct r1 as [resp|err| |]; try (apply Hstop; by split).
  destruct (decide_hop _ _ max n cx1 p retained replay resp) as [r|t' p' body'] eqn:Hd.
  - apply decide_return in Hd as [Hd1 Hd2]. apply Hstop. split; [|done]. intros resp' ->. by rewrite (Hd1 resp' eq_refl).
  - apply decide_follow in Hd as (Hlt & Hst & location & uri & Hl & Hres & Hp & Hsf & Hreplay & ->).
    assert ((if should_change_to_get (rs_status resp) (pt_method p) then body_empty else retained) =
            (if should_change_to_get (rs_status resp) (pt_method p) then body_empty else body)) as ->.
    { destruct (should_change_to_get _ _); [done|]. by apply Hrep, Hreplay. }
    specialize (IH max (Datatypes.S n) inner s1 (tr0 ++ [e]) (update_target t' cx1) p'
      (if should_change_to_get (rs_status resp) (pt_method p) then body_empty else body) Hk).
    destruct (redirect_loop _ _ _ _ _ _ _ _ _ _) as [[[s2 tr] cx2] r2].
    destruct IH as (o & rest & last & -> & Hch & Hlen & Hlast & Hcx2 & Hans); [lia..|].
    rewrite update_target_target in *. rewrite Hcx in *.
    eexists _, (_ :: rest), last. rewrite <- app_assoc. split; [reflexivity|]. split; [|split; [cbn; lia|done]].
    constructor; [|done]. exists resp, location, uri. split_and!; try done.
    + by apply (next_parts_spec _ _ _ _ _ _ Hp).
    + eapply next_hop_ok; [done|]. intros E. by apply Hrep, Hreplay.
Qed.

(** C9: Following redirects is a chain of permitted hops: every request but the first is
    sent because the response before it was a redirect with a location, goes
    where that location resolves to from the request before it, satisfies the
    predicate, and is what the status allows (GET without body and content
    headers, or the same method with the same, replayable body; credentials
    only within an origin; the host of the new target). There are at most
    [max_redirects] of them, the caller gets the last response or an error,
    and the context is left at the target of the last request. *)
Theorem redirect_chain max inner s cx req :
  keeps_target inner -> max <> 0%nat -> should_follow (hcx_target cx) (rq_parts req) = true ->
  let '((s', tr), cx', r) := follow_redirect_service url_join should_follow max (traced inner) (s, []) cx req in
  exists o rest last,
    tr = (hcx_target cx, req, o) :: rest /\ chain (hcx_target cx, req, o) rest /\ (length rest <= max)%nat /\
    list.last tr = Some last /\ hcx_target cx' = last.1.1 /\ answer_ok last r.
Proof.
  intros Hk Hm Hf. unfold follow_redirect_service. rewrite Hf.
  rewrite (proj2 (Nat.eqb_neq max 0) Hm). cbn [orb negb].
  pose proof (loop_chain (Datatypes.S max) max 0 inner s [] cx (rq_parts req) (rq_body req) Hk) as Hl.
  destruct (redirect_loop _ _ _ _ _ _ _ _ _ _) as [[[s' tr] cx'] r]. destruct req as [p body].
  destruct Hl as (o & rest & last & -> & Hch & Hlen & Hlast & Hrest); [lia..|]. by exists o, rest, last.
Qed.

(** Requests further down a chain carry a credential only within the origin of
    the first one. *)
Lemma chain_credentials k a tr :
  k ∈ CREDENTIALS -> chain a tr ->
  Forall (fun b => header_of k b.1.2 <> None -> same_origin a.1.1 b.1.1 /\ header_of k b.1.2 = header_of k a.1.2) tr.
Proof.
  intros Hk. induction 1 as [|a b tr Hf Hc IH]; [done|].
  destruct Hf as (resp & location & uri & _ & _ & _ & _ & _ & _ & Hhop).
  pose proof (hop_credentials _ _ _ _ _ Hhop k Hk) as Hb.
  assert (header_of k b.1.2 <> None -> same_origin a.1.1 b.1.1 /\ header_of k b.1.2 = header_of k a.1.2) as Hab.
  { unfold same_origin. destruct (origin_changed a.1.1 b.1.1); [congruence|done]. }
  constructor; [done|]. eapply Forall_impl; [exact IH|]. cbn. intros d Hd Hne. destruct (Hd Hne) as [Hbd Heq].
  destruct Hab as [Ho Hv]; [congruence|]. split; [by eapply same_origin_trans|congruence].
Qed.

(** C8: Credentials do not leave their origin: whatever the servers answer, every
    request after the first that still has an Authorization or a Cookie header
    goes to the scheme, host and port of the first target, and the header is
    the one the caller gave. *)
Theorem redirect_keeps_credentials_home max inner s cx req k :
  keeps_target inner -> k ∈ CREDENTIALS ->
  let '((s', tr), cx', r) := follow_redirect_service url_join should_follow max (traced inner) (s, []) cx req in
  Forall (fun e => header_of k e.1.2 <> None ->
    (e.1.1 = hcx_target cx \/ same_origin (hcx_target cx) e.1.1) /\ header_of k e.1.2 = header_of k req) tr.
Proof.
  intros Hk Hc. unfold follow_redirect_service. destruct (_ || _).
  - unfold traced. cbn. destruct (inner s cx req) as [[s1 cx1] r]. constructor; [|done]. intros _. split; [by left|done].
  - pose proof (loop_chain (Datatypes.S max) max 0 inner s [] cx (rq_parts req) (rq_body req) Hk) as Hl.
    destruct (redirect_loop _ _ _ _ _ _ _ _ _ _) as [[[s' tr] cx'] r]. destruct req as [p body].
    destruct Hl as (o & rest & last & -> & Hch & _); [lia..|]. constructor; [intros _; split; [by left|done]|].
    eapply Forall_impl; [exact (chain_credentials k _ _ Hc Hch)|]. cbn. intros e He Hne. destruct (He Hne). auto.
Qed.

(** * The proxy below *)

(** A request that is sent to the proxy. *)
Lemma update_req_some proxy cx req cx1 req1 old :
  update_req proxy cx req = Done (Some (cx1, req1, old)) ->
  old = hcx_target cx /\ proxy = Some (hcx_target cx1) /\ pt_version (rq_parts req) = HTTP_11 /\
  exists host authority uri,
    gen_authority (hcx_target cx) = Done (Some host) /\ authority_parse host = Some authority /\
    uri_from_parts HTTP authority (default (str "/") (uri_path_and_query (pt_uri (rq_parts req)))) = Some uri /\
    req1 = mkRequest (with_uri uri (rq_parts req)) (rq_body req).
Proof.
  unfold update_req. destruct proxy as [target|]; [|done].
  destruct (bool_decide (pt_version (rq_parts req) = HTTP_11)) eqn:Hv; cbn [negb]; [|done].
  apply bool_decide_eq_true in Hv. destruct (match target_scheme _ with Some _ => _ | None => _ end); [done|].
  intros (o & Hg & Hu)%bind_done_inv. destruct o as [host|]; cbn [mbind option_bind] in Hu; [|done].
  destruct (authority_parse host) as [authority|] eqn:Ha; [|done].
  destruct (uri_from_parts _ _ _) as [uri|] eqn:Hf; [|done].
  pose proof (apply_and_replace_target target (callee_mut Endpoint.clear cx)) as [Ht Ho].
  destruct (apply_and_replace _ _) as [cx' old']. cbn in Ht, Ho. injection Hu as <- <- <-. subst.
  split_and!; try done. by exists host, authority, uri.
Qed.

(** The proxy layer borrows the context: a request it takes is sent to the proxy
    with the authority of the logical target in absolute form, and after the
    call, in success and in failure, the target is what it was (where the
    service below keeps it). So redirects may be followed above a proxy. *)
Theorem proxy_restores_target proxy inner :
  keeps_target inner ->
  keeps_target (http_proxy_service proxy inner) /\
  forall s cx req cx1 req1 old, update_req proxy cx req = Done (Some (cx1, req1, old)) ->
    proxy = Some (hcx_target cx1) /\ pt_method (rq_parts req1) = pt_method (rq_parts req) /\
    pt_headers (rq_parts req1) = pt_headers (rq_parts req) /\ rq_body req1 = rq_body req /\
    http_proxy_service proxy inner s cx req =
      (let '(s', cx', r) := inner s cx1 req1 in (s', update_target (hcx_target cx) cx', gateway_result proxy r)).
Proof.
  intros Hk. split.
  - intros s cx req. unfold http_proxy_service.
    destruct (update_req proxy cx req) as [[[[cx1 req1] old]|]| | |] eqn:Hu; cbn [then_call]; try done.
    + destruct (inner s cx1 req1) as [[s2 cx2] r]. cbn [fst snd]. rewrite update_target_target.
      by apply update_req_some in Hu as [-> _].
    + specialize (Hk s cx req). by destruct (inner s cx req) as [[s2 cx2] r].
  - intros s cx req cx1 req1 old Hu. pose proof Hu as (-> & Hp & _ & host & a & uri & _ & _ & _ & ->)%update_req_some.
    split_and!; try done. unfold http_proxy_service. by rewrite Hu.
Qed.

(** A configured proxy is passed by: a request that is not HTTP/1.1, or whose target is
    not plain HTTP, goes to the service below with its own target, that is
    directly to the upstream. *)
Theorem proxy_passed_by gateway inner s cx req :
  pt_version (rq_parts req) <> HTTP_11 \/ (exists sch, target_scheme (hcx_target cx) = Some sch /\ sch <> HTTP) ->
  http_proxy_service (Some gateway) inner s cx req =
    (let '(s', cx', r) := inner s cx req in (s', cx', gateway_result (Some gateway) r)).
Proof.
  intros Hc. unfold http_proxy_service.
  assert (update_req (Some gateway) cx req = Done None) as ->; [|done]. unfold update_req.
  destruct Hc as [Hv|(sch & Hs & Hn)]; [by rewrite bool_decide_eq_false_2|].
  destruct (negb _); [done|]. rewrite Hs, bool_decide_eq_false_2; done.
Qed.
End Redirect.

(** * Concrete runs

    A client, two servers and a proxy at which the theorems on the HTTP layers
    apply. *)

Module HttpExample.

#[local] Instance tls : TlsFeature := true.

#[local] Instance ips : IpText := {| fmt_ip _ := str "10.0.0.1"; parse_ip _ := None |}.

(** URIs by their parts. *)
Record Uri : Type := mkUri { u_scheme : option Scheme; u_host : option bytes; u_port : option Z; u_path : bytes }.

Definition known : list (bytes * Uri) :=
  [(str "http://b.example/login", mkUri (Some HTTP) (Some (str "b.example")) None (str "/login"));
   (str "http://proxy.example:3128", mkUri (Some HTTP) (Some (str "proxy.example")) (Some 3128) (str "/"))].

#[local] Instance uris : UriOps Uri :=
  {| uri_scheme := u_scheme; uri_host := u_host; uri_port := u_port; uri_path_and_query u := Some (u_path u);
     uri_to_string := u_path;
     uri_parse s := snd <$> find (fun e => bool_decide (e.1 = s)) known;
     uri_of_path path := mkUri None None None path;
     uri_from_parts s a path := Some (mkUri (Some s) (Some a) None path);
     authority_parse := Some |}.

Definition join (base location : bytes) : option bytes := Some location.

Definition always (t : Target) (p : Parts Uri Headers) : bool := true.

(** The first answer is a redirect to another host, the next ones are plain. *)
Definition servers : Service Uri Headers nat :=
  fun n cx req =>
    (Datatypes.S n, cx,
     Done (match n with
           | O => mkResponse 302 [(LOCATION, str "http://b.example/login")] []
           | _ => mkResponse 200 [] (str "welcome")
           end)).

Lemma servers_keep : keeps_target servers.
Proof. done. Qed.

Definition start_cx : ClientContext := mkClientContext (Endpoint.new []) (from_host (str "a.example")) None.

Definition start_req : Request Uri Headers :=
  mkRequest (mkParts POST (mkUri None None None (str "/submit")) HTTP_11
               [(HOST, str "a.example"); (AUTHORIZATION, str "secret"); (CONTENT_LENGTH, str "2")] None)
            (FullBody (str "hi")).

Definition redirected := follow_redirect_service join always 10 (traced servers) (0%nat, []) start_cx start_req.

Lemma redirect_chain_witness :
  let '((s', tr), cx', r) := redirected in
  exists o rest last,
    tr = (hcx_target start_cx, start_req, o) :: rest /\ chain join always (hcx_target start_cx, start_req, o) rest /\
    (length rest <= 10)%nat /\ list.last tr = Some last /\ hcx_target cx' = last.1.1 /\ answer_ok last r.
Proof. apply (redirect_chain join always 10 servers 0%nat start_cx start_req); [apply servers_keep|done|reflexivity]. Defined.

(** The credential stays behind, the method becomes GET. *)
Lemma redirected_requests :
  (fun e : Target * Request Uri Headers * _ => (header_of AUTHORIZATION e.1.2, pt_method (rq_parts e.1.2))) <$> redirected.1.1.2 =
    [(Some (str "secret"), POST); (None, GET)].
Proof. vm_compute. reflexivity. Qed.

Lemma redirect_keeps_credentials_home_witness :
  let '((s', tr), cx', r) := redirected in
  Forall (fun e => header_of AUTHORIZATION e.1.2 <> None ->
    (e.1.1 = hcx_target start_cx \/ same_origin (hcx_target start_cx) e.1.1) /\
    header_of AUTHORIZATION e.1.2 = header_of AUTHORIZATION start_req) tr.
Proof.
  apply (redirect_keeps_credentials_home join always 10 servers 0%nat start_cx start_req AUTHORIZATION);
    [apply servers_keep|left].
Defined.

Definition gateway : Target := new_host_unchecked HTTP (str "proxy.example") 3128.

Lemma proxy_restores_target_witness :
  hcx_target (http_proxy_service (Some gateway) servers 0%nat start_cx start_req).1.2 = hcx_target start_cx.
Proof. apply (proxy_restores_target (Some gateway) servers servers_keep). Defined.

Definition https_cx : ClientContext :=
  mkClientContext (Endpoint.new []) (new_host_unchecked HTTPS (str "a.example") 443) None.

Lemma proxy_passed_by_witness :
  http_proxy_service (Some gateway) servers 0%nat https_cx start_req =
    (let '(s', cx', r) := servers 0%nat https_cx start_req in (s', cx', gateway_result (Some gateway) r)).
Proof. apply (proxy_passed_by gateway servers 0%nat https_cx start_req). right. by exists HTTPS. Defined.

End HttpExample.
