(* ===== verification/HttpRouter.v ===== *)
(** Routing in the HTTP server (volo-http/src/server/route: router.rs,
    method_router.rs, utils.rs and mod.rs; server/param.rs).

    A route is any function on a context and a request; [matchit], which matches
    paths against patterns, and the URI parser are parameters. Builders panic
    through [expect] and [panic!]: they return an [outcome] whose errors say
    which. [RouteId::next]'s global counter is threaded through the builders. *)

From S2P Require Import Prelude Headers.

(** [Uri]: its path and query, and [Uri::from_str]. *)
Class ServerUri (U : Type) : Type := {
  su_path : U -> bytes;
  su_query : U -> option bytes;
  su_parse : bytes -> option U
}.

Inductive ServerMethod : Type :=
| OPTIONS | GET | POST | PUT | DELETE | HEAD | TRACE | CONNECT | PATCH | OtherMethod (m : bytes).

#[export] Instance server_method_eq_dec : EqDecision ServerMethod.
Proof. solve_decision. Defined.

Section Router.
Context {M U : Type} {matchit : Matchit M} {suri : ServerUri U} {S Rest R E : Type}.

(** The context: path parameters, and everything else. *)
Context {X : Type}.
Record ServerContext : Type := mkServerContext { sc_params : list (bytes * bytes); sc_rest : X }.

Definition params_mut (f : list (bytes * bytes) -> list (bytes * bytes)) (cx : ServerContext) : ServerContext :=
  mkServerContext (f (sc_params cx)) (sc_rest cx).

Record ServerRequest : Type := mkServerRequest { sq_method : ServerMethod; sq_uri : U; sq_rest : Rest }.

(** [Route]: a boxed service. It may change the context and the world. *)
Definition Route : Type := S -> ServerContext -> ServerRequest -> S * ServerContext * outcome E R.

(** The response to a status code. *)
Context (status_response : Z -> R).

(** [Fallback::from_status_code], [RouteForStatusCode::call]. *)
Definition route_for_status_code (status : Z) : Route := fun s cx _ => (s, cx, Done (status_response status)).

(** * Methods *)

Record MethodRouter : Type := mkMethodRouter {
  mr_options : option Route; mr_get : option Route; mr_post : option Route; mr_put : option Route;
  mr_delete : option Route; mr_head : option Route; mr_trace : option Route; mr_connect : option Route;
  mr_patch : option Route; mr_fallback : Route }.

Definition METHOD_NOT_ALLOWED : Z := 405.
Definition NOT_FOUND : Z := 404.

Definition method_router_new : MethodRouter :=
  mkMethodRouter None None None None None None None None None (route_for_status_code METHOD_NOT_ALLOWED).

(** The endpoint of a method. *)
Definition method_endpoint (m : ServerMethod) (mr : MethodRouter) : option Route :=
  match m with
  | OPTIONS => mr_options mr
  | GET => mr_get mr
  | POST => mr_post mr
  | PUT => mr_put mr
  | DELETE => mr_delete mr
  | HEAD => mr_head mr
  | TRACE => mr_trace mr
  | CONNECT => mr_connect mr
  | PATCH => mr_patch mr
  | OtherMethod _ => None
  end.

(** [MethodRouter::call]. *)
Definition method_call (mr : MethodRouter) : Route := fun s cx req =>
  match method_endpoint (sq_method req) mr with
  | Some route => route s cx req
  | None => mr_fallback mr s cx req
  end.

(** [MethodRouter::get] and its kin. *)
Definition method_on (m : ServerMethod) (h : Route) (mr : MethodRouter) : MethodRouter :=
  let '(mkMethodRouter o g p u d e t c a f) := mr in
  match m with
  | OPTIONS => mkMethodRouter (Some h) g p u d e t c a f
  | GET => mkMethodRouter o (Some h) p u d e t c a f
  | POST => mkMethodRouter o g (Some h) u d e t c a f
  | PUT => mkMethodRouter o g p (Some h) d e t c a f
  | DELETE => mkMethodRouter o g p u (Some h) e t c a f
  | HEAD => mkMethodRouter o g p u d (Some h) t c a f
  | TRACE => mkMethodRouter o g p u d e (Some h) c a f
  | CONNECT => mkMethodRouter o g p u d e t (Some h) a f
  | PATCH => mkMethodRouter o g p u d e t c (Some h) f
  | OtherMethod _ => mr
  end.

Definition method_fallback (h : Route) (mr : MethodRouter) : MethodRouter :=
  let '(mkMethodRouter o g p u d e t c a _) := mr in mkMethodRouter o g p u d e t c a h.

(** [any]. *)
Definition any (h : Route) : MethodRouter := method_fallback h method_router_new.

(** [MethodRouter::layer]. *)
Definition method_layer (l : Route -> Route) (mr : MethodRouter) : MethodRouter :=
  let '(mkMethodRouter o g p u d e t c a f) := mr in
  mkMethodRouter (l <$> o) (l <$> g) (l <$> p) (l <$> u) (l <$> d) (l <$> e) (l <$> t) (l <$> c) (l <$> a) (l f).

(** * Matching *)

Record Matcher : Type := mkMatcher { ma_matches : gmap bytes Z; ma_router : M }.

(** Why a builder panics. *)
Inductive RouterPanic : Type := InsertFailed | TooManyRoutes | DuplicateId | BothFallbacks.

(** [RouteId::next]: the id and the counter after it. *)
Definition next_id (counter : Z) : outcome RouterPanic (Z * Z) :=
  if counter =? 2 ^ 32 - 1 then Fail TooManyRoutes else Done (counter, wrap 32 (counter + 1)).

(** [Matcher::insert_with_id], with the [expect] of its callers. *)
Definition insert_with_id (uri : bytes) (id : Z) (self : Matcher) : outcome RouterPanic Matcher :=
  match ma_matches self !! uri with
  | Some _ => Fail InsertFailed
  | None =>
      match mt_insert uri id (ma_router self) with
      | Some router => Done (mkMatcher (<[uri := id]> (ma_matches self)) router)
      | None => Fail InsertFailed
      end
  end.

(** [Matcher::insert]. *)
Definition matcher_insert (uri : bytes) (self : Matcher) (counter : Z) : outcome RouterPanic (Z * Matcher * Z) :=
  '(id, counter) ← next_id counter;
  self ← insert_with_id uri id self;
  Done (id, self, counter).

(** * The router *)

Inductive Endpoint : Type := EMethodRouter (mr : MethodRouter) | EService (r : Route).

Definition endpoint_call (e : Endpoint) : Route :=
  match e with EMethodRouter mr => method_call mr | EService r => r end.
Definition endpoint_layer (l : Route -> Route) (e : Endpoint) : Endpoint :=
  match e with EMethodRouter mr => EMethodRouter (method_layer l mr) | EService r => EService (l r) end.

Record Router : Type := mkRouter {
  ro_matcher : Matcher; ro_routes : gmap Z Endpoint; ro_fallback : Route; ro_is_default_fallback : bool }.

Definition router_new : Router :=
  mkRouter (mkMatcher ∅ mt_empty) ∅ (route_for_status_code NOT_FOUND) true.

(** [Router::call]; a matched path's parameters are added to the context. *)
Definition router_call (r : Router) : Route := fun s cx req =>
  match mt_at (su_path (sq_uri req)) (ma_router (ro_matcher r)) with
  | Some (id, params) =>
      match ro_routes r !! id with
      | Some route =>
          let cx := if bool_decide (params = []) then cx else params_mut (fun ps => ps ++ params) cx in
          endpoint_call route s cx req
      | None => ro_fallback r s cx req
      end
  | None => ro_fallback r s cx req
  end.

(** [Router::route]. *)
Definition route (uri : bytes) (mr : MethodRouter) (self : Router) (counter : Z) : outcome RouterPanic (Router * Z) :=
  '(id, matcher, counter) ← matcher_insert uri (ro_matcher self) counter;
  Done (mkRouter matcher (<[id := EMethodRouter mr]> (ro_routes self)) (ro_fallback self) (ro_is_default_fallback self), counter).

Definition NEST_CATCH_PARAM : bytes := str "{*__priv_nest_catch_param}".
Definition NEST_CATCH_PARAM_NAME : bytes := str "__priv_nest_catch_param".
Definition SLASH : byte := x2f.

Definition ends_with_slash (p : bytes) : bool := bool_decide (last p = Some SLASH).

(** [StripPrefix::call]. *)
Definition strip_prefix (inner : Route) : Route := fun s cx req =>
  let '(uri, cx) :=
    match last (sc_params cx) with
    | Some (k, v) =>
        if bool_decide (k = NEST_CATCH_PARAM_NAME)
        then (SLASH :: v, params_mut (fun ps => take (length ps - 1) ps) cx)
        else ([SLASH], cx)
    | None => ([SLASH], cx)
    end in
  let uri := match su_query (sq_uri req) with Some query => uri ++ x3f :: query | None => uri end in
  match su_parse uri with
  | Some u => inner s cx (mkServerRequest (sq_method req) u (sq_rest req))
  | None => (s, cx, Panic)
  end.

(** The patterns [nest_route] inserts for a prefix, the first with a new id. *)
Definition nest_patterns (prefix : bytes) : list bytes :=
  if ends_with_slash prefix then [prefix; prefix ++ NEST_CATCH_PARAM]
  else [prefix; prefix ++ [SLASH]; prefix ++ SLASH :: NEST_CATCH_PARAM].

(** [Router::nest_route]. *)
Definition nest_route (prefix : bytes) (r : Route) (self : Router) (counter : Z) : outcome RouterPanic (Router * Z) :=
  let uri := if ends_with_slash prefix then prefix ++ NEST_CATCH_PARAM else prefix ++ SLASH :: NEST_CATCH_PARAM in
  '(id, matcher, counter) ← matcher_insert prefix (ro_matcher self) counter;
  matcher ← (if negb (ends_with_slash prefix) then insert_with_id (prefix ++ [SLASH]) id matcher else Done matcher);
  matcher ← insert_with_id uri id matcher;
  Done (mkRouter matcher (<[id := EService (strip_prefix r)]> (ro_routes self)) (ro_fallback self) (ro_is_default_fallback self), counter).

(** [Router::nest]. *)
Definition nest (uri : bytes) (router self : Router) (counter : Z) : outcome RouterPanic (Router * Z) :=
  nest_route uri (router_call router) self counter.

(** [Router::fallback], [Router::fallback_service]. *)
Definition fallback (h : Route) (self : Router) : Router :=
  mkRouter (ro_matcher self) (ro_routes self) h (ro_is_default_fallback self).

(** The order in which a hash map is drained. *)
Context (drain : forall V, gmap bytes V -> list (bytes * V)) (drain_routes : gmap Z Endpoint -> list (Z * Endpoint)).

(** [Router::merge]. *)
Definition merge (other self : Router) : outcome RouterPanic Router :=
  matcher ← foldM (fun m '(path, id) => insert_with_id path id m) (drain Z (ma_matches (ro_matcher other))) (ro_matcher self);
  routes ← foldM (fun routes '(id, e) =>
      match routes !! id with Some _ => Fail DuplicateId | None => Done (<[id := e]> routes) end)
    (drain_routes (ro_routes other)) (ro_routes self);
  if ro_is_default_fallback other then Done (mkRouter matcher routes (ro_fallback self) (ro_is_default_fallback self))
  else if ro_is_default_fallback self then Done (mkRouter matcher routes (ro_fallback other) false)
  else Fail BothFallbacks.

(** [Router::layer]. *)
Definition layer (l : Route -> Route) (self : Router) : Router :=
  mkRouter (ro_matcher self) (endpoint_layer l <$> ro_routes self) (l (ro_fallback self)) (ro_is_default_fallback self).

(** * Programs that build a router *)

Inductive Build : Type :=
| BNew
| BRoute (b : Build) (uri : bytes) (mr : MethodRouter)
| BNest (b : Build) (uri : bytes) (inner : Build)
| BNestService (b : Build) (uri : bytes) (service : Route)
| BFallback (b : Build) (h : Route)
| BMerge (b other : Build)
| BLayer (b : Build) (l : Route -> Route).

Fixpoint build (b : Build) (counter : Z) : outcome RouterPanic (Router * Z) :=
  match b with
  | BNew => Done (router_new, counter)
  | BRoute b uri mr => '(r, counter) ← build b counter; route uri mr r counter
  | BNest b uri inner =>
      '(r, counter) ← build b counter; '(i, counter) ← build inner counter; nest uri i r counter
  | BNestService b uri service => '(r, counter) ← build b counter; nest_route uri service r counter
  | BFallback b h => '(r, counter) ← build b counter; Done (fallback h r, counter)
  | BMerge b other =>
      '(r, counter) ← build b counter; '(o, counter) ← build other counter;
      r ← merge o r; Done (r, counter)
  | BLayer b l => '(r, counter) ← build b counter; Done (layer l r, counter)
  end.
End Router.
