(* ===== verification/HttpRouterSpec.v ===== *)
(** What routing in the HTTP server does: a router dispatches by the rules it was
    built with, whatever was nested and merged, and a nested router sees the path
    behind its prefix. *)

From S2P Require Import Prelude Headers HttpRouter.

Section Spec.
Context {M U : Type} {matchit : Matchit M} {mlaws : MatchitLaws M} {suri : ServerUri U} {S Rest R E X : Type}.
Context (status_response : Z -> R).

Abbreviation Route := (Route (U := U) (S := S) (Rest := Rest) (R := R) (E := E) (X := X)).
Abbreviation Endpoint := (Endpoint (U := U) (S := S) (Rest := Rest) (R := R) (E := E) (X := X)).
Abbreviation Matcher := (Matcher (M := M)).
Abbreviation Router := (Router (M := M) (U := U) (S := S) (Rest := Rest) (R := R) (E := E) (X := X)).
Abbreviation Build := (Build (U := U) (S := S) (Rest := Rest) (R := R) (E := E) (X := X)).

(** A hash map is drained of its entries, in some order. *)
Context (drain : forall V, gmap bytes V -> list (bytes * V)) (drain_routes : gmap Z Endpoint -> list (Z * Endpoint)).
Hypothesis drain_all : forall V (m : gmap bytes V), drain V m ≡ₚ map_to_list m.
Hypothesis drain_routes_all : forall m, drain_routes m ≡ₚ map_to_list m.

Abbreviation build := (build (M := M) status_response drain drain_routes).

(** * The rules of a program that builds a router *)

Inductive rule : Build -> bytes -> Endpoint -> Prop :=
| rule_route b uri mr : rule (BRoute b uri mr) uri (EMethodRouter mr)
| rule_nest b uri inner c i c' p :
    build inner c = Done (i, c') -> p ∈ nest_patterns uri ->
    rule (BNest b uri inner) p (EService (strip_prefix (router_call i)))
| rule_service b uri service p : p ∈ nest_patterns uri -> rule (BNestService b uri service) p (EService (strip_prefix service))
| rule_route_old b uri mr p e : rule b p e -> rule (BRoute b uri mr) p e
| rule_nest_old b uri inner p e : rule b p e -> rule (BNest b uri inner) p e
| rule_service_old b uri service p e : rule b p e -> rule (BNestService b uri service) p e
| rule_fallback b h p e : rule b p e -> rule (BFallback b h) p e
| rule_merge_left b other p e : rule b p e -> rule (BMerge b other) p e
| rule_merge_right b other p e : rule other p e -> rule (BMerge b other) p e
| rule_layer b l p e : rule b p e -> rule (BLayer b l) p (endpoint_layer l e).

Fixpoint patterns (b : Build) : list bytes :=
  match b with
  | BNew => []
  | BRoute b uri _ => uri :: patterns b
  | BNest b uri _ | BNestService b uri _ => nest_patterns uri ++ patterns b
  | BFallback b _ | BLayer b _ => patterns b
  | BMerge b other => patterns other ++ patterns b
  end.

Fixpoint fallback_of (b : Build) : Route :=
  match b with
  | BNew => route_for_status_code status_response NOT_FOUND
  | BRoute b _ _ | BNest b _ _ | BNestService b _ _ | BMerge b _ => fallback_of b
  | BFallback _ h => h
  | BLayer b l => l (fallback_of b)
  end.

(** * Matchers *)

(** The hash map and [matchit] hold the same rules. *)
Definition matcher_ok (m : Matcher) : Prop :=
  forall p id, ma_matches m !! p = Some id <-> (p, id) ∈ mt_rules (ma_router m).

(** A matcher that holds the rules of [m] and those of [l]. *)
Definition extends (l : list (bytes * Z)) (m m' : Matcher) : Prop :=
  matcher_ok m' /\ forall p id, ma_matches m' !! p = Some id <-> (p, id) ∈ l \/ ma_matches m !! p = Some id.

Lemma insert_spec uri id (m : Matcher) :
  matcher_ok m ->
  match insert_with_id uri id m with
  | Done m' => ma_matches m !! uri = None /\ extends [(uri, id)] m m'
  | Fail InsertFailed => True
  | _ => False
  end.
Proof.
  intros Hm. unfold insert_with_id. destruct (ma_matches m !! uri) eqn:Hu; [done|].
  destruct (mt_insert uri id (ma_router m)) as [router|] eqn:Hi; [|done]. apply rules_insert in Hi. split; [done|].
  assert (forall p i, <[uri := id]> (ma_matches m) !! p = Some i <-> (p, i) ∈ [(uri, id)] \/ ma_matches m !! p = Some i) as He.
  { intros p i. rewrite lookup_insert_Some, list_elem_of_singleton. split.
    - intros [[-> ->]|[_ ?]]; auto.
    - intros [[= -> ->]|Hp]; [by left|]. right. split; [|done]. intros ->. congruence. }
  split; [|exact He]. intros p i. cbn [ma_matches ma_router]. rewrite He, Hi, !elem_of_cons, elem_of_nil, (Hm p i). tauto.
Qed.

Lemma extends_trans l k m1 m2 m3 : extends l m1 m2 -> extends k m2 m3 -> extends (k ++ l) m1 m3.
Proof. intros [_ H1] [H2 H3]. split; [done|]. intros p id. rewrite H3, H1, elem_of_app. tauto. Qed.

Lemma insert_all l (m : Matcher) :
  matcher_ok m ->
  match foldM (fun m '(path, id) => insert_with_id path id m) l m with
  | Done m' => extends l m m'
  | Fail InsertFailed => True
  | _ => False
  end.
Proof.
  revert m. induction l as [|[uri id] l IH]; intros m Hm; cbn.
  { split; [done|]. intros p id. rewrite elem_of_nil. tauto. }
  pose proof (insert_spec uri id m Hm) as Hi. destruct (insert_with_id uri id m) as [m1|[]| |]; try done. cbn.
  destruct Hi as [_ Hi]. specialize (IH m1 (proj1 Hi)). destruct (foldM _ l m1) as [m2|[]| |]; try done.
  destruct IH as [I1 I2], Hi as [J1 J2]. split; [done|]. intros p i. rewrite I2, J2, !elem_of_cons, elem_of_nil. tauto.
Qed.

(** * Routers *)

(** What holds of the router a program builds with the counter at [c], leaving it at [c']. *)
Record router_ok (b : Build) (c : Z) (r : Router) (c' : Z) : Prop := mkRouterOk {
  rk_counter : c <= c' < 2 ^ 32;
  rk_matcher : matcher_ok (ro_matcher r);
  rk_rules : forall p id, ma_matches (ro_matcher r) !! p = Some id -> exists e, ro_routes r !! id = Some e /\ rule b p e;
  rk_patterns : forall p, p ∈ patterns b <-> is_Some (ma_matches (ro_matcher r) !! p);
  rk_ids : forall id, is_Some (ro_routes r !! id) -> c <= id < c';
  rk_fallback : ro_fallback r = fallback_of b;
  rk_default : ro_is_default_fallback r = true
}.

(** A router is built or its builder panics for one of two reasons. *)
Definition built (b : Build) (c : Z) (m : outcome RouterPanic (Router * Z)) : Prop :=
  match m with
  | Done (r, c') => router_ok b c r c'
  | Fail InsertFailed | Fail TooManyRoutes => True
  | _ => False
  end.

Lemma next_id_spec c : 0 <= c < 2 ^ 32 -> next_id c = Fail TooManyRoutes \/ next_id c = Done (c, c + 1) /\ c + 1 < 2 ^ 32.
Proof.
  intros Hc. unfold next_id. destruct (Z.eqb_spec c (2 ^ 32 - 1)); [by left|right]. rewrite wrap_small by lia. split; [done|lia].
Qed.

(** A new id for the patterns [l], all with the endpoint [e]. *)
Lemma add_rules b b' l c r c1 m e :
  router_ok b c r c1 -> 0 <= c -> c1 + 1 < 2 ^ 32 -> extends ((fun p => (p, c1)) <$> l) (ro_matcher r) m ->
  (forall p, p ∈ l -> rule b' p e) -> (forall p e, rule b p e -> rule b' p e) ->
  (forall p, p ∈ patterns b' <-> p ∈ l \/ p ∈ patterns b) -> fallback_of b' = fallback_of b ->
  router_ok b' c (mkRouter m (<[c1 := e]> (ro_routes r)) (ro_fallback r) (ro_is_default_fallback r)) (c1 + 1).
Proof.
  intros [O1 O2 O3 O4 O5 O6 O7] Hc Hc1 [Hm He] Hl Hold Hp Hf. split; cbn [ro_matcher ro_routes ro_fallback ro_is_default_fallback]; try done.
  - lia.
  - intros p id Hid. apply He in Hid as [(q & [= <- ->] & Hin)%list_elem_of_fmap|Hid].
    + exists e. rewrite lookup_insert_eq. auto.
    + destruct (O3 p id Hid) as (e' & He' & Hr). exists e'. rewrite lookup_insert_ne; [auto|]. intros <-.
      assert (c <= c1 < c1) by (apply O5; by eexists). lia.
  - intros p. rewrite Hp. split.
    + intros [Hin|Hin].
      * exists c1. apply He. left. apply list_elem_of_fmap. eauto.
      * apply O4 in Hin as [id Hid]. exists id. apply He. by right.
    + intros [id [(q & [= <- ->] & Hin)%list_elem_of_fmap|Hid]%He]; [by left|right]. apply O4. by eexists.
  - intros id [x [[-> _]|[_ Hx]]%lookup_insert_Some]; [lia|]. assert (c <= id < c1) by (apply O5; by eexists). lia.
  - by rewrite O6.
Qed.

Lemma route_built b uri mr c r c1 : router_ok b c r c1 -> 0 <= c -> built (BRoute b uri mr) c (route uri mr r c1).
Proof.
  intros Ho Hc. unfold route, matcher_insert. pose proof (rk_counter _ _ _ _ Ho).
  destruct (next_id_spec c1) as [->|[-> Hc1]]; [lia|done|]. cbn.
  pose proof (insert_spec uri c1 (ro_matcher r) (rk_matcher _ _ _ _ Ho)) as Hi.
  destruct (insert_with_id uri c1 (ro_matcher r)) as [m|[]| |]; try done. cbn.
  apply (add_rules b _ [uri] c r c1 m); try done; [apply Hi|..].
  - intros p ->%list_elem_of_singleton. constructor.
  - by constructor.
  - intros p. cbn. by rewrite elem_of_cons, list_elem_of_singleton.
Qed.

Lemma nest_built b b' uri service c r c1 :
  router_ok b c r c1 -> 0 <= c ->
  (forall p, p ∈ nest_patterns uri -> rule b' p (EService (strip_prefix service))) -> (forall p e, rule b p e -> rule b' p e) ->
  patterns b' = nest_patterns uri ++ patterns b -> fallback_of b' = fallback_of b ->
  built b' c (nest_route uri service r c1).
Proof.
  intros Ho Hc Hn Hold Hp Hf. unfold nest_route, matcher_insert. pose proof (rk_counter _ _ _ _ Ho).
  destruct (next_id_spec c1) as [->|[-> Hc1]]; [lia|done|]. cbn [mbind outcome_bind].
  pose proof (insert_spec uri c1 (ro_matcher r) (rk_matcher _ _ _ _ Ho)) as Hi.
  destruct (insert_with_id uri c1 (ro_matcher r)) as [m1|[]| |]; try done. cbn [mbind outcome_bind]. destruct Hi as [_ H1].
  assert (forall l m, (forall p, p ∈ l <-> p ∈ nest_patterns uri) -> extends ((fun p => (p, c1)) <$> l) (ro_matcher r) m ->
    router_ok b' c (mkRouter m (<[c1 := EService (strip_prefix service)]> (ro_routes r)) (ro_fallback r) (ro_is_default_fallback r)) (c1 + 1)) as Hadd.
  { intros l m Hl Hm. apply (add_rules b _ l c r c1 m); try done; [intros p Hin; by apply Hn, Hl|].
    intros p. by rewrite Hp, elem_of_app, Hl. }
  unfold nest_patterns in Hadd. destruct (ends_with_slash uri); cbn [negb].
  - cbn [mbind outcome_bind]. set (u2 := uri ++ NEST_CATCH_PARAM) in *.
    pose proof (insert_spec u2 c1 m1 (proj1 H1)) as Hi. destruct (insert_with_id u2 c1 m1) as [m2|[]| |]; try done. destruct Hi as [_ H2].
    apply (Hadd [u2; uri]); [intros p; rewrite !elem_of_cons; tauto|]. exact (extends_trans _ _ _ _ _ H1 H2).
  - set (u2 := uri ++ [SLASH]) in *. set (u3 := uri ++ SLASH :: NEST_CATCH_PARAM) in *.
    pose proof (insert_spec u2 c1 m1 (proj1 H1)) as Hi. destruct (insert_with_id u2 c1 m1) as [m2|[]| |]; try done. cbn [mbind outcome_bind]. destruct Hi as [_ H2].
    pose proof (insert_spec u3 c1 m2 (proj1 H2)) as Hi. destruct (insert_with_id u3 c1 m2) as [m3|[]| |]; try done. destruct Hi as [_ H3].
    apply (Hadd [u3; u2; uri]); [intros p; rewrite !elem_of_cons; tauto|]. exact (extends_trans _ _ _ _ _ (extends_trans _ _ _ _ _ H1 H2) H3).
Qed.

Lemma merge_routes (l : list (Z * Endpoint)) (routes : gmap Z Endpoint) :
  NoDup l.*1 -> (forall id, id ∈ l.*1 -> routes !! id = None) ->
  exists routes', foldM (fun routes '(id, e) => match routes !! id with Some _ => Fail DuplicateId | None => Done (<[id := e]> routes) end) l routes
      = Done routes' /\ forall id, routes' !! id = match (list_to_map l : gmap Z Endpoint) !! id with Some e => Some e | None => routes !! id end.
Proof.
  revert routes. induction l as [|[id e] l IH]; intros routes Hn Hd; cbn; [by exists routes|].
  apply NoDup_cons in Hn as [Hid Hn]. rewrite (Hd id) by by left. cbn.
  destruct (IH (<[id := e]> routes) Hn) as (routes' & -> & Hr).
  { intros id' Hin. rewrite lookup_insert_ne; [apply Hd; by right|]. by intros ->. }
  exists routes'. split; [done|]. intros id'. rewrite Hr. destruct (decide (id' = id)) as [->|].
  - rewrite !lookup_insert_eq. by rewrite (not_elem_of_list_to_map_1 l id Hid).
  - by rewrite !(lookup_insert_ne _ id) by done.
Qed.

Lemma merge_built b other c r c1 o c2 :
  router_ok b c r c1 -> router_ok other c1 o c2 -> 0 <= c ->
  built (BMerge b other) c (r ← merge drain drain_routes o r; Done (r, c2)).
Proof.
  intros [O1 O2 O3 O4 O5 O6 O7] [P1 P2 P3 P4 P5 P6 P7] Hc. unfold merge.
  pose proof (insert_all (drain Z (ma_matches (ro_matcher o))) (ro_matcher r) O2) as Hi.
  destruct (foldM _ (drain Z _) _) as [m|[]| |]; try done. destruct Hi as [Hm He]. cbn [mbind outcome_bind].
  destruct (merge_routes (drain_routes (ro_routes o)) (ro_routes r)) as (routes & -> & Hr).
  { rewrite drain_routes_all. apply NoDup_fst_map_to_list. }
  { intros id Hin. rewrite drain_routes_all in Hin. apply list_elem_of_fmap in Hin as ([id' e] & -> & Hin%elem_of_map_to_list).
    destruct (ro_routes r !! id') eqn:Hx; [|done]. cbn in *. rewrite Hx.
    assert (c1 <= id' < c2) by (apply P5; by eexists). assert (c <= id' < c1) by (apply O5; by eexists). lia. }
  cbn [mbind outcome_bind]. rewrite P7, O7. cbn [mbind outcome_bind built].
  assert (forall id, (list_to_map (drain_routes (ro_routes o)) : gmap Z Endpoint) !! id = ro_routes o !! id) as Hl.
  { intros id. rewrite <- (list_to_map_to_list (ro_routes o)) at 2. f_equal. apply list_to_map_proper; [|apply drain_routes_all].
    rewrite drain_routes_all. apply NoDup_fst_map_to_list. }
  assert (forall p id, (p, id) ∈ drain Z (ma_matches (ro_matcher o)) <-> ma_matches (ro_matcher o) !! p = Some id) as Hd.
  { intros p id. rewrite drain_all. apply elem_of_map_to_list. }
  split; cbn [ro_matcher ro_routes ro_fallback ro_is_default_fallback]; try done.
  - lia.
  - intros p id Hid. rewrite Hr, Hl. apply He in Hid as [Hid%Hd|Hid].
    + destruct (P3 p id Hid) as (e & -> & Hru). exists e. split; [done|by constructor].
    + destruct (O3 p id Hid) as (e & Hx & Hru). exists e. split; [|by constructor]. destruct (ro_routes o !! id) eqn:Hy; [|done].
      assert (c1 <= id < c2) by (apply P5; by eexists). assert (c <= id < c1) by (apply O5; by eexists). lia.
  - intros p. cbn [patterns]. rewrite elem_of_app, P4, O4. split.
    + intros [[id Hid]|[id Hid]]; exists id; apply He; [left; by apply Hd|by right].
    + intros [id [Hid%Hd|Hid]%He]; [left|right]; by eexists.
  - intros id Hx. rewrite Hr, Hl in Hx. destruct (ro_routes o !! id) eqn:Hy.
    + assert (c1 <= id < c2) by (apply P5; by eexists). lia.
    + assert (c <= id < c1) by (by apply O5). lia.
Qed.

Lemma build_built b c : 0 <= c < 2 ^ 32 -> built b c (build b c).
Proof.
  revert c. induction b as [|b IH uri mr|b IH uri inner IHi|b IH uri service|b IH h|b IH other IHo|b IH l]; intros c Hc;
    try (specialize (IH c Hc); cbn; destruct (HttpRouter.build _ _ _ b c) as [[r c1]|[]| |]; try done; cbn [mbind outcome_bind];
         pose proof (rk_counter _ _ _ _ IH)).
  - split; cbn [build router_new ro_matcher ro_routes ro_fallback ro_is_default_fallback ma_matches]; [lia| | | | |done|done].
    + intros p id. cbn. by rewrite rules_empty, elem_of_nil, lookup_empty.
    + intros p id. by rewrite lookup_empty.
    + intros p. cbn [patterns]. rewrite elem_of_nil, lookup_empty. split; [done|by intros []].
    + intros id. rewrite lookup_empty. by intros [].
  - apply route_built; [done|lia].
  - specialize (IHi c1 ltac:(lia)). destruct (HttpRouter.build _ _ _ inner c1) as [[i c2]|[]| |] eqn:Hi; try done. cbn [mbind outcome_bind].
    pose proof (rk_counter _ _ _ _ IHi). unfold nest. apply (nest_built b); [|lia|..].
    + destruct IH as [O1 O2 O3 O4 O5 O6 O7]. split; try done; [lia|]. intros id Hid. specialize (O5 id Hid). lia.
    + intros p Hp. by eapply rule_nest.
    + by constructor.
    + done.
    + done.
  - apply (nest_built b); [done|lia|..]; try done; by constructor.
  - destruct IH as [O1 O2 O3 O4 O5 O6 O7]. split; try done. intros p id Hid. destruct (O3 p id Hid) as (e & ? & ?). exists e. split; [done|by constructor].
  - specialize (IHo c1 ltac:(lia)). destruct (HttpRouter.build _ _ _ other c1) as [[o c2]|[]| |] eqn:Hi; try done. cbn [mbind outcome_bind].
    apply (merge_built b other c r c1 o c2); [done|done|lia].
  - destruct IH as [O1 O2 O3 O4 O5 O6 O7]. split; cbn [ro_matcher ro_routes ro_fallback ro_is_default_fallback layer]; try done.
    + intros p id Hid. destruct (O3 p id Hid) as (e & He & ?). exists (endpoint_layer l e). rewrite lookup_fmap, He. split; [done|by constructor].
    + intros id Hid. rewrite lookup_fmap in Hid. apply O5. by destruct (ro_routes r !! id); [eexists|destruct Hid].
    + cbn. by rewrite O6.
Qed.

(** Where a request goes. *)
Lemma dispatches b c r c' s cx req :
  0 <= c < 2 ^ 32 -> build b c = Done (r, c') ->
  (exists p e ps, rule b p e /\ pattern_matches p (su_path (sq_uri req)) ps /\
     router_call r s cx req = endpoint_call e s (params_mut (fun l => l ++ ps) cx) req) \/
  ((forall p ps, p ∈ patterns b -> ~ pattern_matches p (su_path (sq_uri req)) ps) /\ router_call r s cx req = fallback_of b s cx req).
Proof.
  intros Hc Hb. pose proof (build_built b c Hc) as Ho. rewrite Hb in Ho. destruct Ho as [O1 O2 O3 O4 O5 O6 O7].
  unfold router_call. destruct (mt_at _ _) as [[id ps]|] eqn:Hat.
  - left. apply at_some in Hat as (p & Hin & Hm). apply O2 in Hin. destruct (O3 p id Hin) as (e & -> & Hr).
    exists p, e, ps. split_and!; try done. case_bool_decide as Hps; [|done]. subst ps. unfold params_mut. rewrite app_nil_r. by destruct cx.
  - right. split; [|by rewrite O6]. intros p ps [id Hid]%O4. apply O2 in Hid. by eapply at_none.
Qed.

(** C35: A router dispatches by its rules: whatever was routed, nested, layered and merged
    to build it, a request goes to the endpoint registered with a pattern that
    matches its path, with the pattern's parameters added to those of the
    context, and to the fallback only when no pattern matches. The ids that
    link patterns and endpoints are never confused. *)
Theorem router_dispatch b c r c' s cx req :
  0 <= c < 2 ^ 32 -> build b c = Done (r, c') ->
  (exists p e ps, rule b p e /\ pattern_matches p (su_path (sq_uri req)) ps /\
     router_call r s cx req = endpoint_call e s (params_mut (fun l => l ++ ps) cx) req) \/
  ((forall p ps, p ∈ patterns b -> ~ pattern_matches p (su_path (sq_uri req)) ps) /\ router_call r s cx req = fallback_of b s cx req).
Proof. apply dispatches. Qed.

(** A builder panics only where its documentation says: a pattern that is refused or
    already there, or 2^32 routes. Merged routers never share an id. *)
Theorem router_build_panics b c :
  0 <= c < 2 ^ 32 ->
  match build b c with Done _ => True | Fail InsertFailed | Fail TooManyRoutes => True | _ => False end.
Proof. intros Hc. pose proof (build_built b c Hc) as Ho. by destruct (HttpRouter.build _ _ _ b c) as [[]|[]| |]. Qed.

(** A custom fallback of a merged router is lost without a panic: [fallback] does not
    clear [is_default_fallback], so [merge] takes it for the default, keeps the
    fallback of the router it is merged into, and never reports that both are
    customized. *)
Theorem merge_drops_fallback b other h c :
  0 <= c < 2 ^ 32 ->
  match build (BMerge b (BFallback other h)) c with
  | Done (r, _) => ro_fallback r = fallback_of b
  | Fail BothFallbacks => False
  | _ => True
  end.
Proof.
  intros Hc. pose proof (build_built (BMerge b (BFallback other h)) c Hc) as Ho.
  destruct (HttpRouter.build _ _ _ _ c) as [[r c']|[]| |]; try done. apply Ho.
Qed.

(** A nested router handles what is behind its prefix: when the catch-all pattern of
    the nest matched with the parameters [ps] and the rest of the path, the
    inner router is asked for [/rest] with the query of the request, the outer
    parameters kept and the private one removed, and dispatches by its own
    rules. *)
Theorem nest_strips_prefix inner c i c' s cx req ps rest u :
  0 <= c < 2 ^ 32 -> build inner c = Done (i, c') ->
  su_parse ((SLASH :: rest) ++ match su_query (sq_uri req) with Some q => x3f :: q | None => [] end) = Some u ->
  su_path u = SLASH :: rest ->
  let seen := params_mut (fun l => l ++ ps ++ [(NEST_CATCH_PARAM_NAME, rest)]) cx in
  let cx' := params_mut (fun l => l ++ ps) cx in
  let req' := mkServerRequest (sq_method req) u (sq_rest req) in
  let out := endpoint_call (EService (strip_prefix (router_call i))) s seen req in
  (exists p e qs, rule inner p e /\ pattern_matches p (SLASH :: rest) qs /\ out = endpoint_call e s (params_mut (fun l => l ++ qs) cx') req') \/
  ((forall p qs, p ∈ patterns inner -> ~ pattern_matches p (SLASH :: rest) qs) /\ out = fallback_of inner s cx' req').
Proof.
  intros Hc Hb Hu Hpath seen cx' req' out.
  assert (out = router_call i s cx' req') as ->.
  { unfold out, seen, strip_prefix. cbn [endpoint_call sc_params params_mut]. rewrite (app_assoc _ ps), last_snoc. rewrite bool_decide_eq_true_2 by done.
    replace (match su_query (sq_uri req) with Some q => (SLASH :: rest) ++ x3f :: q | None => SLASH :: rest end) with
      ((SLASH :: rest) ++ match su_query (sq_uri req) with Some q => x3f :: q | None => [] end)
      by (destruct (su_query (sq_uri req)); [done|by rewrite app_nil_r]).
    rewrite Hu. f_equal. unfold cx', params_mut. cbn [sc_params sc_rest]. rewrite app_assoc, length_app. cbn [length]. by rewrite Nat.add_sub, take_app_length. }
  pose proof (dispatches inner c i c' s cx' req' Hc Hb) as Hd. cbn [sq_uri req'] in Hd. by rewrite Hpath in Hd.
Qed.

(** A method router calls what was registered for the method of the request. *)
Lemma method_on_call m (h : Route) mr s cx req :
  (forall x, m <> OtherMethod x) ->
  method_call (method_on m h mr) s cx req =
    (if bool_decide (sq_method req = m) then h s cx req else method_call mr s cx req).
Proof.
  intros Hm. destruct mr, m; try (by destruct (Hm m)); unfold method_call; destruct (sq_method req); done.
Qed.
End Spec.

(** * Concrete runs

    A router on concrete paths: a matcher for exact paths and the catch-all of a
    nest, and URIs that are a path and a query. *)

Module RouterExample.
(** Exact patterns, and [prefix{*__priv_nest_catch_param}]. *)
Definition match_pattern (p path : bytes) : option (list (bytes * bytes)) :=
  if bool_decide (p = path) then Some []
  else
    let n := (length p - length NEST_CATCH_PARAM)%nat in
    if bool_decide (drop n p = NEST_CATCH_PARAM) && bool_decide (take n path = take n p) && bool_decide (drop n path <> [])
    then Some [(NEST_CATCH_PARAM_NAME, drop n path)] else None.

Fixpoint find_rule (path : bytes) (l : list (bytes * Z)) : option (Z * list (bytes * bytes)) :=
  match l with
  | [] => None
  | (p, i) :: l => match match_pattern p path with Some ps => Some (i, ps) | None => find_rule path l end
  end.

#[export] Instance list_matchit : Matchit (list (bytes * Z)) :=
  {| mt_empty := []; mt_insert p i m := Some ((p, i) :: m); mt_at := find_rule |}.

#[export] Instance list_matchit_laws : MatchitLaws (list (bytes * Z)).
Proof.
  refine {| mt_rules := fun m => m; pattern_matches := fun p path ps => match_pattern p path = Some ps |}.
  - done.
  - by intros p i m m' [= <-].
  - intros path m i ps. induction m as [|[q j] m IH]; cbn; [done|]. destruct (match_pattern q path) eqn:Hm.
    + intros [= <- <-]. exists q. split; [by left|done].
    + intros Hf. destruct (IH Hf) as (p & Hp & ?). exists p. split; [by right|done].
  - intros path m. induction m as [|[q j] m IH]; cbn; intros Hf p i ps Hin; [by apply not_elem_of_nil in Hin|].
    destruct (match_pattern q path) eqn:Hm; [done|]. apply elem_of_cons in Hin as [[= -> ->]|Hin]; [congruence|by eapply IH].
Defined.

(** Cuts a text at its first question mark. *)
Fixpoint split_query (t : bytes) : bytes * option bytes :=
  match t with
  | [] => ([], None)
  | b :: t => if bool_decide (b = x3f) then ([], Some t) else let '(p, q) := split_query t in (b :: p, q)
  end.

#[export] Instance pair_uri : ServerUri (bytes * option bytes) :=
  {| su_path u := u.1; su_query u := u.2; su_parse t := Some (split_query t) |}.

Abbreviation U := (bytes * option bytes)%type.
Abbreviation Handler := (Route (U := U) (S := unit) (Rest := unit) (R := bytes) (E := unit) (X := unit)).

(** Answers with a name, the path it sees and the parameters. *)
Definition named (name : bytes) : Handler :=
  fun s cx req => (s, cx, Done (name ++ str ":" ++ su_path (sq_uri req) ++ mjoin ((fun kv => str "," ++ kv.2) <$> sc_params cx))).

Definition status (z : Z) : bytes := if z =? 404 then str "404" else str "405".

Definition inner : Build (U := U) (S := unit) (Rest := unit) (R := bytes) (E := unit) (X := unit) :=
  BRoute (BRoute BNew (str "/") (any status (named (str "root")))) (str "/list") (method_on GET (named (str "list")) (method_router_new status)).

Definition app : Build (U := U) (S := unit) (Rest := unit) (R := bytes) (E := unit) (X := unit) :=
  BMerge (BNest BNew (str "/user") inner) (BFallback (BRoute BNew (str "/ping") (any status (named (str "ping")))) (named (str "lost"))).

Abbreviation build_app b c := (build (M := list (bytes * Z)) status (fun V => map_to_list) map_to_list b c).

Definition get (m : ServerMethod) (path : bytes) : ServerRequest (U := U) (Rest := unit) := mkServerRequest m (path, None) tt.

Definition ask (m : ServerMethod) (path : bytes) : outcome unit bytes :=
  match build_app app 0 with Done (r, _) => (router_call r tt (mkServerContext [] tt) (get m path)).2 | _ => Panic end.

(** The nested router sees paths without the prefix; the merged router's fallback is lost. *)
Example answers :
  (ask GET (str "/ping"), ask GET (str "/user"), ask GET (str "/user/list"), ask POST (str "/user/list"), ask GET (str "/nothing")) =
  (Done (str "ping:/ping"), Done (str "root:/"), Done (str "list:/list"), Done (str "405"), Done (str "404")).
Proof. vm_compute. reflexivity. Qed.

(** The router a program builds. *)
Definition built_by (b : Build (U := U) (S := unit) (Rest := unit) (R := bytes) (E := unit) (X := unit)) :
    Router (M := list (bytes * Z)) (U := U) (S := unit) (Rest := unit) (R := bytes) (E := unit) (X := unit) :=
  match build_app b 0 with Done (r, _) => r | _ => router_new status end.

Lemma app_built : build_app app 0 = Done (built_by app, 4).
Proof. vm_compute. reflexivity. Qed.

Lemma inner_built : build_app inner 0 = Done (built_by inner, 2).
Proof. vm_compute. reflexivity. Qed.

Lemma map_drained : forall V (m : gmap bytes V), map_to_list m ≡ₚ map_to_list m.
Proof. done. Qed.

Definition ids : 0 <= 0 < 2 ^ 32 := conj (Z.le_refl 0) eq_refl.
Abbreviation cx0 := (mkServerContext [] tt).
Abbreviation list_req := (get GET (str "/user/list")).

(** The hypotheses of [router_dispatch] hold of the application. *)
Lemma router_dispatch_witness :
  (exists p e ps, rule (M := list (bytes * Z)) status (fun V => map_to_list) map_to_list app p e /\ pattern_matches p (str "/user/list") ps /\
     router_call (built_by app) tt cx0 list_req = endpoint_call e tt (params_mut (fun l => l ++ ps) cx0) list_req) \/
  ((forall p ps, p ∈ patterns app -> ~ pattern_matches p (str "/user/list") ps) /\
     router_call (built_by app) tt cx0 list_req = fallback_of status app tt cx0 list_req).
Proof.
  exact (router_dispatch (M := list (bytes * Z)) status (fun V => map_to_list) map_to_list map_drained (fun m => Permutation_refl _)
           app 0 (built_by app) 4 tt cx0 list_req ids app_built).
Defined.

(** Those of [nest_strips_prefix] hold of the nested router, asked behind its prefix. *)
Lemma nest_strips_prefix_witness :
  let out := endpoint_call (EService (strip_prefix (router_call (built_by inner)))) tt
    (params_mut (fun l => l ++ [] ++ [(NEST_CATCH_PARAM_NAME, str "list")]) cx0) list_req in
  let req' := mkServerRequest GET (str "/list", None) tt in
  (exists p e qs, rule (M := list (bytes * Z)) status (fun V => map_to_list) map_to_list inner p e /\
     pattern_matches p (SLASH :: str "list") qs /\
     out = endpoint_call e tt (params_mut (fun l => l ++ qs) (params_mut (fun l => l ++ []) cx0)) req') \/
  ((forall p qs, p ∈ patterns inner -> ~ pattern_matches p (SLASH :: str "list") qs) /\
     out = fallback_of status inner tt (params_mut (fun l => l ++ []) cx0) req').
Proof.
  exact (nest_strips_prefix (M := list (bytes * Z)) status (fun V => map_to_list) map_to_list map_drained (fun m => Permutation_refl _)
           inner 0 (built_by inner) 2 tt cx0 list_req [] (str "list") (str "/list", None) ids inner_built eq_refl eq_refl).
Defined.

(** The hypothesis of [merge_drops_fallback] holds of a new counter. *)
Lemma merge_drops_fallback_witness :
  match build_app (BMerge BNew (BFallback BNew (named (str "lost")))) 0 with
  | Done (r, _) => ro_fallback r = fallback_of status BNew
  | Fail BothFallbacks => False
  | _ => True
  end.
Proof.
  exact (merge_drops_fallback (M := list (bytes * Z)) status (fun V => map_to_list) map_to_list map_drained (fun m => Permutation_refl _)
           BNew BNew (named (str "lost")) 0 ids).
Defined.
End RouterExample.
