(* ===== verification/HttpClientIp.v ===== *)
(** The client's address behind proxies (volo-http/src/server/utils/client_ip.rs). *)

From S2P Require Import Prelude Net Headers HttpTarget HttpLayers.

Section ClientIp.
(** [ipnet]'s networks: membership, and the two that hold every address. *)
Context {IpNet : Type} (net_contains : IpNet -> IpAddr -> bool) (any_v4 any_v6 : IpNet).
Context {iptext : IpText} {H : Type} {hmap : HeaderMap H}.

Record ClientIpConfig : Type := mkClientIpConfig { ci_headers : list bytes; ci_trusted_cidrs : list IpNet }.

Definition ClientIpConfig_default : ClientIpConfig :=
  mkClientIpConfig [str "x-real-ip"; str "x-forwarded-for"] [any_v4; any_v6].

(** Names of headers that are valid, lower case. *)
Context (header_name : bytes -> option bytes).

Fixpoint parse_headers (headers : list bytes) : option (list bytes) :=
  match headers with
  | [] => Some []
  | h :: headers => name ← header_name h; names ← parse_headers headers; Some (name :: names)
  end.

Definition with_remote_ip_headers (headers : list bytes) (self : ClientIpConfig) : option ClientIpConfig :=
  names ← parse_headers headers; Some (mkClientIpConfig names (ci_trusted_cidrs self)).
Definition with_trusted_cidrs (cidrs : list IpNet) (self : ClientIpConfig) : ClientIpConfig :=
  mkClientIpConfig (ci_headers self) cidrs.

Definition trusted (config : ClientIpConfig) (ip : IpAddr) : bool :=
  existsb (fun cidr => net_contains cidr ip) (ci_trusted_cidrs config).

(** The first address of a header's list that is trusted. *)
Fixpoint first_trusted (config : ClientIpConfig) (texts : list bytes) : option IpAddr :=
  match texts with
  | [] => None
  | t :: texts =>
      match parse_ip (trim t) with
      | Some ip => if trusted config ip then Some ip else first_trusted config texts
      | None => first_trusted config texts
      end
  end.

Fixpoint from_headers (config : ClientIpConfig) (names : list bytes) (headers : H) : option IpAddr :=
  match names with
  | [] => None
  | name :: names =>
      match hm_get name headers ≫= to_str with
      | Some remote_ips =>
          match first_trusted config (split_comma remote_ips) with
          | Some ip => Some ip
          | None => from_headers config names headers
          end
      | None => from_headers config names headers
      end
  end.

(** [ClientIpService::get_client_ip], for the address of the caller. *)
Definition get_client_ip (config : ClientIpConfig) (caller : option Address) (headers : H) : option IpAddr :=
  match caller with
  | None => None
  | Some address =>
      let remote_ip := match address with Ip a => Some (socket_ip a) | Unix _ => None end in
      if match remote_ip with Some ip => negb (trusted config ip) | None => false end then None
      else
        match from_headers config (ci_headers config) headers with
        | Some ip => Some ip
        | None => remote_ip
        end
  end.

(** * What the address can be *)

(** [ip] is listed in one of the headers. *)
Definition listed (names : list bytes) (headers : H) (ip : IpAddr) : Prop :=
  exists name v t, name ∈ names /\ hm_get name headers ≫= to_str = Some v /\ t ∈ split_comma v /\ parse_ip (trim t) = Some ip.

Lemma first_trusted_some config texts ip :
  first_trusted config texts = Some ip -> trusted config ip = true /\ exists t, t ∈ texts /\ parse_ip (trim t) = Some ip.
Proof.
  induction texts as [|t texts IH]; cbn; [done|]. destruct (parse_ip (trim t)) as [i|] eqn:Hp.
  - destruct (trusted config i) eqn:Ht.
    + intros [= <-]. split; [done|]. exists t. split; [by left|done].
    + intros Hf. destruct (IH Hf) as (? & u & Hu & ?). split; [done|]. exists u. split; [by right|done].
  - intros Hf. destruct (IH Hf) as (? & u & Hu & ?). split; [done|]. exists u. split; [by right|done].
Qed.

Lemma first_trusted_none config texts t ip :
  first_trusted config texts = None -> t ∈ texts -> parse_ip (trim t) = Some ip -> trusted config ip = false.
Proof.
  induction texts as [|u texts IH]; cbn; intros Hf Hin Hp; [by apply not_elem_of_nil in Hin|].
  apply elem_of_cons in Hin as [->|Hin].
  - rewrite Hp in Hf. by destruct (trusted config ip).
  - apply IH; try done. destruct (parse_ip (trim u)) as [i|]; [|done]. by destruct (trusted config i).
Qed.

Lemma from_headers_some config names headers ip :
  from_headers config names headers = Some ip -> trusted config ip = true /\ listed names headers ip.
Proof.
  induction names as [|name names IH]; cbn; [done|].
  assert (from_headers config names headers = Some ip -> trusted config ip = true /\ listed (name :: names) headers ip) as Hrest.
  { intros Hf. destruct (IH Hf) as (? & n & v & t & Hn & ?). split; [done|]. exists n, v, t. split; [by right|done]. }
  destruct (hm_get name headers ≫= to_str) as [v|] eqn:Hv; [|done].
  destruct (first_trusted config (split_comma v)) as [i|] eqn:Hf; [|done].
  intros [= <-]. apply first_trusted_some in Hf as (? & t & ? & ?). split; [done|]. exists name, v, t. split; [by left|done].
Qed.

Lemma from_headers_none config names headers ip :
  from_headers config names headers = None -> listed names headers ip -> trusted config ip = false.
Proof.
  induction names as [|name names IH]; cbn; intros Hf (n & v & t & Hn & Hv & Ht & Hp); [by apply not_elem_of_nil in Hn|].
  apply elem_of_cons in Hn as [->|Hn].
  - rewrite Hv in Hf. destruct (first_trusted config (split_comma v)) eqn:Hft; [done|]. by eapply first_trusted_none.
  - apply IH; [|by exists n, v, t]. destruct (hm_get name headers ≫= to_str) as [v'|]; [|done]. by destruct (first_trusted config (split_comma v')).
Qed.

(** A client address is never taken on the word of an untrusted peer: with a peer
    outside the trusted networks, or without an address, there is none;
    otherwise it is an address the headers list that lies in a trusted network,
    or, when they list none, the peer's own. *)
Theorem client_ip_trusted config caller headers :
  match caller with
  | None => get_client_ip config caller headers = None
  | Some (Ip a) =>
      if trusted config (socket_ip a)
      then exists ip, get_client_ip config caller headers = Some ip /\ trusted config ip = true /\
             (listed (ci_headers config) headers ip \/
              ip = socket_ip a /\ forall ip', listed (ci_headers config) headers ip' -> trusted config ip' = false)
      else get_client_ip config caller headers = None
  | Some (Unix _) =>
      forall ip, get_client_ip config caller headers = Some ip -> trusted config ip = true /\ listed (ci_headers config) headers ip
  end.
Proof.
  destruct caller as [[a|u]|]; cbn; [| |done].
  - destruct (trusted config (socket_ip a)) eqn:Ht; cbn; [|done].
    destruct (from_headers config (ci_headers config) headers) as [ip|] eqn:Hf.
    + exists ip. apply from_headers_some in Hf as [? ?]. auto.
    + exists (socket_ip a). split_and!; try done. right. split; [done|]. intros ip'. by apply from_headers_none.
  - intros ip. destruct (from_headers config (ci_headers config) headers) as [i|] eqn:Hf; [|done]. intros [= <-]. by apply from_headers_some.
Qed.
End ClientIp.
