(* ===== verification/HttpBody.v ===== *)
(** HTTP bodies (volo-http/src/body.rs): how they are made, polled, cloned,
    collected and converted, and the size they announce.

    The bodies of other crates are lists of what they yield, with the hint they
    give for what is left of them. *)

From S2P Require Import Prelude Utf8.

(** [http_body::Frame]: data or trailers. *)
Inductive Frame : Type := FData (b : bytes) | FTrailers (t : list (bytes * bytes)).

Record SizeHint : Type := mkSizeHint { sh_lower : Z; sh_upper : option Z }.

Definition hint_new : SizeHint := mkSizeHint 0 None.
Definition with_exact (n : Z) : SizeHint := mkSizeHint n (Some n).

(** [SizeHint::exact]. *)
Definition hint_exact (h : SizeHint) : option Z :=
  match sh_upper h with Some u => if sh_lower h =? u then Some u else None | None => None end.

Section Body.
Context {E : Type}.
Abbreviation Item := (Frame + E)%type.

(** A body behind an interface: what it will yield, its hint for what is left
    and whether it says that it is at its end. *)
Record DynBody : Type := mkDynBody {
  db_items : list Item; db_hint : list Item -> SizeHint; db_is_end : list Item -> bool }.

Definition dyn_poll (b : DynBody) : option Item * DynBody :=
  match db_items b with
  | [] => (None, b)
  | i :: l => (Some i, mkDynBody l (db_hint b) (db_is_end b))
  end.

(** [BodyRepr]; [Full] holds its data until it is polled. *)
Inductive Body : Type :=
| BFull (data : option bytes)
| BHyper (incoming : DynBody)
| BStream (items : list Item)
| BBody (body : DynBody).

(** [Full::new]. *)
Definition full_new (data : bytes) : option bytes := match data with [] => None | _ => Some data end.

Definition empty : Body := BFull (full_new []).
Definition from_incoming (incoming : DynBody) : Body := BHyper incoming.
Definition from_stream (stream : list Item) : Body := BStream stream.
Definition from_body (body : DynBody) : Body := BBody body.

(** [From<()>], and from text and bytes. *)
Definition body_from_unit : Body := empty.
Definition body_from (data : bytes) : Body := BFull (full_new data).

Definition try_clone (b : Body) : option Body :=
  match b with BFull full => Some (BFull full) | BHyper _ | BStream _ | BBody _ => None end.

(** [poll_frame] of a body that is ready. *)
Definition poll_frame (b : Body) : option Item * Body :=
  match b with
  | BFull (Some d) => (Some (inl (FData d)), BFull None)
  | BFull None => (None, b)
  | BHyper d => let '(i, d) := dyn_poll d in (i, BHyper d)
  | BStream [] => (None, b)
  | BStream (i :: l) => (Some i, BStream l)
  | BBody d => let '(i, d) := dyn_poll d in (i, BBody d)
  end.

Definition is_end_stream (b : Body) : bool :=
  match b with
  | BFull d => bool_decide (d = None)
  | BHyper d => db_is_end d (db_items d)
  | BStream _ => false
  | BBody d => db_is_end d (db_items d)
  end.

Definition size_hint (b : Body) : SizeHint :=
  match b with
  | BFull (Some d) => with_exact (Zlen d)
  | BFull None => with_exact 0
  | BHyper d => db_hint d (db_items d)
  | BStream _ => hint_new
  | BBody d => db_hint d (db_items d)
  end.

(** ** Linked bytes *)

Inductive Node : Type := NBytes (b : bytes) | NBytesMut (b : bytes) | NFastStr (s : bytes).

Definition node_bytes (n : Node) : bytes := match n with NBytes b | NBytesMut b | NFastStr b => b end.

(** [LinkedBytesBody]: its hint is that of the iterator over its nodes, which
    knows how many are left. *)
Definition linked_bytes_body (nodes : list Node) : DynBody :=
  mkDynBody ((fun n => inl (FData (node_bytes n))) <$> nodes) (fun l => with_exact (Zlen l)) (fun _ => false).

Definition body_from_linked_bytes (nodes : list Node) : Body := from_body (linked_bytes_body nodes).

(** ** Collecting *)

(** What a body yields until its end. *)
Definition items_of (b : Body) : list Item :=
  match b with
  | BFull (Some d) => [inl (FData d)]
  | BFull None => []
  | BHyper d | BBody d => db_items d
  | BStream l => l
  end.

(** [http_body_util]'s [collect().await] and [to_bytes]: the data of all frames;
    the first error ends it. *)
Fixpoint collect_items (l : list Item) : bytes + E :=
  match l with
  | [] => inl []
  | inr e :: _ => inr e
  | inl f :: l =>
      match collect_items l with
      | inl rest => inl (match f with FData d => d | FTrailers _ => [] end ++ rest)
      | inr e => inr e
      end
  end.

Definition collect (b : Body) : bytes + E := collect_items (items_of b).

Inductive BodyConvertError : Type := BodyCollectionError | StringUtf8Error | JsonDeserializeError.

Definition into_bytes (b : Body) : outcome BodyConvertError bytes :=
  match collect b with inl d => Done d | inr _ => Fail BodyCollectionError end.
Definition into_vec (b : Body) : outcome BodyConvertError bytes := into_bytes b.
Definition into_string (b : Body) : outcome BodyConvertError bytes :=
  vec ← into_vec b; if is_utf8 vec then Done vec else Fail StringUtf8Error.
Definition into_faststr (b : Body) : outcome BodyConvertError bytes :=
  d ← into_bytes b; if is_utf8 d then Done d else Fail StringUtf8Error.
Definition into_json {T} (deserialize : bytes -> option T) (b : Body) : outcome BodyConvertError T :=
  d ← into_bytes b; match deserialize d with Some t => Done t | None => Fail JsonDeserializeError end.

(** ** What bodies promise *)

(** Polling to the end yields the items, one per poll. *)
Fixpoint poll_all (n : nat) (b : Body) : list Item :=
  match n with
  | O => []
  | S n => match poll_frame b with (Some i, b) => i :: poll_all n b | (None, _) => [] end
  end.

Lemma poll_items b :
  match poll_frame b with
  | (Some i, b') => items_of b = i :: items_of b'
  | (None, b') => items_of b = [] /\ b' = b
  end.
Proof.
  destruct b as [[d|]|[[|i l] h e]|[|i l]|[[|i l] h e]]; cbn; done.
Qed.

Lemma poll_all_items b n : (length (items_of b) < n)%nat -> poll_all n b = items_of b.
Proof.
  revert b. induction n as [|n IH]; intros b Hn; [lia|]. cbn. pose proof (poll_items b) as Hp.
  destruct (poll_frame b) as [[i|] b'].
  - rewrite Hp in Hn |- *. cbn in Hn. by rewrite IH by lia.
  - by destruct Hp as [-> _].
Qed.

(** The hint of a body brackets what it yields, when it yields it without error. *)
Definition hint_ok (h : SizeHint) (l : list Item) : Prop :=
  forall d, collect_items l = inl d -> sh_lower h <= Zlen d /\ forall u, sh_upper h = Some u -> Zlen d <= u.
Definition body_hint_ok (b : Body) : Prop := hint_ok (size_hint b) (items_of b).

Definition dyn_hint_ok (d : DynBody) : Prop := forall l, l `suffix_of` db_items d -> hint_ok (db_hint d l) l.

Definition well_hinted (b : Body) : Prop :=
  match b with BHyper d | BBody d => dyn_hint_ok d | _ => True end.

Lemma full_hint data : body_hint_ok (BFull data).
Proof.
  intros d. destruct data as [x|]; cbn; intros [= <-]; rewrite ?app_nil_r; (split; [reflexivity|intros u [= <-]; reflexivity]).
Qed.

Lemma stream_hint l : body_hint_ok (BStream l).
Proof. intros d _. cbn. split; [apply Zlen_nonneg|done]. Qed.

(** Provided the bodies of other crates give good hints, all bodies do, and
    polling keeps it so. *)
Lemma well_hinted_ok b : well_hinted b -> body_hint_ok b.
Proof.
  destruct b as [data|d|l|d]; cbn; intros H; [apply full_hint|by apply H|apply stream_hint|by apply H].
Qed.

Lemma well_hinted_poll b i b' : well_hinted b -> poll_frame b = (i, b') -> well_hinted b'.
Proof.
  destruct b as [[x|]|[[|j l] h e]|[|j l]|[[|j l] h e]]; cbn; intros H [= <- <-]; try done;
    intros k Hk; apply H; cbn; by apply suffix_cons_r.
Qed.
End Body.
Arguments DynBody : clear implicits.
Arguments Body : clear implicits.

(** The body of linked bytes announces how many nodes it has as its length. *)
Lemma linked_bytes_hint {E} nodes :
  hint_exact (size_hint (body_from_linked_bytes (E := E) nodes)) = Some (Zlen nodes) /\
  collect (body_from_linked_bytes (E := E) nodes) = inl (concat (node_bytes <$> nodes)).
Proof.
  split.
  - unfold size_hint, body_from_linked_bytes, hint_exact. cbn. unfold Zlen. rewrite length_fmap. by rewrite Z.eqb_refl.
  - unfold collect. cbn. induction nodes as [|n nodes IH]; [done|]. cbn. by rewrite IH.
Qed.

(** What a body is made of is what it becomes: a body made of bytes or text
    collects to them and converts back to text exactly when they are UTF-8,
    its clone does the same, and it announces its exact length; polling any
    body yields its items in order, one per poll, and then its end; and the
    announced size of every body brackets what it yields, provided the
    bodies of other crates it wraps announce theirs rightly. *)
Theorem body_roundtrip {E} (data : bytes) (b : Body E) n :
  (into_bytes (body_from (E := E) data) = Done data /\
   into_string (body_from (E := E) data) = (if is_utf8 data then Done data else Fail StringUtf8Error) /\
   try_clone (body_from (E := E) data) = Some (body_from data) /\
   hint_exact (size_hint (body_from (E := E) data)) = Some (Zlen data)) /\
  ((length (items_of b) < n)%nat -> poll_all n b = items_of b) /\
  (well_hinted b -> body_hint_ok b).
Proof.
  split; [|split; [apply poll_all_items|apply well_hinted_ok]].
  destruct data as [|x data]; [done|]. unfold into_string, into_vec, into_bytes, collect, body_from. cbn [full_new items_of collect_items].
  rewrite app_nil_r. split_and!; try done. unfold hint_exact. cbn [size_hint with_exact sh_upper sh_lower]. by rewrite Z.eqb_refl.
Qed.

(** A body made of linked bytes announces a wrong length: the exact size it hints
    at is the number of its nodes, so it is right only when the nodes have as
    many bytes as there are nodes. *)
Theorem linked_bytes_size_is_wrong {E} (nodes : list Node) :
  body_hint_ok (body_from_linked_bytes (E := E) nodes) <-> Zlen (concat (node_bytes <$> nodes)) = Zlen nodes.
Proof.
  destruct (linked_bytes_hint (E := E) nodes) as [_ Hc]. unfold body_hint_ok, hint_ok, collect in *. cbn [body_from_linked_bytes from_body size_hint linked_bytes_body db_hint db_items with_exact sh_lower sh_upper] in *.
  assert (Zlen ((fun n : Node => @inl Frame E (FData (node_bytes n))) <$> nodes) = Zlen nodes) as -> by (unfold Zlen; by rewrite length_fmap).
  split.
  - intros H. destruct (H _ Hc) as [H1 H2]. specialize (H2 _ eq_refl). lia.
  - intros H d Hd. rewrite Hd in Hc. injection Hc as ->. split; [lia|]. intros u [= <-]. lia.
Qed.
