(* ===== verification/HttpServe.v ===== *)
(** How the HTTP server turns a request into a response (volo-http/src/server:
    response/into_response.rs, response/redirect.rs, extract.rs, param.rs,
    handler.rs, middleware.rs, layer/*.rs, utils/serve_dir.rs, panic_handler.rs;
    error/server.rs).

    Responses are values; an extractor yields a value or the response that rejects
    the request; handlers, middleware and layers are routes as the router calls
    them. Deserializers, the parser of media types, the file system and the clock
    are parameters. *)

From S2P Require Import Prelude Net Utf8 Headers HttpTarget HttpBody HttpRouter.

Section Serve.
Context {U : Type} {suri : ServerUri U} {H : Type} {hmap : HeaderMap H} {BE : Type}.
Context {E : Type}.

Record CxRest : Type := mkCxRest {
  cr_caller : option Address; cr_tls : bool; cr_client_ip : option (option IpAddr);
  cr_handle_start : option Z; cr_handle_finish : option Z }.
Abbreviation Cx := (ServerContext (X := CxRest)).
Abbreviation Request := (ServerRequest (U := U) (Rest := H * Body BE)).

Record Parts : Type := mkParts { pt_method : ServerMethod; pt_uri : U; pt_headers : H }.

Definition into_parts (req : Request) : Parts * Body BE :=
  (mkParts (sq_method req) (sq_uri req) (sq_rest req).1, (sq_rest req).2).
Definition from_parts (p : Parts) (b : Body BE) : Request := mkServerRequest (pt_method p) (pt_uri p) (pt_headers p, b).

(** * Responses *)

Record Response : Type := mkResponse { rs_status : Z; rs_headers : H; rs_body : Body BE }.

Definition OK : Z := 200.
Definition BAD_REQUEST : Z := 400.
Definition FORBIDDEN : Z := 403.
Definition PAYLOAD_TOO_LARGE : Z := 413.
Definition UNSUPPORTED_MEDIA_TYPE : Z := 415.
Definition INTERNAL_SERVER_ERROR : Z := 500.
Definition CONTENT_TYPE : bytes := str "content-type".
Definition CONTENT_LENGTH : bytes := str "content-length".
Definition LOCATION : bytes := str "location".

Definition status_into_response (s : Z) : Response := mkResponse s hm_empty (body_from []).

(** [T: TryInto<Body>]; the error is given as the response it becomes. *)
Definition body_into_response (b : Body BE + Response) : Response :=
  match b with inl b => mkResponse OK hm_empty b | inr e => e end.
Definition infallible_into_response : Response := status_into_response INTERNAL_SERVER_ERROR.
Definition result_into_response (r : Response + Response) : Response := match r with inl r | inr r => r end.
Definition with_status_into_response (s : Z) (r : Response) : Response := mkResponse s (rs_headers r) (rs_body r).

(** [TryIntoResponseHeaders] of an array: every value must be one; [valid] is
    [TryInto<HeaderValue>]. *)
Fixpoint try_into_response_headers (valid : bytes -> option bytes) (kvs : list (bytes * bytes)) (h : H) : option H :=
  match kvs with
  | [] => Some h
  | (k, v) :: kvs => v ← valid v; try_into_response_headers valid kvs (hm_insert k v h)
  end.

Definition headers_into_response (h : option H) (r : Response) : Response :=
  match h with Some h => mkResponse (rs_status r) (hm_extend h (rs_headers r)) (rs_body r) | None => r end.

(** [Json] and [Form]: the serialized value, under its content type. *)
Definition serialized_into_response (content_type : bytes) (text : option bytes) : Response :=
  match text with
  | None => status_into_response INTERNAL_SERVER_ERROR
  | Some body => mkResponse OK (hm_insert CONTENT_TYPE content_type hm_empty) (body_from body)
  end.
Definition APPLICATION_JSON : bytes := str "application/json".
Definition APPLICATION_FORM : bytes := str "application/x-www-form-urlencoded".
Definition json_into_response : option bytes -> Response := serialized_into_response APPLICATION_JSON.
Definition form_into_response : option bytes -> Response := serialized_into_response APPLICATION_FORM.

(** [Redirect]; [debug]: with debug assertions; [valid]: [HeaderValue::from_str]. *)
Definition redirect_with_status_code (debug : bool) (valid : bytes -> option bytes) (status : Z) (location : bytes) :
    outcome E (Z * bytes) :=
  if debug && negb ((300 <=? status) && (status <? 400)) then Panic
  else match valid location with Some v => Done (status, v) | None => Panic end.
Definition redirect_into_response (r : Z * bytes) : Response :=
  mkResponse r.1 (hm_insert LOCATION r.2 hm_empty) empty.

(** * Rejections *)

Inductive ExtractBodyError : Type :=
| EBodyCollection | EInvalidContentType | EString | EJson | EForm.

Definition extract_error_into_response (e : ExtractBodyError) : Response :=
  status_into_response
    match e with
    | EBodyCollection => INTERNAL_SERVER_ERROR
    | EInvalidContentType => UNSUPPORTED_MEDIA_TYPE
    | EString => UNSUPPORTED_MEDIA_TYPE
    | EJson => BAD_REQUEST
    | EForm => BAD_REQUEST
    end.

Inductive PathParamsRejection : Type := LengthMismatch | ParseError.
Definition path_rejection_into_response (_ : PathParamsRejection) : Response := status_into_response BAD_REQUEST.

(** * Extractors from the context *)

Definition FromContext (T : Type) : Type := Cx -> Parts -> Cx * Parts * outcome Response T.

Definition option_from_context {T} (ex : FromContext T) : FromContext (option T) := fun cx p =>
  let '(cx, p, r) := ex cx p in
  (cx, p, match r with Done v => Done (Some v) | Fail _ => Done None | Panic => Panic | OutOfFuel => OutOfFuel end).
Definition result_from_context {T} (ex : FromContext T) : FromContext (T + Response) := fun cx p =>
  let '(cx, p, r) := ex cx p in
  (cx, p, match r with Done v => Done (inl v) | Fail e => Done (inr e) | Panic => Panic | OutOfFuel => OutOfFuel end).

Definition address_from_context : FromContext Address := fun cx p =>
  (cx, p, match cr_caller (sc_rest cx) with Some a => Done a | None => Panic end).
Definition uri_from_context : FromContext U := fun cx p => (cx, p, Done (pt_uri p)).
Definition method_from_context : FromContext ServerMethod := fun cx p => (cx, p, Done (pt_method p)).
Definition client_ip_from_context : FromContext (option IpAddr) := fun cx p =>
  (cx, p, Done (match cr_client_ip (sc_rest cx) with Some ip => ip | None => None end)).

(** [FullUri], with [http]'s builder; the authority is the [Host] header. *)
Definition full_uri_from_context {F} (build : bool -> bytes -> bytes -> option F) (path_and_query : U -> option bytes) : FromContext F :=
  fun cx p =>
    let host := match hm_get (str "host") (pt_headers p) with
                | Some h => if is_utf8 h then h else []
                | None => []
                end in
    (cx, p, match build (cr_tls (sc_rest cx)) host (default (str "/") (path_and_query (pt_uri p))) with
            | Some u => Done u
            | None => Fail (status_into_response INTERNAL_SERVER_ERROR)
            end).

Definition query_from_context {T} (from_str : bytes -> option T) : FromContext T := fun cx p =>
  (cx, p, match from_str (default [] (su_query (pt_uri p))) with
          | Some v => Done v
          | None => Fail (status_into_response BAD_REQUEST)
          end).

(** ** Path parameters *)

Definition params_vec_from_context : FromContext (list (bytes * bytes)) := fun cx p => (cx, p, Done (sc_params cx)).

Definition params_map (params : list (bytes * bytes)) : gmap bytes bytes :=
  fold_left (fun m kv => <[kv.1 := kv.2]> m) params ∅.
Definition params_map_from_context : FromContext (gmap bytes bytes) := fun cx p => (cx, p, Done (params_map (sc_params cx))).

(** [PathParams] of a tuple: [FromStr] of each type on the values in turn. *)
Fixpoint path_params {T} (types : list (bytes -> option T)) (params : list (bytes * bytes)) : outcome PathParamsRejection (list T) :=
  match types with
  | [] => Done []
  | ty :: types =>
      match params with
      | [] => Fail LengthMismatch
      | (_, v) :: params =>
          match ty v with
          | None => Fail ParseError
          | Some t => ts ← path_params types params; Done (t :: ts)
          end
      end
  end.

Definition path_params_from_context {T} (types : list (bytes -> option T)) : FromContext (list T) := fun cx p =>
  (cx, p, match path_params types (sc_params cx) with
          | Done ts => Done ts
          | Fail e => Fail (path_rejection_into_response e)
          | Panic => Panic
          | OutOfFuel => OutOfFuel
          end).

(** * Extractors from the request *)

Definition FromRequest (T : Type) : Type := Cx -> Parts -> Body BE -> Cx * outcome Response T.

Definition via_context {T} (ex : FromContext T) : FromRequest T := fun cx p _ => let '(cx, _, r) := ex cx p in (cx, r).
Definition option_from_request {T} (ex : FromRequest T) : FromRequest (option T) := fun cx p b =>
  let '(cx, r) := ex cx p b in
  (cx, match r with Done v => Done (Some v) | Fail _ => Done None | Panic => Panic | OutOfFuel => OutOfFuel end).
Definition result_from_request {T} (ex : FromRequest T) : FromRequest (T + Response) := fun cx p b =>
  let '(cx, r) := ex cx p b in
  (cx, match r with Done v => Done (inl v) | Fail e => Done (inr e) | Panic => Panic | OutOfFuel => OutOfFuel end).
Definition request_from_request : FromRequest Request := fun cx p b => (cx, Done (from_parts p b)).

(** [Bytes]: a [Content-Length] that does not match is only logged. *)
Definition extract_bytes (b : Body BE) : outcome ExtractBodyError bytes :=
  match collect b with inl d => Done d | inr _ => Fail EBodyCollection end.
Definition extract_string (b : Body BE) : outcome ExtractBodyError bytes :=
  vec ← extract_bytes b; if is_utf8 vec then Done vec else Fail EString.

Definition rejecting {T} (r : outcome ExtractBodyError T) : outcome Response T :=
  match r with Done v => Done v | Fail e => Fail (extract_error_into_response e) | Panic => Panic | OutOfFuel => OutOfFuel end.
Definition bytes_from_request : FromRequest bytes := fun cx _ b => (cx, rejecting (extract_bytes b)).
Definition string_from_request : FromRequest bytes := fun cx _ b => (cx, rejecting (extract_string b)).
Definition maybe_invalid_from_request : FromRequest bytes := bytes_from_request.

(** A media type: type, subtype and suffix; [mime]'s parser is a parameter. *)
Record Mime : Type := mkMime { mm_type : bytes; mm_subtype : bytes; mm_suffix : option bytes }.
Context (mime_parse : bytes -> option Mime).

Definition content_type_matches (headers : H) (ty subtype : bytes) : bool :=
  match hm_get CONTENT_TYPE headers with
  | None => false
  | Some ct =>
      match to_str ct with
      | None => false
      | Some ct =>
          match mime_parse ct with
          | None => false
          | Some m => bool_decide (mm_type m = ty) && bool_decide (mm_subtype m = subtype)
                      || bool_decide (mm_suffix m = Some subtype)
          end
      end
  end.

Definition extract_typed {T} (ty subtype : bytes) (err : ExtractBodyError) (deserialize : bytes -> option T) (p : Parts) (b : Body BE) :
    outcome ExtractBodyError T :=
  if negb (content_type_matches (pt_headers p) ty subtype) then Fail EInvalidContentType
  else d ← extract_bytes b; match deserialize d with Some v => Done v | None => Fail err end.

Definition form_from_request {T} (deserialize : bytes -> option T) : FromRequest T := fun cx p b =>
  (cx, rejecting (extract_typed (str "application") (str "x-www-form-urlencoded") EForm deserialize p b)).
Definition json_from_request {T} (deserialize : bytes -> option T) : FromRequest T := fun cx p b =>
  (cx, rejecting (extract_typed (str "application") (str "json") EJson deserialize p b)).
End Serve.
