(* ===== verification/WebSocket.v ===== *)
(** The WebSocket handshake of the HTTP server (volo-http/src/server/utils/ws.rs):
    the extractor that checks an upgrade request, the choice of a subprotocol,
    the response, and the task that waits for the connection.

    The key's digest ([tungstenite]'s [derive_accept_key]), hyper's upgraded
    connection and the socket's frames are parameters. *)

From S2P Require Import Prelude Net Utf8 Headers HttpTarget GrpcStatus HttpBody HttpRouter HttpServe.

Definition CONNECTION : bytes := str "connection".
Definition UPGRADE : bytes := str "upgrade".
Definition SEC_WEBSOCKET_KEY : bytes := str "sec-websocket-key".
Definition SEC_WEBSOCKET_VERSION : bytes := str "sec-websocket-version".
Definition SEC_WEBSOCKET_PROTOCOL : bytes := str "sec-websocket-protocol".
Definition SEC_WEBSOCKET_ACCEPT : bytes := str "sec-websocket-accept".
Definition HEADERVALUE_UPGRADE : bytes := str "upgrade".
Definition HEADERVALUE_WEBSOCKET : bytes := str "websocket".

(** [Version], by ten times its number. *)
Definition HTTP_11 : Z := 11.

(** [str::contains]. *)
Fixpoint contains (s value : bytes) : bool :=
  starts_with s value || match s with [] => false | _ :: s => contains s value end.

(** [tungstenite]'s [WebSocketConfig], as far as it is set here. *)
Record WebSocketConfig : Type := mkWebSocketConfig {
  wc_write_buffer_size : Z; wc_max_write_buffer_size : Z; wc_max_message_size : option Z; wc_max_frame_size : option Z;
  wc_accept_unmasked_frames : bool }.

Inductive WebSocketUpgradeRejectionError : Type :=
| MethodNotGet | InvalidHttpVersion | InvalidConnectionHeader | InvalidUpgradeHeader | InvalidWebSocketVersionHeader
| WebSocketKeyHeaderMissing.

Definition to_status_code (e : WebSocketUpgradeRejectionError) : Z :=
  match e with
  | MethodNotGet => 405
  | InvalidHttpVersion => 505
  | InvalidConnectionHeader => 426
  | InvalidUpgradeHeader => 400
  | InvalidWebSocketVersionHeader => 400
  | WebSocketKeyHeaderMissing => 400
  end.

Section Upgrade.
Context {H : Type} {hmap : HeaderMap H} {BE : Type} {OnUpgrade Failed : Type}.
Context (config_default : WebSocketConfig) (derive_accept_key : bytes -> bytes).
Abbreviation Resp := (Response (H := H) (BE := BE)).

(** [http::request::Parts] as far as the extractor reads it; [wp_on_upgrade] is the
    extension hyper leaves. *)
Record WsParts : Type := mkWsParts { wp_method : ServerMethod; wp_version : Z; wp_headers : H; wp_on_upgrade : option OnUpgrade }.

Record WebSocketUpgrade : Type := mkUpgrade {
  wu_config : WebSocketConfig; wu_protocol : option bytes; wu_key : bytes; wu_req_protocol : option bytes; wu_on_upgrade : OnUpgrade;
  wu_on_failed : option Failed }.

Definition rejection_into_response (e : WebSocketUpgradeRejectionError) : Resp := status_into_response (to_status_code e).

Definition header_contains (headers : H) (key value : bytes) : bool :=
  match hm_get key headers with
  | Some header => is_utf8 header && contains (ascii_lower <$> header) value
  | None => false
  end.
Definition header_eq (headers : H) (key value : bytes) : bool :=
  match hm_get key headers with Some header => eq_ignore_ascii_case header value | None => false end.

(** [FromContext for WebSocketUpgrade]: the extension is taken. *)
Definition ws_from_context (parts : WsParts) : WsParts * outcome WebSocketUpgradeRejectionError WebSocketUpgrade :=
  let headers := wp_headers parts in
  if negb (bool_decide (wp_method parts = GET)) then (parts, Fail MethodNotGet)
  else if wp_version parts <? HTTP_11 then (parts, Fail InvalidHttpVersion)
  else if negb (header_contains headers CONNECTION (str "upgrade")) then (parts, Fail InvalidConnectionHeader)
  else if negb (header_eq headers UPGRADE (str "websocket")) then (parts, Fail InvalidUpgradeHeader)
  else if negb (header_eq headers SEC_WEBSOCKET_VERSION (str "13")) then (parts, Fail InvalidWebSocketVersionHeader)
  else
    match hm_get SEC_WEBSOCKET_KEY headers with
    | None => (parts, Fail WebSocketKeyHeaderMissing)
    | Some key =>
        (mkWsParts (wp_method parts) (wp_version parts) headers None,
         match wp_on_upgrade parts with
         | Some on_upgrade => Done (mkUpgrade config_default None key (hm_get SEC_WEBSOCKET_PROTOCOL headers) on_upgrade None)
         | None => Panic
         end)
    end.

(** ** Settings *)

Definition set_ws_config (f : WebSocketConfig -> WebSocketConfig) (u : WebSocketUpgrade) : WebSocketUpgrade :=
  mkUpgrade (f (wu_config u)) (wu_protocol u) (wu_key u) (wu_req_protocol u) (wu_on_upgrade u) (wu_on_failed u).
Definition write_buffer_size (size : Z) : WebSocketUpgrade -> WebSocketUpgrade :=
  set_ws_config (fun c => mkWebSocketConfig size (wc_max_write_buffer_size c) (wc_max_message_size c) (wc_max_frame_size c) (wc_accept_unmasked_frames c)).
Definition max_write_buffer_size (max : Z) : WebSocketUpgrade -> WebSocketUpgrade :=
  set_ws_config (fun c => mkWebSocketConfig (wc_write_buffer_size c) max (wc_max_message_size c) (wc_max_frame_size c) (wc_accept_unmasked_frames c)).
Definition max_message_size (max : option Z) : WebSocketUpgrade -> WebSocketUpgrade :=
  set_ws_config (fun c => mkWebSocketConfig (wc_write_buffer_size c) (wc_max_write_buffer_size c) max (wc_max_frame_size c) (wc_accept_unmasked_frames c)).
Definition ws_max_frame_size (max : option Z) : WebSocketUpgrade -> WebSocketUpgrade :=
  set_ws_config (fun c => mkWebSocketConfig (wc_write_buffer_size c) (wc_max_write_buffer_size c) (wc_max_message_size c) max (wc_accept_unmasked_frames c)).
Definition accept_unmasked_frames (accept : bool) : WebSocketUpgrade -> WebSocketUpgrade :=
  set_ws_config (fun c => mkWebSocketConfig (wc_write_buffer_size c) (wc_max_write_buffer_size c) (wc_max_message_size c) (wc_max_frame_size c) accept).
Definition on_failed_upgrade (callback : Failed) (u : WebSocketUpgrade) : WebSocketUpgrade :=
  mkUpgrade (wu_config u) (wu_protocol u) (wu_key u) (wu_req_protocol u) (wu_on_upgrade u) (Some callback).

(** ** Subprotocols *)

(** The protocols the client offers. *)
Definition offered (u : WebSocketUpgrade) : list bytes :=
  match wu_req_protocol u ≫= to_str with Some s => trim <$> split_comma s | None => [] end.

(** The loop of [get_protocol]; a protocol is owned text ([HeaderValue::from_str]) or
    static text ([from_static], which panics on text that is no value). *)
Fixpoint choose_protocol {E} (req_protocols : list bytes) (protocols : list (bool * bytes)) : outcome E (option bytes) :=
  match protocols with
  | [] => Done None
  | (owned, p) :: protocols =>
      if bool_decide (p ∈ req_protocols) then
        match to_str p with
        | Some v => Done (Some v)
        | None => if owned : bool then Done None else Panic
        end
      else choose_protocol req_protocols protocols
  end.

Definition get_protocol {E} (u : WebSocketUpgrade) (protocols : list (bool * bytes)) : outcome E (option bytes) :=
  match wu_req_protocol u ≫= to_str with
  | None => Done None
  | Some s => choose_protocol (trim <$> split_comma s) protocols
  end.

Definition protocols {E} (ps : list (bool * bytes)) (u : WebSocketUpgrade) : outcome E WebSocketUpgrade :=
  p ← get_protocol u ps; Done (mkUpgrade (wu_config u) p (wu_key u) (wu_req_protocol u) (wu_on_upgrade u) (wu_on_failed u)).

(** ** The response and the task *)

(** [on_upgrade]: the response, and the task that is spawned; without a valid accept
    key no task is. *)
Definition on_upgrade (u : WebSocketUpgrade) : Resp * option WebSocketUpgrade :=
  match to_str (derive_accept_key (wu_key u)) with
  | None => (status_into_response BAD_REQUEST, None)
  | Some accept_key =>
      let h := hm_insert UPGRADE HEADERVALUE_WEBSOCKET (hm_insert CONNECTION HEADERVALUE_UPGRADE hm_empty) in
      let h := hm_insert SEC_WEBSOCKET_ACCEPT accept_key h in
      let h := match wu_protocol u ≫= header_value with Some p => hm_insert SEC_WEBSOCKET_PROTOCOL p h | None => h end in
      (mkResponse 101 h empty, Some u)
  end.

(** What the task does when the connection is there, or the upgrade failed: the
    callback's socket with its configuration, or the failure's callback. *)
Inductive UpgradeEnd (Upgraded : Type) : Type :=
| RunCallback (upgraded : Upgraded) (config : WebSocketConfig) (protocol : option bytes)
| RunFailed (callback : option Failed).
#[global] Arguments RunCallback {Upgraded}.
#[global] Arguments RunFailed {Upgraded}.

Definition upgrade_task {Upgraded Err} (u : WebSocketUpgrade) (r : Upgraded + Err) : UpgradeEnd Upgraded :=
  match r with
  | inl upgraded => RunCallback upgraded (wu_config u) (wu_protocol u)
  | inr _ => RunFailed (wu_on_failed u)
  end.

(** [WebSocket::protocol]. *)
Definition ws_protocol (protocol : option bytes) : option bytes := p ← protocol; if is_utf8 p then Some p else None.
End Upgrade.

(** * The handshake *)

Lemma visible_piece s p b : p ∈ split_comma s -> b ∈ p -> b ∈ s.
Proof.
  revert p. induction s as [|c s IH]; cbn; intros p Hp Hb.
  { apply list_elem_of_singleton in Hp as ->. done. }
  case_bool_decide.
  - apply elem_of_cons in Hp as [->|Hp]; [by apply elem_of_nil in Hb|]. right. by apply (IH p).
  - destruct (split_comma s) as [|q qs].
    + apply list_elem_of_singleton in Hp as ->. apply list_elem_of_singleton in Hb as ->. left.
    + apply elem_of_cons in Hp as [->|Hp].
      * apply elem_of_cons in Hb as [->|Hb]; [left|right]. apply (IH q); [left|done].
      * right. apply (IH p); [by right|done].
Qed.

Lemma trim_start_sub b s : b ∈ trim_start s -> b ∈ s.
Proof.
  induction s as [|c s IH]; cbn; [done|]. destruct (is_white c); [|done]. intros Hb. right. by apply IH.
Qed.

Lemma trim_sub b s : b ∈ trim s -> b ∈ s.
Proof. unfold trim. by intros Hb%elem_of_reverse%trim_start_sub%elem_of_reverse%trim_start_sub. Qed.

Lemma to_str_iff s : to_str s = Some s <-> forall b, b ∈ s -> (32 <= Z_of_byte b < 127) \/ Z_of_byte b = 9.
Proof.
  unfold to_str. destruct (forallb _ s) eqn:E.
  - split; [|done]. intros _ b Hb%list_elem_of_In. rewrite forallb_forall in E. specialize (E b Hb). cbn in E. lia.
  - split; [done|]. intros Hs. exfalso. rewrite <- not_true_iff_false in E. destruct E. apply forallb_forall. intros b Hb%list_elem_of_In.
    specialize (Hs b Hb). cbn. lia.
Qed.

Lemma to_str_id s t : to_str s = Some t -> t = s.
Proof. unfold to_str. destruct (forallb _ _); congruence. Qed.

Lemma to_str_header_value s : to_str s = Some s -> header_value s = Some s.
Proof.
  intros Hs. unfold header_value. assert (forallb header_byte s = true) as ->; [|done]. apply forallb_forall. intros b Hb%list_elem_of_In.
  pose proof (proj1 (to_str_iff s) Hs b Hb). unfold header_byte. lia.
Qed.

Section Handshake.
Context {H : Type} {hmap : HeaderMap H} {hlaws : HeaderMapLaws H} {BE : Type} {OnUpgrade Failed : Type}.
Context (config_default : WebSocketConfig) (derive_accept_key : bytes -> bytes).
Abbreviation Parts := (WsParts (H := H) (OnUpgrade := OnUpgrade)).
Abbreviation Resp := (Response (H := H) (BE := BE)).
Abbreviation Upgrade := (WebSocketUpgrade (OnUpgrade := OnUpgrade) (Failed := Failed)).

(** The key's digest is base64 text. *)
Context (digest_visible : forall key, to_str (derive_accept_key key) = Some (derive_accept_key key)).

(** A handler that offers subprotocols, with the extractor before it. *)
Definition ws_exchange (ps : list (bool * bytes)) (parts : Parts) : outcome Empty_set (Resp * option Upgrade) :=
  match ws_from_context config_default parts with
  | (_, Done u) => u ← protocols ps u; Done (on_upgrade derive_accept_key u)
  | (_, Fail e) => Done (rejection_into_response e, None)
  | (_, Panic) => Panic
  | (_, OutOfFuel) => OutOfFuel
  end.

(** What the handshake asks of a request. *)
Definition upgrade_request (parts : Parts) : Prop :=
  wp_method parts = GET /\ HTTP_11 <= wp_version parts /\
  header_contains (wp_headers parts) CONNECTION (str "upgrade") = true /\
  header_eq (wp_headers parts) UPGRADE (str "websocket") = true /\
  header_eq (wp_headers parts) SEC_WEBSOCKET_VERSION (str "13") = true /\ is_Some (hm_get SEC_WEBSOCKET_KEY (wp_headers parts)).

(** The subprotocols a request offers, and the one chosen among a server's. *)
Definition request_offers (parts : Parts) : list bytes :=
  match hm_get SEC_WEBSOCKET_PROTOCOL (wp_headers parts) ≫= to_str with Some s => trim <$> split_comma s | None => [] end.
Definition chosen (parts : Parts) (ps : list (bool * bytes)) : option bytes :=
  head (base.filter (fun p => p ∈ request_offers parts) ps.*2).

Lemma offers_visible parts p : p ∈ request_offers parts -> to_str p = Some p.
Proof.
  unfold request_offers. destruct (hm_get SEC_WEBSOCKET_PROTOCOL (wp_headers parts) ≫= to_str) as [s|] eqn:E; [|by intros ?%elem_of_nil].
  intros (q & -> & Hq)%list_elem_of_fmap. apply to_str_iff. intros b Hb%trim_sub. assert (to_str s = Some s) as Hs.
  { destruct (hm_get _ _) as [v|]; [|done]. cbn in E. pose proof (to_str_id _ _ E) as ->. done. }
  apply (proj1 (to_str_iff s) Hs). by apply (visible_piece s q).
Qed.

Lemma choose_spec {E} req ps :
  (forall p, p ∈ req -> to_str p = Some p) ->
  choose_protocol (E := E) req ps = Done (head (base.filter (fun p => p ∈ req) ps.*2)).
Proof.
  intros Hv. induction ps as [|[o p] ps IH]; [done|]. cbn [choose_protocol]. rewrite fmap_cons, filter_cons. cbn [snd].
  case_bool_decide; [rewrite decide_True by done|rewrite decide_False by done; done]. by rewrite (Hv p).
Qed.

Lemma get_protocol_chosen parts ps (u : Upgrade) :
  wu_req_protocol u = hm_get SEC_WEBSOCKET_PROTOCOL (wp_headers parts) -> get_protocol (E := Empty_set) u ps = Done (chosen parts ps).
Proof.
  intros Hu. unfold get_protocol, chosen. rewrite Hu.
  pose proof (choose_spec (E := Empty_set) (request_offers parts) ps (offers_visible parts)) as Hc. unfold request_offers in *.
  destruct (hm_get SEC_WEBSOCKET_PROTOCOL (wp_headers parts) ≫= to_str); [done|].
  assert (base.filter (fun p => p ∈ []) ps.*2 = []) as ->; [|done]. generalize (ps.*2). intros l. induction l as [|x l IH]; [done|].
  rewrite filter_cons, decide_False; [done|apply not_elem_of_nil].
Qed.

Lemma chosen_value parts ps : chosen parts ps ≫= header_value = chosen parts ps.
Proof.
  unfold chosen. destruct (base.filter _ _) as [|p l] eqn:E; [done|]. cbn. apply to_str_header_value, (offers_visible parts).
  assert (p ∈ base.filter (fun p => p ∈ request_offers parts) ps.*2) as Hi by (rewrite E; left). by apply list_elem_of_filter in Hi as [Hi _].
Qed.

Lemma from_context_accepts parts oc :
  wp_on_upgrade parts = Some oc ->
  match ws_from_context (Failed := Failed) config_default parts with
  | (_, Done u) => upgrade_request parts /\ exists key, hm_get SEC_WEBSOCKET_KEY (wp_headers parts) = Some key /\
      u = mkUpgrade config_default None key (hm_get SEC_WEBSOCKET_PROTOCOL (wp_headers parts)) oc None
  | (_, Fail e) => ~ upgrade_request parts
  | _ => False
  end.
Proof.
  intros Hoc. unfold ws_from_context, upgrade_request. case_bool_decide as Hm; cbn [negb]; [|tauto].
  destruct (wp_version parts <? HTTP_11) eqn:Hv; [lia|]. destruct (header_contains _ _ _); cbn [negb]; [|intros (_ & _ & ? & _); done].
  destruct (header_eq _ UPGRADE _); cbn [negb]; [|intros (_ & _ & _ & ? & _); done].
  destruct (header_eq _ SEC_WEBSOCKET_VERSION _); cbn [negb]; [|intros (_ & _ & _ & _ & ? & _); done].
  destruct (hm_get SEC_WEBSOCKET_KEY (wp_headers parts)) as [key|] eqn:Hk; [|intros (_ & _ & _ & _ & _ & [? ?]); done].
  rewrite Hoc. split; [|by exists key]. split_and!; [done|lia|done..|by eexists].
Qed.

(** C32: The handshake: a connection is upgraded exactly when the request is a GET of
    HTTP/1.1 or later with the four headers, whatever subprotocols the handler
    names; the answer then is 101 with the digest of the request's key and the
    first of the handler's subprotocols that the client offers, if any, which
    is also the one the handler's socket has; otherwise the answer is an error
    and nothing waits for the connection. No request makes the server panic
    while hyper's extension is there. *)
Theorem websocket_handshake ps parts :
  is_Some (wp_on_upgrade parts) ->
  exists resp task, ws_exchange ps parts = Done (resp, task) /\
    (rs_status resp = 101 <-> upgrade_request parts) /\ (is_Some task <-> upgrade_request parts) /\
    (upgrade_request parts -> forall key, hm_get SEC_WEBSOCKET_KEY (wp_headers parts) = Some key ->
      hm_get SEC_WEBSOCKET_ACCEPT (rs_headers resp) = Some (derive_accept_key key) /\
      hm_get CONNECTION (rs_headers resp) = Some (str "upgrade") /\ hm_get UPGRADE (rs_headers resp) = Some (str "websocket") /\
      hm_get SEC_WEBSOCKET_PROTOCOL (rs_headers resp) = chosen parts ps /\
      exists u, task = Some u /\ forall (up : nat), upgrade_task (Err := unit) u (inl up) = RunCallback up config_default (chosen parts ps)) /\
    (~ upgrade_request parts -> 400 <= rs_status resp).
Proof.
  intros [oc Hoc]. pose proof (from_context_accepts parts oc Hoc) as Hf. unfold ws_exchange.
  destruct (ws_from_context config_default parts) as [? [u|e| |]]; try done.
  - destruct Hf as (Hr & key & Hk & ->). unfold protocols.
    rewrite (get_protocol_chosen parts ps) by done.
    cbn [mbind outcome_bind]. unfold on_upgrade. cbn [wu_key wu_protocol wu_config wu_req_protocol wu_on_upgrade wu_on_failed].
    rewrite digest_visible. eexists _, _. split; [done|]. cbn [rs_status rs_headers]. split_and!; [done|split; [done|by eexists]| |done].
    intros _ key' Hk'. rewrite Hk in Hk'. injection Hk' as <-.
    rewrite chosen_value.
    destruct (chosen parts ps) as [p|]; rewrite !get_insert; repeat (rewrite bool_decide_eq_false_2 by done || rewrite bool_decide_eq_true_2 by done);
      rewrite ?get_empty; split_and!; try done; eexists; (split; [done|]); intros up; done.
  - eexists _, _. split; [done|]. unfold rejection_into_response, status_into_response. cbn [rs_status].
    split_and!; [destruct e; done|split; [by intros [? ?]|done]|done|]. intros _. by destruct e.
Qed.
End Handshake.

(** The option of [Connection] is looked for inside the header's first value, not
    among its options. *)
Lemma connection_substring_accepted :
  header_contains (H := Headers) [(CONNECTION, str "no-upgrades-here")] CONNECTION (str "upgrade") = true.
Proof. by vm_compute. Qed.

Lemma second_connection_header_ignored :
  header_contains (H := Headers) [(CONNECTION, str "keep-alive"); (CONNECTION, str "upgrade")] CONNECTION (str "upgrade") = false.
Proof. by vm_compute. Qed.

Module WebSocketExample.
Definition config : WebSocketConfig := mkWebSocketConfig 131072 1048576 None None false.
Definition digest (key : bytes) : bytes := str "s3pPLMBiTxaQ9kYGzzhZRbK+xOo=".

Definition parts : WsParts (H := Headers) (OnUpgrade := unit) :=
  mkWsParts GET HTTP_11
    [(CONNECTION, str "keep-alive, Upgrade"); (UPGRADE, str "WebSocket"); (SEC_WEBSOCKET_VERSION, str "13");
     (SEC_WEBSOCKET_KEY, str "dGhlIHNhbXBsZSBub25jZQ=="); (SEC_WEBSOCKET_PROTOCOL, str "chat, superchat")] (Some tt).

Lemma websocket_handshake_witness :
  exists resp task, ws_exchange (BE := unit) (Failed := unit) config digest [(false, str "soap"); (true, str "superchat"); (false, str "chat")] parts =
      Done (resp, task) /\ hm_get SEC_WEBSOCKET_PROTOCOL (rs_headers resp) = Some (str "superchat").
Proof.
  destruct (websocket_handshake (BE := unit) (Failed := unit) config digest ltac:(by intros k; vm_compute)
    [(false, str "soap"); (true, str "superchat"); (false, str "chat")] parts) as (resp & task & Heq & _ & _ & Hup & _).
  - by eexists.
  - exists resp, task. split; [exact Heq|]. destruct (Hup ltac:(split_and!; [done|done|by vm_compute..|vm_compute; by eexists])
      (str "dGhlIHNhbXBsZSBub25jZQ==") ltac:(by vm_compute)) as (_ & _ & _ & Hp & _).
    rewrite Hp. by vm_compute.
Defined.
End WebSocketExample.
