(* ===== verification/HttpHandle.v ===== *)
(** Handlers, middleware and layers of the HTTP server, and the service for
    static files (volo-http/src/server/handler.rs, middleware.rs, layer/*.rs,
    utils/serve_dir.rs, utils/file_response.rs), as routes.

    A handler of several arguments takes them as a list, in order, and its last one
    apart, as the macro that generates the instances does. *)

From S2P Require Import Prelude Net Utf8 Headers HttpTarget HttpBody HttpRouter HttpServe.

Section Handle.
Context {U : Type} {suri : ServerUri U} {H : Type} {hmap : HeaderMap H} {BE : Type}.
(** The state of the surroundings, and its clock. *)
Context {W E : Type} (now : W -> Z).
Abbreviation Cx := (ServerContext (X := CxRest)).
Abbreviation Request := (ServerRequest (U := U) (Rest := H * Body BE)).
Abbreviation Resp := (Response (H := H) (BE := BE)).
Abbreviation HRoute := (Route (U := U) (S := W) (Rest := H * Body BE) (R := Resp) (E := E) (X := CxRest)).
Abbreviation FromCx := (FromContext (U := U) (H := H) (BE := BE)).
Abbreviation FromReq := (FromRequest (U := U) (H := H) (BE := BE)).

Definition record_handle_start (t : Z) (cx : Cx) : Cx :=
  let r := sc_rest cx in
  mkServerContext (sc_params cx) (mkCxRest (cr_caller r) (cr_tls r) (cr_client_ip r) (Some t) (cr_handle_finish r)).
Definition record_handle_finish (t : Z) (cx : Cx) : Cx :=
  let r := sc_rest cx in
  mkServerContext (sc_params cx) (mkCxRest (cr_caller r) (cr_tls r) (cr_client_ip r) (cr_handle_start r) (Some t)).

(** * Handlers *)

Section Args.
Context {V : Type}.

(** The extractors in turn; the first that fails ends it. *)
Fixpoint extract_all (exs : list (FromCx V)) (cx : Cx) (p : Parts) : Cx * Parts * outcome Resp (list V) :=
  match exs with
  | [] => (cx, p, Done [])
  | ex :: exs =>
      let '(cx, p, r) := ex cx p in
      match r with
      | Done v => let '(cx, p, r) := extract_all exs cx p in (cx, p, vs ← r; Done (v :: vs))
      | Fail rejection => (cx, p, Fail rejection)
      | Panic => (cx, p, Panic)
      | OutOfFuel => (cx, p, OutOfFuel)
      end
  end.

(** A rejection is the response; a panic goes on. *)
Definition rejected {A} (r : outcome Resp A) : outcome E Resp :=
  match r with Fail rejection => Done rejection | OutOfFuel => OutOfFuel | _ => Panic end.

(** [Handler::handle], for a handler without arguments and one with some. *)
Definition handle0 (f : W -> W * outcome E Resp) : HRoute := fun w cx _ => let '(w, r) := f w in (w, cx, r).

Definition handle (exs : list (FromCx V)) (last : FromReq V) (f : list V -> V -> W -> W * outcome E Resp) : HRoute :=
  fun w cx req =>
    let '(p, body) := into_parts req in
    let '(cx, p, r) := extract_all exs cx p in
    match r with
    | Done vs =>
        let '(cx, r) := last cx p body in
        match r with
        | Done v =>
            let cx := record_handle_start (now w) cx in
            let '(w, result) := f vs v w in
            (w, match result with Done _ => record_handle_finish (now w) cx | _ => cx end, result)
        | r => (w, cx, rejected r)
        end
    | r => (w, cx, rejected r)
    end.

(** [HandlerWithoutRequest::handle]: what the function answers, or the rejection. *)
Definition handle_without_request {A} (exs : list (FromCx V)) (f : list V -> W -> W * A) (w : W) (cx : Cx) (p : Parts) :
    W * Cx * Parts * outcome Resp A :=
  let '(cx, p, r) := extract_all exs cx p in
  match r with
  | Done vs => let '(w, a) := f vs w in (w, cx, p, Done a)
  | Fail rejection => (w, cx, p, Fail rejection)
  | Panic => (w, cx, p, Panic)
  | OutOfFuel => (w, cx, p, OutOfFuel)
  end.

(** * Middleware *)

(** [FromFn::call]. *)
Definition from_fn (exs : list (FromCx V)) (f : list V -> HRoute -> HRoute) (service : HRoute) : HRoute := fun w cx req =>
  let '(p, body) := into_parts req in
  let '(cx, p, r) := extract_all exs cx p in
  match r with
  | Done vs => f vs service w cx (from_parts p body)
  | r => (w, cx, rejected r)
  end.

(** [MapResponse::call]. *)
Definition map_response (f : Cx -> Resp -> W -> W * Cx * Resp) (service : HRoute) : HRoute := fun w cx req =>
  let '(w, cx, r) := service w cx req in
  match r with
  | Done resp => let '(w, cx, resp) := f cx resp w in (w, cx, Done resp)
  | r => (w, cx, r)
  end.

(** * Layers *)

(** [Filter::call]: the function lets the request pass or answers it. *)
Definition filter_layer (exs : list (FromCx V)) (f : list V -> W -> W * (unit + Resp)) (service : HRoute) : HRoute := fun w cx req =>
  let '(p, body) := into_parts req in
  let '(w, cx, p, res) := handle_without_request exs f w cx p in
  match res with
  | Done (inl tt) => service w cx (from_parts p body)
  | Done (inr resp) => (w, cx, Done resp)
  | Fail rej => (w, cx, Done rej)
  | Panic => (w, cx, Panic)
  | OutOfFuel => (w, cx, OutOfFuel)
  end.
End Args.

(** [BodyLimitService::call]: the length the request declares, or else what its
    body announces. *)
Definition declared_length (h : H) : option Z := v ← hm_get CONTENT_LENGTH h; s ← to_str v; parse_unsigned 64 s.

Definition body_limit_layer (limit : Z) (service : HRoute) : HRoute := fun w cx req =>
  let '(parts, body) := into_parts req in
  let too_large :=
    match declared_length (pt_headers parts) with
    | Some size => limit <? size
    | None => limit <? sh_lower (size_hint body)
    end in
  if too_large : bool then (w, cx, Done (status_into_response PAYLOAD_TOO_LARGE))
  else service w cx (from_parts parts body).

(** [Timeout::call]; [race]: the service against the sleep, [None] when the sleep
    is over first. *)
Definition timeout_service (race : Z -> HRoute -> W -> Cx -> Request -> W * Cx * option (outcome E Resp)) (duration : Z)
    (handler : Cx -> Resp) (service : HRoute) : HRoute := fun w cx req =>
  let '(w, cx, r) := race duration service w cx req in
  (w, cx, match r with Some r => r | None => Done (handler cx) end).

(** * Static files *)

(** The components of a path: whether it is absolute, and its names. *)
Fixpoint split_slash (s : bytes) : list bytes :=
  match s with
  | [] => [[]]
  | b :: s =>
      match split_slash s with
      | [] => []
      | c :: cs => if bool_decide (b = "/"%byte) then [] :: c :: cs else (b :: c) :: cs
      end
  end.
Definition is_absolute (p : bytes) : bool := starts_with p (str "/").
Definition components (p : bytes) : bool * list bytes :=
  (is_absolute p, base.filter (fun c => c <> [] /\ c <> str ".") (split_slash p)).

(** [Path::strip_prefix] succeeds. *)
Definition has_prefix (p dir : bytes) : bool :=
  bool_decide ((components p).1 = (components dir).1) && bool_decide ((components dir).2 `prefix_of` (components p).2).

(** [PathBuf::join]. *)
Definition path_join (dir p : bytes) : bytes :=
  if is_absolute p then p
  else if bool_decide (last dir = Some "/"%byte) || bool_decide (dir = []) then dir ++ p
  else dir ++ str "/" ++ p.

(** The file system: [fs::canonicalize], [Path::is_dir], [Path::is_file], and
    opening a file with its size; the media type of a path. *)
Record Fs : Type := mkFs {
  fs_canonicalize : bytes -> option bytes;
  fs_is_dir : bytes -> bool;
  fs_is_file : bytes -> bool;
  fs_open : bytes -> option (Z * list (Frame + BE)) }.
Context (fs : Fs) (mime_getter : bytes -> bytes).

(** [ServeDir::new]. *)
Definition serve_dir_new (path : bytes) : outcome E bytes :=
  match fs_canonicalize fs path with
  | Some path => if fs_is_dir fs path then Done path else Panic
  | None => Panic
  end.

(** [FileResponse]: its body announces the size the file had. *)
Definition file_response (path content_type : bytes) : option Resp :=
  match fs_open fs path with
  | Some (size, items) =>
      Some (mkResponse OK (hm_insert CONTENT_TYPE content_type hm_empty)
              (from_body (mkDynBody items (fun _ => with_exact size) (fun _ => false))))
  | None => None
  end.

(** [ServeDir::call]. *)
Definition serve_dir (dir : bytes) : HRoute := fun w cx req =>
  let path := su_path (sq_uri req) in
  let path := match path with b :: p => if bool_decide (b = "/"%byte) then p else path | [] => path end in
  let path := path_join dir path in
  (w, cx, Done
    match fs_canonicalize fs path with
    | None => status_into_response NOT_FOUND
    | Some path =>
        if negb (has_prefix path dir) then status_into_response FORBIDDEN
        else if negb (fs_is_file fs path) then status_into_response NOT_FOUND
        else match file_response path (mime_getter path) with
             | None => status_into_response INTERNAL_SERVER_ERROR
             | Some resp => resp
             end
    end).
End Handle.
