(* ===== verification/HttpHandleSpec.v ===== *)
(** What the request handling of the HTTP server promises: extractors run in
    order and the first rejection is the response; path parameters are parsed as
    printed; a value sent as JSON is the value received; bodies of known length are
    held to the limit; static files never come from outside their directory. *)

From S2P Require Import Prelude Net Utf8 Headers HttpTarget HttpBody HttpRouter HttpServe HttpHandle.

Section Spec.
Context {U : Type} {suri : ServerUri U} {H : Type} {hmap : HeaderMap H} {hlaws : HeaderMapLaws H} {BE : Type}.
Context {W E : Type} (now : W -> Z).
Abbreviation Cx := (ServerContext (X := CxRest)).
Abbreviation Request := (ServerRequest (U := U) (Rest := H * Body BE)).
Abbreviation Resp := (Response (H := H) (BE := BE)).
Abbreviation HRoute := (Route (U := U) (S := W) (Rest := H * Body BE) (R := Resp) (E := E) (X := CxRest)).
Abbreviation FromCx := (FromContext (U := U) (H := H) (BE := BE)).
Abbreviation FromReq := (FromRequest (U := U) (H := H) (BE := BE)).

Lemma from_into_parts (req : Request) : from_parts (into_parts req).1 (into_parts req).2 = req.
Proof. by destruct req as [m u [h b]]. Qed.

(** ** Handlers *)

Section Args.
Context {V : Type}.

Lemma extract_all_app (pre post : list (FromCx V)) cx p :
  extract_all (pre ++ post) cx p =
  let '(cx1, p1, r) := extract_all pre cx p in
  match r with
  | Done vs => let '(cx2, p2, r) := extract_all post cx1 p1 in (cx2, p2, ws ← r; Done (vs ++ ws))
  | Fail e => (cx1, p1, Fail e) | Panic => (cx1, p1, Panic) | OutOfFuel => (cx1, p1, OutOfFuel)
  end.
Proof.
  revert cx p. induction pre as [|ex pre IH]; intros cx p; cbn [app extract_all].
  - destruct (extract_all post cx p) as [[cx2 p2] []]; done.
  - destruct (ex cx p) as [[cx1 p1] [v|e| |]]; [|done..]. rewrite IH.
    destruct (extract_all pre cx1 p1) as [[cx2 p2] [vs|e| |]]; [|done..]. cbn.
    by destruct (extract_all post cx2 p2) as [[cx3 p3] []].
Qed.

(** A handler runs exactly when all of its arguments can be extracted. Extractors
    run in the order of the arguments, each on what the ones before left of
    the context; the first that rejects decides: its rejection is the
    response, and neither a later extractor nor the handler is run. When
    none rejects, the handler is called once, with all the values. *)
Theorem handler_runs_after_extraction (pre post : list (FromCx V)) ex last (f : list V -> V -> W -> W * outcome E Resp) w cx req cx1 p1 vs :
  extract_all pre cx (into_parts req).1 = (cx1, p1, Done vs) ->
  (forall cx2 p2 rej, ex cx1 p1 = (cx2, p2, Fail rej) ->
     handle now (pre ++ ex :: post) last f w cx req = (w, cx2, Done rej)) /\
  (forall cx2 rej, last cx1 p1 (into_parts req).2 = (cx2, Fail rej) -> handle now pre last f w cx req = (w, cx2, Done rej)) /\
  (forall cx2 v w' resp, last cx1 p1 (into_parts req).2 = (cx2, Done v) -> f vs v w = (w', Done resp) ->
     handle now pre last f w cx req =
       (w', record_handle_finish (now w') (record_handle_start (now w) cx2), Done resp)).
Proof.
  intros Hp. unfold handle. destruct (into_parts req) as [p b]. cbn [fst snd] in *. split_and!.
  - intros cx2 p2 rej He. rewrite extract_all_app, Hp. cbn [extract_all]. by rewrite He.
  - intros cx2 rej Hl. by rewrite Hp, Hl.
  - intros cx2 v w' resp Hl Hf. by rewrite Hp, Hl, Hf.
Qed.
End Args.

(** ** Path parameters *)

(** The number types a parameter can have: width and sign. *)
Definition parse_int (t : Z * bool) : bytes -> option Z := if t.2 then parse_signed t.1 else parse_unsigned t.1.
Definition in_int (t : Z * bool) (n : Z) : Prop :=
  0 < t.1 /\ if t.2 then - 2 ^ (t.1 - 1) <= n < 2 ^ (t.1 - 1) else 0 <= n < 2 ^ t.1.

Lemma parse_int_printed t n : in_int t n -> parse_int t (dec_of_int n) = Some n.
Proof.
  destruct t as [wd [|]]; intros [Hw Hn]; cbn in *; unfold parse_int; cbn.
  - by apply parse_signed_dec.
  - unfold dec_of_int. rewrite bool_decide_eq_false_2 by lia. by apply parse_unsigned_dec.
Qed.

Lemma path_params_printed ts ns names rest :
  Forall2 in_int ts ns -> length names = length ns ->
  path_params (parse_int <$> ts) (zip names (dec_of_int <$> ns) ++ rest) = Done ns.
Proof.
  intros Hf. revert names. induction Hf as [|t n ts ns Ht Hf IH]; intros [|name names] Hl; try done.
  cbn. rewrite parse_int_printed by done. rewrite IH by (cbn in Hl; lia). done.
Qed.

Lemma path_params_short {T} (types : list (bytes -> option T)) params :
  (length params < length types)%nat -> exists e, path_params types params = Fail e.
Proof.
  revert params. induction types as [|ty types IH]; intros [|[k v] params] Hl; cbn in *; try lia; [by eexists|].
  destruct (ty v); [|by eexists]. destruct (IH params) as [e ->]; [lia|]. by eexists.
Qed.

(** Numbers in a path arrive as printed: when the values of the path's parameters
    are numbers within the types asked for, of any width and sign, [PathParams]
    yields exactly these numbers; a tuple with more types than the path has
    parameters is rejected as a bad request, and parameters beyond the types
    are ignored. *)
Theorem path_numbers_arrive ts ns names rest (cx : Cx) (p : Parts (U := U) (H := H)) :
  Forall2 in_int ts ns -> length names = length ns -> sc_params cx = zip names (dec_of_int <$> ns) ++ rest ->
  path_params_from_context (BE := BE) (parse_int <$> ts) cx p = (cx, p, Done ns) /\
  forall more, (length (sc_params cx) < length more)%nat ->
    path_params_from_context (T := Z) (BE := BE) more cx p = (cx, p, Fail (status_into_response BAD_REQUEST)).
Proof.
  intros Hf Hl Hp. unfold path_params_from_context. split.
  - by rewrite Hp, path_params_printed.
  - intros more Hm. by destruct (path_params_short more (sc_params cx) Hm) as [e ->].
Qed.

(** ** JSON *)

(** JSON sent is JSON received: the response a value becomes is, as a request, read
    as that value by the [Json] extractor (given that the deserializer undoes
    the serializer and the media type parses as itself); with a content type
    that is not JSON the request is rejected as an unsupported media type
    without a look at its body. *)
Theorem json_roundtrip {T} (mime_parse : bytes -> option Mime) (serialize : T -> option bytes) (deserialize : bytes -> option T)
    v text (cx : Cx) m (u : U) (headers : H) :
  serialize v = Some text -> deserialize text = Some v ->
  mime_parse APPLICATION_JSON = Some (mkMime (str "application") (str "json") None) ->
  let resp : Resp := json_into_response (serialize v) in
  rs_status resp = OK /\
  json_from_request mime_parse deserialize cx (mkParts m u (rs_headers resp)) (rs_body resp) = (cx, Done v) /\
  (content_type_matches mime_parse headers (str "application") (str "json") = false ->
   json_from_request (BE := BE) mime_parse deserialize cx (mkParts m u headers) (rs_body resp) =
     (cx, Fail (status_into_response UNSUPPORTED_MEDIA_TYPE))).
Proof.
  intros Hs Hd Hm resp. unfold resp. rewrite Hs. split; [done|]. unfold json_from_request, extract_typed. split.
  - unfold content_type_matches. cbn [pt_headers json_into_response serialized_into_response rs_headers rs_body].
    rewrite get_insert, bool_decide_eq_true_2 by done. change (to_str APPLICATION_JSON) with (Some APPLICATION_JSON).
    cbn [to_str]. rewrite Hm. cbn [mm_type mm_subtype mm_suffix].
    rewrite !bool_decide_eq_true_2 by done. cbn [andb orb negb].
    assert (extract_bytes (BE := BE) (body_from text) = Done text) as ->.
    { unfold extract_bytes, collect, body_from. destruct text; [done|]. cbn. by rewrite app_nil_r. }
    cbn. by rewrite Hd.
  - intros Hc. cbn [pt_headers]. by rewrite Hc.
Qed.

(** ** The limit on bodies *)

(** The length of the request is known: declared, or announced by the body. *)
Definition known_length (req : Request) (n : Z) : Prop :=
  declared_length (into_parts req).1.(pt_headers) = Some n \/
  declared_length (into_parts req).1.(pt_headers) = None /\ hint_exact (size_hint (into_parts req).2) = Some n.

Lemma hint_exact_lower h n : hint_exact h = Some n -> sh_lower h = n.
Proof. unfold hint_exact. destruct (sh_upper h) as [u|]; [|done]. destruct (sh_lower h =? u) eqn:He; [|done]. intros [= <-]. lia. Qed.

(** A body whose length is known is held to the limit: a request that declares its
    length, or whose body announces it exactly, reaches the service, unchanged,
    when the length is at most the limit, and is otherwise answered with 413
    without the service being called. A body of unknown length that is
    streamed passes whatever its size. *)
Theorem body_limit_is_kept limit (service : HRoute) w cx (req : Request) n :
  (known_length req n ->
   body_limit_layer limit service w cx req =
   if n <=? limit then service w cx req else (w, cx, Done (status_into_response PAYLOAD_TOO_LARGE))) /\
  (0 <= limit -> declared_length (into_parts req).1.(pt_headers) = None -> forall items, (into_parts req).2 = from_stream items ->
   body_limit_layer limit service w cx req = service w cx req).
Proof.
  unfold body_limit_layer, known_length. pose proof (from_into_parts req) as Hreq. destruct (into_parts req) as [p b]. cbn [fst snd] in *.
  rewrite Hreq. split.
  - intros [Hd|[Hd He]]; rewrite Hd.
    + destruct (limit <? n) eqn:H1, (n <=? limit) eqn:H2; lia || done.
    + rewrite (hint_exact_lower _ n He). destruct (limit <? n) eqn:H1, (n <=? limit) eqn:H2; lia || done.
  - intros Hl Hd items ->. rewrite Hd. cbn [from_stream size_hint hint_new sh_lower].
    destruct (limit <? 0) eqn:H1; [lia|done].
Qed.

(** ** Static files *)

Context (fs : Fs (BE := BE)) (mime_getter : bytes -> bytes).

(** C36: A directory served as static files gives away nothing outside of it: whatever
    path a request has (dots, doubled slashes, links), either the answer is an
    error with an empty body, or it is the content of a regular file, read
    under a path of the file system that has no links left in it and that
    lies inside the directory; and every such file the request resolves to
    is served. *)
Theorem serve_dir_confined dir w cx (req : Request) :
  exists resp, serve_dir (W := W) (E := E) fs mime_getter dir w cx req = (w, cx, Done resp) /\
  ((rs_status resp ∈ [NOT_FOUND; FORBIDDEN; INTERNAL_SERVER_ERROR] /\ collect (rs_body resp) = inl []) \/
   exists asked path size items,
     fs_canonicalize fs asked = Some path /\ (components dir).2 `prefix_of` (components path).2 /\
     fs_is_file fs path = true /\ fs_open fs path = Some (size, items) /\
     resp = mkResponse OK (hm_insert CONTENT_TYPE (mime_getter path) hm_empty)
              (from_body (mkDynBody items (fun _ => with_exact size) (fun _ => false)))) /\
  forall path rest size items,
    su_path (sq_uri req) = str "/" ++ rest -> fs_canonicalize fs (path_join dir rest) = Some path ->
    has_prefix path dir = true -> fs_is_file fs path = true -> fs_open fs path = Some (size, items) ->
    rs_status resp = OK /\ items_of (rs_body resp) = items.
Proof.
  eexists. split; [reflexivity|]. set (asked := path_join dir _). split.
  - destruct (fs_canonicalize fs asked) as [path|] eqn:Hc; [|left; by split; [left|]].
    destruct (has_prefix path dir) eqn:Hp; cbn [negb]; [|left; by split; [right; left|]].
    destruct (fs_is_file fs path) eqn:Hf; cbn [negb]; [|left; by split; [left|]].
    unfold file_response. destruct (fs_open fs path) as [[size items]|] eqn:Ho; [|left; by split; [right; right; left|]].
    right. exists asked, path, size, items. split_and!; try done. apply andb_prop in Hp as [_ Hp]. by apply bool_decide_eq_true in Hp.
  - intros path rest size items Hu Hc Hp Hf Ho. unfold asked. rewrite Hu. cbn [app str].
    change (str "/" ++ rest) with (("/"%byte : byte) :: rest). cbv beta iota. rewrite bool_decide_eq_true_2 by done.
    rewrite Hc, Hp, Hf. unfold file_response. by rewrite Ho.
Qed.
End Spec.

(** Concrete requests. *)
Module HandleExample.
#[local] Instance uri : ServerUri (bytes * option bytes) := {| su_path u := u.1; su_query u := u.2; su_parse s := Some (s, None) |}.
Abbreviation Resp := (Response (H := Headers) (BE := unit)).
Abbreviation Req := (ServerRequest (U := bytes * option bytes) (Rest := Headers * Body unit)).

Definition cx0 (params : list (bytes * bytes)) : ServerContext (X := CxRest) := mkServerContext params (mkCxRest None false None None None).
Definition request (path : bytes) (h : Headers) (b : Body unit) : Req := mkServerRequest GET (path, None) (h, b).

(** Two numbers of a path, and the text of the body. *)
Definition number (n : nat) : FromContext (U := bytes * option bytes) (H := Headers) (BE := unit) (Z + bytes) := fun cx p =>
  let '(cx, p, r) := path_params_from_context (replicate n (fun _ => Some 0) ++ [parse_unsigned 8]) cx p in
  (cx, p, match r with Done ts => Done (inl (default 0 (last ts))) | Fail e => Fail e | Panic => Panic | OutOfFuel => OutOfFuel end).
Definition text : FromRequest (U := bytes * option bytes) (H := Headers) (BE := unit) (Z + bytes) := fun cx p b =>
  let '(cx, r) := string_from_request cx p b in
  (cx, match r with Done s => Done (inr s) | Fail e => Fail e | Panic => Panic | OutOfFuel => OutOfFuel end).
Definition f (vs : list (Z + bytes)) (v : Z + bytes) (w : nat) : nat * outcome unit Resp :=
  (S w, Done (mkResponse (Z.of_nat (length vs)) [] empty)).

Lemma handler_runs_after_extraction_witness :
  handle (E := unit) (fun w => Z.of_nat w) ([number 0] ++ number 1 :: []) text f 0%nat (cx0 [(str "id", str "7")])
    (request (str "/7") [] (body_from (str "x"))) =
  (0%nat, cx0 [(str "id", str "7")], Done (status_into_response BAD_REQUEST)).
Proof.
  destruct (handler_runs_after_extraction (E := unit) (fun w => Z.of_nat w) [number 0] [] (number 1) text f 0%nat
    (cx0 [(str "id", str "7")]) (request (str "/7") [] (body_from (str "x"))) (cx0 [(str "id", str "7")])
    (mkParts GET (str "/7", None) []) [inl 7]) as [H _]; [reflexivity|]. by apply (H _ (mkParts GET (str "/7", None) [])).
Defined.

Lemma path_numbers_arrive_witness :
  path_params_from_context (U := bytes * option bytes) (H := Headers) (BE := unit) (parse_int <$> [(64, false); (8, true)])
    (cx0 [(str "a", str "18446744073709551615"); (str "b", str "-128"); (str "c", str "x")]) (mkParts GET (str "/", None) []) =
  (cx0 [(str "a", str "18446744073709551615"); (str "b", str "-128"); (str "c", str "x")], mkParts GET (str "/", None) [],
   Done [18446744073709551615; -128]).
Proof.
  apply (path_numbers_arrive [(64, false); (8, true)] [18446744073709551615; -128] [str "a"; str "b"] [(str "c", str "x")]).
  - repeat constructor; cbn; lia.
  - reflexivity.
  - vm_compute. reflexivity.
Defined.

Lemma json_roundtrip_witness :
  json_from_request (fun _ => Some (mkMime (str "application") (str "json") None)) (parse_unsigned 64) (cx0 [])
    (mkParts POST (str "/", @None bytes) (rs_headers (json_into_response (H := Headers) (BE := unit) (Some (dec_of_Z 42)))))
    (rs_body (json_into_response (H := Headers) (BE := unit) (Some (dec_of_Z 42)))) = (cx0 [], Done 42).
Proof.
  apply (json_roundtrip (fun _ => Some (mkMime (str "application") (str "json") None)) (fun n => Some (dec_of_Z n)) (parse_unsigned 64)
    42 (dec_of_Z 42) (cx0 []) POST (str "/", @None bytes) []); vm_compute; reflexivity.
Defined.

(** A file system with one directory, a file in it and a link out of it. *)
Definition files : Fs (BE := unit) := {|
  fs_canonicalize p :=
    if bool_decide (p = str "/www/a.txt") then Some (str "/www/a.txt")
    else if bool_decide (p = str "/www/link") then Some (str "/etc/passwd")
    else if bool_decide (p ∈ [str "/www/../etc/passwd"; str "/etc/passwd"]) then Some (str "/etc/passwd")
    else if bool_decide (p = str "/www") then Some (str "/www")
    else None;
  fs_is_dir p := bool_decide (p = str "/www");
  fs_is_file p := negb (bool_decide (p = str "/www"));
  fs_open p := Some (5, [inl (FData (str "hello"))]) |}.

Definition get_file (path : bytes) : Z :=
  match (serve_dir (W := nat) (E := unit) files (fun _ => str "text/plain") (str "/www") 0%nat (cx0 []) (request path [] empty)).2 with
  | Done resp => rs_status resp
  | _ => 0
  end.

Example served_files :
  map get_file [str "/a.txt"; str "/link"; str "/../etc/passwd"; str "//etc/passwd"; str "/b.txt"] = [200; 403; 403; 403; 404] /\
  serve_dir_new (E := unit) files (str "/www") = Done (str "/www").
Proof. vm_compute. auto. Qed.

(** A chunked body of 9 bytes passes a limit of 8; a declared or full one does not. *)
Definition limited (req : Req) : Z :=
  match (body_limit_layer (W := nat) (E := unit) 8 (fun w cx _ => (w, cx, Done (status_into_response OK))) 0%nat (cx0 []) req).2 with
  | Done resp => rs_status resp
  | _ => 0
  end.
Example limits :
  map limited [request (str "/") [] (body_from (str "123456789"));
               request (str "/") [(CONTENT_LENGTH, str "9")] (from_stream [inl (FData (str "123456789"))]);
               request (str "/") [] (from_stream [inl (FData (str "123456789"))])] = [413; 413; 200].
Proof. vm_compute. reflexivity. Qed.
End HandleExample.
