(* ===== verification/Multipart.v ===== *)
(** Multipart forms: the client's builder (volo-http/src/client/multipart.rs) and
    the server's extractor (volo-http/src/server/utils/multipart.rs).

    Readers and files are the items their streams yield; the text of a media
    type stands for [Mime]; the [multer] crate is a parameter of the extractor. *)

From S2P Require Import Prelude Net Utf8 Headers HttpTarget HttpBody HttpRouter HttpServe HttpHandle.

Definition CR : byte := x0d.
Definition LF : byte := x0a.
Definition QUOTE : byte := x22.
Definition BACKSLASH : byte := x5c.
Definition CRLF : bytes := [CR; LF].

(** * Escaping *)

(** The replacement of a byte, [None] where the loop continues. *)
Definition special (b : byte) : option bytes :=
  if bool_decide (b = BACKSLASH) then Some [BACKSLASH; BACKSLASH]
  else if bool_decide (b = QUOTE) then Some [BACKSLASH; QUOTE]
  else if bool_decide (b = CR \/ b = LF) then Some (str " ")
  else None.

(** The loop over [bytes.iter().enumerate()]: [i] the index, [start] the first byte
    that is not copied yet. *)
Fixpoint escape_loop (value rest : bytes) (i start : nat) (buf : bytes) : bytes :=
  match rest with
  | [] => buf ++ drop start value
  | b :: rest =>
      match special b with
      | None => escape_loop value rest (S i) start buf
      | Some r => escape_loop value rest (S i) (S i) (buf ++ drop start (take i value) ++ r)
      end
  end.

Definition extend_escaped (buf value : bytes) : bytes := escape_loop value value 0 0 buf.

(** * Boundaries *)

(** [{:016x}] of a [u64]. *)
Definition hex_digit (d : Z) : byte := byte_of_Z (if d <? 10 then 48 + d else 87 + d).
Fixpoint hex_fixed (n : nat) (z : Z) : bytes :=
  match n with
  | O => []
  | S n => hex_fixed n (z / 16) ++ [hex_digit (z mod 16)]
  end.

Definition BOUNDARY_PREFIX : bytes := str "volo-http-boundary-".

(** [gen_boundary]: [rand] is the random number, [counter] the static counter,
    which goes on to the next form. *)
Definition gen_boundary (rand counter : Z) : bytes * Z :=
  (BOUNDARY_PREFIX ++ hex_fixed 16 rand ++ hex_fixed 16 counter, wrap 64 (counter + 1)).

Section Multipart.
Context {BE : Type}.
Abbreviation Item := (Frame + BE)%type.

(** * Parts *)

Inductive PartData : Type := PBytes (b : bytes) | PStream (stream : list Item).

Definition once_frame (b : bytes) : list Item := [inl (FData b)].

Definition into_stream (d : PartData) : list Item :=
  match d with PBytes b => once_frame b | PStream s => s end.
Definition data_len (d : PartData) : option Z :=
  match d with PBytes b => Some (Zlen b) | PStream _ => None end.
Definition is_in_memory (d : PartData) : bool := match d with PBytes _ => true | PStream _ => false end.
Definition as_bytes (d : PartData) : option bytes := match d with PBytes b => Some b | PStream _ => None end.

Record Part : Type := mkPart {
  pa_data : PartData; pa_length : option Z; pa_file_name : option bytes; pa_mime : option bytes }.

Definition part_new (data : PartData) : Part := mkPart data (data_len data) None None.
Definition part_text (value : bytes) : Part := part_new (PBytes value).
Definition part_bytes (value : bytes) : Part := part_new (PBytes value).
Definition part_reader (reader : list Item) : Part := part_new (PStream reader).
Definition part_file_name (name : bytes) (p : Part) : Part := mkPart (pa_data p) (pa_length p) (Some name) (pa_mime p).
Definition part_mime (mime : bytes) (p : Part) : Part := mkPart (pa_data p) (pa_length p) (pa_file_name p) (Some mime).
Definition part_mime_str (parse : bytes -> option bytes) (mime : bytes) (p : Part) : option Part :=
  (fun m => part_mime m p) <$> parse mime.

(** [Path::file_name]. *)
Definition path_file_name (p : bytes) : option bytes :=
  match last (components p).2 with
  | Some c => if bool_decide (c = str "..") then None else Some c
  | None => None
  end.

(** [Part::file]: [open] is the file's length, from its metadata, and what its
    reader yields; [None] when one of the two fails. *)
Definition part_file (open : bytes -> option (Z * list Item)) (guess : bytes -> option bytes) (path : bytes) : option Part :=
  match open path with
  | None => None
  | Some (len, items) =>
      let part := part_reader items in
      let part := mkPart (pa_data part) (Some len) (pa_file_name part) (pa_mime part) in
      let part := match path_file_name path with Some n => part_file_name (from_utf8_lossy n) part | None => part end in
      Some (match guess path with Some m => part_mime m part | None => part end)
  end.

Definition encode_header (p : Part) (boundary name : bytes) : bytes :=
  let buf := str "--" ++ boundary ++ CRLF ++ str "Content-Disposition: form-data; name=" ++ [QUOTE] in
  let buf := extend_escaped buf name ++ [QUOTE] in
  let buf := match pa_file_name p with
             | Some f => extend_escaped (buf ++ str "; filename=" ++ [QUOTE]) f ++ [QUOTE]
             | None => buf
             end in
  let buf := buf ++ CRLF in
  let buf := match pa_mime p with Some m => buf ++ str "Content-Type: " ++ m ++ CRLF | None => buf end in
  buf ++ CRLF.

(** * Forms *)

Record Form : Type := mkForm { fo_boundary : bytes; fo_parts : list (bytes * Part) }.

Definition form_new (rand counter : Z) : Form * Z :=
  let '(b, counter) := gen_boundary rand counter in (mkForm b [], counter).
Definition form_part (name : bytes) (p : Part) (f : Form) : Form := mkForm (fo_boundary f) (fo_parts f ++ [(name, p)]).
Definition form_text (name value : bytes) (f : Form) : Form := form_part name (part_text value) f.
Definition form_file (open : bytes -> option (Z * list Item)) (guess : bytes -> option bytes) (name path : bytes) (f : Form) : option Form :=
  (fun p => form_part name p f) <$> part_file open guess path.

Definition content_type (f : Form) : bytes := str "multipart/form-data; boundary=" ++ fo_boundary f.

(** [u64::checked_add]. *)
Definition checked_add (a b : Z) : option Z := if a + b <? 2 ^ 64 then Some (a + b) else None.

(** One part's share of the exact length. *)
Definition add_part_len (header : bytes) (p : Part) (total : option Z) : option Z :=
  total ← total; data_len ← pa_length p;
  n ← checked_add total (Zlen header); n ← checked_add n data_len; checked_add n 2.

(** [SizedStreamBody]: the announced size stays what it was at first. *)
Definition exact_size_stream_body (stream : list Item) (exact_size : Z) : Body BE :=
  from_body (mkDynBody stream (fun _ => with_exact exact_size) (fun _ => false)).

Definition closing (boundary : bytes) : bytes := str "--" ++ boundary ++ str "--" ++ CRLF.

Definition into_body (f : Form) : Body BE :=
  let boundary := fo_boundary f in
  if forallb (fun '(_, p) => is_in_memory (pa_data p)) (fo_parts f) then
    let buf := fold_left (fun buf '(name, p) =>
                 let buf := buf ++ encode_header p boundary name in
                 let buf := match as_bytes (pa_data p) with Some b => buf ++ b | None => buf end in
                 buf ++ CRLF) (fo_parts f) [] in
    body_from (buf ++ closing boundary)
  else
    let closing_boundary := closing boundary in
    let '(exact_len, streams) :=
      fold_left (fun '(exact_len, streams) '(name, p) =>
        let header := encode_header p boundary name in
        (add_part_len header p exact_len,
         streams ++ [once_frame header; into_stream (pa_data p); once_frame CRLF]))
        (fo_parts f) (Some (Zlen closing_boundary), []) in
    let stream := concat (streams ++ [once_frame closing_boundary]) in
    match exact_len with
    | Some n => exact_size_stream_body stream n
    | None => from_stream stream
    end.
End Multipart.
Arguments PartData : clear implicits.
Arguments Part : clear implicits.
Arguments Form : clear implicits.

(** * The extractor *)

(** [multer::Error], with the names that the mapping to a status has. *)
Inductive MulterError : Type :=
| UnknownField | IncompleteFieldData | IncompleteHeaders | ReadHeaderFailed | DecodeHeaderName | DecodeContentType
| NoBoundary | DecodeHeaderValue | NoMultipart | IncompleteStream | FieldSizeExceeded | StreamSizeExceeded
| StreamReadFailed | OtherError.

Definition status_code_from_multer_error (e : MulterError) : Z :=
  match e with
  | UnknownField | IncompleteFieldData | IncompleteHeaders | ReadHeaderFailed | DecodeHeaderName | DecodeContentType
  | NoBoundary | DecodeHeaderValue | NoMultipart | IncompleteStream => BAD_REQUEST
  | FieldSizeExceeded | StreamSizeExceeded => PAYLOAD_TOO_LARGE
  | StreamReadFailed => INTERNAL_SERVER_ERROR
  | OtherError => INTERNAL_SERVER_ERROR
  end.

Section Extract.
Context {U H BE M : Type} `{HeaderMap H} (parse_boundary : bytes -> bytes + MulterError) (multer_new : Body BE -> bytes -> M).

Definition multipart_boundary (headers : H) : bytes + MulterError :=
  match hm_get (str "content-type") headers with
  | None => inr NoMultipart
  | Some v => match to_str v with None => inr NoBoundary | Some s => parse_boundary s end
  end.

Definition multipart_from_request : FromRequest (U := U) (H := H) (BE := BE) M := fun cx parts body =>
  (cx, match multipart_boundary (pt_headers parts) with
       | inl boundary => Done (multer_new body boundary)
       | inr e => Fail (status_into_response (status_code_from_multer_error e))
       end).
End Extract.
