(* ===== verification/MultipartSpec.v ===== *)
(** Multipart forms: the text a form is sent as is read back, by the grammar of
    RFC 7578 and RFC 2046, as the parts it was made of; its announced length is
    the length of that text; boundaries are legal and never the same. *)

From S2P Require Import Prelude Utf8 HttpBody Multipart.

(** * Reading a form

    A reader by the grammar of the RFCs, independent of the builder: delimiters
    are line ends followed by two dashes and the boundary, quoted strings are
    unescaped, a body ends at the next delimiter. *)

Definition strip (p s : bytes) : option bytes := if starts_with s p then Some (drop (length p) s) else None.

(** The text before the first occurrence of [pat], and the text after it. *)
Fixpoint split_sub (pat s : bytes) : option (bytes * bytes) :=
  if starts_with s pat then Some ([], drop (length pat) s)
  else match s with
       | [] => None
       | x :: s => '(a, b) ← split_sub pat s; Some (x :: a, b)
       end.

(** A quoted string after its opening quote. *)
Fixpoint read_quoted (s : bytes) : option (bytes * bytes) :=
  match s with
  | [] => None
  | x :: s =>
      if bool_decide (x = QUOTE) then Some ([], s)
      else if bool_decide (x = BACKSLASH) then
        match s with y :: s => '(v, r) ← read_quoted s; Some (y :: v, r) | [] => None end
      else '(v, r) ← read_quoted s; Some (x :: v, r)
  end.

Record Field : Type := mkField { fd_name : bytes; fd_file_name : option bytes; fd_mime : option bytes; fd_data : bytes }.

Definition read_disposition (s : bytes) : option (bytes * option bytes * bytes) :=
  s ← strip (str "Content-Disposition: form-data; name=" ++ [QUOTE]) s;
  '(name, s) ← read_quoted s;
  match strip (str "; filename=" ++ [QUOTE]) s with
  | Some s => '(f, s) ← read_quoted s; s ← strip CRLF s; Some (name, Some f, s)
  | None => s ← strip CRLF s; Some (name, None, s)
  end.

Definition read_type (s : bytes) : option (option bytes * bytes) :=
  match strip (str "Content-Type: ") s with
  | Some s => '(m, s) ← split_sub CRLF s; s ← strip CRLF s; Some (Some m, s)
  | None => s ← strip CRLF s; Some (None, s)
  end.

Definition delimiter (boundary : bytes) : bytes := CRLF ++ str "--" ++ boundary.

(** The parts after a delimiter, up to the closing one. *)
Fixpoint read_parts (fuel : nat) (boundary s : bytes) : option (list Field) :=
  match fuel with
  | O => None
  | S fuel =>
      match strip (str "--") s with
      | Some s => if bool_decide (s = CRLF) then Some [] else None
      | None =>
          s ← strip CRLF s; '(name, f, s) ← read_disposition s; '(m, s) ← read_type s;
          '(data, s) ← split_sub (delimiter boundary) s;
          fields ← read_parts fuel boundary s; Some (mkField name f m data :: fields)
      end
  end.

Definition read_form (boundary body : bytes) : option (list Field) :=
  s ← strip (str "--" ++ boundary) body; read_parts (S (length s)) boundary s.

(** * Lemmas on the readers *)

Lemma strip_app p s : strip p (p ++ s) = Some s.
Proof. unfold strip. by rewrite starts_with_app, drop_app_length. Qed.

Lemma strip_head_ne p x y s : x <> y -> strip (x :: p) (y :: s) = None.
Proof. intros Hn. unfold strip, starts_with. cbn. rewrite bool_decide_eq_false_2; [done|]. congruence. Qed.

(** [pat] begins with a byte that it does not contain again, so its first occurrence
    after text without it is where that text ends. *)
Lemma starts_with_overlap x p (d s : bytes) :
  x ∉ p -> d <> [] -> starts_with (d ++ (x :: p) ++ s) (x :: p) = true -> (x :: p) `prefix_of` d.
Proof.
  intros Hx Hd [t Ht]%starts_with_spec. destruct (decide (length d < length (x :: p))%nat) as [Hl|Hl].
  - exfalso. assert ((d ++ (x :: p) ++ s) !! length d = Some x) as Hx1 by (rewrite lookup_app_r, Nat.sub_diag by lia; done).
    rewrite Ht, lookup_app_l in Hx1 by done. destruct d as [|y d]; [done|]. cbn in Hx1. apply Hx. by eapply list_elem_of_lookup_2.
  - exists (drop (length (x :: p)) d). apply (f_equal (take (length d))) in Ht. rewrite take_app_length in Ht. rewrite Ht at 1.
    rewrite take_app_ge by lia. f_equal. apply (f_equal (drop (length (x :: p)))) in Ht. rewrite Ht.
    rewrite take_app_ge, drop_app_length by lia. done.
Qed.

Lemma split_sub_first x p d s :
  x ∉ p -> (forall a b, d <> a ++ (x :: p) ++ b) -> split_sub (x :: p) (d ++ (x :: p) ++ s) = Some (d, s).
Proof.
  intros Hx. induction d as [|y d IH]; intros Hd.
  - pose proof (starts_with_app (x :: p) s) as Hs. cbn [app] in Hs |- *. cbn [split_sub]. rewrite Hs.
    do 2 f_equal. exact (drop_app_length (x :: p) s).
  - cbn [app split_sub]. destruct (starts_with _ _) eqn:Hs.
    + exfalso. change (y :: d ++ ?z) with ((y :: d) ++ z) in Hs. apply starts_with_overlap in Hs as [b Hb]; [|done|done].
      by apply (Hd [] b).
    + change (x :: p ++ s) with ((x :: p) ++ s). rewrite IH; [done|]. intros a b ->. by apply (Hd (y :: a) b).
Qed.

(** * Escaping *)

(** Byte by byte: what is escaped, and what is read back. *)
Definition escape_byte (b : byte) : bytes := default [b] (special b).
Definition escaped (v : bytes) : bytes := concat (escape_byte <$> v).
Definition line_free (v : bytes) : bytes := (fun b => if bool_decide (b = CR \/ b = LF) then " "%byte else b) <$> v.

Lemma escape_loop_spec pre rest start buf :
  (start <= length pre)%nat ->
  escape_loop (pre ++ rest) rest (length pre) start buf = buf ++ drop start pre ++ escaped rest.
Proof.
  revert pre start buf. induction rest as [|b rest IH]; intros pre start buf Hs; cbn [escape_loop].
  - by rewrite app_nil_r, app_nil_r.
  - assert (pre ++ b :: rest = (pre ++ [b]) ++ rest) as Hp by (by rewrite <- app_assoc).
    assert (S (length pre) = length (pre ++ [b])) as Hl by (rewrite length_app; cbn; lia).
    unfold escaped. cbn [fmap list_fmap concat]. unfold escape_byte at 1. destruct (special b) as [r|] eqn:Hr; cbn [default].
    + rewrite take_app_length, Hp, Hl, IH by done. rewrite (drop_ge (pre ++ [b])) by done. by rewrite <- !app_assoc.
    + rewrite Hp, Hl, IH by (rewrite length_app; lia). rewrite drop_app_le by done. by rewrite <- !app_assoc.
Qed.

(** The loop that copies runs of ordinary bytes does what a loop byte by byte does. *)
Lemma extend_escaped_spec buf v : extend_escaped buf v = buf ++ escaped v.
Proof. unfold extend_escaped. exact (escape_loop_spec [] v 0 buf (le_n _)). Qed.

Lemma escape_byte_cases b :
  ((b = BACKSLASH \/ b = QUOTE) /\ escape_byte b = [BACKSLASH; b]) \/
  ((b = CR \/ b = LF) /\ escape_byte b = str " ") \/
  (b <> BACKSLASH /\ b <> QUOTE /\ ~ (b = CR \/ b = LF) /\ escape_byte b = [b]).
Proof.
  unfold escape_byte, special. case_bool_decide as H1; [subst; left; auto|]. case_bool_decide as H2; [subst; left; auto|].
  case_bool_decide; [right; left; auto|]. right. right. auto.
Qed.

Lemma read_quoted_step b s v r : read_quoted s = Some (v, r) -> read_quoted (escape_byte b ++ s) = Some (line_free [b] ++ v, r).
Proof.
  intros Hs. unfold line_free. cbn [fmap list_fmap app]. destruct (escape_byte_cases b) as [[Hb ->]|[[Hb ->]|(H1 & H2 & H3 & ->)]].
  - cbn [app read_quoted]. rewrite bool_decide_eq_false_2, bool_decide_eq_true_2, Hs by done.
    rewrite bool_decide_eq_false_2; [done|]. by destruct Hb as [-> | ->]; intros [?|?].
  - rewrite bool_decide_eq_true_2 by done. change (str " " ++ s) with (" "%byte :: s). cbn [read_quoted].
    rewrite !bool_decide_eq_false_2 by done. by rewrite Hs.
  - cbn [app read_quoted]. rewrite !bool_decide_eq_false_2 by done. by rewrite Hs.
Qed.

Lemma read_quoted_escaped v rest : read_quoted (escaped v ++ [QUOTE] ++ rest) = Some (line_free v, rest).
Proof.
  induction v as [|b v IH]; [done|]. unfold escaped in *. cbn [fmap list_fmap concat]. rewrite <- app_assoc.
  by rewrite (read_quoted_step _ _ _ _ IH).
Qed.

(** * Boundaries *)

Definition boundary_char (b : byte) : Prop := b = "-"%byte \/ exists d, 0 <= d < 16 /\ b = hex_digit d.

Lemma hex_fixed_chars n z : Forall boundary_char (hex_fixed n z).
Proof.
  revert z. induction n as [|n IH]; intros z; [constructor|]. cbn. apply Forall_app. split; [apply IH|].
  apply Forall_singleton. right. exists (z mod 16). split; [apply Z.mod_pos_bound; lia|done].
Qed.

Lemma hex_digit_inj d d' : 0 <= d < 16 -> 0 <= d' < 16 -> hex_digit d = hex_digit d' -> d = d'.
Proof.
  intros H1 H2 He. apply (f_equal Z_of_byte) in He. unfold hex_digit in He. rewrite !Z_of_byte_of_Z in He.
  destruct (d <? 10) eqn:E1, (d' <? 10) eqn:E2; rewrite !Z.mod_small in He by lia; lia.
Qed.

Lemma length_hex_fixed n z : length (hex_fixed n z) = n.
Proof. revert z. induction n as [|n IH]; intros z; [done|]. cbn. rewrite length_app, IH. cbn. lia. Qed.

Lemma hex_fixed_inj n z z' : 0 <= z < 16 ^ Z.of_nat n -> 0 <= z' < 16 ^ Z.of_nat n -> hex_fixed n z = hex_fixed n z' -> z = z'.
Proof.
  revert z z'. induction n as [|n IH]; intros z z' H1 H2 He; [change (16 ^ Z.of_nat 0) with 1 in *; lia|].
  cbn in He. apply app_inj_2 in He as [He1 He2]; [|done]. injection He2 as He2.
  apply hex_digit_inj in He2; [|apply Z.mod_pos_bound; lia..].
  rewrite Nat2Z.inj_succ, Z.pow_succ_r in H1, H2 by lia. apply IH in He1; [pose proof (Z.div_mod z 16); pose proof (Z.div_mod z' 16); lia| |]; split; try (apply Z.div_pos; lia); apply Z.div_lt_upper_bound; lia.
Qed.

(** Letters, digits and dashes. *)
Definition boundary_legal (b : byte) : bool :=
  let z := Z_of_byte b in bool_decide (b = "-"%byte) || ((48 <=? z) && (z <=? 57)) || ((97 <=? z) && (z <=? 122)).

Lemma hex_digit_legal d : 0 <= d < 16 -> boundary_legal (hex_digit d) = true.
Proof.
  intros Hd. assert (exists k, (k < 16)%nat /\ d = Z.of_nat k) as (k & Hk & ->) by (exists (Z.to_nat d); lia).
  do 16 (destruct k as [|k]; [reflexivity|]). lia.
Qed.

Lemma gen_boundary_legal rand c : Forall (fun b => boundary_legal b = true) (gen_boundary rand c).1.
Proof.
  unfold gen_boundary. cbn [fst]. apply Forall_app. split; [by repeat constructor|].
  apply Forall_app. split; (eapply Forall_impl; [apply hex_fixed_chars|]); intros b [->|(d & Hd & ->)]; first [done | by apply hex_digit_legal].
Qed.

Lemma gen_boundary_no_cr rand c : CR ∉ (gen_boundary rand c).1.
Proof. intros H. pose proof (gen_boundary_legal rand c) as Hl. rewrite Forall_forall in Hl. by specialize (Hl _ H). Qed.

(** The boundaries of the forms a process makes, [n] of them after [counter]. *)
Fixpoint boundaries (rands : list Z) (counter : Z) : list bytes :=
  match rands with
  | [] => []
  | r :: rands => let '(b, counter) := gen_boundary r counter in b :: boundaries rands counter
  end.

Lemma boundaries_counter rands c b : in_width 64 c -> b ∈ boundaries rands c ->
  exists r k, 0 <= k < Zlen rands /\ b = BOUNDARY_PREFIX ++ hex_fixed 16 r ++ hex_fixed 16 (wrap 64 (c + k)).
Proof.
  revert c. induction rands as [|r rands IH]; intros c Hc Hb; [by apply not_elem_of_nil in Hb|].
  cbn [boundaries gen_boundary] in Hb. rewrite Zlen_cons. pose proof (Zlen_nonneg rands).
  apply elem_of_cons in Hb as [->|Hb].
  - exists r, 0. split; [lia|]. rewrite Z.add_0_r. by rewrite wrap_small.
  - apply IH in Hb as (r' & k & Hk & ->); [|apply wrap_range; lia]. exists r', (k + 1). split; [lia|]. do 3 f_equal.
    unfold wrap. rewrite Zplus_mod_idemp_l. f_equal. lia.
Qed.

(** * The text of a form *)

Section Text.
Context {BE : Type}.
Abbreviation Sent := (bytes * Part BE * bytes)%type.

(** The head of a part: its headers and the empty line. *)
Definition head_text (name : bytes) (p : Part BE) : bytes :=
  (str "Content-Disposition: form-data; name=" ++ [QUOTE] ++ escaped name ++ [QUOTE]) ++
  match pa_file_name p with Some f => str "; filename=" ++ [QUOTE] ++ escaped f ++ [QUOTE] | None => [] end ++ CRLF ++
  match pa_mime p with Some m => str "Content-Type: " ++ m ++ CRLF | None => [] end ++ CRLF.

Lemma encode_header_text p boundary name :
  encode_header p boundary name = str "--" ++ boundary ++ CRLF ++ head_text name p.
Proof.
  unfold encode_header, head_text. rewrite !extend_escaped_spec.
  destruct (pa_file_name p) as [f|], (pa_mime p) as [m|]; rewrite ?extend_escaped_spec, <- ?app_assoc; done.
Qed.

(** The whole text, and what comes after the first dashes and boundary. *)
Definition encoded (boundary : bytes) (sent : list Sent) : bytes :=
  concat ((fun '(name, p, d) => encode_header p boundary name ++ d ++ CRLF) <$> sent) ++ closing boundary.

Fixpoint tail_text (boundary : bytes) (sent : list Sent) : bytes :=
  match sent with
  | [] => str "--" ++ CRLF
  | (name, p, d) :: sent => CRLF ++ head_text name p ++ d ++ delimiter boundary ++ tail_text boundary sent
  end.

Lemma encoded_tail boundary sent : encoded boundary sent = (str "--" ++ boundary) ++ tail_text boundary sent.
Proof.
  induction sent as [|[[name p] d] sent IH]; unfold encoded in *; cbn [fmap list_fmap concat tail_text].
  - unfold closing. by rewrite <- app_assoc.
  - rewrite <- app_assoc, IH, encode_header_text. unfold delimiter. by rewrite <- !app_assoc.
Qed.

(** A part that can be told apart in the text. *)
Definition sendable (boundary : bytes) (s : Sent) : Prop :=
  (forall a b, s.2 <> a ++ delimiter boundary ++ b) /\ (forall m, pa_mime s.1.2 = Some m -> CR ∉ m).
Definition field_of (s : Sent) : Field :=
  mkField (line_free s.1.1) (line_free <$> pa_file_name s.1.2) (pa_mime s.1.2) s.2.

Lemma read_disposition_head name p rest :
  read_disposition (head_text name p ++ rest) =
  Some (line_free name, line_free <$> pa_file_name p,
        (match pa_mime p with Some m => str "Content-Type: " ++ m ++ CRLF | None => [] end ++ CRLF) ++ rest).
Proof.
  unfold read_disposition, head_text. set (ct := match pa_mime p with Some m => _ | None => _ end).
  rewrite <- !app_assoc, (app_assoc (str _) [QUOTE]), strip_app. cbn [mbind option_bind].
  rewrite read_quoted_escaped. cbn [mbind option_bind]. destruct (pa_file_name p) as [f|].
  - rewrite <- !app_assoc, (app_assoc (str _) [QUOTE]), strip_app. cbn [mbind option_bind].
    rewrite read_quoted_escaped. cbn [mbind option_bind]. rewrite strip_app. cbn [mbind option_bind]. by rewrite <- ?app_assoc.
  - cbn [app]. unfold CRLF at 1. cbn [app]. change (str "; filename=" ++ [QUOTE]) with (";"%byte :: (str " filename=" ++ [QUOTE])).
    rewrite strip_head_ne by done. change (CR :: LF :: ?x) with (CRLF ++ x). by rewrite strip_app.
Qed.

Lemma read_type_head (p : Part BE) rest :
  (forall m, pa_mime p = Some m -> CR ∉ m) ->
  read_type ((match pa_mime p with Some m => str "Content-Type: " ++ m ++ CRLF | None => [] end ++ CRLF) ++ rest) = Some (pa_mime p, rest).
Proof.
  intros Hm. unfold read_type. destruct (pa_mime p) as [m|].
  - rewrite <- !app_assoc, strip_app. cbn [mbind option_bind]. rewrite (split_sub_first CR [LF]).
    + cbn [mbind option_bind]. by rewrite strip_app.
    + intros [H|H]%elem_of_cons; [done|by apply not_elem_of_nil in H].
    + intros a b ->. apply (Hm _ eq_refl). apply elem_of_app. right. left.
  - cbn [app]. unfold CRLF at 1. cbn [app]. change (str "Content-Type: ") with ("C"%byte :: str "ontent-Type: ").
    rewrite strip_head_ne by done. change (CR :: LF :: ?x) with (CRLF ++ x). by rewrite strip_app.
Qed.

Lemma split_delimiter boundary d rest :
  CR ∉ boundary -> (forall a b, d <> a ++ delimiter boundary ++ b) ->
  split_sub (delimiter boundary) (d ++ delimiter boundary ++ rest) = Some (d, rest).
Proof.
  intros Hb. change (delimiter boundary) with (CR :: (LF :: str "--" ++ boundary)). apply split_sub_first.
  change (LF :: str "--" ++ boundary) with ([LF; "-"%byte; "-"%byte] ++ boundary). intros [H|H]%elem_of_app; [|done].
  repeat (apply elem_of_cons in H as [H|H]; [done|]). by apply not_elem_of_nil in H.
Qed.

Lemma read_parts_tail boundary sent fuel :
  CR ∉ boundary -> Forall (sendable boundary) sent -> (length sent < fuel)%nat ->
  read_parts fuel boundary (tail_text boundary sent) = Some (field_of <$> sent).
Proof.
  intros Hb Hs. revert fuel. induction Hs as [|[[name p] d] sent [Hd Hm] Hs IH]; intros [|fuel] Hf; cbn [length] in Hf; try lia; [done|].
  cbn [read_parts tail_text]. unfold CRLF at 1. cbn [app]. change (str "--") with ("-"%byte :: str "-") at 1.
  rewrite strip_head_ne by done. change (CR :: LF :: ?x) with (CRLF ++ x). rewrite strip_app. cbn [mbind option_bind].
  rewrite read_disposition_head. cbn [mbind option_bind]. rewrite read_type_head by exact Hm. cbn [mbind option_bind].
  rewrite split_delimiter by done. cbn [mbind option_bind]. by rewrite IH by lia.
Qed.

(** ** Both ways of making the body *)

(** What a part's data amounts to. *)
Definition yields (p : Part BE) (d : bytes) : Prop := collect_items (into_stream (pa_data p)) = inl d.

Lemma collect_app (l k : list (Frame + BE)) d e :
  collect_items l = inl d -> collect_items k = inl e -> collect_items (l ++ k) = inl (d ++ e).
Proof.
  revert d. induction l as [|[f|x] l IH]; cbn; intros d Hl Hk; [by injection Hl as <-| |done].
  destruct (collect_items l) as [r|]; [|done]. injection Hl as <-. rewrite (IH r) by done. by rewrite app_assoc.
Qed.

Lemma collect_once b : collect_items (once_frame (BE := BE) b) = inl b.
Proof. cbn. by rewrite app_nil_r. Qed.

Lemma collect_body_from (b : bytes) : collect (body_from (E := BE) b) = inl b.
Proof. destruct b; [done|]. apply collect_once. Qed.

Definition part_streams (boundary : bytes) (np : bytes * Part BE) : list (list (Frame + BE)) :=
  [once_frame (encode_header np.2 boundary np.1); into_stream (pa_data np.2); once_frame CRLF].
Definition part_encoded (boundary : bytes) (s : Sent) : bytes := encode_header s.1.2 boundary s.1.1 ++ s.2 ++ CRLF.

Lemma encoded_parts boundary sent : encoded boundary sent = concat (part_encoded boundary <$> sent) ++ closing boundary.
Proof. unfold encoded. do 2 f_equal. apply list_fmap_ext. by intros ? [[n p] d] _. Qed.

Lemma memory_fold boundary parts datas buf :
  Forall2 (fun np d => yields np.2 d) parts datas -> forallb (fun '(_, p) => is_in_memory (pa_data p)) parts = true ->
  fold_left (fun buf '(name, p) =>
    (match as_bytes (pa_data p) with Some b => (buf ++ encode_header p boundary name) ++ b | None => buf ++ encode_header p boundary name end) ++ CRLF)
    parts buf = buf ++ concat (part_encoded boundary <$> zip parts datas).
Proof.
  intros Hy. revert buf. induction Hy as [|[name p] d parts datas Hp Hy IH]; intros buf; cbn [forallb fold_left zip zip_with fmap list_fmap concat].
  { by rewrite app_nil_r. }
  intros [H1 H2]%andb_prop. unfold yields in Hp. cbn [snd] in Hp. destruct (pa_data p) as [b|] eqn:Hd; [|done]. cbn [as_bytes].
  cbn [into_stream] in Hp. rewrite collect_once in Hp. injection Hp as <-. rewrite IH by done. unfold part_encoded at 2. cbn [fst snd].
  by rewrite <- !app_assoc.
Qed.

Lemma stream_fold boundary parts e ss :
  fold_left (fun '(exact_len, streams) '(name, p) =>
      let header := encode_header p boundary name in
      (add_part_len header p exact_len, streams ++ [once_frame header; into_stream (pa_data p); once_frame CRLF])) parts (e, ss) =
  (fold_left (fun e np => add_part_len (encode_header np.2 boundary np.1) np.2 e) parts e, ss ++ concat (part_streams boundary <$> parts)).
Proof.
  revert e ss. induction parts as [|[name p] parts IH]; intros e ss; cbn [fold_left fmap list_fmap concat]; [by rewrite app_nil_r|].
  rewrite IH. by rewrite <- app_assoc.
Qed.

Lemma collect_streams boundary parts datas (k : list (Frame + BE)) e :
  Forall2 (fun np d => yields np.2 d) parts datas -> collect_items k = inl e ->
  collect_items (concat (concat (part_streams boundary <$> parts)) ++ k) = inl (concat (part_encoded boundary <$> zip parts datas) ++ e).
Proof.
  intros Hy Hk. induction Hy as [|[name p] d parts datas Hp Hy IH]; cbn [zip zip_with fmap list_fmap concat]; [done|].
  rewrite !concat_app, <- !app_assoc. unfold part_encoded at 1. cbn [fst snd]. rewrite <- !app_assoc.
  cbn [part_streams concat fst snd]. rewrite <- !app_assoc. apply collect_app; [apply collect_once|].
  apply collect_app; [done|]. rewrite app_nil_l. apply collect_app; [apply collect_once|done].
Qed.

Lemma into_body_text f datas :
  Forall2 (fun np d => yields np.2 d) (fo_parts f) datas ->
  collect (into_body f) = inl (encoded (fo_boundary f) (zip (fo_parts f) datas)).
Proof.
  intros Hy. rewrite encoded_parts. unfold into_body. destruct (forallb _ _) eqn:Hm.
  - rewrite (memory_fold _ _ datas) by done. by rewrite app_nil_l, collect_body_from.
  - rewrite stream_fold. cbn [app].
    pose proof (collect_streams (fo_boundary f) _ _ _ _ Hy (collect_once (closing (fo_boundary f)))) as Hc.
    rewrite concat_app. cbn [concat]. rewrite app_nil_r. destruct (fold_left _ _ _); exact Hc.
Qed.

(** ** The announced length *)

Lemma checked_add_some a b n : checked_add a b = Some n -> n = a + b.
Proof. unfold checked_add. destruct (_ <? _); [|done]. by intros [= <-]. Qed.
Lemma checked_add_ok a b : a + b < 2 ^ 64 -> checked_add a b = Some (a + b).
Proof. intros H. unfold checked_add. apply Z.ltb_lt in H. by rewrite H. Qed.

Abbreviation lengths boundary := (fold_left (fun e np => add_part_len (encode_header np.2 boundary np.1) np.2 e)).

Lemma lengths_none boundary (parts : list (bytes * Part BE)) : lengths boundary parts None = None.
Proof. induction parts; cbn; done. Qed.

Definition length_right (np : bytes * Part BE) (d : bytes) : Prop := forall n, pa_length np.2 = Some n -> n = Zlen d.

Lemma Zlen_part_encoded boundary (s : Sent) :
  Zlen (part_encoded boundary s) = Zlen (encode_header s.1.2 boundary s.1.1) + Zlen s.2 + 2.
Proof. unfold part_encoded. rewrite !Zlen_app. change (Zlen CRLF) with 2. lia. Qed.

Lemma lengths_right boundary parts datas total n :
  Forall2 length_right parts datas -> lengths boundary parts (Some total) = Some n ->
  n = total + Zlen (concat (part_encoded boundary <$> zip parts datas)).
Proof.
  intros Hr. revert total. induction Hr as [|[name p] d parts datas Hp Hr IH]; intros total; cbn [fold_left zip zip_with fmap list_fmap concat].
  { intros [= <-]. rewrite Zlen_nil. lia. }
  unfold add_part_len at 2. cbn [mbind option_bind fst snd]. destruct (pa_length p) as [l|] eqn:Hl; cbn [mbind option_bind];
    [|by rewrite lengths_none]. specialize (Hp _ Hl) as ->.
  destruct (checked_add total _) as [a|] eqn:H1; cbn [mbind option_bind]; [|by rewrite lengths_none].
  destruct (checked_add a _) as [b|] eqn:H2; cbn [mbind option_bind]; [|by rewrite lengths_none].
  destruct (checked_add b _) as [c|] eqn:H3; [|by rewrite lengths_none]. intros H%IH.
  apply checked_add_some in H1, H2, H3. rewrite Zlen_app, Zlen_part_encoded. cbn [fst snd]. lia.
Qed.

Lemma lengths_known boundary parts datas total :
  Forall2 length_right parts datas -> Forall (fun np => is_Some (pa_length np.2)) parts -> 0 <= total ->
  total + Zlen (concat (part_encoded boundary <$> zip parts datas)) < 2 ^ 64 ->
  is_Some (lengths boundary parts (Some total)).
Proof.
  intros Hr. revert total. induction Hr as [|[name p] d parts datas Hp Hr IH]; intros total Hk H0; cbn [fold_left zip zip_with fmap list_fmap concat].
  { by eexists. }
  apply Forall_cons in Hk as [[l Hl] Hk]. specialize (Hp _ Hl) as ->. cbn [snd] in Hl.
  rewrite Zlen_app, Zlen_part_encoded. cbn [fst snd]. intros Ht. set (c := concat _) in Ht.
  pose proof (Zlen_nonneg c). pose proof (Zlen_nonneg d). pose proof (Zlen_nonneg (encode_header p boundary name)).
  unfold add_part_len at 2. rewrite Hl. cbn [mbind option_bind]. rewrite checked_add_ok by lia. cbn [mbind option_bind].
  rewrite checked_add_ok by lia. cbn [mbind option_bind]. rewrite checked_add_ok by lia. apply IH; [done|lia|fold c; lia].
Qed.
End Text.

(** * The theorems *)

(** C37: A form arrives as it was built: whatever parts it has, from memory, readers or
    files, in whichever of the two ways its body is made, a reader of the
    format that is given the body and the boundary finds these parts in
    order, with their names, file names, media types and data, and no other,
    as long as no part's data contains the delimiter. Only line ends in names
    are lost: they become spaces. *)
Theorem multipart_roundtrip {BE} rand counter (parts : list (bytes * Part BE)) datas :
  let boundary := (gen_boundary rand counter).1 in
  Forall2 (fun np d => yields np.2 d) parts datas -> Forall (sendable boundary) (zip parts datas) ->
  exists text, collect (into_body (mkForm boundary parts)) = inl text /\
    read_form boundary text = Some (field_of <$> zip parts datas).
Proof.
  intros boundary Hy Hs. exists (encoded boundary (zip parts datas)). split; [by apply (into_body_text (mkForm boundary parts))|].
  rewrite encoded_tail. unfold read_form. rewrite strip_app. cbn [mbind option_bind].
  apply read_parts_tail; [apply gen_boundary_no_cr|done|]. apply Nat.lt_succ_r.
  generalize (zip parts datas). intros sent. induction sent as [|[[n p] d] sent IH]; cbn [length tail_text]; [lia|].
  rewrite !length_app. change (length CRLF) with 2%nat. lia.
Qed.

(** The length a form announces is the length of what it sends: provided that
    files have the length their metadata tells, the body's size hint
    brackets what it yields; it is exact when every part's length is known
    and the total fits 64 bits, and a reader of unknown length leaves the
    body without an announced length. *)
Theorem multipart_length {BE} boundary (parts : list (bytes * Part BE)) datas :
  Forall2 (fun np d => yields np.2 d) parts datas -> Forall2 length_right parts datas ->
  let body := into_body (mkForm boundary parts) in
  body_hint_ok body /\
  (Forall (fun np => is_Some (pa_length np.2)) parts -> Zlen (encoded boundary (zip parts datas)) < 2 ^ 64 ->
   hint_exact (size_hint body) = Some (Zlen (encoded boundary (zip parts datas)))) /\
  (forall np, np ∈ parts -> is_in_memory (pa_data np.2) = false -> pa_length np.2 = None -> hint_exact (size_hint body) = None).
Proof.
  intros Hy Hr body. pose proof (into_body_text (mkForm boundary parts) _ Hy) as Ht. cbn [fo_boundary fo_parts] in Ht. fold body in Ht.
  rewrite encoded_parts in *. set (text := concat _ ++ _) in *. assert (Zlen text = Zlen (closing boundary) + Zlen (concat (part_encoded boundary <$> zip parts datas))) as Hl.
  { unfold text. rewrite Zlen_app. lia. }
  unfold body, into_body in *. cbn [fo_boundary fo_parts] in *. destruct (forallb _ _) eqn:Hm.
  - rewrite collect_body_from in Ht. injection Ht as Ht. rewrite Ht. split_and!; [apply full_hint| |].
    + intros _ _. destruct text as [|x t]; [done|]. unfold hint_exact. cbn [size_hint body_from full_new with_exact sh_upper sh_lower]. by rewrite Z.eqb_refl.
    + intros np Hn Hf _. rewrite forallb_forall in Hm. apply list_elem_of_In in Hn. specialize (Hm _ Hn). destruct np. cbn in *. congruence.
  - rewrite stream_fold in Ht |- *. cbv beta iota in Ht |- *.
    destruct (fold_left (fun e np => add_part_len _ np.2 e) parts _) as [n|] eqn:Hn.
    + pose proof (lengths_right _ _ _ _ _ Hr Hn) as He. rewrite <- Hl in He. split_and!.
      * intros d Hd. unfold collect in Ht. cbn [items_of exact_size_stream_body from_body db_items size_hint db_hint with_exact sh_lower sh_upper] in *.
        rewrite Hd in Ht. injection Ht as ->. split; [lia|]. intros u [= <-]. lia.
      * intros _ _. unfold hint_exact. cbn [exact_size_stream_body from_body size_hint db_hint with_exact sh_lower sh_upper]. rewrite Z.eqb_refl. congruence.
      * intros np Hnp _ Hnone. exfalso. apply list_elem_of_split in Hnp as (l1 & l2 & ->). rewrite fold_left_app in Hn. cbn [fold_left] in Hn.
        unfold add_part_len at 2 in Hn. rewrite Hnone in Hn. destruct (fold_left _ l1 _); cbn [mbind option_bind] in Hn; by rewrite lengths_none in Hn.
    + split_and!; [apply stream_hint| |done]. intros Hk Hlt. exfalso.
      destruct (lengths_known boundary parts datas (Zlen (closing boundary)) Hr Hk) as [m Hsome]; [apply Zlen_nonneg|lia|congruence].
Qed.

(** Boundaries of one process are never the same, whatever the random numbers, for
    2{^64} forms; each has at most 70 characters, all of them legal. *)
Theorem boundaries_distinct rands counter :
  in_width 64 counter -> Zlen rands <= 2 ^ 64 ->
  NoDup (boundaries rands counter) /\
  Forall (fun b => (length b <= 70)%nat /\ Forall (fun c => boundary_legal c = true) b) (boundaries rands counter).
Proof.
  revert counter. induction rands as [|r rands IH]; intros c Hc Hl; [split; constructor|]. rewrite Zlen_cons in Hl.
  destruct (IH (wrap 64 (c + 1))) as [H1 H2]; [apply wrap_range; lia|lia|]. cbn [boundaries gen_boundary]. split.
  - constructor; [|done]. intros (r' & k & Hk & He)%boundaries_counter; [|apply wrap_range; lia].
    apply app_inv_head, app_inj_2, proj2 in He; [|by rewrite !length_hex_fixed].
    apply hex_fixed_inj in He; [|exact Hc|apply (wrap_range 64); lia]. unfold in_width, wrap in *. rewrite Zplus_mod_idemp_l in He.
    pose proof (Zlen_nonneg rands). rewrite <- Z.add_assoc in He.
    pose proof (Z.div_mod (c + (1 + k)) (2 ^ 64)) as Hd. rewrite <- He in Hd.
    assert (0 < 2 ^ 64 * ((c + (1 + k)) / 2 ^ 64) < 2 ^ 64) as Hb by lia. nia.
  - constructor; [|done]. split; [|apply (gen_boundary_legal r c)].
    rewrite !length_app, !length_hex_fixed. vm_compute. lia.
Qed.

Module MultipartExample.
Definition open (path : bytes) : option (Z * list (Frame + unit)) := Some (5, [inl (FData (str "he")); inl (FData (str "llo"))]).
Definition guess (path : bytes) : option bytes := Some (str "text/plain").

(** A text field whose name has a quote, and a file. *)
Definition form : Form unit :=
  let f := form_text ([QUOTE] ++ str "k") (str "v") (form_new 7 3).1 in
  default f (form_file open guess (str "file") (str "/tmp/a.txt") f).
Definition datas : list bytes := [str "v"; str "hello"].

Lemma no_delimiter (d p : bytes) : (length d < length p)%nat -> forall a b, d <> a ++ p ++ b.
Proof. intros Hl a b ->. rewrite !length_app in Hl. lia. Qed.

Lemma multipart_roundtrip_witness :
  exists text, collect (into_body form) = inl text /\
    read_form (fo_boundary form) text =
    Some [mkField ([QUOTE] ++ str "k") None None (str "v"); mkField (str "file") (Some (str "a.txt")) (Some (str "text/plain")) (str "hello")].
Proof.
  apply (multipart_roundtrip 7 3 (fo_parts form) datas).
  - by repeat constructor.
  - apply Forall_cons. split; [split; [apply no_delimiter; vm_compute; lia|done]|].
    apply Forall_cons. split; [split; [apply no_delimiter; vm_compute; lia|]|constructor].
    intros m [= <-] Hm. vm_compute in Hm. repeat (apply elem_of_cons in Hm as [Hm|Hm]; [done|]). by apply not_elem_of_nil in Hm.
Defined.

Lemma multipart_length_witness : hint_exact (size_hint (into_body form)) = Some 314.
Proof.
  destruct (multipart_length (fo_boundary form) (fo_parts form) datas) as (_ & H & _).
  - by repeat constructor.
  - by constructor; [intros n [= <-]|constructor; [intros n [= <-]|constructor]].
  - apply H; [|by vm_compute]. constructor; [by eexists|constructor; [by eexists|constructor]].
Defined.

Lemma boundaries_distinct_witness : NoDup (boundaries [7; 7; 1] (2 ^ 64 - 1)).
Proof. apply (boundaries_distinct [7; 7; 1] (2 ^ 64 - 1)); [split|]; vm_compute; try done; discriminate. Defined.
End MultipartExample.
