(* ===== verification/HttpClient.v ===== *)
(** The HTTP client above its transport: name resolution (volo-http/src/client/dns.rs),
    load balancing (client/loadbalance.rs), the timeout and status layers
    (client/layer/timeout.rs, fail_on_status.rs), call options
    (client/callopt.rs), the builder and the client (client/mod.rs,
    client/transport/connector.rs), the connectors and the keys of the pool
    (client/transport/plain.rs, tls.rs, protocol.rs) and the request builder
    (client/request_builder.rs).

    The transport, the resolver's lookups, serde and the [http] crate's parsers
    are parameters; the scope of a task's metainfo is left out. *)

From S2P Require Import Prelude Net Context Utf8 Headers Discovery RandomBalance HttpPool HttpTarget GrpcStatus HttpLayers.

(** * Names *)

Record DiscoverKey : Type := mkDiscoverKey { dk_name : bytes; dk_port : Z }.

#[export] Instance DiscoverKey_eq_dec : EqDecision DiscoverKey.
Proof. solve_decision. Defined.
#[export] Instance DiscoverKey_countable : Countable DiscoverKey.
Proof.
  apply (inj_countable' (fun k => (dk_name k, dk_port k)) (fun p => mkDiscoverKey p.1 p.2)). by intros [].
Defined.

(** [Endpoint::get::<Port>]. *)
Definition endpoint_port (ep : Endpoint) : option Z := be_decode <$> ep_tags ep !! PORT_TAG.

Definition from_endpoint (ep : Endpoint) : DiscoverKey := mkDiscoverKey (ep_service_name ep) (default 0 (endpoint_port ep)).

(** [DnsResolver]: [lookup_ip] is the resolver's, [None] an error. *)
Record DnsResolver : Type := mkDnsResolver { dns_lookup_ip : bytes -> option (list IpAddr) }.

Definition resolve (self : DnsResolver) (host : bytes) : option IpAddr := dns_lookup_ip self host ≫= head.

Definition DNS_WEIGHT : Z := 10.

(** [DnsResolver::discover]: a missing port is [unreachable!]. *)
Definition dns_discover (self : DnsResolver) (ep : Endpoint) : outcome LoadBalanceError (list Instance) :=
  match ep_address ep with
  | Some _ => Done []
  | None =>
      match ep_service_name ep with
      | [] => Fail (LbDiscover (str "missing target address"))
      | name =>
          match endpoint_port ep with
          | None => Panic
          | Some port =>
              match resolve self name with
              | Some ip => Done [mkInstance (Ip (socket_addr ip port)) DNS_WEIGHT ∅]
              | None => Fail (LbDiscover (str "bad host name: " ++ name))
              end
          end
      end
  end.

#[export] Instance dns_discover_class : Discover DnsResolver DiscoverKey LoadBalanceError := {|
  discover := dns_discover;
  discover_key _ ep := from_endpoint ep;
|}.

(** * Layers *)

Section Services.
Context {tls : TlsFeature} {iptext : IpText} {U H : Type} {uops : UriOps U} {hmap : HeaderMap H} {S : Type}.

(** The result of a service, with a state put beside it. *)
Definition beside {A B R} (a : A) (r : B * ClientContext * R) : (A * B) * ClientContext * R :=
  let '(b, cx, x) := r in ((a, b), cx, x).

(** [LoadBalanceService::call], over a load balancer [LB] and its pickers. *)
Definition lb_service {LB Picker} (get_picker : Endpoint -> LB -> outcome LoadBalanceError (Picker * LB))
    (next : Picker -> outcome LoadBalanceError (option Address * Picker)) (lb_text : LoadBalanceError -> bytes)
    (inner : Service U H S) : Service U H (LB * S) := fun '(lb, s) cx req =>
  match ep_address (hcx_callee cx) with
  | Some _ => beside lb (inner s cx req)
  | None =>
      match get_picker (hcx_callee cx) lb with
      | Done (picker, lb) =>
          match next picker with
          | Done (Some addr, _) => beside lb (inner s (callee_mut (Endpoint.set_address addr) cx) req)
          | Done (None, _) => ((lb, s), cx, Fail NoAvailableEndpoint)
          | Fail e => ((lb, s), cx, Fail (LbFailed (lb_text e)))
          | Panic => ((lb, s), cx, Panic)
          | OutOfFuel => ((lb, s), cx, OutOfFuel)
          end
      | Fail e => ((lb, s), cx, Fail (LbFailed (lb_text e)))
      | Panic => ((lb, s), cx, Panic)
      | OutOfFuel => ((lb, s), cx, OutOfFuel)
      end
  end.

(** [DefaultLb]: random balancing over name resolution; [draw] is the next random
    number. *)
Definition default_lb `{BinarySearch} (resolver : DnsResolver) (draw : Z) (lb_text : LoadBalanceError -> bytes) :
    Service U H S -> Service U H (gmap DiscoverKey Random.WeightedInstances * S) :=
  lb_service (fun ep router => Random.get_picker id ep resolver router) (Random.next draw) lb_text.

(** [TimeoutService::call]; [race] runs the service against a sleep and answers
    [None] when the sleep ends first. *)
Definition timeout_service
    (race : Z -> Service U H S -> S -> ClientContext -> Request U H -> S * ClientContext * option (outcome ClientError (Response H)))
    (inner : Service U H S) : Service U H S := fun s cx req =>
  match hcx_timeout cx with
  | Some duration =>
      let '(s, cx, r) := race duration inner s cx req in
      (s, cx, match r with Some r => r | None => Fail RequestTimeout end)
  | None => inner s cx req
  end.

(** [FailOnStatus] and its constructors. *)
Record FailOnStatus : Type := mkFailOnStatus { fs_client_error : bool; fs_server_error : bool; fs_detailed : bool }.
Definition fail_all : FailOnStatus := mkFailOnStatus true true false.
Definition fail_client_error : FailOnStatus := mkFailOnStatus true false false.
Definition fail_server_error : FailOnStatus := mkFailOnStatus false true false.
Definition detailed (f : FailOnStatus) : FailOnStatus := mkFailOnStatus (fs_client_error f) (fs_server_error f) true.

Definition is_client_error (status : Z) : bool := (400 <=? status) && (status <? 500).
Definition is_server_error (status : Z) : bool := (500 <=? status) && (status <? 600).

(** [FailOnStatusService::call]. *)
Definition fail_on_status_service (fail_on : FailOnStatus) (inner : Service U H S) : Service U H S := fun s cx req =>
  let '(s, cx, r) := inner s cx req in
  (s, cx,
   resp ← r;
   if (fs_client_error fail_on && is_client_error (rs_status resp)) || (fs_server_error fail_on && is_server_error (rs_status resp))
   then Fail (StatusCodeError (rs_status resp)) else Done resp).

(** * Call options *)

Record CallOpt : Type := mkCallOpt { hco_timeout : option Z; hco_tags : gmap N bytes; hco_faststr_tags : gmap N bytes }.

(** [CallOpt::apply]. *)
Definition apply_callopt (o : CallOpt) (cx : ClientContext) : ClientContext :=
  let cx := callee_mut (fun e =>
    let e := if bool_decide (hco_tags o = ∅) then e
             else mkEndpoint (ep_service_name e) (ep_address e) (ep_faststr_tags e) (hco_tags o ∪ ep_tags e) in
    if bool_decide (hco_faststr_tags o = ∅) then e
    else mkEndpoint (ep_service_name e) (ep_address e) (hco_faststr_tags o ∪ ep_faststr_tags e) (ep_tags e)) cx in
  match hco_timeout o with
  | Some t => mkClientContext (hcx_callee cx) (hcx_target cx) (Some t)
  | None => cx
  end.

Definition with_callopt_service (o : CallOpt) (inner : Service U H S) : Service U H S := fun s cx req =>
  inner s (apply_callopt o cx) req.
End Services.
Arguments CallOpt : clear implicits.

(** * Making connections *)

Section Connector.
Context {T : Type}.

(** [DefaultMakeTransport]'s timeouts. *)
Record MakeTransport : Type := mkMakeTransport { mk_connect_timeout : option Z; mk_read_timeout : option Z; mk_write_timeout : option Z }.
Definition MakeTransport_new : MakeTransport := mkMakeTransport None None None.

Inductive HttpMakeConnection : Type := Plain (mk : MakeTransport) | Tls (mk : MakeTransport) (tls_connector : T).

Record ClientTransportConfig : Type := mkClientTransportConfig { tc_stat_enable : bool; tc_disable_tls : bool }.
Definition ClientTransportConfig_new : ClientTransportConfig := mkClientTransportConfig true false.

(** [ConnectorBuilder]. *)
Definition connector_new : HttpMakeConnection := Plain MakeTransport_new.

Definition with_tls_connector (config : ClientTransportConfig) (tls_connector : T) (mk_conn : HttpMakeConnection) :
    outcome ClientError HttpMakeConnection :=
  if tc_disable_tls config then Panic
  else Done (match mk_conn with Plain mk => Tls mk tls_connector | Tls mk c => Tls mk c end).

Definition connector_build `{TlsFeature} (default_tls_connector : T) (config : ClientTransportConfig) (mk_conn : HttpMakeConnection) :
    outcome ClientError HttpMakeConnection :=
  if tls_enabled then
    if tc_disable_tls config then Done mk_conn else with_tls_connector config default_tls_connector mk_conn
  else Done mk_conn.

(** What [ClientTransport::new] makes of its arguments. *)
Definition transport_connector `{TlsFeature} (default_tls_connector : T) (config : ClientTransportConfig) (tls_config : option T) :
    outcome ClientError HttpMakeConnection :=
  mk_conn ← match tls_config with
            | Some c => if tls_enabled then with_tls_connector config c connector_new else Done connector_new
            | None => Done connector_new
            end;
  connector_build default_tls_connector config mk_conn.

(** [HttpMakeConnection::call] refuses other schemes on plain connections. *)
Definition check_connection (mk : HttpMakeConnection) (scheme : Scheme) : outcome ClientError unit :=
  match mk with
  | Plain _ => if bool_decide (scheme = HTTP) then Done tt else Fail (BadScheme scheme)
  | Tls _ _ => Done tt
  end.

(** ** Peers *)

Record PeerInfo : Type := mkPeerInfo { pi_scheme : Scheme; pi_address : Address; pi_name : bytes }.

(** [pool_key]: under which connections are shared. *)
Definition PoolKey : Type := Scheme * Address * option bytes.
Definition pool_key `{TlsFeature} (peer : PeerInfo) : PoolKey :=
  (pi_scheme peer, pi_address peer, if tls_enabled && bool_decide (pi_scheme peer = HTTPS) then Some (pi_name peer) else None).

(** A connection to an address, in the clear or under TLS with a server's name. *)
Inductive Made : Type := MadePlain (a : Address) | MadeTls (a : Address) (name : bytes).

(** Dialling, and the handshake of the TLS connector. *)
Context (dial : Address -> outcome ClientError unit) (handshake : bytes -> outcome ClientError unit).

(** [PlainMakeConnection::call] and [TlsMakeConnection::call]; a stream that is not
    TCP is [unreachable!]. *)
Definition plain_connect (peer : PeerInfo) : outcome ClientError Made := _ ← dial (pi_address peer); Done (MadePlain (pi_address peer)).
Definition tls_connect (peer : PeerInfo) : outcome ClientError Made :=
  conn ← plain_connect peer;
  if bool_decide (pi_scheme peer = HTTP) then Done conn
  else match pi_address peer with
       | Ip _ => _ ← handshake (pi_name peer); Done (MadeTls (pi_address peer) (pi_name peer))
       | Unix _ => Panic
       end.

(** [HttpMakeConnection::call]. *)
Definition make_connection (mk : HttpMakeConnection) (peer : PeerInfo) : outcome ClientError Made :=
  _ ← check_connection mk (pi_scheme peer);
  match mk with Plain _ => plain_connect peer | Tls _ _ => tls_connect peer end.
End Connector.
Arguments HttpMakeConnection : clear implicits.

(** * The transport's call *)

Section TransportCall.
Context {iptext : IpText} {U H : Type} {uops : UriOps U} {hmap : HeaderMap H}.

(** The peer [ClientTransport::call] connects to. *)
Definition call_peer (cx : ClientContext) : outcome ClientError PeerInfo :=
  match ep_address (hcx_callee cx) with
  | Some address => Done (mkPeerInfo (default HTTP (target_scheme (hcx_target cx))) address (ep_service_name (hcx_callee cx)))
  | None => Fail NoAddress
  end.

Definition PLACEHOLDER : bytes := str "volo-http.placeholder".

(** [gen_authority]. *)
Definition gen_authority (headers : H) : bytes := default PLACEHOLDER (host ← hm_get (str "host") headers; text ← to_str host; authority_parse text).

(** [rewrite_uri]: only requests of HTTP/2 need the scheme and the authority in
    the URI. *)
Definition rewrite_uri (cx : ClientContext) (req : Request U H) : Request U H :=
  let p := rq_parts req in
  if negb (bool_decide (pt_version p = HTTP_2)) then req
  else
    let scheme := default HTTP (target_scheme (hcx_target cx)) in
    match path ← uri_path_and_query (pt_uri p); uri_from_parts scheme (gen_authority (pt_headers p)) path with
    | Some uri => mkRequest (with_uri uri p) (rq_body req)
    | None => req
    end.
End TransportCall.

(** * The client *)

Section Client.
Context {tls : TlsFeature} {iptext : IpText} {U H : Type} {uops : UriOps U} {hmap : HeaderMap H} {S LB HC T : Type}.
Abbreviation Inner := (Service U H S).
Abbreviation Outer := (Service U H (LB * S)).

(** [Stack::new(inner, outer)]. *)
Definition stack {A} (inner outer : A -> A) : A -> A := fun s => outer (inner s).

Record ClientBuilder : Type := mkClientBuilder {
  hb_http_config : HC;
  hb_client_config : ClientTransportConfig;
  hb_pool_config : HttpPool.Config;
  hb_connector : MakeTransport;
  hb_timeout : option Z;
  hb_user_agent : option bytes;
  hb_host_mode : Host;
  hb_headers : H;
  hb_inner_layer : Inner -> Inner;
  hb_outer_layer : Outer -> Outer;
  hb_mk_lb : Inner -> Outer;
  hb_status : unit + ClientError;
  hb_tls_config : option T }.

Definition builder_new (http_config : HC) (lb : Inner -> Outer) : ClientBuilder :=
  mkClientBuilder http_config ClientTransportConfig_new HttpPool.Config_default MakeTransport_new None None HostAuto hm_empty
    id id lb (inl tt) None.

(** The fields the builder's methods set. *)
Definition set_layers (il : Inner -> Inner) (ol : Outer -> Outer) (b : ClientBuilder) : ClientBuilder :=
  mkClientBuilder (hb_http_config b) (hb_client_config b) (hb_pool_config b) (hb_connector b) (hb_timeout b) (hb_user_agent b)
    (hb_host_mode b) (hb_headers b) il ol (hb_mk_lb b) (hb_status b) (hb_tls_config b).
Definition set_transport (c : ClientTransportConfig) (p : HttpPool.Config) (m : MakeTransport) (t : option T) (b : ClientBuilder) : ClientBuilder :=
  mkClientBuilder (hb_http_config b) c p m (hb_timeout b) (hb_user_agent b)
    (hb_host_mode b) (hb_headers b) (hb_inner_layer b) (hb_outer_layer b) (hb_mk_lb b) (hb_status b) t.
Definition set_request (timeout : option Z) (ua : option bytes) (host : Host) (headers : H) (status : unit + ClientError) (b : ClientBuilder) :
    ClientBuilder :=
  mkClientBuilder (hb_http_config b) (hb_client_config b) (hb_pool_config b) (hb_connector b) timeout ua host headers
    (hb_inner_layer b) (hb_outer_layer b) (hb_mk_lb b) status (hb_tls_config b).

Definition layer_inner (l : Inner -> Inner) (b : ClientBuilder) : ClientBuilder :=
  set_layers (stack l (hb_inner_layer b)) (hb_outer_layer b) b.
Definition layer_inner_front (l : Inner -> Inner) (b : ClientBuilder) : ClientBuilder :=
  set_layers (stack (hb_inner_layer b) l) (hb_outer_layer b) b.
Definition layer_outer (l : Outer -> Outer) (b : ClientBuilder) : ClientBuilder :=
  set_layers (hb_inner_layer b) (stack l (hb_outer_layer b)) b.
Definition layer_outer_front (l : Outer -> Outer) (b : ClientBuilder) : ClientBuilder :=
  set_layers (hb_inner_layer b) (stack (hb_outer_layer b) l) b.
Definition mk_load_balance (lb : Inner -> Outer) (b : ClientBuilder) : ClientBuilder :=
  mkClientBuilder (hb_http_config b) (hb_client_config b) (hb_pool_config b) (hb_connector b) (hb_timeout b) (hb_user_agent b)
    (hb_host_mode b) (hb_headers b) (hb_inner_layer b) (hb_outer_layer b) lb (hb_status b) (hb_tls_config b).

Definition follow_redirects (url_join : bytes -> bytes -> option bytes) (max_redirects : nat) (b : ClientBuilder) : ClientBuilder :=
  layer_outer_front (follow_redirect_service url_join (fun _ _ => true) max_redirects) b.
Definition follow_redirects_when (url_join : bytes -> bytes -> option bytes) (predicate : Target -> Parts U H -> bool) (max_redirects : nat)
    (b : ClientBuilder) : ClientBuilder :=
  layer_outer_front (follow_redirect_service url_join predicate max_redirects) b.

(** [HeaderName::try_from]. *)
Context (header_name : bytes -> option bytes).

(** [insert_header]. *)
Definition try_insert_header (key value : bytes) (headers : H) : H + ClientError :=
  match header_name key with
  | None => inr (BuilderError (str "invalid HTTP header name"))
  | Some key =>
      match header_value value with
      | None => inr (BuilderError (str "failed to parse header value"))
      | Some value => inl (hm_insert key value headers)
      end
  end.

Definition header (key value : bytes) (b : ClientBuilder) : ClientBuilder :=
  match hb_status b with
  | inr _ => b
  | inl _ =>
      match try_insert_header key value (hb_headers b) with
      | inl headers => set_request (hb_timeout b) (hb_user_agent b) (hb_host_mode b) headers (hb_status b) b
      | inr e => set_request (hb_timeout b) (hb_user_agent b) (hb_host_mode b) (hb_headers b) (inr e) b
      end
  end.
Definition user_agent (val : bytes) (b : ClientBuilder) : ClientBuilder :=
  match hb_status b with
  | inr _ => b
  | inl _ =>
      match header_value val with
      | Some val => set_request (hb_timeout b) (Some val) (hb_host_mode b) (hb_headers b) (hb_status b) b
      | None => set_request (hb_timeout b) (hb_user_agent b) (hb_host_mode b) (hb_headers b)
                  (inr (BuilderError (str "failed to parse header value"))) b
      end
  end.
Definition host_mode (mode : Host) (b : ClientBuilder) : ClientBuilder :=
  set_request (hb_timeout b) (hb_user_agent b) mode (hb_headers b) (hb_status b) b.
Definition set_request_timeout (t : Z) (b : ClientBuilder) : ClientBuilder :=
  set_request (Some t) (hb_user_agent b) (hb_host_mode b) (hb_headers b) (hb_status b) b.

Definition set_tls_config (t : T) (b : ClientBuilder) : ClientBuilder :=
  set_transport (hb_client_config b) (hb_pool_config b) (hb_connector b) (Some t) b.
Definition stat_enable (e : bool) (b : ClientBuilder) : ClientBuilder :=
  set_transport (mkClientTransportConfig e (tc_disable_tls (hb_client_config b))) (hb_pool_config b) (hb_connector b) (hb_tls_config b) b.
Definition disable_tls (d : bool) (b : ClientBuilder) : ClientBuilder :=
  set_transport (mkClientTransportConfig (tc_stat_enable (hb_client_config b)) d) (hb_pool_config b) (hb_connector b) (hb_tls_config b) b.
Definition set_pool_idle_timeout (t : Z) (b : ClientBuilder) : ClientBuilder :=
  set_transport (hb_client_config b) (HttpPool.mkConfig t (HttpPool.cfg_max_idle_per_host (hb_pool_config b))) (hb_connector b) (hb_tls_config b) b.
Definition set_max_idle_per_host (n : Z) (b : ClientBuilder) : ClientBuilder :=
  set_transport (hb_client_config b) (HttpPool.mkConfig (HttpPool.cfg_idle_timeout (hb_pool_config b)) n) (hb_connector b) (hb_tls_config b) b.
Definition set_connector (m : MakeTransport) (b : ClientBuilder) : ClientBuilder :=
  set_transport (hb_client_config b) (hb_pool_config b) m (hb_tls_config b) b.
Definition set_connect_timeout (t : Z) (b : ClientBuilder) : ClientBuilder :=
  set_connector (mkMakeTransport (Some t) (mk_read_timeout (hb_connector b)) (mk_write_timeout (hb_connector b))) b.
Definition set_read_timeout (t : Z) (b : ClientBuilder) : ClientBuilder :=
  set_connector (mkMakeTransport (mk_connect_timeout (hb_connector b)) (Some t) (mk_write_timeout (hb_connector b))) b.
Definition set_write_timeout (t : Z) (b : ClientBuilder) : ClientBuilder :=
  set_connector (mkMakeTransport (mk_connect_timeout (hb_connector b)) (mk_read_timeout (hb_connector b)) (Some t)) b.

(** [Client]. *)
Record Client : Type := mkClient { hc_service : Outer; hc_timeout : option Z; hc_headers : H }.

(** The transport on a connector; the sleep a timeout races with; the default TLS
    connector; [PKG_NAME_WITH_VER]. *)
Context (transport : HC -> ClientTransportConfig -> HttpPool.Config -> HttpMakeConnection T -> Inner).
Context (race : Z -> Outer -> LB * S -> ClientContext -> Request U H -> (LB * S) * ClientContext * option (outcome ClientError (Response H))).
Context (default_tls_connector : T) (pkg_name_with_ver : bytes).

Definition build_without_extra_layers (b : ClientBuilder) : outcome ClientError Client :=
  match hb_status b with
  | inr e => Fail e
  | inl _ =>
      connector ← transport_connector default_tls_connector (hb_client_config b) (hb_tls_config b);
      let transport := transport (hb_http_config b) (hb_client_config b) (hb_pool_config b) connector in
      let service := hb_outer_layer b (hb_mk_lb b (hb_inner_layer b transport)) in
      Done (mkClient service (hb_timeout b) (hb_headers b))
  end.

Definition build (b : ClientBuilder) : outcome ClientError Client :=
  let host_layer := host_service (hb_host_mode b) in
  let ua_layer := user_agent_service (default pkg_name_with_ver (hb_user_agent b)) in
  build_without_extra_layers
    (layer_outer_front (timeout_service race) (layer_outer_front host_layer (layer_outer_front ua_layer b))).

(** [OneShotService::call] of a client. *)
Definition client_call (c : Client) : Outer := fun s cx req =>
  let p := if tls_enabled then update_request_extension (hcx_target cx) (rq_parts req) else rq_parts req in
  let cx := match hcx_timeout cx with
            | None => mkClientContext (hcx_callee cx) (hcx_target cx) (hc_timeout c)
            | Some _ => cx
            end in
  let p := with_headers (hm_extend (hc_headers c) (pt_headers p)) p in
  hc_service c s cx (mkRequest p (rq_body req)).

(** * Requests *)

Record RequestBuilder : Type := mkRequestBuilder {
  rb_inner : Outer; rb_target : Target; rb_version : option Version; rb_request : Request U H; rb_status : unit + ClientError }.

(** [Request::default]. *)
Definition request_default : Request U H :=
  mkRequest (mkParts GET (uri_of_path (str "/")) HTTP_11 hm_empty None) body_empty.

Definition rb_new (inner : Outer) : RequestBuilder := mkRequestBuilder inner TNone None request_default (inl tt).

Definition rb_with_request (r : Request U H) (b : RequestBuilder) : RequestBuilder :=
  mkRequestBuilder (rb_inner b) (rb_target b) (rb_version b) r (rb_status b).
Definition rb_with_status (e : ClientError) (b : RequestBuilder) : RequestBuilder :=
  mkRequestBuilder (rb_inner b) (rb_target b) (rb_version b) (rb_request b) (inr e).
Definition rb_with_target (t : Target) (b : RequestBuilder) : RequestBuilder :=
  mkRequestBuilder (rb_inner b) t (rb_version b) (rb_request b) (rb_status b).
Definition rb_parts (f : Parts U H -> Parts U H) (b : RequestBuilder) : RequestBuilder :=
  rb_with_request (mkRequest (f (rq_parts (rb_request b))) (rq_body (rb_request b))) b.

(** The methods that do nothing after an error. *)
Definition unless_failed (f : RequestBuilder -> outcome ClientError RequestBuilder) (b : RequestBuilder) : outcome ClientError RequestBuilder :=
  match rb_status b with inr _ => Done b | inl _ => f b end.

(** [data], [json], [form] with the conversion's result; [multipart]. *)
Definition rb_data (data : Body + ClientError) : RequestBuilder -> outcome ClientError RequestBuilder := unless_failed (fun b =>
  Done (match data with
        | inl body => rb_with_request (mkRequest (rq_parts (rb_request b)) body) b
        | inr e => rb_with_status e b
        end)).
Definition rb_typed (content_type : bytes) (text : bytes + ClientError) : RequestBuilder -> outcome ClientError RequestBuilder := unless_failed (fun b =>
  Done (match text with
        | inl text =>
            let p := rq_parts (rb_request b) in
            rb_with_request (mkRequest (with_headers (hm_insert CONTENT_TYPE content_type (pt_headers p)) p) (FullBody text)) b
        | inr e => rb_with_status e b
        end)).
Definition rb_json : bytes + ClientError -> RequestBuilder -> outcome ClientError RequestBuilder := rb_typed (str "application/json").
Definition rb_form : bytes + ClientError -> RequestBuilder -> outcome ClientError RequestBuilder := rb_typed (str "application/x-www-form-urlencoded").
Definition rb_multipart (content_type : bytes) (body : Body) : RequestBuilder -> outcome ClientError RequestBuilder := unless_failed (fun b =>
  let p := rq_parts (rb_request b) in
  Done (rb_with_request (mkRequest (with_headers (hm_insert CONTENT_TYPE content_type (pt_headers p)) p) body) b)).

Definition rb_method (m : Method) (b : RequestBuilder) : RequestBuilder := rb_parts (with_method m) b.

(** [uri], given the URI or the error of its conversion. *)
Definition rb_uri (uri : U + ClientError) : RequestBuilder -> outcome ClientError RequestBuilder := unless_failed (fun b =>
  match uri with
  | inr e => Done (rb_with_status e b)
  | inl uri =>
      let rela_uri := uri_of_path (default (str "/") (uri_path_and_query uri)) in
      match uri_host uri with
      | None => Done (rb_parts (with_uri rela_uri) b)
      | Some _ =>
          match from_uri_parts (uri_scheme uri) (uri_host uri) (uri_port uri) with
          | Done t => Done (rb_parts (with_uri rela_uri) (rb_with_target t b))
          | Fail e => Done (rb_with_status e b)
          | Panic => Panic
          | OutOfFuel => OutOfFuel
          end
      end
  end).

(** [set_query], given [Uri::path] and the encoded query; a text that is no URI is
    [unreachable!]. *)
Definition rb_set_query (uri_path : U -> bytes) (query : bytes + ClientError) : RequestBuilder -> outcome ClientError RequestBuilder := unless_failed (fun b =>
  match query with
  | inr e => Done (rb_with_status e b)
  | inl query_str =>
      match uri_parse (uri_path (pt_uri (rq_parts (rb_request b))) ++ str "?" ++ query_str) with
      | Some uri => Done (rb_parts (with_uri uri) b)
      | None => Panic
      end
  end).

Definition rb_set_version (v : Version) (b : RequestBuilder) : RequestBuilder :=
  mkRequestBuilder (rb_inner b) (rb_target b) (Some v) (rb_request b) (rb_status b).
Definition rb_header (key value : bytes) : RequestBuilder -> outcome ClientError RequestBuilder := unless_failed (fun b =>
  Done (match try_insert_header key value (pt_headers (rq_parts (rb_request b))) with
        | inl h => rb_parts (with_headers h) b
        | inr e => rb_with_status e b
        end)).
Definition rb_address (a : Address) (b : RequestBuilder) : RequestBuilder := rb_with_target (from_address a) b.
Definition rb_host (host : bytes) (b : RequestBuilder) : RequestBuilder :=
  rb_with_target (new_host_unchecked HTTP host HTTP_DEFAULT_PORT) b.
Definition rb_set_target (set : Target -> outcome ClientError Target) : RequestBuilder -> outcome ClientError RequestBuilder := unless_failed (fun b =>
  match set (rb_target b) with
  | Done t => Done (rb_with_target t b)
  | Fail e => Done (rb_with_status e b)
  | Panic => Panic
  | OutOfFuel => OutOfFuel
  end).
Definition rb_with_scheme (s : Scheme) : RequestBuilder -> outcome ClientError RequestBuilder := rb_set_target (set_scheme s).
Definition rb_with_port (p : Z) : RequestBuilder -> outcome ClientError RequestBuilder := rb_set_target (set_port p).
Definition rb_layer (l : Outer -> Outer) (b : RequestBuilder) : RequestBuilder :=
  mkRequestBuilder (l (rb_inner b)) (rb_target b) (rb_version b) (rb_request b) (rb_status b).
Definition rb_with_callopt (o : CallOpt) : RequestBuilder -> RequestBuilder := rb_layer (with_callopt_service o).

(** [set_version] and [send]. *)
Definition with_version (v : Version) (p : Parts U H) : Parts U H :=
  mkParts (pt_method p) (pt_uri p) v (pt_headers p) (pt_ext_scheme p).
Definition context_new : ClientContext := mkClientContext (Endpoint.new []) TNone None.

Definition send (http1 : bool) (b : RequestBuilder) (s : LB * S) : (LB * S) * outcome ClientError (Response H) :=
  let ver := match rb_version b with Some v => v | None => if http1 then HTTP_11 else HTTP_2 end in
  let b := rb_parts (with_version ver) b in
  match rb_status b with
  | inr e => (s, Fail e)
  | inl _ =>
      let cx := apply_target (rb_target b) context_new in
      let '(s, _, r) := rb_inner b s cx (rb_request b) in (s, r)
  end.

(** [Client::request]. *)
Definition request (c : Client) (m : Method) (uri : U + ClientError) : outcome ClientError RequestBuilder :=
  rb_uri uri (rb_method m (rb_new (client_call c))).
End Client.
Arguments ClientBuilder : clear implicits.
Arguments Client : clear implicits.
Arguments RequestBuilder : clear implicits.
