(* ===== verification/HttpClientSpec.v ===== *)
(** The HTTP client: a request made for a URI reaches the address its host resolves
    to, with the headers and the timeout of the client; errors of a request
    builder stick; an address once resolved is kept; what the builder's
    connection timeouts do; calls share a pooled connection exactly when the same
    connection would be made for either. *)

From S2P Require Import Prelude Net Context Utf8 Headers Discovery RandomBalance HttpPool HttpTarget GrpcStatus HttpLayers HttpClient.

(** * Name resolution *)

Section Names.
Context {tls : TlsFeature} {iptext : IpText} {U H : Type} {uops : UriOps U} {hmap : HeaderMap H} {S : Type}.
Context `{BinarySearchLaws} (lb_text : LoadBalanceError -> bytes).

Definition resolved (addr : Address) : Random.WeightedInstances := Random.weighted_from [mkInstance addr DNS_WEIGHT ∅].

(** Once the router has an address for a key, it is used, whatever the resolver. *)
Lemma lb_cached resolver draw (inner : Service U H S) router s cx req addr :
  ep_address (hcx_callee cx) = None -> 0 <= draw < DNS_WEIGHT -> router !! from_endpoint (hcx_callee cx) = Some (resolved addr) ->
  default_lb resolver draw lb_text inner (router, s) cx req =
  beside router (inner s (callee_mut (Endpoint.set_address addr) cx) req).
Proof.
  intros Ha Hd Hr. unfold default_lb, lb_service. rewrite Ha. unfold Random.get_picker. cbn [discover_key dns_discover_class]. rewrite Hr.
  cbn [mbind outcome_bind]. unfold resolved. by destruct (Random.next_single (E := LoadBalanceError) addr DNS_WEIGHT draw Hd) as [p ->].
Qed.

Lemma lb_resolves resolver draw (inner : Service U H S) router s cx req ip port :
  ep_address (hcx_callee cx) = None -> 0 <= draw < DNS_WEIGHT -> router !! from_endpoint (hcx_callee cx) = None ->
  ep_service_name (hcx_callee cx) <> [] -> endpoint_port (hcx_callee cx) = Some port ->
  resolve resolver (ep_service_name (hcx_callee cx)) = Some ip ->
  let addr := Ip (socket_addr ip port) in
  default_lb resolver draw lb_text inner (router, s) cx req =
  beside (<[from_endpoint (hcx_callee cx) := resolved addr]> router) (inner s (callee_mut (Endpoint.set_address addr) cx) req).
Proof.
  intros Ha Hd Hr Hn Hp Hi addr. unfold default_lb, lb_service. rewrite Ha. unfold Random.get_picker. cbn [discover_key discover dns_discover_class].
  rewrite Hr. unfold dns_discover. rewrite Ha, Hp. destruct (ep_service_name (hcx_callee cx)) as [|x n]; [done|]. rewrite Hi.
  cbn [map_err mbind outcome_bind]. unfold resolved. destruct (Random.next_single (E := LoadBalanceError) addr DNS_WEIGHT draw Hd) as [p Hnext].
  fold addr. by rewrite Hnext.
Qed.

(** An answer of the name server is kept for good: once a name has been resolved,
    every later call for it, whatever the resolver would answer by then, goes
    to the same address (nothing replaces the entry: the resolver cannot be
    watched). *)
Theorem dns_answer_is_kept resolver draw (inner : Service U H S) router s cx req ip port resolver' draw' s' cx' req' :
  ep_address (hcx_callee cx) = None -> 0 <= draw < DNS_WEIGHT -> router !! from_endpoint (hcx_callee cx) = None ->
  ep_service_name (hcx_callee cx) <> [] -> endpoint_port (hcx_callee cx) = Some port ->
  resolve resolver (ep_service_name (hcx_callee cx)) = Some ip ->
  ep_address (hcx_callee cx') = None -> from_endpoint (hcx_callee cx') = from_endpoint (hcx_callee cx) -> 0 <= draw' < DNS_WEIGHT ->
  let router' := (default_lb resolver draw lb_text inner (router, s) cx req).1.1.1 in
  default_lb resolver' draw' lb_text inner (router', s') cx' req' =
  beside router' (inner s' (callee_mut (Endpoint.set_address (Ip (socket_addr ip port))) cx') req').
Proof.
  intros Ha Hd Hr Hn Hp Hi Ha' Hk Hd' router'.
  assert (router' = <[from_endpoint (hcx_callee cx) := resolved (Ip (socket_addr ip port))]> router) as Hrt.
  { unfold router'. rewrite (lb_resolves _ _ _ _ _ _ _ ip port) by done. unfold beside. by destruct (inner s _ req) as [[? ?] ?]. }
  apply lb_cached; [done|done|]. by rewrite Hrt, Hk, lookup_insert_eq.
Qed.
End Names.

(** * Builders *)

Section Builders.
Context {tls : TlsFeature} {iptext : IpText} {U H : Type} {uops : UriOps U} {hmap : HeaderMap H} {S LB HC T : Type}.
Context (header_name : bytes -> option bytes) (uri_path : U -> bytes).
Abbreviation Outer := (Service U H (LB * S)).
Abbreviation RB := (RequestBuilder U H S LB).

(** The methods of a request builder. *)
Inductive RbOp : Type :=
| OData (d : Body + ClientError) | OJson (t : bytes + ClientError) | OForm (t : bytes + ClientError)
| OMultipart (ct : bytes) (b : Body) | OMethod (m : Method) | OUri (u : U + ClientError) | OSetQuery (q : bytes + ClientError)
| OVersion (v : Version) | OHeader (k v : bytes) | OAddress (a : Address) | OHost (h : bytes)
| OWithScheme (s : Scheme) | OWithPort (p : Z) | OLayer (l : Outer -> Outer) | OCallOpt (o : CallOpt).

Definition rb_op (o : RbOp) (b : RB) : outcome ClientError RB :=
  match o with
  | OData d => rb_data d b
  | OJson t => rb_json t b
  | OForm t => rb_form t b
  | OMultipart ct body => rb_multipart ct body b
  | OMethod m => Done (rb_method m b)
  | OUri u => rb_uri u b
  | OSetQuery q => rb_set_query uri_path q b
  | OVersion v => Done (rb_set_version v b)
  | OHeader k v => rb_header header_name k v b
  | OAddress a => Done (rb_address a b)
  | OHost h => Done (rb_host h b)
  | OWithScheme s => rb_with_scheme s b
  | OWithPort p => rb_with_port p b
  | OLayer l => Done (rb_layer l b)
  | OCallOpt o => Done (rb_with_callopt o b)
  end.

Definition rb_ops (os : list RbOp) (b : RB) : outcome ClientError RB := foldM (fun b o => rb_op o b) os b.

Lemma rb_op_failed o b e : rb_status b = inr e -> exists b', rb_op o b = Done b' /\ rb_status b' = inr e.
Proof.
  intros He. destruct o; cbn [rb_op]; try (by eexists);
    unfold rb_data, rb_json, rb_form, rb_typed, rb_multipart, rb_uri, rb_set_query, rb_header, rb_with_scheme, rb_with_port, rb_set_target, unless_failed;
    rewrite He; by eexists.
Qed.

(** The first error of a request builder decides: whatever is done with it
    afterwards, nothing panics, and [send] returns that error without calling
    the client. *)
Theorem request_errors_stick os (b : RB) e http1 s :
  rb_status b = inr e -> exists b', rb_ops os b = Done b' /\ send http1 b' s = (s, Fail e).
Proof.
  revert b. unfold rb_ops. induction os as [|o os IH]; intros b He; cbn [foldM].
  - exists b. split; [done|]. unfold send, rb_parts, rb_with_request. cbn [rb_status]. by rewrite He.
  - destruct (rb_op_failed o b e He) as (b1 & -> & He1). cbn [mbind outcome_bind]. by apply IH.
Qed.

(** A query that makes the text of the URI longer than the [http] crate takes
    panics instead of being reported. *)
Lemma long_query_panics (b : RB) query :
  (forall t, 65534 < Zlen t -> uri_parse (U := U) t = None) -> rb_status b = inl tt -> 65534 < Zlen query ->
  rb_set_query uri_path (inl query) b = Panic.
Proof.
  intros Hu Hs Hq. unfold rb_set_query, unless_failed. rewrite Hs, Hu; [done|].
  rewrite !Zlen_app. pose proof (Zlen_nonneg (uri_path (pt_uri (rq_parts (rb_request b))))). pose proof (Zlen_nonneg (str "?")). lia.
Qed.

Context (transport : HC -> ClientTransportConfig -> HttpPool.Config -> HttpMakeConnection T -> Service U H S).
Context (race : Z -> Outer -> LB * S -> ClientContext -> Request U H -> (LB * S) * ClientContext * option (outcome ClientError (Response H))).
Context (default_tls_connector : T) (pkg : bytes).
Abbreviation built := (build transport race default_tls_connector pkg).

(** The timeouts for connecting, reading and writing do not reach the transport: a
    client is the same client with and without them. *)
Lemma connection_timeouts_are_lost (b : ClientBuilder U H S LB HC T) t :
  built (set_connect_timeout t b) = built b /\ built (set_read_timeout t b) = built b /\ built (set_write_timeout t b) = built b.
Proof. done. Qed.

(** A client that was told to do without TLS and was given a TLS configuration
    cannot be built. *)
Lemma tls_config_without_tls (b : ClientBuilder U H S LB HC T) t :
  tls_enabled = true -> hb_status b = inl tt -> built (set_tls_config t (disable_tls true b)) = Panic.
Proof. intros Ht Hs. unfold build, build_without_extra_layers. cbn. rewrite Hs. unfold transport_connector. by rewrite Ht. Qed.
End Builders.

(** * A request from its URI to the transport *)

Section Request.
Context {tls : TlsFeature} {iptext : IpText} {U H : Type} {uops : UriOps U} {hmap : HeaderMap H} {S HC T : Type}.
Context {hlaws : HeaderMapLaws H} `{BinarySearchLaws} (lb_text : LoadBalanceError -> bytes).
Abbreviation LB := (gmap DiscoverKey Random.WeightedInstances).
Abbreviation Outer := (Service U H (LB * S)).
Context (transport : HC -> ClientTransportConfig -> HttpPool.Config -> HttpMakeConnection T -> Service U H S).
Context (race : Z -> Outer -> LB * S -> ClientContext -> Request U H -> (LB * S) * ClientContext * option (outcome ClientError (Response H))).
Context (default_tls_connector : T) (pkg : bytes).

Lemma from_uri_parts_host scheme host port rt :
  from_uri_parts scheme host port = Done (Remote rt) -> exists h, gen_host (Remote rt) = Done h.
Proof.
  unfold from_uri_parts. intros Hf. assert (exists d, is_default_port (rt_scheme rt) (rt_port rt) = Done d) as [d Hd].
  { apply bind_done_inv in Hf as ([] & Hc & Hf). destruct host as [host|]; [|done]. apply bind_done_inv in Hf as (p & Hp & Hf).
    assert (rt_scheme rt = default HTTP scheme) as -> by (destruct (parse_ip host); by injection Hf as <-).
    unfold is_default_port, get_default_port, check_scheme in *. destruct (default HTTP scheme); [|destruct tls_enabled|]; try done; by eexists. }
  cbn [gen_host]. unfold host_and_port. rewrite Hd. by eexists.
Qed.

(** The service is back before the sleep. *)
Definition in_time : Prop := forall d svc s cx req, race d svc s cx req = let '(s, cx, r) := svc s cx req in (s, cx, Some r).

Lemma timeout_in_time (svc : Outer) s cx req : in_time -> timeout_service race svc s cx req = svc s cx req.
Proof.
  intros Ht. unfold timeout_service. destruct (hcx_timeout cx) as [d|]; [|done]. rewrite Ht. by destruct (svc s cx req) as [[s' cx'] r].
Qed.

Lemma hm_insert_if_missing k v k' (h : H) :
  hm_get k (if hm_contains k' h then h else hm_insert k' v h) =
  match hm_get k h with Some x => Some x | None => if bool_decide (k = k') then Some v else None end.
Proof.
  unfold hm_contains. destruct (hm_get k' h) as [x|] eqn:E.
  - case_bool_decide; [subst; by rewrite E|by destruct (hm_get k h)].
  - rewrite get_insert. case_bool_decide; [subst; by rewrite E|by destruct (hm_get k h)].
Qed.

(** The client's default headers replace those of the request. *)
Lemma default_headers_override (c : Client U H S LB) s cx req :
  exists cx' req', client_call c s cx req = hc_service c s cx' req' /\
    forall k v, hm_get k (hc_headers c) = Some v -> hm_get k (pt_headers (rq_parts req')) = Some v.
Proof.
  eexists _, _. split; [reflexivity|]. intros k v Hv. cbn [rq_parts]. unfold with_headers. cbn [pt_headers]. by rewrite get_extend, Hv.
Qed.

(** A header that is inserted where it is missing. *)
Definition add_missing (k : bytes) (v : option bytes) (req : Request U H) : Request U H :=
  if has_header k req then req else match v with Some v => insert_header k v req | None => req end.

Lemma add_missing_get k k' v req :
  hm_get k (pt_headers (rq_parts (add_missing k' v req))) =
  match hm_get k (pt_headers (rq_parts req)) with Some x => Some x | None => if bool_decide (k = k') then v else None end.
Proof.
  unfold add_missing, has_header. destruct v as [v|].
  - rewrite <- hm_insert_if_missing. by destruct (hm_contains k' _).
  - destruct (hm_contains k' _); case_bool_decide; by destruct (hm_get k _).
Qed.

Lemma add_missing_same k v req :
  let p := rq_parts (add_missing k v req) in
  pt_method p = pt_method (rq_parts req) /\ pt_uri p = pt_uri (rq_parts req) /\ pt_version p = pt_version (rq_parts req) /\
  rq_body (add_missing k v req) = rq_body req.
Proof. unfold add_missing. destruct (has_header k req), v; done. Qed.

Lemma host_auto (inner : Outer) s cx req h :
  gen_host (hcx_target cx) = Done h -> host_service HostAuto inner s cx req = inner s cx (add_missing HOST h req).
Proof. intros Hh. unfold host_service, add_missing. rewrite Hh. destruct (has_header HOST req); [done|]. by destruct h. Qed.

Lemma user_agent_adds val (inner : Outer) s cx req :
  user_agent_service val inner s cx req = inner s cx (add_missing USER_AGENT (Some val) req).
Proof. unfold user_agent_service, add_missing. by destruct (has_header USER_AGENT req). Qed.

(** What a client built without further outer layers does with a request. *)
Lemma built_client_call (b : ClientBuilder U H S LB HC T) mk resolver draw c s cx req h :
  build transport race default_tls_connector pkg b = Done c ->
  hb_outer_layer b = id -> hb_mk_lb b = default_lb resolver draw lb_text -> hb_host_mode b = HostAuto ->
  transport_connector default_tls_connector (hb_client_config b) (hb_tls_config b) = Done mk ->
  in_time -> hcx_timeout cx = None -> gen_host (hcx_target cx) = Done h ->
  exists ext,
  client_call c s cx req =
  default_lb resolver draw lb_text (hb_inner_layer b (transport (hb_http_config b) (hb_client_config b) (hb_pool_config b) mk)) s
    (mkClientContext (hcx_callee cx) (hcx_target cx) (hb_timeout b))
    (add_missing USER_AGENT (Some (default pkg (hb_user_agent b))) (add_missing HOST h
       (mkRequest (mkParts (pt_method (rq_parts req)) (pt_uri (rq_parts req)) (pt_version (rq_parts req))
                     (hm_extend (hb_headers b) (pt_headers (rq_parts req))) ext) (rq_body req)))).
Proof.
  intros Hb Hol Hlb Hhm Hmk Ht Hto Hh. unfold build, build_without_extra_layers, layer_outer_front, set_layers in Hb.
  cbn [hb_status hb_client_config hb_tls_config hb_http_config hb_pool_config hb_inner_layer hb_outer_layer hb_mk_lb hb_timeout hb_headers] in Hb.
  destruct (hb_status b); [|done]. rewrite Hmk, Hol, Hlb, Hhm in Hb. cbn [mbind outcome_bind] in Hb. injection Hb as <-.
  exists (if tls_enabled then target_scheme (hcx_target cx) else pt_ext_scheme (rq_parts req)).
  unfold client_call. cbn [hc_service hc_timeout hc_headers]. unfold stack. rewrite timeout_in_time by done. rewrite Hto.
  rewrite (host_auto _ _ _ _ h) by exact Hh. rewrite user_agent_adds. unfold id at 1.
  do 3 f_equal. destruct req as [p body], p. unfold with_headers, update_request_extension. destruct tls_enabled; reflexivity.
Qed.

(** C38: A request to a URI with a host name, sent with a client that has no outer layers
    of its own and within its timeout, is passed on to the layers above the
    transport exactly once: with the address of the first IP the name
    resolves to and the URI's port (or the scheme's), the target, the client's
    timeout, the method, the URI's path, HTTP/1.1, the client's headers, and
    otherwise [Host] and [User-Agent]; what they answer is the answer. *)
Theorem http_request_reaches_host (b : ClientBuilder U H S LB HC T) mk resolver draw m u scheme host port ip (router : LB) s :
  let name := ipv6_strip_brackets host in
  let target := new_host_unchecked scheme host port in
  hb_status b = inl tt -> hb_outer_layer b = id -> hb_mk_lb b = default_lb resolver draw lb_text -> hb_host_mode b = HostAuto ->
  transport_connector default_tls_connector (hb_client_config b) (hb_tls_config b) = Done mk -> in_time -> 0 <= draw < DNS_WEIGHT ->
  from_uri_parts (uri_scheme u) (uri_host u) (uri_port u) = Done target -> in_width 16 port -> name <> [] ->
  resolve resolver name = Some ip -> router !! mkDiscoverKey name port = None ->
  exists c rb h cx req,
    build transport race default_tls_connector pkg b = Done c /\ request c m (inl u) = Done rb /\
    send true rb (router, s) =
      (let '(s', _, r) := hb_inner_layer b (transport (hb_http_config b) (hb_client_config b) (hb_pool_config b) mk) s cx req in
       ((<[mkDiscoverKey name port := resolved (Ip (socket_addr ip port))]> router, s'), r)) /\
    ep_address (hcx_callee cx) = Some (Ip (socket_addr ip port)) /\ ep_service_name (hcx_callee cx) = name /\
    hcx_target cx = target /\ hcx_timeout cx = hb_timeout b /\
    pt_method (rq_parts req) = m /\ pt_uri (rq_parts req) = uri_of_path (default (str "/") (uri_path_and_query u)) /\
    pt_version (rq_parts req) = HTTP_11 /\ rq_body req = body_empty /\ gen_host target = Done h /\
    forall k, hm_get k (pt_headers (rq_parts req)) =
      match hm_get k (hb_headers b) with
      | Some v => Some v
      | None => if bool_decide (k = HOST) then h
                else if bool_decide (k = USER_AGENT) then Some (default pkg (hb_user_agent b)) else None
      end.
Proof.
  intros name target Hst Hol Hlb Hhm Hmk Ht Hd Hu Hport Hname Hip Hr.
  assert (exists c, build transport race default_tls_connector pkg b = Done c) as [c Hc].
  { unfold build, build_without_extra_layers, layer_outer_front, set_layers. cbn -[transport_connector]. rewrite Hst, Hmk. by eexists. }
  destruct (from_uri_parts_host _ _ _ _ Hu) as [h Hh].
  assert (exists host', uri_host u = Some host') as [host' Hhost].
  { destruct (uri_host u) as [x|]; [by eexists|]. unfold from_uri_parts in Hu. apply bind_done_inv in Hu as (? & _ & Hu). done. }
  set (rela := uri_of_path (default (str "/") (uri_path_and_query u))).
  set (req0 := mkRequest (mkParts m rela HTTP_11 hm_empty None) body_empty : Request U H).
  set (cx0 := apply_target target context_new).
  destruct (built_client_call b mk resolver draw c (router, s) cx0 req0 h Hc Hol Hlb Hhm Hmk Ht eq_refl Hh) as [ext Hcall].
  set (req := add_missing USER_AGENT _ _) in Hcall. set (cx1 := mkClientContext _ _ _) in Hcall.
  assert (endpoint_port (hcx_callee cx1) = Some port) as Hp.
  { unfold endpoint_port. change (ep_tags (hcx_callee cx1)) with (<[PORT_TAG := put_u16 port]> (∅ : gmap N bytes)).
    rewrite lookup_insert_eq. cbn [fmap option_fmap option_map]. f_equal. unfold put_u16. rewrite be_decode_encode. by apply Z.mod_small. }
  assert (from_endpoint (hcx_callee cx1) = mkDiscoverKey name port) as Hkey.
  { unfold from_endpoint. by rewrite Hp. }
  rewrite (lb_resolves lb_text resolver draw _ router s cx1 req ip port) in Hcall; [|done|done|by rewrite Hkey|done|done|done].
  rewrite Hkey in Hcall. set (cx := callee_mut _ cx1) in Hcall.
  eexists c, (mkRequestBuilder (client_call c) target None (mkRequest (mkParts m rela HTTP_11 hm_empty None) body_empty) (inl tt)), h, cx, req.
  split; [done|]. split.
  { unfold request, rb_uri, unless_failed. cbn [rb_status rb_method rb_parts rb_with_request rb_new]. by rewrite Hhost, <- Hhost, Hu. }
  split.
  { unfold send. cbn [rb_version rb_parts rb_with_request rb_status rb_target rb_inner rb_request]. 
    change (with_version HTTP_11 _) with (rq_parts req0). change (mkRequest (rq_parts req0) _) with req0. fold cx0. rewrite Hcall.
    unfold beside. by destruct (hb_inner_layer b _ s cx req) as [[s' cx'] r]. }
  destruct (add_missing_same USER_AGENT (Some (default pkg (hb_user_agent b))) (add_missing HOST h
    (mkRequest (mkParts m rela HTTP_11 (hm_extend (hb_headers b) hm_empty) ext) body_empty))) as (E1 & E2 & E3 & E4).
  destruct (add_missing_same HOST h (mkRequest (mkParts m rela HTTP_11 (hm_extend (hb_headers b) hm_empty) ext) body_empty)) as (E5 & E6 & E7 & E8).
  split_and!; try done; try (etrans; [eassumption|]; by assumption).
  intros k. unfold req. rewrite !add_missing_get. cbn [rq_parts pt_headers req0]. rewrite get_extend, get_empty.
  destruct (hm_get k (hb_headers b)); [done|]. case_bool_decide as Hk; [subst; by destruct h|done].
Qed.
End Request.

(** * A client *)

Module HttpClientExample.
Import RandomExample.

#[local] Instance tls : TlsFeature := false.
#[local] Instance ips : IpText := {| fmt_ip _ := str "10.0.0.1"; parse_ip _ := None |}.

Record Uri : Type := mkUri { u_scheme : option Scheme; u_host : option bytes; u_port : option Z; u_path : bytes }.
#[local] Instance uris : UriOps Uri :=
  {| uri_scheme := u_scheme; uri_host := u_host; uri_port := u_port; uri_path_and_query u := Some (u_path u);
     uri_to_string := u_path; uri_parse s := None; uri_of_path path := mkUri None None None path;
     uri_from_parts s a path := Some (mkUri (Some s) (Some a) None path); authority_parse := Some |}.

Definition resolver : DnsResolver := mkDnsResolver (fun _ => Some [IpV4 7; IpV4 8]).
Definition lb_text (e : LoadBalanceError) : bytes := [].

(** A transport that answers with the host it is asked for and counts its calls. *)
Definition echo (_ : unit) (_ : ClientTransportConfig) (_ : HttpPool.Config) (_ : HttpMakeConnection unit) : Service Uri Headers nat :=
  fun n cx req => (Datatypes.S n, cx, Done (mkResponse 200 [] (default [] (hm_get HOST (pt_headers (rq_parts req)))))).
Definition race (d : Z) (svc : Service Uri Headers (gmap DiscoverKey Random.WeightedInstances * nat)) s cx req :=
  let '(s, cx, r) := svc s cx req in (s, cx, Some r).

Definition builder : ClientBuilder Uri Headers nat (gmap DiscoverKey Random.WeightedInstances) unit unit :=
  set_request_timeout 5 (builder_new tt (default_lb resolver 3 lb_text)).
Definition u : Uri := mkUri (Some HTTP) (Some (str "a.example")) (Some 8080) (str "/x").

Lemma http_request_reaches_host_witness :
  exists c rb, build echo race tt [] builder = Done c /\ request c POST (inl u) = Done rb /\
    (send true rb (∅, 0%nat)).2 = Done (mkResponse 200 [] (str "a.example:8080")).
Proof.
  destruct (http_request_reaches_host lb_text echo race tt [] builder (Plain MakeTransport_new) resolver 3 POST u HTTP (str "a.example")
    8080 (IpV4 7) ∅ 0%nat) as (c & rb & h & cx & req & Hc & Hr & Hs & _ & _ & _ & _ & _ & _ & _ & _ & Hh & Hk); try done.
  exists c, rb. split; [done|]. split; [done|]. rewrite Hs. cbn [hb_inner_layer builder set_request_timeout set_request builder_new id echo snd].
  rewrite (Hk HOST). cbn. by injection Hh as <-.
Defined.

Definition cx : ClientContext := apply_target (new_host_unchecked HTTP (str "a.example") 80) context_new.

Definition resolver' : DnsResolver := mkDnsResolver (fun _ => None).

Lemma dns_answer_is_kept_witness :
  (default_lb resolver' 0 lb_text (echo tt ClientTransportConfig_new HttpPool.Config_default (Plain MakeTransport_new))
     ((default_lb resolver 3 lb_text (echo tt ClientTransportConfig_new HttpPool.Config_default (Plain MakeTransport_new)) (∅, 0%nat) cx request_default).1.1.1, 1%nat)
     cx request_default).1.2 = callee_mut (Endpoint.set_address (Ip (SocketAddrV4 7 80))) cx.
Proof.
  rewrite (dns_answer_is_kept lb_text resolver 3 _ ∅ 0%nat cx request_default (IpV4 7) 80); done.
Defined.

Lemma request_errors_stick_witness :
  exists b', rb_ops Some u_path [OMethod GET; OWithPort 80; OHost (str "b.example")]
      (rb_with_status NoAddress (rb_new (LB := unit) (fun s cx req => (s, cx, Panic)))) = Done b' /\
    send true b' (tt, 0%nat) = ((tt, 0%nat), Fail NoAddress).
Proof. by apply request_errors_stick. Defined.
End HttpClientExample.

(** * Peers and the keys of the pool *)

Section Peers.
Context `{TlsFeature} {T : Type} (dial : Address -> outcome ClientError unit) (handshake : bytes -> outcome ClientError unit).
Abbreviation connect := (make_connection (T := T) dial handshake).

(** Which scheme a connection that was made belongs to. *)
Lemma connect_made mk p c :
  check_scheme (pi_scheme p) = Done tt -> connect mk p = Done c ->
  (pi_scheme p = HTTP /\ c = MadePlain (pi_address p)) \/
  (pi_scheme p = HTTPS /\ c = MadeTls (pi_address p) (pi_name p)).
Proof.
  unfold make_connection, tls_connect, plain_connect. intros Hs. destruct mk as [|]; cbn [check_connection].
  - case_bool_decide as Hh; [|done]. cbn. destruct (dial _); cbn; try done. intros [= <-]. by left.
  - cbn. destruct (dial _); cbn; try done. case_bool_decide as Hh; [intros [= <-]; by left|].
    destruct (pi_address p) eqn:Ha; [|done]. destruct (handshake _); cbn; try done. intros [= <-]. right. split; [|done].
    unfold check_scheme in Hs. destruct (pi_scheme p); done.
Qed.

(** Calls share a connection of the pool exactly when it is the connection that would be
    made for either: to the same address, and under TLS with the same server
    name or in the clear. *)
Theorem pool_key_fits mk p q c :
  check_scheme (pi_scheme p) = Done tt -> check_scheme (pi_scheme q) = Done tt -> connect mk p = Done c ->
  pool_key p = pool_key q <-> connect mk q = Done c.
Proof.
  intros Hp Hq Hc. pose proof (connect_made mk p c Hp Hc) as Hm. split.
  - unfold pool_key. intros [= Hs Ha Hn]. rewrite <- Hc. destruct p as [sp ap np], q as [sq aq nq]. cbn in *. subst sq aq.
    destruct Hm as [[-> _]|[-> _]].
    + unfold make_connection, tls_connect, plain_connect. destruct mk; cbn; [done|].
      destruct (dial ap); cbn; try done; by rewrite !bool_decide_eq_true_2 by done.
    + unfold check_scheme in Hp. destruct tls_enabled; [|done]. cbn in Hn. by injection Hn as ->.
  - intros Hc2. pose proof (connect_made mk q c Hq Hc2) as Hm2. unfold pool_key.
    destruct Hm as [[-> ->]|[-> ->]], Hm2 as [[-> E]|[-> E]]; try done.
    + injection E as ->. by rewrite (bool_decide_eq_false_2 (HTTP = HTTPS)), andb_false_r by done.
    + by injection E as -> ->.
Qed.

(** HTTPS over an address that is no IP address panics. *)
Lemma https_over_unix_panics mk c u name : dial (Unix u) = Done tt -> connect (Tls mk c) (mkPeerInfo HTTPS (Unix u) name) = Panic.
Proof. intros Hd. unfold make_connection, tls_connect, plain_connect. cbn. by rewrite Hd. Qed.
End Peers.

Module PeerExample.
#[local] Instance tls : TlsFeature := true.
Definition peer (name : bytes) : PeerInfo := mkPeerInfo HTTPS (Ip (SocketAddrV4 1 443)) name.

Lemma pool_key_fits_witness :
  pool_key (peer (str "a.example")) <> pool_key (peer (str "b.example")).
Proof.
  intros Hk. pose proof (proj1 (pool_key_fits (T := unit) (fun _ => Done tt) (fun _ => Done tt) (Tls MakeTransport_new tt) (peer (str "a.example"))
    (peer (str "b.example")) (MadeTls (Ip (SocketAddrV4 1 443)) (str "a.example")) eq_refl eq_refl eq_refl) Hk) as Hc. by vm_compute in Hc.
Defined.
End PeerExample.
