(* ===== verification/HttpRun.v ===== *)
(** The life of an HTTP server (volo-http/src/server/mod.rs): its builder, the accept
    loop with the TLS handshake inside it, the connections' tasks, and [run]'s
    shutdown, which is the Thrift server's ([ThriftRun]); the service that
    hands a request of a connection to the server's service.

    The theorems: the shutdown is bounded and only a signal begins it; while a
    handshake is under way nothing else is accepted. *)

From S2P Require Import Prelude Net Headers ThriftRun HttpTarget HttpRouter HttpServe HttpBody.

(** * The builder *)

Section Builder.
Context {Svc Hook Tls : Type}.

Record Server : Type := mkServer {
  sv_service : Svc; sv_layer : Svc -> Svc; sv_shutdown_hooks : list Hook; sv_tls : bool; sv_tls_config : option Tls }.

Definition server_new (service : Svc) : Server := mkServer service id [] false None.
Definition server_tls_config (c : Tls) (s : Server) : Server :=
  mkServer (sv_service s) (sv_layer s) (sv_shutdown_hooks s) true (Some c).
Definition server_register_hook (h : Hook) (s : Server) : Server :=
  mkServer (sv_service s) (sv_layer s) (register_shutdown_hook h (sv_shutdown_hooks s)) (sv_tls s) (sv_tls_config s).
Definition server_layer (l : Svc -> Svc) (s : Server) : Server :=
  mkServer (sv_service s) (fun x => sv_layer s (l x)) (sv_shutdown_hooks s) (sv_tls s) (sv_tls_config s).
Definition server_layer_front (l : Svc -> Svc) (s : Server) : Server :=
  mkServer (sv_service s) (fun x => l (sv_layer s x)) (sv_shutdown_hooks s) (sv_tls s) (sv_tls_config s).

(** The service [run] serves. *)
Definition served (s : Server) : Svc := sv_layer s (sv_service s).
End Builder.
Arguments Server : clear implicits.

(** * A request of a connection *)

Section HyperService.
Context {U : Type} {suri : ServerUri U} {H : Type} {hmap : HeaderMap H} {BE W E : Type}.
Abbreviation HRoute := (Route (U := U) (S := W) (Rest := H * Body BE) (R := Response (H := H) (BE := BE)) (E := E) (X := CxRest)).

(** [ServerContext::new] with the server's [Config]. *)
Definition server_context_new (peer : Address) (tls : bool) : ServerContext (X := CxRest) :=
  mkServerContext [] (mkCxRest (Some peer) tls None None None).

(** [HyperService::call]: a context of its own for every request. *)
Definition hyper_service_call (inner : HRoute) (error_response : E -> Response (H := H) (BE := BE)) (peer : Address) (tls : bool)
    (w : W) (m : ServerMethod) (u : U) (headers : H) (incoming : DynBody BE) : W * outcome E (Response (H := H) (BE := BE)) :=
  let '(w, _, r) := inner w (server_context_new peer tls) (mkServerRequest m u (headers, from_incoming incoming)) in
  (w, match r with
      | Done resp => Done resp
      | Fail e => Done (error_response e)
      | Panic => Panic
      | OutOfFuel => OutOfFuel
      end).
End HyperService.

(** * Running *)

Section Run.
Context {Hook : Type}.
Abbreviation Run := (Running Hook Empty_set).

(** [hs_tls]: the server has an acceptor; [hs_handshake]: the accept loop awaits the
    handshake of the connection it accepted last. *)
Record HServer : Type := mkHServer { hs_run : Run; hs_tls : bool; hs_handshake : bool }.

Definition hs_start (tls : bool) (hooks : list Hook) : HServer := mkHServer (run_start false hooks) tls false.

(** The rest of a turn of [serve] for a connection: without the peer's address it is
    dropped, else its task is spawned. *)
Definition conn_ready (peer : bool) (r : Run) : option Run :=
  if peer then accepted false r
  else match rn_accept r with AAccept => Some (set_accept ACheck r) | _ => None end.

Definition hs_accepted (tcp peer : bool) (s : HServer) : option HServer :=
  if hs_handshake s then None
  else if hs_tls s && tcp then
    match rn_accept (hs_run s) with AAccept => Some (mkHServer (hs_run s) (hs_tls s) true) | _ => None end
  else r ← conn_ready peer (hs_run s); Some (mkHServer r (hs_tls s) false).

Definition hs_handshaken (ok peer : bool) (s : HServer) : option HServer :=
  if hs_handshake s then r ← conn_ready (ok && peer) (hs_run s); Some (mkHServer r (hs_tls s) false) else None.

(** [accept] answers [Ok(None)] or an error: [continue]. *)
Definition hs_nothing (s : HServer) : option HServer :=
  if hs_handshake s then None
  else match rn_accept (hs_run s) with AAccept => Some (mkHServer (set_accept ACheck (hs_run s)) (hs_tls s) false) | _ => None end.

Inductive HEvent : Type :=
| HLoop | HAccepted (tcp peer : bool) | HHandshaken (ok peer : bool) | HNothing
| HConnStart (i : nat) | HConnEnd (i : nat) | HSignal | HMain.

Definition on_run (f : Run -> option Run) (s : HServer) : option HServer :=
  r ← f (hs_run s); Some (mkHServer r (hs_tls s) (hs_handshake s)).

Definition hs_step (e : HEvent) (s : HServer) : option HServer :=
  match e with
  | HLoop => on_run accept_check s
  | HAccepted tcp peer => hs_accepted tcp peer s
  | HHandshaken ok peer => hs_handshaken ok peer s
  | HNothing => hs_nothing s
  | HConnStart i => on_run (conn_start i) s
  | HConnEnd i => on_run (conn_end i) s
  | HSignal => on_run signal s
  | HMain => on_run main_step s
  end.

Fixpoint hs_all (es : list HEvent) (s : HServer) : option HServer :=
  match es with
  | [] => Some s
  | e :: es => s ← hs_step e s; hs_all es s
  end.

Definition hs_reachable (s : HServer) : Prop := exists tls hooks es, hs_all es (hs_start tls hooks) = Some s.
Definition hs_is_main (e : HEvent) : nat := match e with HMain => 1 | _ => 0 end.

(** A step is one of the Thrift server's, or only turns the accept loop. *)
Lemma hs_step_run e s s' : hs_step e s = Some s' ->
  (exists e', run_step e' (hs_run s) = Some (hs_run s') /\ is_main e' = hs_is_main e) \/
  (hs_is_main e = 0%nat /\ (hs_run s' = hs_run s \/ hs_run s' = set_accept ACheck (hs_run s))).
Proof.
  assert (forall peer r, conn_ready peer (hs_run s) = Some r ->
    (exists e', run_step e' (hs_run s) = Some r /\ is_main e' = 0%nat) \/ r = set_accept ACheck (hs_run s)) as Hc.
  { intros [] r; cbn; [intros Hr; left; by exists (EvAccepted false)|]. destruct (rn_accept _); try done. intros [= <-]. by right. }
  destruct e; cbn [hs_step]; unfold on_run, hs_accepted, hs_handshaken, hs_nothing.
  - destruct (accept_check _) as [r|] eqn:Hr; [|done]. intros [= <-]. left. by exists EvAcceptLoop.
  - destruct (hs_handshake s); [done|]. destruct (hs_tls s && tcp).
    { destruct (rn_accept _); try done. intros [= <-]. right. split; [done|by left]. }
    destruct (conn_ready peer _) as [r|] eqn:Hr; [|done]. intros [= <-]. apply Hc in Hr as [Hr|Hr]; [by left|right; split; [done|by right]].
  - destruct (hs_handshake s); [|done]. destruct (conn_ready _ _) as [r|] eqn:Hr; [|done]. intros [= <-].
    apply Hc in Hr as [Hr|Hr]; [by left|right; split; [done|by right]].
  - destruct (hs_handshake s); [done|]. destruct (rn_accept _); try done. intros [= <-]. right. split; [done|by right].
  - destruct (conn_start i _) as [r|] eqn:Hr; [|done]. intros [= <-]. left. by exists (EvConnStart i).
  - destruct (conn_end i _) as [r|] eqn:Hr; [|done]. intros [= <-]. left. by exists (EvConnEnd i).
  - destruct (signal _) as [r|] eqn:Hr; [|done]. intros [= <-]. left. by exists EvSignal.
  - destruct (main_step _) as [r|] eqn:Hr; [|done]. intros [= <-]. left. by exists EvMain.
Qed.

Lemma turned_inv (r : Run) : run_inv r -> run_inv (set_accept ACheck r).
Proof.
  intros [I1 I2 I3]. split; [done| |done]. unfold accept_inv, set_accept in *. cbn. destruct (rn_exit_flag r); [|done]. split; [apply I2|done].
Qed.

Lemma hs_step_inv e s s' : run_inv (hs_run s) -> hs_step e s = Some s' -> run_inv (hs_run s').
Proof.
  intros I Hs. apply hs_step_run in Hs as [(e' & Hr & _)|[_ [-> | ->]]]; [by apply (run_step_inv e' _ _ I)|done|by apply turned_inv].
Qed.

Lemma hs_all_inv es s s' : run_inv (hs_run s) -> hs_all es s = Some s' -> run_inv (hs_run s').
Proof.
  revert s. induction es as [|e es IH]; cbn; intros s I; [by intros [= <-]|].
  destruct (hs_step e s) as [s1|] eqn:He; [|done]. cbn. apply IH. by apply (hs_step_inv e s).
Qed.

Lemma hs_reachable_inv s : hs_reachable s -> run_inv (hs_run s).
Proof. intros (tls & hooks & es & Hs). apply (hs_all_inv es (hs_start tls hooks)); [apply run_inv_start|exact Hs]. Qed.

Lemma hs_main_steps es s s' :
  rn_main (hs_run s) <> MSelect -> hs_all es s = Some s' ->
  (sum_list_with hs_is_main es + main_left (rn_main (hs_run s')) <= main_left (rn_main (hs_run s)))%nat.
Proof.
  revert s. induction es as [|e es IH]; cbn; intros s Hm; [intros [= <-]; lia|].
  destruct (hs_step e s) as [s1|] eqn:H1; [|done]. cbn. intros Ha. apply hs_step_run in H1 as [(e' & Hr & He)|[He Hr]].
  - assert (e' = EvMain \/ e' <> EvMain) as [->|Hn] by (destruct e'; by auto).
    + pose proof (main_step_left _ _ Hr Hm) as Hl. pose proof (main_step_past _ _ Hr Hm) as Hm1.
      specialize (IH s1 Hm1 Ha). cbn in He. lia.
    + pose proof (other_step_main _ _ _ Hr Hn Hm) as E. rewrite <- E. rewrite <- E in Hm. specialize (IH s1 Hm Ha).
      destruct e'; cbn in He; lia || done.
  - assert (rn_main (hs_run s1) = rn_main (hs_run s)) as E by (by destruct Hr as [-> | ->]). rewrite <- E in *. specialize (IH s1 Hm Ha). lia.
Qed.

(** A handshake is awaited where [accept] was. *)
Lemma handshake_step e s s' :
  hs_handshake s = true -> rn_accept (hs_run s) = AAccept -> (forall ok peer, e <> HHandshaken ok peer) -> hs_step e s = Some s' ->
  hs_handshake s' = true /\ length (rn_conns (hs_run s')) = length (rn_conns (hs_run s)) /\ rn_accept (hs_run s') = rn_accept (hs_run s).
Proof.
  intros Hh Ha He. destruct e; cbn [hs_step]; unfold on_run, hs_accepted, hs_nothing; rewrite ?Hh; try done.
  - unfold accept_check. by rewrite Ha.
  - by destruct (He ok peer).
  - unfold conn_start. destruct (rn_conns (hs_run s) !! i) as [[]|]; try done. intros [= <-]. cbn. by rewrite length_insert.
  - unfold conn_end. destruct (rn_conns (hs_run s) !! i) as [[]|]; try done. intros [= <-]. cbn. by rewrite length_insert.
  - unfold signal. destruct (rn_main (hs_run s)); try done. by intros [= <-].
  - unfold main_step. destruct (rn_main (hs_run s)) as [|[|? ?]| | | |[|?]|?|?]; try done; [destruct (rn_accept (hs_run s)) as [| |[[]|]]; try done|..];
      by intros [= <-].
Qed.

Lemma on_run_handshake f s s' : on_run f s = Some s' -> hs_handshake s' = hs_handshake s.
Proof. unfold on_run. destruct (f (hs_run s)); [|done]. by intros [= <-]. Qed.

Lemma handshake_accepting s : hs_reachable s -> hs_handshake s = true -> rn_accept (hs_run s) = AAccept.
Proof.
  intros (tls & hooks & es & Hs). assert (hs_handshake (hs_start tls hooks) = true -> rn_accept (hs_run (hs_start tls hooks)) = AAccept) as H0 by done.
  revert Hs H0. generalize (hs_start tls hooks). induction es as [|e es IH]; cbn; intros s0; [by intros [= <-]|].
  destruct (hs_step e s0) as [s1|] eqn:H1; [|done]. cbn. intros Hs H0. apply (IH s1); [done|]. clear IH Hs.
  destruct (hs_handshake s0) eqn:Hh.
  - assert ((exists ok peer, e = HHandshaken ok peer) \/ forall ok peer, e <> HHandshaken ok peer) as [(ok & peer & ->)|Hn]
      by (destruct e; eauto).
    + cbn in H1. unfold hs_handshaken in H1. rewrite Hh in H1. destruct (conn_ready _ _); [|done]. by injection H1 as <-.
    + destruct (handshake_step e s0 s1 Hh (H0 eq_refl)) as (_ & _ & ->); [done..|by intros; apply H0].
  - destruct e; cbn [hs_step] in H1; try (by apply on_run_handshake in H1 as ->; rewrite Hh).
    + unfold hs_accepted in H1. rewrite Hh in H1. destruct (hs_tls s0 && tcp).
      * destruct (rn_accept (hs_run s0)) eqn:Ha; try done. by injection H1 as <-.
      * destruct (conn_ready _ _); [|done]. by injection H1 as <-.
    + unfold hs_handshaken in H1. by rewrite Hh in H1.
    + unfold hs_nothing in H1. rewrite Hh in H1. destruct (rn_accept (hs_run s0)); try done. by injection H1 as <-.
Qed.

(** Once a signal came, an HTTP server's [run] is never stuck and takes at most 61
    steps more than it has hooks left, whatever its connections and
    handshakes do; it sleeps for at most 30 seconds, calls every hook once in
    the order of registration, and returns early only when no connection is
    being served; at most one connection is accepted after the flag is set. *)
Theorem http_shutdown_is_bounded s :
  hs_reachable s -> rn_main (hs_run s) <> MSelect ->
  (rn_slept (hs_run s) <= 30)%nat /\ (rn_late (hs_run s) <= 1)%nat /\
  ((forall r, rn_main (hs_run s) <> MReturned r) -> is_Some (hs_step HMain s)) /\
  (forall es s', hs_all es s = Some s' -> (sum_list_with hs_is_main es <= length (rn_hooks (hs_run s)) + 61)%nat) /\
  (forall s', hs_step HMain s = Some s' -> rn_main (hs_run s') = MReturned None ->
     rn_called (hs_run s) = rn_hooks (hs_run s) /\ (serving (hs_run s) = 0%nat \/ (28 <= rn_slept (hs_run s))%nat)).
Proof.
  intros I%hs_reachable_inv Hm. split_and!.
  - by apply run_inv_slept.
  - pose proof (ri_accept _ I) as Ha. unfold accept_inv in Ha. destruct (rn_exit_flag _); lia.
  - intros Hr. cbn. unfold on_run. destruct (main_step_enabled _ Hm Hr) as [r ->]. by eexists.
  - intros es s' H. apply hs_main_steps in H; [|done]. pose proof (run_inv_left _ I). lia.
  - intros s' Hs. cbn in Hs. unfold on_run in Hs. destruct (main_step _) as [r|] eqn:Hr; [|done]. injection Hs as <-. by apply run_inv_returns.
Qed.

(** An incoming without connections makes the accept loop turn for ever: two steps
    lead back to the state before, and only the flag ends the loop. *)
Lemma closed_incoming_spins s :
  hs_handshake s = false -> rn_accept (hs_run s) = AAccept -> rn_exit_flag (hs_run s) = false -> hs_all [HNothing; HLoop] s = Some s.
Proof.
  destruct s as [[mx hooks acc conns cnt fl mk nt main called slept late] tls hk]. cbn. intros -> -> ->. done.
Qed.

(** While the accept loop awaits a handshake it does nothing else: whatever happens,
    as long as the handshake is not over no other connection is accepted and
    no task is spawned, and the loop does not see the flag. *)
Theorem handshake_blocks_accepting es s s' :
  hs_reachable s -> hs_handshake s = true -> Forall (fun e => forall ok peer, e <> HHandshaken ok peer) es -> hs_all es s = Some s' ->
  hs_handshake s' = true /\ length (rn_conns (hs_run s')) = length (rn_conns (hs_run s)) /\ rn_accept (hs_run s') = rn_accept (hs_run s).
Proof.
  intros Hr Hh Hf. assert (rn_accept (hs_run s) = AAccept) as Ha by (by apply (handshake_accepting s)). clear Hr.
  revert s Hh Ha. induction Hf as [|e es He Hf IH]; cbn; intros s Hh Ha; [by intros [= <-]|].
  destruct (hs_step e s) as [s1|] eqn:H1; [|done]. cbn. intros Hs.
  destruct (handshake_step e s s1 Hh Ha He H1) as (E1 & E2 & E3). destruct (IH s1 E1 ltac:(by rewrite E3)) as (E4 & E5 & E6); [done|].
  split_and!; [done|lia|by rewrite E6].
Qed.
End Run.

Module HttpRunExample.
Definition hooks : list nat := [1; 2]%nat.
Definition after (es : list HEvent) : HServer := default (hs_start true hooks) (hs_all es (hs_start true hooks)).

Lemma http_after_reachable es : is_Some (hs_all es (hs_start true hooks)) -> hs_reachable (after es).
Proof. intros [s Hs]. exists true, hooks, es. unfold after. by rewrite Hs. Qed.

(** A connection is served, another one shakes hands, the signal comes. *)
Definition ev : list HEvent :=
  [HLoop; HAccepted true true; HHandshaken true true; HConnStart 0; HLoop; HAccepted true true; HSignal; HMain; HMain; HMain].

Lemma http_shutdown_is_bounded_witness :
  (rn_slept (hs_run (after ev)) <= 30)%nat /\ is_Some (hs_step HMain (after ev)).
Proof.
  destruct (http_shutdown_is_bounded (after ev)) as (H1 & _ & H3 & _).
  - apply http_after_reachable. vm_compute. by eexists.
  - by vm_compute.
  - split; [exact H1|]. apply H3. intros r. by vm_compute.
Defined.

Lemma handshake_blocks_accepting_witness :
  hs_handshake (after (ev ++ [HMain; HMain])) = true /\ length (rn_conns (hs_run (after (ev ++ [HMain; HMain])))) = 1%nat.
Proof.
  destruct (handshake_blocks_accepting [HMain; HMain] (after ev) (after (ev ++ [HMain; HMain]))) as (H1 & H2 & _).
  - apply http_after_reachable. vm_compute. by eexists.
  - by vm_compute.
  - by repeat constructor.
  - by vm_compute.
  - split; [exact H1|]. rewrite H2. by vm_compute.
Defined.
End HttpRunExample.
